(** * Verification of the asynchronous copy-and-sort pipeline

    Shallow embedding of [task1_copy_sort.py]: the lower case of [str],
    the path arithmetic of [pathlib], the SHA-256 digest of [hashlib], a
    finite-map file system,
    the worker [copy_file_task] as a coroutine that yields at every
    [await], and the dispatcher [main_async] with its
    [asyncio.Semaphore]. *)

From Stdlib Require Import ZArith NArith Ascii String List Lia Bool.
From Stdlib Require Import Init.Byte.
From stdpp Require Import base option list strings gmap.

Open Scope string_scope.
Open Scope list_scope.

(** ** Unicode: code points, UTF-8 and the case tables

    A Python [str] is a sequence of code points.  A file name is bytes;
    where the file system encoding is UTF-8, Python decodes it as UTF-8
    with the [surrogateescape] handler (PEP 383) and encodes it in the
    same way when it reaches the file system again.  [str.lower()] works
    on the code points. *)

Module Unicode.
Open Scope N_scope.

(** A continuation byte, [0x80 .. 0xBF]. *)
Definition continuation (b : N) : bool := (128 <=? b) && (b <=? 191).

(** The second byte of a three-byte and of a four-byte sequence: no
    overlong form, no surrogate, nothing above U+10FFFF. *)
Definition second_of_three (b0 b1 : N) : bool :=
  if b0 =? 224 then (160 <=? b1) && (b1 <=? 191)
  else if b0 =? 237 then (128 <=? b1) && (b1 <=? 159)
  else continuation b1.

Definition second_of_four (b0 b1 : N) : bool :=
  if b0 =? 240 then (144 <=? b1) && (b1 <=? 191)
  else if b0 =? 244 then (128 <=? b1) && (b1 <=? 143)
  else continuation b1.

(** The code point of the well-formed sequence the bytes start with, and
    the bytes after it. *)
Definition first_code_point (bs : list N) : option (N * list N) :=
  match bs with
  | [] => None
  | b0 :: r0 =>
      if b0 <? 128 then Some (b0, r0) else
      match r0 with
      | [] => None
      | b1 :: r1 =>
          if (194 <=? b0) && (b0 <=? 223) then
            if continuation b1 then Some ((b0 - 192) * 64 + (b1 - 128), r1) else None
          else
          match r1 with
          | [] => None
          | b2 :: r2 =>
              if (224 <=? b0) && (b0 <=? 239) then
                if second_of_three b0 b1 && continuation b2
                then Some ((b0 - 224) * 4096 + (b1 - 128) * 64 + (b2 - 128), r2)
                else None
              else
              match r2 with
              | [] => None
              | b3 :: r3 =>
                  if (240 <=? b0) && (b0 <=? 244) && second_of_four b0 b1
                     && continuation b2 && continuation b3
                  then Some ((b0 - 240) * 262144 + (b1 - 128) * 4096
                             + (b2 - 128) * 64 + (b3 - 128), r3)
                  else None
              end
          end
      end
  end.

(** [bytes.decode("utf-8", "surrogateescape")]: a byte that starts no
    well-formed sequence becomes the surrogate [0xDC00 + byte].  The
    counter bounds the number of code points. *)
Fixpoint decode_from (n : nat) (bs : list N) : list N :=
  match n, bs with
  | S n', b0 :: rest =>
      match first_code_point bs with
      | Some (c, rest') => c :: decode_from n' rest'
      | None => (56320 + b0) :: decode_from n' rest
      end
  | _, _ => []
  end.

Definition decode (bs : list N) : list N := decode_from (length bs) bs.

(** [str.encode("utf-8", "surrogateescape")] of one code point. *)
Definition encode_code_point (c : N) : list N :=
  if c <? 128 then [c]
  else if (56448 <=? c) && (c <=? 56575) then [c - 56320]
  else if c <? 2048 then [192 + c / 64; 128 + c mod 64]
  else if c <? 65536 then [224 + c / 4096; 128 + (c / 64) mod 64; 128 + c mod 64]
  else [240 + c / 262144; 128 + (c / 4096) mod 64; 128 + (c / 64) mod 64; 128 + c mod 64].

Definition encode (cs : list N) : list N := List.flat_map encode_code_point cs.

(** Four bytes hold the code points below [2^21]. *)
Definition code_point_bound : N := 2097152.

(** The properties Cased and Case_Ignorable and the simple lower-case
    mapping of the Unicode Character Database, version 14.0 (the
    [unicodedata.unidata_version] of CPython 3.11), as ranges of code
    points. *)
Definition cased_ranges : list (N * N) :=
  [
    (65, 90); (97, 122); (170, 170); (181, 181); (186, 186); (192, 214);
    (216, 246); (248, 442); (444, 447); (452, 659); (661, 696); (704, 705);
    (736, 740); (837, 837); (880, 883); (886, 887); (890, 893); (895, 895);
    (902, 902); (904, 906); (908, 908); (910, 929); (931, 1013); (1015, 1153);
    (1162, 1327); (1329, 1366); (1376, 1416); (4256, 4293); (4295, 4295); (4301, 4301);
    (4304, 4346); (4349, 4351); (5024, 5109); (5112, 5117); (7296, 7304); (7312, 7354);
    (7357, 7359); (7424, 7615); (7680, 7957); (7960, 7965); (7968, 8005); (8008, 8013);
    (8016, 8023); (8025, 8025); (8027, 8027); (8029, 8029); (8031, 8061); (8064, 8116);
    (8118, 8124); (8126, 8126); (8130, 8132); (8134, 8140); (8144, 8147); (8150, 8155);
    (8160, 8172); (8178, 8180); (8182, 8188); (8305, 8305); (8319, 8319); (8336, 8348);
    (8450, 8450); (8455, 8455); (8458, 8467); (8469, 8469); (8473, 8477); (8484, 8484);
    (8486, 8486); (8488, 8488); (8490, 8493); (8495, 8500); (8505, 8505); (8508, 8511);
    (8517, 8521); (8526, 8526); (8544, 8575); (8579, 8580); (9398, 9449); (11264, 11492);
    (11499, 11502); (11506, 11507); (11520, 11557); (11559, 11559); (11565, 11565); (42560, 42605);
    (42624, 42653); (42786, 42887); (42891, 42894); (42896, 42954); (42960, 42961); (42963, 42963);
    (42965, 42969); (42997, 42998); (43000, 43002); (43824, 43866); (43868, 43880); (43888, 43967);
    (64256, 64262); (64275, 64279); (65313, 65338); (65345, 65370); (66560, 66639); (66736, 66771);
    (66776, 66811); (66928, 66938); (66940, 66954); (66956, 66962); (66964, 66965); (66967, 66977);
    (66979, 66993); (66995, 67001); (67003, 67004); (67456, 67456); (67459, 67461); (67463, 67504);
    (67506, 67514); (68736, 68786); (68800, 68850); (71840, 71903); (93760, 93823); (119808, 119892);
    (119894, 119964); (119966, 119967); (119970, 119970); (119973, 119974); (119977, 119980); (119982, 119993);
    (119995, 119995); (119997, 120003); (120005, 120069); (120071, 120074); (120077, 120084); (120086, 120092);
    (120094, 120121); (120123, 120126); (120128, 120132); (120134, 120134); (120138, 120144); (120146, 120485);
    (120488, 120512); (120514, 120538); (120540, 120570); (120572, 120596); (120598, 120628); (120630, 120654);
    (120656, 120686); (120688, 120712); (120714, 120744); (120746, 120770); (120772, 120779); (122624, 122633);
    (122635, 122654); (125184, 125251); (127280, 127305); (127312, 127337); (127344, 127369) ].

Definition case_ignorable_ranges : list (N * N) :=
  [
    (39, 39); (46, 46); (58, 58); (94, 94); (96, 96); (168, 168);
    (173, 173); (175, 175); (180, 180); (183, 184); (688, 879); (884, 885);
    (890, 890); (900, 901); (903, 903); (1155, 1161); (1369, 1369); (1375, 1375);
    (1425, 1469); (1471, 1471); (1473, 1474); (1476, 1477); (1479, 1479); (1524, 1524);
    (1536, 1541); (1552, 1562); (1564, 1564); (1600, 1600); (1611, 1631); (1648, 1648);
    (1750, 1757); (1759, 1768); (1770, 1773); (1807, 1807); (1809, 1809); (1840, 1866);
    (1958, 1968); (2027, 2037); (2042, 2042); (2045, 2045); (2070, 2093); (2137, 2139);
    (2184, 2184); (2192, 2193); (2200, 2207); (2249, 2306); (2362, 2362); (2364, 2364);
    (2369, 2376); (2381, 2381); (2385, 2391); (2402, 2403); (2417, 2417); (2433, 2433);
    (2492, 2492); (2497, 2500); (2509, 2509); (2530, 2531); (2558, 2558); (2561, 2562);
    (2620, 2620); (2625, 2626); (2631, 2632); (2635, 2637); (2641, 2641); (2672, 2673);
    (2677, 2677); (2689, 2690); (2748, 2748); (2753, 2757); (2759, 2760); (2765, 2765);
    (2786, 2787); (2810, 2815); (2817, 2817); (2876, 2876); (2879, 2879); (2881, 2884);
    (2893, 2893); (2901, 2902); (2914, 2915); (2946, 2946); (3008, 3008); (3021, 3021);
    (3072, 3072); (3076, 3076); (3132, 3132); (3134, 3136); (3142, 3144); (3146, 3149);
    (3157, 3158); (3170, 3171); (3201, 3201); (3260, 3260); (3263, 3263); (3270, 3270);
    (3276, 3277); (3298, 3299); (3328, 3329); (3387, 3388); (3393, 3396); (3405, 3405);
    (3426, 3427); (3457, 3457); (3530, 3530); (3538, 3540); (3542, 3542); (3633, 3633);
    (3636, 3642); (3654, 3662); (3761, 3761); (3764, 3772); (3782, 3782); (3784, 3789);
    (3864, 3865); (3893, 3893); (3895, 3895); (3897, 3897); (3953, 3966); (3968, 3972);
    (3974, 3975); (3981, 3991); (3993, 4028); (4038, 4038); (4141, 4144); (4146, 4151);
    (4153, 4154); (4157, 4158); (4184, 4185); (4190, 4192); (4209, 4212); (4226, 4226);
    (4229, 4230); (4237, 4237); (4253, 4253); (4348, 4348); (4957, 4959); (5906, 5908);
    (5938, 5939); (5970, 5971); (6002, 6003); (6068, 6069); (6071, 6077); (6086, 6086);
    (6089, 6099); (6103, 6103); (6109, 6109); (6155, 6159); (6211, 6211); (6277, 6278);
    (6313, 6313); (6432, 6434); (6439, 6440); (6450, 6450); (6457, 6459); (6679, 6680);
    (6683, 6683); (6742, 6742); (6744, 6750); (6752, 6752); (6754, 6754); (6757, 6764);
    (6771, 6780); (6783, 6783); (6823, 6823); (6832, 6862); (6912, 6915); (6964, 6964);
    (6966, 6970); (6972, 6972); (6978, 6978); (7019, 7027); (7040, 7041); (7074, 7077);
    (7080, 7081); (7083, 7085); (7142, 7142); (7144, 7145); (7149, 7149); (7151, 7153);
    (7212, 7219); (7222, 7223); (7288, 7293); (7376, 7378); (7380, 7392); (7394, 7400);
    (7405, 7405); (7412, 7412); (7416, 7417); (7468, 7530); (7544, 7544); (7579, 7679);
    (8125, 8125); (8127, 8129); (8141, 8143); (8157, 8159); (8173, 8175); (8189, 8190);
    (8203, 8207); (8216, 8217); (8228, 8228); (8231, 8231); (8234, 8238); (8288, 8292);
    (8294, 8303); (8305, 8305); (8319, 8319); (8336, 8348); (8400, 8432); (11388, 11389);
    (11503, 11505); (11631, 11631); (11647, 11647); (11744, 11775); (11823, 11823); (12293, 12293);
    (12330, 12333); (12337, 12341); (12347, 12347); (12441, 12446); (12540, 12542); (40981, 40981);
    (42232, 42237); (42508, 42508); (42607, 42610); (42612, 42621); (42623, 42623); (42652, 42655);
    (42736, 42737); (42752, 42785); (42864, 42864); (42888, 42890); (42994, 42996); (43000, 43001);
    (43010, 43010); (43014, 43014); (43019, 43019); (43045, 43046); (43052, 43052); (43204, 43205);
    (43232, 43249); (43263, 43263); (43302, 43309); (43335, 43345); (43392, 43394); (43443, 43443);
    (43446, 43449); (43452, 43453); (43471, 43471); (43493, 43494); (43561, 43566); (43569, 43570);
    (43573, 43574); (43587, 43587); (43596, 43596); (43632, 43632); (43644, 43644); (43696, 43696);
    (43698, 43700); (43703, 43704); (43710, 43711); (43713, 43713); (43741, 43741); (43756, 43757);
    (43763, 43764); (43766, 43766); (43867, 43871); (43881, 43883); (44005, 44005); (44008, 44008);
    (44013, 44013); (64286, 64286); (64434, 64450); (65024, 65039); (65043, 65043); (65056, 65071);
    (65106, 65106); (65109, 65109); (65279, 65279); (65287, 65287); (65294, 65294); (65306, 65306);
    (65342, 65342); (65344, 65344); (65392, 65392); (65438, 65439); (65507, 65507); (65529, 65531);
    (66045, 66045); (66272, 66272); (66422, 66426); (67456, 67461); (67463, 67504); (67506, 67514);
    (68097, 68099); (68101, 68102); (68108, 68111); (68152, 68154); (68159, 68159); (68325, 68326);
    (68900, 68903); (69291, 69292); (69446, 69456); (69506, 69509); (69633, 69633); (69688, 69702);
    (69744, 69744); (69747, 69748); (69759, 69761); (69811, 69814); (69817, 69818); (69821, 69821);
    (69826, 69826); (69837, 69837); (69888, 69890); (69927, 69931); (69933, 69940); (70003, 70003);
    (70016, 70017); (70070, 70078); (70089, 70092); (70095, 70095); (70191, 70193); (70196, 70196);
    (70198, 70199); (70206, 70206); (70367, 70367); (70371, 70378); (70400, 70401); (70459, 70460);
    (70464, 70464); (70502, 70508); (70512, 70516); (70712, 70719); (70722, 70724); (70726, 70726);
    (70750, 70750); (70835, 70840); (70842, 70842); (70847, 70848); (70850, 70851); (71090, 71093);
    (71100, 71101); (71103, 71104); (71132, 71133); (71219, 71226); (71229, 71229); (71231, 71232);
    (71339, 71339); (71341, 71341); (71344, 71349); (71351, 71351); (71453, 71455); (71458, 71461);
    (71463, 71467); (71727, 71735); (71737, 71738); (71995, 71996); (71998, 71998); (72003, 72003);
    (72148, 72151); (72154, 72155); (72160, 72160); (72193, 72202); (72243, 72248); (72251, 72254);
    (72263, 72263); (72273, 72278); (72281, 72283); (72330, 72342); (72344, 72345); (72752, 72758);
    (72760, 72765); (72767, 72767); (72850, 72871); (72874, 72880); (72882, 72883); (72885, 72886);
    (73009, 73014); (73018, 73018); (73020, 73021); (73023, 73029); (73031, 73031); (73104, 73105);
    (73109, 73109); (73111, 73111); (73459, 73460); (78896, 78904); (92912, 92916); (92976, 92982);
    (92992, 92995); (94031, 94031); (94095, 94111); (94176, 94177); (94179, 94180); (110576, 110579);
    (110581, 110587); (110589, 110590); (113821, 113822); (113824, 113827); (118528, 118573); (118576, 118598);
    (119143, 119145); (119155, 119170); (119173, 119179); (119210, 119213); (119362, 119364); (121344, 121398);
    (121403, 121452); (121461, 121461); (121476, 121476); (121499, 121503); (121505, 121519); (122880, 122886);
    (122888, 122904); (122907, 122913); (122915, 122916); (122918, 122922); (123184, 123197); (123566, 123566);
    (123628, 123631); (125136, 125142); (125252, 125259); (127995, 127999); (917505, 917505); (917536, 917631);
    (917760, 917999) ].

Definition lower_ranges : list (N * N * N * N) :=
  [
    (65, 90, 1, 97); (192, 214, 1, 224); (216, 222, 1, 248); (256, 302, 2, 257);
    (306, 310, 2, 307); (313, 327, 2, 314); (330, 374, 2, 331); (376, 376, 1, 255);
    (377, 381, 2, 378); (385, 385, 1, 595); (386, 388, 2, 387); (390, 390, 1, 596);
    (391, 391, 1, 392); (393, 394, 1, 598); (395, 395, 1, 396); (398, 398, 1, 477);
    (399, 399, 1, 601); (400, 400, 1, 603); (401, 401, 1, 402); (403, 403, 1, 608);
    (404, 404, 1, 611); (406, 406, 1, 617); (407, 407, 1, 616); (408, 408, 1, 409);
    (412, 412, 1, 623); (413, 413, 1, 626); (415, 415, 1, 629); (416, 420, 2, 417);
    (422, 422, 1, 640); (423, 423, 1, 424); (425, 425, 1, 643); (428, 428, 1, 429);
    (430, 430, 1, 648); (431, 431, 1, 432); (433, 434, 1, 650); (435, 437, 2, 436);
    (439, 439, 1, 658); (440, 440, 1, 441); (444, 444, 1, 445); (452, 452, 1, 454);
    (453, 453, 1, 454); (455, 455, 1, 457); (456, 456, 1, 457); (458, 458, 1, 460);
    (459, 475, 2, 460); (478, 494, 2, 479); (497, 497, 1, 499); (498, 500, 2, 499);
    (502, 502, 1, 405); (503, 503, 1, 447); (504, 542, 2, 505); (544, 544, 1, 414);
    (546, 562, 2, 547); (570, 570, 1, 11365); (571, 571, 1, 572); (573, 573, 1, 410);
    (574, 574, 1, 11366); (577, 577, 1, 578); (579, 579, 1, 384); (580, 580, 1, 649);
    (581, 581, 1, 652); (582, 590, 2, 583); (880, 882, 2, 881); (886, 886, 1, 887);
    (895, 895, 1, 1011); (902, 902, 1, 940); (904, 906, 1, 941); (908, 908, 1, 972);
    (910, 911, 1, 973); (913, 929, 1, 945); (932, 939, 1, 964); (975, 975, 1, 983);
    (984, 1006, 2, 985); (1012, 1012, 1, 952); (1015, 1015, 1, 1016); (1017, 1017, 1, 1010);
    (1018, 1018, 1, 1019); (1021, 1023, 1, 891); (1024, 1039, 1, 1104); (1040, 1071, 1, 1072);
    (1120, 1152, 2, 1121); (1162, 1214, 2, 1163); (1216, 1216, 1, 1231); (1217, 1229, 2, 1218);
    (1232, 1326, 2, 1233); (1329, 1366, 1, 1377); (4256, 4293, 1, 11520); (4295, 4295, 1, 11559);
    (4301, 4301, 1, 11565); (5024, 5103, 1, 43888); (5104, 5109, 1, 5112); (7312, 7354, 1, 4304);
    (7357, 7359, 1, 4349); (7680, 7828, 2, 7681); (7838, 7838, 1, 223); (7840, 7934, 2, 7841);
    (7944, 7951, 1, 7936); (7960, 7965, 1, 7952); (7976, 7983, 1, 7968); (7992, 7999, 1, 7984);
    (8008, 8013, 1, 8000); (8025, 8031, 2, 8017); (8040, 8047, 1, 8032); (8072, 8079, 1, 8064);
    (8088, 8095, 1, 8080); (8104, 8111, 1, 8096); (8120, 8121, 1, 8112); (8122, 8123, 1, 8048);
    (8124, 8124, 1, 8115); (8136, 8139, 1, 8050); (8140, 8140, 1, 8131); (8152, 8153, 1, 8144);
    (8154, 8155, 1, 8054); (8168, 8169, 1, 8160); (8170, 8171, 1, 8058); (8172, 8172, 1, 8165);
    (8184, 8185, 1, 8056); (8186, 8187, 1, 8060); (8188, 8188, 1, 8179); (8486, 8486, 1, 969);
    (8490, 8490, 1, 107); (8491, 8491, 1, 229); (8498, 8498, 1, 8526); (8544, 8559, 1, 8560);
    (8579, 8579, 1, 8580); (9398, 9423, 1, 9424); (11264, 11311, 1, 11312); (11360, 11360, 1, 11361);
    (11362, 11362, 1, 619); (11363, 11363, 1, 7549); (11364, 11364, 1, 637); (11367, 11371, 2, 11368);
    (11373, 11373, 1, 593); (11374, 11374, 1, 625); (11375, 11375, 1, 592); (11376, 11376, 1, 594);
    (11378, 11378, 1, 11379); (11381, 11381, 1, 11382); (11390, 11391, 1, 575); (11392, 11490, 2, 11393);
    (11499, 11501, 2, 11500); (11506, 11506, 1, 11507); (42560, 42604, 2, 42561); (42624, 42650, 2, 42625);
    (42786, 42798, 2, 42787); (42802, 42862, 2, 42803); (42873, 42875, 2, 42874); (42877, 42877, 1, 7545);
    (42878, 42886, 2, 42879); (42891, 42891, 1, 42892); (42893, 42893, 1, 613); (42896, 42898, 2, 42897);
    (42902, 42920, 2, 42903); (42922, 42922, 1, 614); (42923, 42923, 1, 604); (42924, 42924, 1, 609);
    (42925, 42925, 1, 620); (42926, 42926, 1, 618); (42928, 42928, 1, 670); (42929, 42929, 1, 647);
    (42930, 42930, 1, 669); (42931, 42931, 1, 43859); (42932, 42946, 2, 42933); (42948, 42948, 1, 42900);
    (42949, 42949, 1, 642); (42950, 42950, 1, 7566); (42951, 42953, 2, 42952); (42960, 42960, 1, 42961);
    (42966, 42968, 2, 42967); (42997, 42997, 1, 42998); (65313, 65338, 1, 65345); (66560, 66599, 1, 66600);
    (66736, 66771, 1, 66776); (66928, 66938, 1, 66967); (66940, 66954, 1, 66979); (66956, 66962, 1, 66995);
    (66964, 66965, 1, 67003); (68736, 68786, 1, 68800); (71840, 71871, 1, 71872); (93760, 93791, 1, 93792);
    (125184, 125217, 1, 125218) ].

Definition in_ranges (ranges : list (N * N)) (c : N) : bool :=
  List.existsb (fun r => (fst r <=? c) && (c <=? snd r)) ranges.

Definition is_cased (c : N) : bool := in_ranges cased_ranges c.
Definition is_case_ignorable (c : N) : bool := in_ranges case_ignorable_ranges c.

(** A range [(first, last, step, image)]: the code points [first],
    [first + step], ... up to [last] map to [image], [image + step], ... *)
Definition to_lower (c : N) : N :=
  match List.find (fun r => let '(a, b, s, _) := r in
                            (a <=? c) && (c <=? b) && ((c - a) mod s =? 0)) lower_ranges with
  | Some (a, _, _, t) => t + (c - a)
  | None => c
  end.

(** The full mapping: U+0130 is the one code point whose lower case has
    two code points. *)
Definition to_lower_full (c : N) : list N :=
  if c =? 304 then [105; 775] else [to_lower c].

(** Is the first code point that is not case-ignorable a cased one? *)
Fixpoint followed_by_cased (cs : list N) : bool :=
  match cs with
  | [] => false
  | c :: cs' => if is_case_ignorable c then followed_by_cased cs' else is_cased c
  end.

(** [str.lower()] on code points.  A capital sigma U+03A3 becomes the
    final sigma U+03C2 when it ends a word: the nearest code point before
    it that is not case-ignorable is cased ([after_cased]), and the
    nearest after it is not. *)
Fixpoint lower_from (after_cased : bool) (cs : list N) : list N :=
  match cs with
  | [] => []
  | c :: cs' =>
      (if c =? 931
       then [if after_cased && negb (followed_by_cased cs') then 962 else 963]
       else to_lower_full c)
      ++ lower_from (if is_case_ignorable c then after_cased else is_cased c) cs'
  end.

Definition lower_code_points (cs : list N) : list N := lower_from false cs.

End Unicode.

(** ** Strings as Python uses them *)

Module PyStr.

(** [str.rfind(c)]: index of the last occurrence, [None] for Python's -1. *)
Fixpoint rfind (c : ascii) (s : string) : option nat :=
  match s with
  | EmptyString => None
  | String a s' =>
      match rfind c s' with
      | Some i => Some (S i)
      | None => if Ascii.eqb a c then Some 0 else None
      end
  end.

(** [s[i:]] *)
Fixpoint drop (n : nat) (s : string) : string :=
  match n, s with
  | 0, _ => s
  | S _, EmptyString => EmptyString
  | S k, String _ s' => drop k s'
  end.

(** [s[:i]] *)
Fixpoint take (n : nat) (s : string) : string :=
  match n, s with
  | 0, _ => EmptyString
  | S _, EmptyString => EmptyString
  | S k, String a s' => String a (take k s')
  end.

(** The bytes of a name, and the name of a sequence of bytes. *)
Definition bytes (s : string) : list N := List.map N_of_ascii (list_ascii_of_string s).
Definition of_bytes (bs : list N) : string := string_of_list_ascii (List.map ascii_of_N bs).

(** [str.lower()] *)
Definition lower (s : string) : string :=
  of_bytes (Unicode.encode (Unicode.lower_code_points (Unicode.decode (bytes s)))).

(** [str.lstrip(".")]: drops every leading dot. *)
Fixpoint lstrip_dot (s : string) : string :=
  match s with
  | String a s' => if Ascii.eqb a "." then lstrip_dot s' else s
  | EmptyString => EmptyString
  end.

(** Python's [x or y] on strings: the empty string is falsy. *)
Definition or_else (x y : string) : string :=
  match x with
  | EmptyString => y
  | _ => x
  end.

End PyStr.

(** ** Paths ([pathlib.PurePath]) *)

(** An absolute, resolved path is the list of its components below the
    root; [dst_root / ext_folder] appends one component. *)
Abbreviation path := (list string).

Module PyPath.

(** [Path.name]: the final component (empty for the root). *)
Definition name (p : path) : string := List.last p "".

(** [p.parent] *)
Definition parent (p : path) : path := List.removelast p.

(** [p / child] *)
Definition join (p : path) (child : string) : path := p ++ [child].

(** The position at which [pathlib] (through Python 3.13) splits a name
    into stem and suffix: the last dot, provided it is neither the first
    nor the last character ([0 < i < len(name) - 1]). *)
Definition split_point (nm : string) : option nat :=
  match PyStr.rfind "." nm with
  | Some i => if (0 <? i)%nat && (i <? String.length nm - 1)%nat
              then Some i else None
  | None => None
  end.

(** [Path.suffix] of a name *)
Definition suffix_of (nm : string) : string :=
  match split_point nm with
  | Some i => PyStr.drop i nm
  | None => ""
  end.

(** [Path.stem] of a name *)
Definition stem_of (nm : string) : string :=
  match split_point nm with
  | Some i => PyStr.take i nm
  | None => nm
  end.

Definition suffix (p : path) : string := suffix_of (name p).
Definition stem (p : path) : string := stem_of (name p).

(** [dst_path in f.parents]: [d] is a proper ancestor of [f]. *)
Fixpoint is_proper_ancestor (d f : path) : bool :=
  match d, f with
  | [], [] => false
  | [], _ :: _ => true
  | _ :: _, [] => false
  | a :: d', b :: f' => if String.eqb a b then is_proper_ancestor d' f' else false
  end.

End PyPath.

(** ** SHA-256 ([hashlib.sha256], FIPS 180-4) on 32-bit words held in [Z] *)

Module Sha256.
Open Scope Z_scope.

Definition mask32 : Z := 4294967295.
Definition add32 (x y : Z) : Z := (x + y) mod 4294967296.
Definition rotr (n x : Z) : Z :=
  Z.lor (Z.shiftr x n) (Z.land (Z.shiftl x (32 - n)) mask32).
Definition not32 (x : Z) : Z := Z.lxor x mask32.

Definition Ch (x y z : Z) : Z := Z.lxor (Z.land x y) (Z.land (not32 x) z).
Definition Maj (x y z : Z) : Z :=
  Z.lxor (Z.lxor (Z.land x y) (Z.land x z)) (Z.land y z).
Definition bsig0 (x : Z) : Z := Z.lxor (Z.lxor (rotr 2 x) (rotr 13 x)) (rotr 22 x).
Definition bsig1 (x : Z) : Z := Z.lxor (Z.lxor (rotr 6 x) (rotr 11 x)) (rotr 25 x).
Definition ssig0 (x : Z) : Z := Z.lxor (Z.lxor (rotr 7 x) (rotr 18 x)) (Z.shiftr x 3).
Definition ssig1 (x : Z) : Z := Z.lxor (Z.lxor (rotr 17 x) (rotr 19 x)) (Z.shiftr x 10).

(** The primes below 312, the first sixty-four. *)
Definition is_prime (n : nat) : bool :=
  (1 <? n)%nat && List.forallb (fun d => negb (n mod d =? 0)%nat) (List.seq 2 (n - 2)).

Definition primes : list Z :=
  List.map Z.of_nat (List.filter is_prime (List.seq 2 310)).

(** The integer cube root, bit by bit from the top. *)
Fixpoint cube_root (bits : nat) (acc n : Z) : Z :=
  match bits with
  | O => acc
  | S b =>
      let cand := acc + Z.shiftl 1 (Z.of_nat b) in
      if cand * cand * cand <=? n then cube_root b cand n else cube_root b acc n
  end.

(** The round constants: the first 32 bits of the fractional parts of
    the cube roots of the primes. *)
Definition K : list Z :=
  Eval vm_compute in
    List.map (fun q => Z.land (cube_root 36 0 (Z.shiftl q 96)) mask32) primes.

(** The eight working variables / chaining values. *)
Record regs := Regs { ra : Z; rb : Z; rc : Z; rd : Z; re : Z; rf : Z; rg : Z; rh : Z }.

(** The initial hash value: the first 32 bits of the fractional parts of
    the square roots of the first eight primes. *)
Definition frac_sqrt (q : Z) : Z := Z.land (Z.sqrt (Z.shiftl q 64)) mask32.

Definition H0 : regs :=
  Eval vm_compute in
    Regs (frac_sqrt 2) (frac_sqrt 3) (frac_sqrt 5) (frac_sqrt 7)
         (frac_sqrt 11) (frac_sqrt 13) (frac_sqrt 17) (frac_sqrt 19).

(** Padding: a one bit, zeros up to 56 mod 64, the bit length on 8 bytes. *)
Definition be_bytes (n : nat) (x : Z) : list Z :=
  List.map (fun i => Z.land (Z.shiftr x (8 * Z.of_nat i)) 255) (List.rev (List.seq 0 n)).

Definition pad (msg : list Z) : list Z :=
  let len := Z.of_nat (List.length msg) in
  let zeros := Z.to_nat ((55 - len) mod 64) in
  msg ++ [128] ++ List.repeat 0 zeros ++ be_bytes 8 (8 * len).

Fixpoint words (bs : list Z) : list Z :=
  match bs with
  | b0 :: b1 :: b2 :: b3 :: rest =>
      (Z.shiftl b0 24 + Z.shiftl b1 16 + Z.shiftl b2 8 + b3) :: words rest
  | _ => []
  end.

(** The message schedule, most recent word first. *)
Fixpoint extend (n : nat) (rev_w : list Z) : list Z :=
  match n with
  | O => rev_w
  | S n' =>
      let w := add32 (add32 (ssig1 (List.nth 1 rev_w 0)) (List.nth 6 rev_w 0))
                     (add32 (ssig0 (List.nth 14 rev_w 0)) (List.nth 15 rev_w 0)) in
      extend n' (w :: rev_w)
  end.

Definition schedule (block_words : list Z) : list Z :=
  List.rev (extend 48 (List.rev block_words)).

Definition round (r : regs) (kw : Z * Z) : regs :=
  let t1 := add32 (add32 (add32 (rh r) (bsig1 (re r))) (Ch (re r) (rf r) (rg r)))
                  (add32 (fst kw) (snd kw)) in
  let t2 := add32 (bsig0 (ra r)) (Maj (ra r) (rb r) (rc r)) in
  Regs (add32 t1 t2) (ra r) (rb r) (rc r) (add32 (rd r) t1) (re r) (rf r) (rg r).

Definition compress (h : regs) (block : list Z) : regs :=
  let r := List.fold_left round (List.combine K (schedule (words block))) h in
  Regs (add32 (ra h) (ra r)) (add32 (rb h) (rb r)) (add32 (rc h) (rc r))
       (add32 (rd h) (rd r)) (add32 (re h) (re r)) (add32 (rf h) (rf r))
       (add32 (rg h) (rg r)) (add32 (rh h) (rh r)).

Fixpoint blocks (n : nat) (bs : list Z) (h : regs) : regs :=
  match n with
  | O => h
  | S n' => blocks n' (List.skipn 64 bs) (compress h (List.firstn 64 bs))
  end.

Definition digest (msg : list Z) : regs :=
  let p := pad msg in
  blocks (List.length p / 64) p H0.

Definition hex_digit (n : Z) : ascii :=
  List.nth (Z.to_nat n)
    ["0"; "1"; "2"; "3"; "4"; "5"; "6"; "7"; "8"; "9"; "a"; "b"; "c"; "d"; "e"; "f"]%char
    "0"%char.

Definition hex32 (x : Z) (tl : string) : string :=
  String (hex_digit (Z.land (Z.shiftr x 28) 15))
 (String (hex_digit (Z.land (Z.shiftr x 24) 15))
 (String (hex_digit (Z.land (Z.shiftr x 20) 15))
 (String (hex_digit (Z.land (Z.shiftr x 16) 15))
 (String (hex_digit (Z.land (Z.shiftr x 12) 15))
 (String (hex_digit (Z.land (Z.shiftr x 8) 15))
 (String (hex_digit (Z.land (Z.shiftr x 4) 15))
 (String (hex_digit (Z.land x 15)) tl))))))).

Definition hex_of_regs (r : regs) : string :=
  hex32 (ra r) (hex32 (rb r) (hex32 (rc r) (hex32 (rd r)
    (hex32 (re r) (hex32 (rf r) (hex32 (rg r) (hex32 (rh r) ""))))))).

(** [hashlib.sha256(data).hexdigest()] *)
Definition hexdigest (data : list byte) : string :=
  hex_of_regs (digest (List.map (fun b => Z.of_N (Byte.to_N b)) data)).

End Sha256.

Definition bytes_of (s : string) : list byte := list_byte_of_string s.


(** ** The file system and the observable state *)

(** A node of the tree: a directory, or a regular file with its read and
    write permission for the running user and its bytes. *)
Inductive node :=
  | Dir
  | File (readable writable : bool) (data : list byte).

(** The [OSError] family; every member is caught by
    [except (PermissionError, OSError)]. *)
Inductive exn :=
  | FileNotFoundError
  | PermissionError
  | IsADirectoryError
  | NotADirectoryError
  | FileExistsError.

(** One constructor per [logging] call of the program. *)
Inductive log_record :=
  | LogCopying (src dest : path)
      (* INFO "Copying file: {src_path} -> {dest_file}" *)
  | LogSkipped (src : path)
      (* INFO "Skipped duplicate (identical content): {src_path}" *)
  | LogRenamedSameSize (src : path) (new_name : string)
      (* INFO "Duplicate with different content, copying with new name: ..." *)
  | LogRenamedDiffSize (src : path) (new_name : string)
      (* INFO "Duplicate with different content (different size), copying with new name: ..." *)
  | LogError (src : path) (e : exn)
      (* ERROR "Error processing {src_path}: {exc}" *)
  | LogCompleted.
      (* INFO "Processing completed." *)

(** The state the program acts on.  [hash_calls] is instrumentation: the
    arguments of the calls to [compute_hash], oldest first. *)
Record world := World {
  fs : gmap path node;
  log : list log_record;
  hash_calls : list path
}.

Definition set_fs (m : gmap path node) (w : world) : world :=
  World m (log w) (hash_calls w).

(** 65536, 64 KB *)
Definition CHUNK_SIZE : nat := 2 ^ 16.
Definition MAX_CONCURRENT : nat := 100.

(** [st_size] of a directory entry (one block on the usual file systems). *)
Definition DIR_ST_SIZE : nat := 4096.

Definition st_size (n : node) : nat :=
  match n with
  | Dir => DIR_ST_SIZE
  | File _ _ data => length data
  end.

Definition is_dir (m : gmap path node) (p : path) : bool :=
  match p with
  | [] => true
  | _ => match m !! p with Some Dir => true | _ => false end
  end.

Definition is_file (m : gmap path node) (p : path) : bool :=
  match m !! p with Some (File _ _ _) => true | _ => false end.

(** [os.makedirs(p, exist_ok=True)]: walks the prefixes of [p] from the
    root, creating the missing ones; a regular file in the way raises. *)
Fixpoint makedirs_from (done : path) (todo : list string) (m : gmap path node)
  : gmap path node * option exn :=
  match todo with
  | [] => (m, None)
  | c :: todo' =>
      let p := done ++ [c] in
      match m !! p with
      | None => makedirs_from p todo' (<[p := Dir]> m)
      | Some Dir => makedirs_from p todo' m
      | Some (File _ _ _) =>
          (m, Some (match todo' with [] => FileExistsError | _ => NotADirectoryError end))
      end
  end.

Definition makedirs (p : path) (m : gmap path node) : gmap path node * option exn :=
  makedirs_from [] p m.

(** ** Coroutines: a tree of atomic operations on the world

    Every file-system call and every log call is one atomic operation
    [Do op k]; between two operations of one task, operations of other
    tasks may run. *)
Inductive coro (A : Type) : Type :=
  | Return (a : A)
  | Raise (e : exn)
  | Do {R : Type} (op : world -> world * R) (k : R -> coro A).
Arguments Return {A} a.
Arguments Raise {A} e.
Arguments Do {A R} op k.

Fixpoint coro_bind {A B} (f : A -> coro B) (c : coro A) : coro B :=
  match c with
  | Return a => f a
  | Raise e => Raise e
  | Do op k => Do op (fun r => coro_bind f (k r))
  end.

#[global] Instance coro_mret : MRet coro := fun A a => Return a.
#[global] Instance coro_mbind : MBind coro := fun A B f c => coro_bind f c.

(** [try: c except OSError as exc: h exc] *)
Fixpoint try_except {A} (c : coro A) (h : exn -> coro A) : coro A :=
  match c with
  | Return a => Return a
  | Raise e => h e
  | Do op k => Do op (fun r => try_except (k r) h)
  end.

(** An operation that may raise. *)
Definition perform {A} (op : world -> world * (exn + A)) : coro A :=
  Do op (fun r => match r with inl e => Raise e | inr a => Return a end).

(** Running a coroutine alone, to its end. *)
Fixpoint run {A} (c : coro A) (w : world) : world * (exn + A) :=
  match c with
  | Return a => (w, inr a)
  | Raise e => (w, inl e)
  | Do op k => let '(w', r) := op w in run (k r) w'
  end.

(** *** The operations *)

Definition op_makedirs (p : path) (w : world) : world * (exn + unit) :=
  let '(m, err) := makedirs p (fs w) in
  (set_fs m w, match err with Some e => inl e | None => inr tt end).

(** [Path.exists()] *)
Definition op_exists (p : path) (w : world) : world * bool :=
  (w, bool_decide (is_Some (fs w !! p))).

(** [Path.stat().st_size] *)
Definition op_stat_size (p : path) (w : world) : world * (exn + nat) :=
  (w, match fs w !! p with
      | Some n => inr (st_size n)
      | None => inl FileNotFoundError
      end).

(** [aiofiles.open(p, "rb")]: the stream of bytes that the reads will
    deliver.  The program never writes to a file while it reads it: a
    destination is never the source (lemma [renamed_dest_neq_src]). *)
Definition op_open_rb (p : path) (w : world) : world * (exn + list byte) :=
  (w, match fs w !! p with
      | Some (File true _ data) => inr data
      | Some (File false _ _) => inl PermissionError
      | Some Dir => inl IsADirectoryError
      | None => inl FileNotFoundError
      end).

(** [aiofiles.open(p, "wb")]: creates the file or truncates it. *)
Definition op_open_wb (p : path) (w : world) : world * (exn + unit) :=
  if is_dir (fs w) (PyPath.parent p) then
    match fs w !! p with
    | None => (set_fs (<[p := File true true []]> (fs w)) w, inr tt)
    | Some (File r true _) => (set_fs (<[p := File r true []]> (fs w)) w, inr tt)
    | Some (File _ false _) => (w, inl PermissionError)
    | Some Dir => (w, inl IsADirectoryError)
    end
  else (w, inl (if is_file (fs w) (PyPath.parent p)
                then NotADirectoryError else FileNotFoundError)).

(** [f.read(CHUNK_SIZE)] on a stream: the chunk and the rest. *)
Definition op_read (stream : list byte) (w : world) : world * (list byte * list byte) :=
  (w, (take CHUNK_SIZE stream, drop CHUNK_SIZE stream)).

(** [f.write(data)] on a file opened for writing at [p]. *)
Definition op_write (p : path) (chunk : list byte) (w : world) : world * unit :=
  (match fs w !! p with
   | Some (File r wr data) => set_fs (<[p := File r wr (data ++ chunk)]> (fs w)) w
   | _ => w
   end, tt).

Definition op_log (r : log_record) (w : world) : world * unit :=
  (World (fs w) (log w ++ [r]) (hash_calls w), tt).

Definition op_note_hash (p : path) (w : world) : world * unit :=
  (World (fs w) (log w) (hash_calls w ++ [p]), tt).

Definition logging (r : log_record) : coro unit := Do (op_log r) Return.

(** ** [compute_hash] *)

(** The [while True] loop of [compute_hash]: [h] is the data fed to the
    hash object so far.  The loop leaves at the first empty chunk; the
    counter [n] bounds the number of reads. *)
Fixpoint hash_loop (n : nat) (stream : list byte) (h : list byte) : coro (list byte) :=
  match n with
  | O => Return h
  | S n' =>
      Do (op_read stream) (fun cr =>
        match fst cr with
        | [] => Return h
        | chunk => hash_loop n' (snd cr) (h ++ chunk)
        end)
  end.

Definition compute_hash (file_path : path) : coro string :=
  Do (op_note_hash file_path) (fun _ =>
  data ← perform (op_open_rb file_path);
  h ← hash_loop (S (length data)) data [];
  mret (Sha256.hexdigest h)).

(** ** [copy_file_task] *)

Definition ext_folder_of (src_path : path) : string :=
  PyStr.or_else (PyStr.lstrip_dot (PyStr.lower (PyPath.suffix src_path))) "no_extension".

(** [f"{src_path.stem}_{short_hash}{src_path.suffix}"] *)
Definition renamed (src_path : path) (src_hash : string) : string :=
  PyPath.stem src_path +:+ "_" +:+ PyStr.take 8 src_hash +:+ PyPath.suffix src_path.

(** The copy loop at the end of the [try] block. *)
Fixpoint copy_loop (n : nat) (stream : list byte) (dest_file : path) : coro unit :=
  match n with
  | O => Return tt
  | S n' =>
      Do (op_read stream) (fun cr =>
        match fst cr with
        | [] => Return tt
        | chunk => Do (op_write dest_file chunk) (fun _ => copy_loop n' (snd cr) dest_file)
        end)
  end.

Definition copy_stream (src_path dest_file : path) : coro unit :=
  data ← perform (op_open_rb src_path);
  _ ← perform (op_open_wb dest_file);
  copy_loop (S (length data)) data dest_file.

(** The body of the [try]: the destination is resolved to [Some dest_file]
    to copy to, or [None] for the early [return] of the duplicate case. *)
Definition resolve_dest (src_path dst_root : path) : coro (option path) :=
  let ext_folder := ext_folder_of src_path in
  let dest_dir := PyPath.join dst_root ext_folder in
  _ ← perform (op_makedirs dest_dir);
  let dest_file := PyPath.join dest_dir (PyPath.name src_path) in
  ex ← Do (op_exists dest_file) Return;
  if ex : bool then
    src_size ← perform (op_stat_size src_path);
    dst_size ← perform (op_stat_size dest_file);
    if Nat.eqb src_size dst_size then
      src_hash ← compute_hash src_path;
      dst_hash ← compute_hash dest_file;
      if String.eqb src_hash dst_hash then
        _ ← logging (LogSkipped src_path);
        mret None
      else
        let new_name := renamed src_path src_hash in
        _ ← logging (LogRenamedSameSize src_path new_name);
        mret (Some (PyPath.join dest_dir new_name))
    else
      src_hash ← compute_hash src_path;
      let new_name := renamed src_path src_hash in
      _ ← logging (LogRenamedDiffSize src_path new_name);
      mret (Some (PyPath.join dest_dir new_name))
  else
    _ ← logging (LogCopying src_path dest_file);
    mret (Some dest_file).

Definition copy_file_try (src_path dst_root : path) : coro unit :=
  d ← resolve_dest src_path dst_root;
  match d with
  | None => Return tt
  | Some dest_file => copy_stream src_path dest_file
  end.

(** What runs inside [async with sem:]. *)
Definition copy_file_body (src_path dst_root : path) : coro unit :=
  try_except (copy_file_try src_path dst_root)
             (fun exc => logging (LogError src_path exc)).

(** ** Tasks, the semaphore and the event loop

    [copy_file_task] is [async with sem:] around the body.  A task waits
    until it gets a slot, runs its body one operation at a time, and gives
    the slot back when the body is left, by [return] or by an exception. *)
Inductive task_state :=
  | Waiting (body : coro unit)
  | Running (c : coro unit)
  | Done
  | Failed (e : exn).

Record task := Task { t_file : path; t_state : task_state }.

(** [copy_file_task(src_path, dst_root, sem)] as created by
    [asyncio.create_task]. *)
Definition copy_file_task (src_path dst_root : path) : task :=
  Task src_path (Waiting (copy_file_body src_path dst_root)).

Record config := Config {
  c_world : world;
  c_sem : nat;            (* the semaphore's free slots *)
  c_tasks : list task
}.

Definition step_task (w : world) (sem : nat) (t : task_state)
  : option (world * nat * task_state) :=
  match t with
  | Waiting body =>
      match sem with
      | S n => Some (w, n, Running body)
      | O => None
      end
  | Running (Do op k) => let '(w', r) := op w in Some (w', sem, Running (k r))
  | Running (Return _) => Some (w, S sem, Done)
  | Running (Raise e) => Some (w, S sem, Failed e)
  | Done => None
  | Failed _ => None
  end.

(** The event loop lets task [i] perform its next operation. *)
Definition step_at (i : nat) (c : config) : option config :=
  match c_tasks c !! i with
  | Some t =>
      match step_task (c_world c) (c_sem c) (t_state t) with
      | Some (w', sem', st') =>
          Some (Config w' sem' (<[i := Task (t_file t) st']> (c_tasks c)))
      | None => None
      end
  | None => None
  end.

Definition step (c c' : config) : Prop := ∃ i, step_at i c = Some c'.

Definition is_running (t : task) : bool :=
  match t_state t with Running _ => true | _ => false end.

(** The number of tasks inside [async with sem]. *)
Definition holders (c : config) : nat := length (List.filter is_running (c_tasks c)).

Definition all_done (c : config) : Prop := Forall (fun t => t_state t = Done) (c_tasks c).

(** ** [main_async] *)

Definition op_is_dir (p : path) (w : world) : world * bool := (w, is_dir (fs w) p).

(** [[p for p in src_path.rglob("*") if p.is_file()]]: the regular files
    below [src_path], in the order the directory listing gives them. *)
Definition rglob_files (m : gmap path node) (src_path : path) : list path :=
  List.filter (fun p => PyPath.is_proper_ancestor src_path p && is_file m p)
              (map_to_list m).*1.

Definition op_rglob_files (src_path : path) (w : world) : world * list path :=
  (w, rglob_files (fs w) src_path).

Fixpoint for_each {A} (l : list A) (f : A -> coro unit) : coro unit :=
  match l with
  | [] => Return tt
  | x :: l' => _ ← f x; for_each l' f
  end.

(** [main_async] up to the creation of the tasks: the files to dispatch,
    or the exception that ends the run.  [logging.basicConfig] changes
    nothing of the world and is left out. *)
Definition main_prepare (src_path dst_path : path) : coro (list path) :=
  src_ok ← Do (op_is_dir src_path) Return;
  if negb src_ok then Raise NotADirectoryError else
  _ ← perform (op_makedirs dst_path);
  all_files ← Do (op_rglob_files src_path) Return;
  let files := List.filter (fun f => negb (PyPath.is_proper_ancestor dst_path f)) all_files in
  let ext_dirs := remove_dups (List.map ext_folder_of files) in
  _ ← for_each ext_dirs (fun ext => perform (op_makedirs (PyPath.join dst_path ext)));
  mret files.

(** The state in which [asyncio.gather] starts. *)
Definition dispatch (w : world) (files : list path) (dst_path : path) : config :=
  Config w MAX_CONCURRENT (List.map (fun f => copy_file_task f dst_path) files).

(** The runs of [main_async]: the final world and the exception that
    left it, if any. *)
Inductive main_async (src_path dst_path : path) (w : world)
  : world -> option exn -> Prop :=
  | main_fatal w1 e :
      run (main_prepare src_path dst_path) w = (w1, inl e) ->
      main_async src_path dst_path w w1 (Some e)
  | main_completed w1 files c :
      run (main_prepare src_path dst_path) w = (w1, inr files) ->
      rtc step (dispatch w1 files dst_path) c ->
      all_done c ->
      main_async src_path dst_path w (fst (op_log LogCompleted (c_world c))) None
  | main_task_failed w1 files c i f e :
      run (main_prepare src_path dst_path) w = (w1, inr files) ->
      rtc step (dispatch w1 files dst_path) c ->
      c_tasks c !! i = Some (Task f (Failed e)) ->
      main_async src_path dst_path w (c_world c) (Some e).

(** One schedule among them: the tasks run one after the other. *)
Definition run_tasks_in_turn (files : list path) (dst_path : path) (w : world) : world :=
  List.fold_left (fun w f => fst (run (copy_file_body f dst_path) w)) files w.

Definition main_async_in_turn (src_path dst_path : path) (w : world) : world * option exn :=
  match run (main_prepare src_path dst_path) w with
  | (w1, inl e) => (w1, Some e)
  | (w1, inr files) =>
      (fst (op_log LogCompleted (run_tasks_in_turn files dst_path w1)), None)
  end.

(** ** Vocabulary of the statements *)

(** Lower case on the ASCII range: [A-Z] go to [a-z], 32 places further;
    every other character stays. *)
Definition ascii_lower (a : ascii) : ascii :=
  let n := nat_of_ascii a in
  if (65 <=? n)%nat && (n <=? 90)%nat then ascii_of_nat (n + 32) else a.

(** [str.isascii()] *)
Definition is_ascii (s : string) : Prop :=
  Forall (fun a => nat_of_ascii a < 128) (list_ascii_of_string s).

(** Two characters that are the same, or the same letter of the ASCII
    alphabet in its two cases. *)
Definition same_letter (a b : ascii) : Prop :=
  a = b
  ∨ (65 <= nat_of_ascii a <= 90 ∧ nat_of_ascii b = nat_of_ascii a + 32)
  ∨ (65 <= nat_of_ascii b <= 90 ∧ nat_of_ascii a = nat_of_ascii b + 32).

(** The world after a call of [compute_hash] was noted, and after a log
    record was written. *)
Definition noted (p : path) (w : world) : world :=
  World (fs w) (log w) (hash_calls w ++ [p]).

Definition logged (r : log_record) (w : world) : world :=
  World (fs w) (log w ++ [r]) (hash_calls w).

(** The three paths a source file is judged by. *)
Definition dest_dir_of (src_path dst_root : path) : path :=
  PyPath.join dst_root (ext_folder_of src_path).

Definition natural_dest (src_path dst_root : path) : path :=
  PyPath.join (dest_dir_of src_path dst_root) (PyPath.name src_path).

Definition renamed_dest (src_path dst_root : path) (src_hash : string) : path :=
  PyPath.join (dest_dir_of src_path dst_root) (renamed src_path src_hash).

(** What [open(p, "wb")] followed by the copy loop leaves at [p]: an
    existing file keeps its read permission. *)
Definition written (m : gmap path node) (p : path) (data : list byte) : gmap path node :=
  <[p := File (match m !! p with Some (File r _ _) => r | _ => true end) true data]> m.

(** [p] can be opened for writing: it is missing, or a writable file. *)
Definition writable_or_absent (m : gmap path node) (p : path) : Prop :=
  m !! p = None ∨ ∃ r d, m !! p = Some (File r true d).

(** A well-formed tree: every node sits in a directory. *)
Definition well_formed (m : gmap path node) : Prop :=
  map_Forall (fun p _ => is_dir m (PyPath.parent p) = true) m.

#[global] Instance well_formed_dec (m : gmap path node) : Decision (well_formed m).
Proof. unfold well_formed. apply _. Defined.

(** Properties of a coroutine as a tree: no exception leaves it; every
    operation in it satisfies [P]; the values it may return. *)
Fixpoint no_raise {A} (c : coro A) : Prop :=
  match c with
  | Return _ => True
  | Raise _ => False
  | Do op k => ∀ r, no_raise (k r)
  end.

Fixpoint all_ops {A} (P : (world -> world) -> Prop) (c : coro A) : Prop :=
  match c with
  | Return _ => True
  | Raise _ => True
  | Do op k => P (fun w => fst (op w)) ∧ ∀ r, all_ops P (k r)
  end.

Fixpoint returns {A} (c : coro A) (a : A) : Prop :=
  match c with
  | Return a' => a = a'
  | Raise _ => False
  | Do op k => ∃ r, returns (k r) a
  end.

(** An operation that keeps every directory, and changes a node only by
    creating a directory or by writing a file directly inside [D]. *)
Definition confined (D : path) (f : world -> world) : Prop :=
  ∀ w,
    (∀ q, is_dir (fs w) q = true -> is_dir (fs (f w)) q = true) ∧
    (∀ p, fs (f w) !! p ≠ fs w !! p ->
          (fs w !! p = None ∧ fs (f w) !! p = Some Dir)
          ∨ (PyPath.parent p = D ∧ is_file (fs (f w)) p = true)).

(** What a task of [asyncio.gather] can be while the run lasts. *)
Definition task_ok (dst_path : path) (t : task) : Prop :=
  match t_state t with
  | Waiting body => body = copy_file_body (t_file t) dst_path
  | Running c => no_raise c ∧ all_ops (confined (dest_dir_of (t_file t) dst_path)) c
  | Done => True
  | Failed _ => False
  end.

Definition finished (t : task) : bool :=
  match t_state t with Done | Failed _ => true | _ => false end.

(** The steps of one task, and of a list of tasks, whatever the world. *)
Definition task_step (st st' : task_state) : Prop :=
  ∃ w sem w' sem', step_task w sem st = Some (w', sem', st').

Definition tasks_step (ts ts' : list task) : Prop :=
  ∃ w sem w' sem', step (Config w sem ts) (Config w' sem' ts').

(** The tasks taken in turn: no [try] block is left by an exception. *)
Fixpoint error_free_in_turn (files : list path) (dst_path : path) (w : world) : bool :=
  match files with
  | [] => true
  | f :: files' =>
      match run (copy_file_try f dst_path) w with
      | (w', inr _) => error_free_in_turn files' dst_path w'
      | (_, inl _) => false
      end
  end.

(** The destination paths a source file may be written to: its natural
    path and, with the digest of its bytes, its suffixed path. *)
Definition slots (m : gmap path node) (dst_path f : path) : list path :=
  natural_dest f dst_path ::
  match m !! f with
  | Some (File _ _ data) => [renamed_dest f dst_path (Sha256.hexdigest data)]
  | _ => []
  end.

#[global] Instance byte_eq_dec : EqDecision byte := Byte.byte_eq_dec.

(** The bytes of a source file. *)
Definition source_bytes (m : gmap path node) (f : path) : option (list byte) :=
  match m !! f with
  | Some (File _ _ data) => Some data
  | _ => None
  end.

(** No suffixed destination path of a file is the natural path of a
    file, and two files have the same suffixed path only if they hold
    the same bytes. *)
Definition no_clash (m : gmap path node) (dst_path : path) (files : list path) : bool :=
  forallb (fun f =>
    forallb (fun g =>
      match source_bytes m f, source_bytes m g with
      | Some df, Some dg =>
          bool_decide (renamed_dest f dst_path (Sha256.hexdigest df) ≠ natural_dest g dst_path)
          && bool_decide (renamed_dest f dst_path (Sha256.hexdigest df)
                          = renamed_dest g dst_path (Sha256.hexdigest dg) -> df = dg)
      | _, _ => true
      end) files) files.

(** The second decision for a file [f], as logged, in the tree [m] left
    by the first run: the duplicate, or the rename onto a suffixed copy
    that holds the bytes of [f] already. *)
Definition settled_record (m : gmap path node) (dst_path f : path) (rec : log_record) : Prop :=
  rec = LogSkipped f
  ∨ ∃ n wr r data,
      (rec = LogRenamedSameSize f n ∨ rec = LogRenamedDiffSize f n)
      ∧ m !! f = Some (File true wr data)
      ∧ n = renamed f (Sha256.hexdigest data)
      ∧ m !! PyPath.join (dest_dir_of f dst_path) n = Some (File r true data).

(** In the tree [m] the file [f] needs no more copying: its extension
    folder exists, and what is at its natural path is a readable file of
    the same size and digest, or differs while the suffixed path holds
    the bytes of [f]. *)
Definition settled (m : gmap path node) (dst_path f : path) : Prop :=
  ∃ wr data n2,
    m !! f = Some (File true wr data)
    ∧ makedirs (dest_dir_of f dst_path) m = (m, None)
    ∧ m !! natural_dest f dst_path = Some n2
    ∧ ((∃ wr' data', n2 = File true wr' data'
                     ∧ length data' = length data
                     ∧ Sha256.hexdigest data' = Sha256.hexdigest data)
       ∨ ((st_size n2 ≠ length data
           ∨ ∃ wr' data', n2 = File true wr' data'
                          ∧ length data' = length data
                          ∧ Sha256.hexdigest data' ≠ Sha256.hexdigest data)
          ∧ ∃ r, m !! renamed_dest f dst_path (Sha256.hexdigest data)
                 = Some (File r true data))).

(** The sources of a run: outside the destination, and present. *)
Definition sources_ok (m : gmap path node) (dst_path : path) (files : list path) : Prop :=
  Forall (fun f => PyPath.is_proper_ancestor dst_path f = false ∧ is_Some (m !! f)) files.

(** ** Sample trees *)

Module Sample.

(** A source tree with one file. *)
Definition src_a : path := ["src"; "a.txt"].
Definition dst : path := ["dst"].

Definition fs_fresh : gmap path node :=
  <[ src_a := File true true (bytes_of "hello") ]> (<[ ["src"] := Dir ]> ∅).

(** The same with a destination that already holds [txt/a.txt]. *)
Definition fs_dest (existing : list byte) : gmap path node :=
  <[ ["dst"; "txt"; "a.txt"] := File true true existing ]>
    (<[ ["dst"; "txt"] := Dir ]> (<[ ["dst"] := Dir ]> fs_fresh)).

Definition fs_same : gmap path node := fs_dest (bytes_of "hello").
Definition fs_conflict : gmap path node := fs_dest (bytes_of "world").
Definition fs_shorter : gmap path node := fs_dest (bytes_of "hi").

(** A file without extension whose name is taken in the destination. *)
Definition src_notes : path := ["src"; "notes"].

Definition fs_notes : gmap path node :=
  <[ ["dst"; "no_extension"; "notes"] := File true true (bytes_of "y") ]>
    (<[ ["dst"; "no_extension"] := Dir ]> (<[ ["dst"] := Dir ]>
      (<[ src_notes := File true true (bytes_of "x") ]> (<[ ["src"] := Dir ]> ∅)))).

(** A source tree that holds the destination, an unreadable file, and two
    files of the same name. *)
Definition nested_dst : path := ["src"; "dist"].

Definition fs_tree : gmap path node :=
  list_to_map
    [ (["src"], Dir);
      (["src"; "a.txt"], File true true (bytes_of "hello"));
      (["src"; "notes"], File true true (bytes_of "x"));
      (["src"; "sub"], Dir);
      (["src"; "sub"; "a.txt"], File true true (bytes_of "world"));
      (["src"; "sub"; "c.bin"], File false true (bytes_of "secret"));
      (["src"; "dist"], Dir);
      (["src"; "dist"; "txt"], Dir);
      (["src"; "dist"; "txt"; "old.txt"], File true true (bytes_of "old")) ].

(** Two files of the same name and size, with different bytes. *)
Definition fs_twins : gmap path node :=
  list_to_map
    [ (["src"], Dir); (["src"; "x"], Dir); (["src"; "y"], Dir);
      (["src"; "x"; "a.txt"], File true true (bytes_of "hello"));
      (["src"; "y"; "a.txt"], File true true (bytes_of "world")) ].

(** The same with a third file that bears the suffixed name of another:
    2cf24dba are the first digits of the digest of "hello". *)
Definition fs_crafted : gmap path node :=
  list_to_map
    [ (["src"], Dir); (["src"; "x"], Dir); (["src"; "y"], Dir); (["src"; "z"], Dir);
      (["src"; "z"; "A.txt"], File true true (bytes_of "world"));
      (["src"; "y"; "A_2cf24dba.txt"], File true true (bytes_of "zzz"));
      (["src"; "x"; "A.txt"], File true true (bytes_of "hello")) ].

Definition world_of (m : gmap path node) : world := World m [] [].

End Sample.

(** ** Vocabulary of the further properties *)

#[global] Instance node_eq_dec : EqDecision node.
Proof. solve_decision. Defined.

(** What the tasks may have made of a path [p] since the dispatch, in
    the tree [m0]: nothing, a new directory, or a file directly inside
    the extension folder of a dispatched file. *)
Definition footprint (dst_path : path) (m0 m : gmap path node) (files : list path)
    (p : path) : Prop :=
  m !! p = m0 !! p
  ∨ (m0 !! p = None ∧ m !! p = Some Dir)
  ∨ (is_file m p = true ∧ ∃ f, f ∈ files ∧ PyPath.parent p = dest_dir_of f dst_path).

(** The file a log record is about. *)
Definition record_file (rec : log_record) : option path :=
  match rec with
  | LogCopying s _ | LogSkipped s | LogRenamedSameSize s _
  | LogRenamedDiffSize s _ | LogError s _ => Some s
  | LogCompleted => None
  end.

Definition mentions (f : path) (l : list log_record) : Prop :=
  ∃ rec, rec ∈ l ∧ record_file rec = Some f.

(** An operation that only appends to the log, and only records about
    [f]; an operation that appends one record about [f]. *)
Definition appends (f : path) (g : world -> world) : Prop :=
  ∀ w, ∃ l, log (g w) = log w ++ l ∧ Forall (fun rec => record_file rec = Some f) l.

Definition appends_one (f : path) (g : world -> world) : Prop :=
  ∀ w, ∃ rec, log (g w) = log w ++ [rec] ∧ record_file rec = Some f.

(** On every path through the coroutine a record about [f] is written
    before it returns; [on_raise] tells whether leaving by an exception
    will do. *)
Fixpoint logs_before {A} (on_raise : Prop) (f : path) (c : coro A) : Prop :=
  match c with
  | Return _ => False
  | Raise _ => on_raise
  | Do op k => appends_one f (fun w => fst (op w)) ∨ ∀ r, logs_before on_raise f (k r)
  end.

(** What the log tells about a task, [recs] being the records written
    since the dispatch. *)
Definition task_accounted (dst_path : path) (recs : list log_record) (t : task) : Prop :=
  match t_state t with
  | Waiting body => body = copy_file_body (t_file t) dst_path
  | Running c => all_ops (appends (t_file t)) c
                 ∧ (mentions (t_file t) recs ∨ logs_before False (t_file t) c)
  | Done => mentions (t_file t) recs
  | Failed _ => True
  end.

(** ** Vocabulary of the second run *)

(** Every operation of a coroutine, taken with its result, satisfies [P]. *)
Fixpoint every_op {A} (P : ∀ R, (world -> world * R) -> Prop) (c : coro A) : Prop :=
  match c with
  | Return _ => True
  | Raise _ => True
  | Do op k => P _ op ∧ ∀ r, every_op P (k r)
  end.

(** The destination paths the worker of [f] may write to: the natural
    path and the suffixed paths, one for the digest of any content. *)
Definition targets (dst_path f p : path) : Prop :=
  p = natural_dest f dst_path
  ∨ ∃ data, p = renamed_dest f dst_path (Sha256.hexdigest data).

(** The paths the worker of [f] looks at: its source and its targets. *)
Definition concerns (dst_path f p : path) : Prop := p = f ∨ targets dst_path f p.

(** No destination path is a target of two of the files. *)
Definition independent (dst_path : path) (files : list path) : Prop :=
  ∀ f g p, f ∈ files -> g ∈ files ->
           targets dst_path f p -> targets dst_path g p -> f = g.

(** Two trees that hold the same at the paths of [P]. *)
Definition agree_on (P : path -> Prop) (m m' : gmap path node) : Prop :=
  ∀ p, P p -> m !! p = m' !! p.

(** The extension folder of [f] is in place. *)
Definition folder_ready (dst_path f : path) (m : gmap path node) : Prop :=
  makedirs (dest_dir_of f dst_path) m = (m, None).

(** An operation of the worker of [f] that is local to the paths of
    [f]: in two worlds that agree on them, with the folder in place, it
    gives the same result, leaves the worlds in agreement, and appends
    the same records; it changes targets of [f] only and keeps the
    directories. *)
Definition local_to (dst_path f : path) (R : Type) (op : world -> world * R) : Prop :=
  ∀ w v,
    folder_ready dst_path f (fs w) -> folder_ready dst_path f (fs v) ->
    agree_on (concerns dst_path f) (fs w) (fs v) ->
    snd (op w) = snd (op v)
    ∧ agree_on (concerns dst_path f) (fs (fst (op w))) (fs (fst (op v)))
    ∧ (∀ p, fs (fst (op w)) !! p = fs w !! p ∨ targets dst_path f p)
    ∧ (∀ q, is_dir (fs w) q = true -> is_dir (fs (fst (op w))) q = true)
    ∧ ∃ l, log (fst (op w)) = log w ++ l ∧ log (fst (op v)) = log v ++ l.

(** The records written since the world [w0]. *)
Definition since (w0 w : world) : list log_record := drop (length (log w0)) (log w).

(** The world in which the worker of [f], started alone in [w0], ends. *)
Definition alone (dst_path : path) (w0 : world) (f : path) : world :=
  fst (run (copy_file_body f dst_path) w0).

(** What a task is to the worker run alone from the world [w0] of the
    dispatch, [w] being the world now: where the task has not started,
    the paths of its file are as in [w0]; where it runs, there is a
    world [v] that agrees with [w] on these paths and from which the
    rest of the task, run alone, ends as the whole worker does from
    [w0]; where it is done, the paths are as the worker alone leaves
    them.  The records of the task so far are in the log. *)
Definition task_tracks (dst_path : path) (w0 w : world) (t : task) : Prop :=
  let f := t_file t in
  match t_state t with
  | Waiting body =>
      body = copy_file_body f dst_path
      ∧ agree_on (concerns dst_path f) (fs w) (fs w0)
  | Running k =>
      every_op (local_to dst_path f) k
      ∧ ∃ v mine,
          folder_ready dst_path f (fs v)
          ∧ agree_on (concerns dst_path f) (fs w) (fs v)
          ∧ run k v = run (copy_file_body f dst_path) w0
          ∧ log v = log w0 ++ mine
          ∧ (∀ rec, rec ∈ mine -> rec ∈ since w0 w)
  | Done =>
      agree_on (concerns dst_path f) (fs w) (fs (alone dst_path w0 f))
      ∧ (∀ rec, rec ∈ since w0 (alone dst_path w0 f) -> rec ∈ since w0 w)
  | Failed _ => False
  end.

(** The configurations of a run that started in [w0]: every record
    written since is one the worker of a dispatched file writes when it
    runs alone from [w0], a path that is the target of no dispatched
    file is as in [w0], and every task tracks its worker. *)
Definition tracked (dst_path : path) (files : list path) (w0 : world) (c : config) : Prop :=
  (∃ recs, log (c_world c) = log w0 ++ recs
           ∧ ∀ rec, rec ∈ recs -> ∃ f, f ∈ files ∧ rec ∈ since w0 (alone dst_path w0 f))
  ∧ (∀ p, fs (c_world c) !! p = fs w0 !! p ∨ ∃ f, f ∈ files ∧ targets dst_path f p)
  ∧ Forall (task_tracks dst_path w0 (c_world c)) (c_tasks c).

(** ** More sample trees *)

Module Scenes.

(** The extension folder of [a.txt] is taken by a regular file. *)
Definition fs_blocked : gmap path node :=
  list_to_map
    [ (["src"], Dir);
      (["src"; "a.txt"], File true true (bytes_of "hello"));
      (["dst"], Dir);
      (["dst"; "txt"], File true true (bytes_of "not a folder")) ].

(** A file whose extension is in upper case. *)
Definition src_photo : path := ["src"; "Photo.JPG"].

Definition fs_photo : gmap path node :=
  list_to_map [ (["src"], Dir); (src_photo, File true true (bytes_of "pixels")) ].

(** Three files with three extension folders, and a destination that
    holds another [report.txt]. *)
Definition fs_album : gmap path node :=
  list_to_map
    [ (["src"], Dir);
      (["src"; "Photo.JPG"], File true true (bytes_of "pixels"));
      (["src"; "notes"], File true true (bytes_of "x"));
      (["src"; "sub"], Dir);
      (["src"; "sub"; "report.txt"], File true true (bytes_of "hello"));
      (["dst"], Dir);
      (["dst"; "txt"], Dir);
      (["dst"; "txt"; "report.txt"], File true true (bytes_of "world")) ].

(** A source file that bears the suffixed name of another: 2cf24dba are
    the first digits of the digest of "hello". *)
Definition fs_suffixed : gmap path node :=
  list_to_map
    [ (["src"], Dir); (["src"; "x"], Dir); (["src"; "y"], Dir);
      (["src"; "x"; "A.txt"], File true true (bytes_of "hello"));
      (["src"; "y"; "A_2cf24dba.txt"], File true true (bytes_of "zzz"));
      (["dst"], Dir); (["dst"; "txt"], Dir);
      (["dst"; "txt"; "A.txt"], File true true (bytes_of "world")) ].

(** A source that cannot be read. *)
Definition fs_locked : gmap path node :=
  list_to_map
    [ (["src"], Dir); (["src"; "c.bin"], File false true (bytes_of "secret")) ].

(** A source directory without any file. *)
Definition fs_empty : gmap path node :=
  list_to_map [ (["src"], Dir); (["src"; "sub"], Dir) ].

(** The twins of [Sample.fs_twins] with their extension folder in place,
    as [main_async] leaves it before the dispatch. *)
Definition fs_twins_ready : gmap path node :=
  fst (makedirs ["dst"; "txt"] Sample.fs_twins).

End Scenes.

(** * The word-frequency analyser, [task2_word_freq.py]

    The MapReduce core: the stream of words is cut into chunks, every
    chunk is counted on its own, and the counts are merged. *)

Module WordFreq.

(** words per streaming chunk *)
Definition _CHUNK_SIZE : Z := 20000.

(** [_chunk_iterable(it, size)]: the chunks that the generator yields,
    in order; [chunk] is the list being filled. *)
Fixpoint chunk_loop (it : list string) (size : Z) (chunk : list string)
  : list (list string) :=
  match it with
  | [] => match chunk with [] => [] | _ => [chunk] end
  | word :: it' =>
      let chunk := chunk ++ [word] in
      if (size <=? Z.of_nat (length chunk))%Z
      then chunk :: chunk_loop it' size []
      else chunk_loop it' size chunk
  end.

Definition _chunk_iterable (it : list string) (size : Z) : list (list string) :=
  chunk_loop it size [].

(** [collections.Counter]: a dict of counts; a dict keeps its keys in
    the order in which they were first inserted. *)
Definition counter := list (string * nat).

(** [self.get(elem, 0)] *)
Fixpoint get (c : counter) (elem : string) : nat :=
  match c with
  | [] => 0
  | (k, n) :: c' => if String.eqb k elem then n else get c' elem
  end.

(** [self[elem] = n] *)
Fixpoint set (c : counter) (elem : string) (n : nat) : counter :=
  match c with
  | [] => [(elem, n)]
  | (k, m) :: c' => if String.eqb k elem then (k, n) :: c' else (k, m) :: set c' elem n
  end.

(** [_count_elements(mapping, iterable)]:
    [mapping[elem] = mapping.get(elem, 0) + 1] for every element. *)
Definition count_elements (mapping : counter) (iterable : list string) : counter :=
  List.fold_left (fun m elem => set m elem (get m elem + 1)) iterable mapping.

(** [Counter(iterable)] *)
Definition Counter (iterable : list string) : counter := count_elements [] iterable.

(** [Counter.update(other)] with a mapping: [dict.update] when the
    counter is empty, and otherwise
    [self[elem] = count + self.get(elem, 0)] for every item of [other]. *)
Definition update (self other : counter) : counter :=
  match self with
  | [] => List.fold_left (fun m '(elem, count) => set m elem count) other []
  | _ => List.fold_left (fun m '(elem, count) => set m elem (count + get m elem)) other self
  end.

(** [_count_chunk(chunk, words_filter)] *)
Definition _count_chunk (chunk : list string) (words_filter : option (gset string))
  : counter :=
  let chunk :=
    match words_filter with
    | Some s => List.filter (fun w => bool_decide (w ∈ s)) chunk
    | None => chunk
    end in
  Counter chunk.

(** [map_reduce_stream(words_iter, backend, words_filter)].  Whichever
    executor [backend] selects, it applies [_count_chunk] to every
    chunk, and the results are read in the order of submission. *)
Definition map_reduce_stream (words_iter : list string) (backend : string)
    (words_filter : option (gset string)) : counter :=
  let counters :=
    List.map (fun chunk => _count_chunk chunk words_filter)
             (_chunk_iterable words_iter _CHUNK_SIZE) in
  let total := [] in
  List.fold_left update counters total.

(** *** Vocabulary *)

(** [list(freq)]: the keys, in the order of the dict. *)
Definition keys (c : counter) : list string := c.*1.

(** [sum(freq.values())] *)
Fixpoint sum_values (c : counter) : nat :=
  match c with
  | [] => 0
  | (_, n) :: c' => n + sum_values c'
  end.

(** The number of times [k] occurs in [ws]. *)
Definition occurrences (k : string) (ws : list string) : nat :=
  length (List.filter (String.eqb k) ws).

(** The words of [ws] that are not in [seen], each once, in the order
    of their first occurrence. *)
Fixpoint first_seen (seen : list string) (ws : list string) : list string :=
  match ws with
  | [] => []
  | w :: ws' =>
      if decide (w ∈ seen) then first_seen seen ws'
      else w :: first_seen (w :: seen) ws'
  end.

(** The general branch of [update]. *)
Definition merge_counts (self other : counter) : counter :=
  List.fold_left (fun m '(elem, count) => set m elem (count + get m elem)) other self.

(** The words that [_count_chunk] counts. *)
Definition selected (words : list string) (words_filter : option (gset string))
  : list string :=
  match words_filter with
  | Some s => List.filter (fun w => bool_decide (w ∈ s)) words
  | None => words
  end.

(** The number of words of a full chunk. *)
Definition full (size : Z) : nat := Z.to_nat (Z.max 1 size).

End WordFreq.

(** * Properties *)

(** ** Test vectors of the digest *)

Example sha_abc : Sha256.hexdigest (bytes_of "abc")
  = "ba7816bf8f01cfea414140de5dae2223b00361a396177a9cb410ff61f20015ad".
Proof. vm_compute. reflexivity. Qed.

Example sha_empty : Sha256.hexdigest []
  = "e3b0c44298fc1c149afbf4c8996fb92427ae41e4649b934ca495991b7852b855".
Proof. vm_compute. reflexivity. Qed.

Example sha_hello : Sha256.hexdigest (bytes_of "hello")
  = "2cf24dba5fb0a30e26e83b2ac5b9e29e1b161e5c1fa7425e73043362938b9824".
Proof. vm_compute. reflexivity. Qed.

Example sha_two_blocks :
  Sha256.hexdigest (bytes_of "abcdbcdecdefdefgefghfghighijhijkijkljklmklmnlmnomnopnopq")
  = "248d6a61d20638b8e5c026930c3e6039a33ce45964ff2167f6ecedd419db06c1".
Proof. vm_compute. reflexivity. Qed.

(** ** [str.lower()]: decoding, the case tables and encoding *)

Section Lower.
Import Unicode.
Local Open Scope N_scope.

Lemma continuation_spec (b : N) : continuation b = true -> 128 <= b <= 191.
Proof. unfold continuation. intros [?%N.leb_le ?%N.leb_le]%andb_true_iff. lia. Qed.

Lemma second_of_three_spec (b0 b1 : N) :
  second_of_three b0 b1 = true -> 128 <= b1 <= 191 ∧ (b0 = 224 -> 160 <= b1).
Proof.
  unfold second_of_three.
  destruct (N.eqb_spec b0 224); [|destruct (N.eqb_spec b0 237)].
  - intros [?%N.leb_le ?%N.leb_le]%andb_true_iff. lia.
  - intros [?%N.leb_le ?%N.leb_le]%andb_true_iff. lia.
  - intros ?%continuation_spec. lia.
Qed.

Lemma second_of_four_spec (b0 b1 : N) :
  second_of_four b0 b1 = true -> 128 <= b1 <= 191 ∧ (b0 = 240 -> 144 <= b1).
Proof.
  unfold second_of_four.
  destruct (N.eqb_spec b0 240); [|destruct (N.eqb_spec b0 244)].
  - intros [?%N.leb_le ?%N.leb_le]%andb_true_iff. lia.
  - intros [?%N.leb_le ?%N.leb_le]%andb_true_iff. lia.
  - intros ?%continuation_spec. lia.
Qed.

(** A code point below 128 is one byte, the code point itself; the
    others take the bytes of a longer sequence. *)
Lemma first_code_point_spec (bs : list N) (c : N) (rest : list N) :
  first_code_point bs = Some (c, rest) ->
  (c < 128 ∧ bs = c :: rest) ∨ (128 <= c < code_point_bound ∧ ∃ b pre, bs = b :: pre ++ rest).
Proof.
  unfold code_point_bound, first_code_point.
  destruct bs as [|b0 r0]; [discriminate|].
  destruct (N.ltb_spec b0 128); [intros [= <- <-]; by left|].
  destruct r0 as [|b1 r1]; [discriminate|].
  destruct ((194 <=? b0) && (b0 <=? 223)) eqn:E2.
  { apply andb_true_iff in E2 as [?%N.leb_le ?%N.leb_le].
    destruct (continuation b1) eqn:E1; [|discriminate].
    apply continuation_spec in E1.
    intros [= <- <-]. right. split; [lia|]. by exists b0, [b1]. }
  destruct r1 as [|b2 r2]; [discriminate|].
  destruct ((224 <=? b0) && (b0 <=? 239)) eqn:E3.
  { apply andb_true_iff in E3 as [?%N.leb_le ?%N.leb_le].
    destruct (second_of_three b0 b1 && continuation b2) eqn:E1; [|discriminate].
    apply andb_true_iff in E1 as [[? ?]%second_of_three_spec ?%continuation_spec].
    intros [= <- <-]. right. split; [|by exists b0, [b1; b2]].
    destruct (decide (b0 = 224)); lia. }
  destruct r2 as [|b3 r3]; [discriminate|].
  destruct ((240 <=? b0) && (b0 <=? 244) && second_of_four b0 b1
            && continuation b2 && continuation b3) eqn:E4; [|discriminate].
  apply andb_true_iff in E4 as [E4 ?%continuation_spec].
  apply andb_true_iff in E4 as [E4 ?%continuation_spec].
  apply andb_true_iff in E4 as [E4 [? ?]%second_of_four_spec].
  apply andb_true_iff in E4 as [?%N.leb_le ?%N.leb_le].
  intros [= <- <-]. right. split; [|by exists b0, [b1; b2; b3]].
  destruct (decide (b0 = 240)); lia.
Qed.

Lemma decode_from_cons (n : nat) (b : N) (rest : list N) :
  b < 128 -> decode_from (S n) (b :: rest) = b :: decode_from n rest.
Proof.
  intros Hb. simpl. by destruct (N.ltb_spec b 128); [|lia].
Qed.

Lemma decode_cons (b : N) (rest : list N) :
  b < 128 -> decode (b :: rest) = b :: decode rest.
Proof. apply decode_from_cons. Qed.

(** The code points of a name: below [code_point_bound], and one below 128 is a
    byte of the name. *)
Lemma decode_from_spec (n : nat) (bs : list N) :
  Forall (fun b => b < 256) bs ->
  Forall (fun c => c < code_point_bound ∧ (c < 128 -> c ∈ bs)) (decode_from n bs).
Proof.
  revert bs. induction n as [|n IH]; intros bs Hb; [constructor|].
  destruct bs as [|b0 rest]; [constructor|].
  cbn [decode_from].
  destruct (first_code_point (b0 :: rest)) as [[c rest']|] eqn:E.
  - apply first_code_point_spec in E as [[Hc E]|[Hc (b & pre & E)]].
    + injection E as -> ->. constructor; [unfold code_point_bound; split; [lia|set_solver]|].
      apply Forall_cons in Hb as [_ Hb].
      eapply Forall_impl; [apply IH, Hb|]. intros c0 [? Hin]. split; [done|set_solver].
    + constructor; [split; lia|].
      rewrite E in Hb |- *.
      apply Forall_cons in Hb as [_ [_ Hb]%Forall_app].
      eapply Forall_impl; [apply IH, Hb|]. intros c' [? Hin]. split; [done|].
      intros Hc'. apply elem_of_cons. right. apply elem_of_app. right. by apply Hin.
  - apply Forall_cons in Hb as [H0 Hb].
    constructor; [unfold code_point_bound; split; lia|].
    eapply Forall_impl; [apply IH, Hb|]. intros c0 [? Hin]. split; [done|set_solver].
Qed.

Lemma decode_nonempty (bs : list N) : bs ≠ [] -> decode bs ≠ [].
Proof.
  destruct bs as [|b0 rest]; [done|]. intros _.
  unfold decode. cbn [length decode_from]. by destruct (first_code_point _) as [[? ?]|].
Qed.

(** The table of lower-case mappings: every image is a code point from
    [a] on and below [code_point_bound]. *)
Lemma lower_ranges_images (a b s t : N) :
  (a, b, s, t) ∈ lower_ranges -> 97 <= t ∧ t + (b - a) < code_point_bound.
Proof.
  assert (forallb (fun r => let '(a, b, s, t) := r in
                            (97 <=? t) && (t + (b - a) <? code_point_bound)) lower_ranges = true) as H
    by (vm_compute; reflexivity).
  rewrite forallb_forall in H.
  intros Hin%list_elem_of_In. specialize (H _ Hin). simpl in H.
  apply andb_true_iff in H as [?%N.leb_le ?%N.ltb_lt]. done.
Qed.

Lemma to_lower_spec (c : N) :
  c < code_point_bound -> to_lower c < code_point_bound ∧ (to_lower c < 97 -> to_lower c = c).
Proof.
  intros Hc. unfold to_lower.
  destruct (find _ lower_ranges) as [[[[a b] s] t]|] eqn:E; [|done].
  apply find_some in E as [Hin Hm].
  apply list_elem_of_In, lower_ranges_images in Hin as [? ?].
  apply andb_true_iff in Hm as [Hm _].
  apply andb_true_iff in Hm as [?%N.leb_le ?%N.leb_le].
  split; lia.
Qed.

Lemma to_lower_full_spec (c : N) :
  c < code_point_bound -> Forall (fun c' => c' < code_point_bound ∧ (c' < 97 -> c' = c)) (to_lower_full c).
Proof.
  intros Hc. unfold to_lower_full. destruct (N.eqb_spec c 304).
  - repeat constructor; unfold code_point_bound; lia.
  - repeat constructor; by apply to_lower_spec.
Qed.

Lemma to_lower_full_nonempty (c : N) : to_lower_full c ≠ [].
Proof. unfold to_lower_full. by destruct (c =? 304). Qed.

(** Lower-casing keeps the code points below [code_point_bound] and brings in no
    code point below [a] that was not there. *)
Lemma lower_from_spec (after_cased : bool) (cs : list N) :
  Forall (fun c => c < code_point_bound) cs ->
  Forall (fun c' => c' < code_point_bound ∧ (c' < 97 -> c' ∈ cs)) (lower_from after_cased cs).
Proof.
  revert after_cased. induction cs as [|c cs IH]; intros after_cased Hcs; [constructor|].
  apply Forall_cons in Hcs as [Hc Hcs]. cbn [lower_from].
  apply Forall_app. split.
  - destruct (c =? 931).
    + repeat constructor; unfold code_point_bound; destruct (_ && _); lia.
    + eapply Forall_impl; [by apply to_lower_full_spec|].
      intros c' [? Hin]. split; [done|]. intros ->%Hin. set_solver.
  - eapply Forall_impl; [by apply IH|]. intros c' [? Hin]. split; [done|set_solver].
Qed.

Lemma lower_from_nonempty (after_cased : bool) (cs : list N) :
  cs ≠ [] -> lower_from after_cased cs ≠ [].
Proof.
  destruct cs as [|c cs]; [done|]. intros _. cbn [lower_from].
  destruct (c =? 931); [done|].
  pose proof (to_lower_full_nonempty c). by destruct (to_lower_full c).
Qed.

Lemma encode_code_point_spec (c : N) :
  c < code_point_bound -> Forall (fun b => b < 256 ∧ (b < 128 -> b = c)) (encode_code_point c).
Proof.
  unfold code_point_bound, encode_code_point. intros Hc.
  pose proof (N.mod_upper_bound c 64 ltac:(lia)).
  pose proof (N.mod_upper_bound (c / 64) 64 ltac:(lia)).
  pose proof (N.mod_upper_bound (c / 4096) 64 ltac:(lia)).
  assert (c < 2048 -> c / 64 < 32) by (intros; apply N.Div0.div_lt_upper_bound; lia).
  assert (c < 65536 -> c / 4096 < 16) by (intros; apply N.Div0.div_lt_upper_bound; lia).
  assert (c / 262144 < 8) by (apply N.Div0.div_lt_upper_bound; lia).
  pose proof (N.le_0_l (c / 64)). pose proof (N.le_0_l (c / 4096)).
  pose proof (N.le_0_l (c / 262144)). pose proof (N.le_0_l (c mod 64)).
  pose proof (N.le_0_l ((c / 64) mod 64)). pose proof (N.le_0_l ((c / 4096) mod 64)).
  destruct (N.ltb_spec c 128); [|destruct ((56448 <=? c) && (c <=? 56575)) eqn:E;
    [apply andb_true_iff in E as [?%N.leb_le ?%N.leb_le]
    |destruct (N.ltb_spec c 2048); [|destruct (N.ltb_spec c 65536)]]];
    repeat (apply List.Forall_cons; [cbv beta; split; [lia | intros; lia]|]); apply List.Forall_nil.
Qed.

Lemma encode_code_point_nonempty (c : N) : encode_code_point c ≠ [].
Proof. unfold encode_code_point. by repeat case_match. Qed.

Lemma encode_spec (cs : list N) :
  Forall (fun c => c < code_point_bound) cs ->
  Forall (fun b => b < 256 ∧ (b < 128 -> b ∈ cs)) (encode cs).
Proof.
  induction cs as [|c cs IH]; intros Hcs; [constructor|].
  apply Forall_cons in Hcs as [Hc Hcs]. unfold encode. cbn [flat_map].
  apply Forall_app. split.
  - eapply Forall_impl; [by apply encode_code_point_spec|].
    intros b [? Hin]. split; [done|]. intros ->%Hin. set_solver.
  - eapply Forall_impl; [by apply IH|]. intros b [? Hin]. split; [done|set_solver].
Qed.

Lemma encode_nonempty (cs : list N) : cs ≠ [] -> encode cs ≠ [].
Proof.
  destruct cs as [|c cs]; [done|]. intros _. unfold encode. cbn [flat_map].
  pose proof (encode_code_point_nonempty c). by destruct (encode_code_point c).
Qed.

(** *** On strings *)

Lemma bytes_bounded (s : string) : Forall (fun b => b < 256) (PyStr.bytes s).
Proof.
  unfold PyStr.bytes. induction s as [|a s IH]; constructor; [apply N_ascii_bounded | done].
Qed.

Lemma bytes_dot_free (s : string) : PyStr.rfind "." s = None -> 46 ∉ PyStr.bytes s.
Proof.
  unfold PyStr.bytes. induction s as [|a s IH]; [intros _; apply not_elem_of_nil|].
  simpl. destruct (PyStr.rfind "." s); [discriminate|].
  destruct (Ascii.eqb a ".") eqn:E; [discriminate|]. intros _.
  apply Ascii.eqb_neq in E. apply not_elem_of_cons. split; [|by apply IH].
  intros Ha. apply E. rewrite <- (ascii_N_embedding a), <- Ha. reflexivity.
Qed.

Lemma of_bytes_dot_free (bs : list N) :
  Forall (fun b => b < 256) bs -> 46 ∉ bs -> PyStr.rfind "." (PyStr.of_bytes bs) = None.
Proof.
  unfold PyStr.of_bytes. induction bs as [|b bs IH]; [done|].
  intros [Hb Hbs]%Forall_cons [Hne Hnin]%not_elem_of_cons. simpl.
  rewrite (IH Hbs Hnin).
  destruct (Ascii.eqb (ascii_of_N b) ".") eqn:E; [|done].
  apply Ascii.eqb_eq in E. exfalso. apply Hne.
  rewrite <- (N_ascii_embedding b Hb), E. reflexivity.
Qed.

(** The code points and the bytes of the lower-cased name. *)
Lemma lower_code_points_spec (s : string) :
  Forall (fun c => c < code_point_bound ∧ (c < 97 -> c ∈ PyStr.bytes s))
         (lower_code_points (decode (PyStr.bytes s))).
Proof.
  pose proof (decode_from_spec (length (PyStr.bytes s)) _ (bytes_bounded s)) as Hd.
  eapply Forall_impl; [apply lower_from_spec|].
  - eapply Forall_impl; [exact Hd|]. by intros c [? _].
  - intros c [? Hin]. split; [done|]. intros Hc.
    rewrite Forall_forall in Hd. apply (Hd _ (Hin Hc)). lia.
Qed.

Lemma lower_bytes (s : string) :
  Forall (fun b => b < 256 ∧ (b < 97 -> b ∈ PyStr.bytes s))
         (encode (lower_code_points (decode (PyStr.bytes s)))).
Proof.
  pose proof (lower_code_points_spec s) as Hl.
  eapply Forall_impl; [apply encode_spec|].
  - eapply Forall_impl; [exact Hl|]. by intros c [? _].
  - intros b [? Hin]. split; [done|]. intros Hb.
    rewrite Forall_forall in Hl. apply (Hl _ (Hin ltac:(lia))). lia.
Qed.

(** Lower-casing brings no dot into a name. *)
Lemma rfind_lower (r : string) :
  PyStr.rfind "." r = None -> PyStr.rfind "." (PyStr.lower r) = None.
Proof.
  intros Hr%bytes_dot_free. unfold PyStr.lower.
  pose proof (lower_bytes r) as Hl.
  apply of_bytes_dot_free.
  - eapply Forall_impl; [exact Hl|]. by intros b [? _].
  - intros Hin. rewrite Forall_forall in Hl.
    destruct (Hl _ Hin) as [_ H46]. apply Hr, H46. lia.
Qed.

Lemma lower_nonempty (r : string) : r ≠ "" -> PyStr.lower r ≠ "".
Proof.
  intros Hr. unfold PyStr.lower.
  assert (PyStr.bytes r ≠ []) as Hb by (by destruct r).
  apply decode_nonempty, (lower_from_nonempty false), encode_nonempty in Hb.
  unfold PyStr.of_bytes. by destruct (encode _).
Qed.

(** The dot that starts a suffix is kept, and what follows is lower-cased
    as it is alone: a dot is case-ignorable. *)
Lemma lower_dot (r : string) : PyStr.lower (String "." r) = String "." (PyStr.lower r).
Proof.
  unfold PyStr.lower.
  change (PyStr.bytes (String "." r)) with (46 :: PyStr.bytes r).
  rewrite decode_cons by lia.
  unfold lower_code_points. cbn [lower_from].
  assert (is_case_ignorable 46 = true) as -> by (vm_compute; reflexivity).
  assert (to_lower_full 46 = [46]) as -> by (vm_compute; reflexivity).
  reflexivity.
Qed.

Lemma lower_dot_free (r : string) :
  PyStr.rfind "." r = None -> PyStr.lstrip_dot (PyStr.lower r) = PyStr.lower r.
Proof.
  intros Hr%rfind_lower. destruct (PyStr.lower r) as [|a s]; [done|].
  simpl in *. destruct (PyStr.rfind "." s); [discriminate|].
  by destruct (Ascii.eqb a ".").
Qed.

(** *** The ASCII range: [A-Z] go to [a-z], the other characters stay *)

Lemma to_lower_ascii (a : ascii) :
  N_of_ascii a < 128 ->
  N_of_ascii a ≠ 931 ∧ to_lower_full (N_of_ascii a) = [N_of_ascii (ascii_lower a)].
Proof.
  destruct a as [[] [] [] [] [] [] [] []]; intros H; try (exfalso; vm_compute in H; discriminate H);
    split; first [ discriminate | vm_compute; reflexivity ].
Qed.

Lemma lower_from_ascii (after_cased : bool) (l : list ascii) :
  Forall (fun a => N_of_ascii a < 128) l ->
  lower_from after_cased (List.map N_of_ascii l) = List.map N_of_ascii (List.map ascii_lower l).
Proof.
  revert after_cased. induction l as [|a l IH]; intros after_cased Hl; [done|].
  apply Forall_cons in Hl as [Ha Hl]. cbn [List.map lower_from].
  destruct (to_lower_ascii a Ha) as [Hne ->].
  destruct (N.eqb_spec (N_of_ascii a) 931); [done|].
  simpl. f_equal. by apply IH.
Qed.

Lemma decode_ascii (bs : list N) : Forall (fun b => b < 128) bs -> decode bs = bs.
Proof.
  induction bs as [|b bs IH]; [done|]. intros [Hb Hbs]%Forall_cons.
  rewrite decode_cons by done. f_equal. by apply IH.
Qed.

Lemma encode_ascii (cs : list N) : Forall (fun c => c < 128) cs -> encode cs = cs.
Proof.
  induction cs as [|c cs IH]; [done|]. intros [Hc Hcs]%Forall_cons.
  unfold encode in *. cbn [flat_map]. rewrite (IH Hcs).
  unfold encode_code_point. by destruct (N.ltb_spec c 128); [|lia].
Qed.

Lemma ascii_lower_bounded (a : ascii) : N_of_ascii a < 128 -> N_of_ascii (ascii_lower a) < 128.
Proof.
  destruct a as [[] [] [] [] [] [] [] []]; vm_compute; congruence.
Qed.

(** On a name of ASCII characters [str.lower()] replaces every letter of
    [A-Z] by the letter 32 places further and keeps the rest. *)
Lemma lower_ascii (s : string) :
  Forall (fun a => (nat_of_ascii a < 128)%nat) (list_ascii_of_string s) ->
  list_ascii_of_string (PyStr.lower s) = List.map ascii_lower (list_ascii_of_string s).
Proof.
  intros Hs.
  assert (Forall (fun a => N_of_ascii a < 128) (list_ascii_of_string s)) as Hs'.
  { eapply Forall_impl; [exact Hs|]. intros a Ha. unfold nat_of_ascii in Ha. lia. }
  unfold PyStr.lower, PyStr.bytes, PyStr.of_bytes.
  rewrite decode_ascii by (by apply Forall_map).
  unfold lower_code_points. rewrite (lower_from_ascii false _ Hs').
  rewrite encode_ascii.
  - rewrite list_ascii_of_string_of_list_ascii, !List.map_map.
    apply List.map_ext. intros a. apply ascii_N_embedding.
  - apply Forall_map, Forall_map. eapply Forall_impl; [exact Hs'|].
    intros a. apply ascii_lower_bounded.
Qed.

End Lower.

(** ** Names, stems and suffixes *)

Section Names.

Lemma append_cons (a : ascii) (s t : string) : String a s +:+ t = String a (s +:+ t).
Proof. reflexivity. Qed.

Lemma append_nil_r (s : string) : s +:+ "" = s.
Proof. induction s; [reflexivity | by rewrite append_cons, IHs]. Qed.

Lemma str_take_drop (i : nat) (s : string) : PyStr.take i s +:+ PyStr.drop i s = s.
Proof.
  revert i; induction s as [|a s IH]; intros [|i]; simpl; try reflexivity.
  by rewrite append_cons, IH.
Qed.

Lemma str_length_append (s t : string) :
  String.length (s +:+ t) = String.length s + String.length t.
Proof.
  induction s; [reflexivity | rewrite append_cons; simpl; by rewrite IHs].
Qed.

Lemma str_length_take (i : nat) (s : string) :
  String.length (PyStr.take i s) = Nat.min i (String.length s).
Proof.
  revert i; induction s as [|a s IH]; intros [|i]; simpl; try reflexivity.
  f_equal. apply IH.
Qed.

(** Where [rfind] finds the character, the rest holds it no more. *)
Lemma rfind_Some (c : ascii) (s : string) (i : nat) :
  PyStr.rfind c s = Some i ->
  ∃ r, PyStr.drop i s = String c r ∧ PyStr.rfind c r = None
       ∧ String.length s = i + 1 + String.length r.
Proof.
  revert i; induction s as [|a s IH]; intros i; simpl; [discriminate|].
  destruct (PyStr.rfind c s) as [j|] eqn:Hj.
  - intros [= <-]. destruct (IH j eq_refl) as (r & Hd & Hr & Hl).
    exists r; simpl; split_and!; try assumption; lia.
  - destruct (Ascii.eqb a c) eqn:Hac; [|discriminate].
    intros [= <-]. apply Ascii.eqb_eq in Hac as ->.
    exists s; simpl; split_and!; try done; lia.
Qed.

Lemma rfind_None_head (c a : ascii) (s : string) :
  PyStr.rfind c (String a s) = None -> a ≠ c ∧ PyStr.rfind c s = None.
Proof.
  simpl. destruct (PyStr.rfind c s); [discriminate|].
  destruct (Ascii.eqb a c) eqn:Hac; [discriminate|].
  intros _. split; [|reflexivity]. by apply Ascii.eqb_neq.
Qed.

Lemma split_point_Some (nm : string) (i : nat) :
  PyPath.split_point nm = Some i ->
  ∃ r, PyStr.drop i nm = String "." r ∧ r ≠ "" ∧ PyStr.rfind "." r = None ∧ 0 < i.
Proof.
  unfold PyPath.split_point.
  destruct (PyStr.rfind "." nm) as [j|] eqn:Hj; [|discriminate].
  destruct (0 <? j)%nat eqn:H0; simpl; [|discriminate].
  destruct (j <? String.length nm - 1)%nat eqn:H1; [|discriminate].
  intros [= <-].
  destruct (rfind_Some _ _ _ Hj) as (r & Hd & Hr & Hl).
  apply Nat.ltb_lt in H0, H1.
  exists r; split_and!; try assumption.
  intros ->; simpl in Hl; lia.
Qed.

(** [stem + suffix == name] *)
Lemma stem_suffix (nm : string) : PyPath.stem_of nm +:+ PyPath.suffix_of nm = nm.
Proof.
  unfold PyPath.stem_of, PyPath.suffix_of.
  destruct (PyPath.split_point nm) as [i|]; [apply str_take_drop | apply append_nil_r].
Qed.

(** A suffix is empty, or a dot followed by a non-empty dot-free tail. *)
Lemma suffix_shape (nm : string) :
  PyPath.suffix_of nm = "" ∨
  ∃ r, PyPath.suffix_of nm = String "." r ∧ r ≠ "" ∧ PyStr.rfind "." r = None.
Proof.
  unfold PyPath.suffix_of.
  destruct (PyPath.split_point nm) as [i|] eqn:Hi; [right | by left].
  destruct (split_point_Some _ _ Hi) as (r & Hd & Hne & Hr & _). eauto.
Qed.

(** A name without suffix is its own stem. *)
Lemma stem_no_suffix (nm : string) : PyPath.suffix_of nm = "" -> PyPath.stem_of nm = nm.
Proof.
  intros Hs. rewrite <- (stem_suffix nm) at 2. by rewrite Hs, append_nil_r.
Qed.

(** The extension folder of a path, by the shape of its suffix. *)
Lemma ext_folder_no_suffix (p : path) :
  PyPath.suffix p = "" -> ext_folder_of p = "no_extension".
Proof. unfold ext_folder_of. by intros ->. Qed.

Lemma ext_folder_suffix (p : path) (r : string) :
  PyPath.suffix p = String "." r -> ext_folder_of p = PyStr.lower r.
Proof.
  intros Hs. unfold ext_folder_of. rewrite Hs.
  destruct (suffix_shape (PyPath.name p)) as [He|(r' & Hr' & Hne & Hfree)];
    unfold PyPath.suffix in Hs; rewrite Hs in *; [discriminate|].
  injection Hr' as <-.
  rewrite lower_dot.
  change (PyStr.lstrip_dot (String "." (PyStr.lower r)))
    with (PyStr.lstrip_dot (PyStr.lower r)).
  rewrite (lower_dot_free _ Hfree).
  pose proof (lower_nonempty _ Hne).
  by destruct (PyStr.lower r).
Qed.

Lemma ext_folder_nonempty (p : path) : ext_folder_of p ≠ "".
Proof.
  destruct (suffix_shape (PyPath.name p)) as [He|(r & Hr & Hne & _)].
  - by rewrite (ext_folder_no_suffix p He).
  - rewrite (ext_folder_suffix p r Hr). by apply lower_nonempty.
Qed.

(** The suffixed name is nine characters longer than the original when
    the hash has at least eight. *)
Lemma length_renamed (p : path) (h : string) :
  String.length (renamed p h)
  = String.length (PyPath.name p) + 1 + Nat.min 8 (String.length h).
Proof.
  pose proof (f_equal String.length (stem_suffix (PyPath.name p))) as E.
  rewrite str_length_append in E.
  unfold renamed. rewrite !str_length_append, str_length_take.
  unfold PyPath.stem, PyPath.suffix. simpl. lia.
Qed.

Lemma renamed_neq_name (p : path) (h : string) : renamed p h ≠ PyPath.name p.
Proof.
  intros E. pose proof (length_renamed p h) as L. rewrite E in L. lia.
Qed.

Lemma name_join (d : path) (c : string) : PyPath.name (PyPath.join d c) = c.
Proof. unfold PyPath.name, PyPath.join. apply List.last_last. Qed.

Lemma parent_join (d : path) (c : string) : PyPath.parent (PyPath.join d c) = d.
Proof. unfold PyPath.parent, PyPath.join. apply List.removelast_last. Qed.

Lemma join_inj (d : path) (c c' : string) : PyPath.join d c = PyPath.join d c' -> c = c'.
Proof. unfold PyPath.join. intros H. by simplify_list_eq. Qed.

Lemma is_proper_ancestor_spec (d f : path) :
  PyPath.is_proper_ancestor d f = true ↔ ∃ rest, rest ≠ [] ∧ f = d ++ rest.
Proof.
  revert f; induction d as [|a d IH]; intros [|b f]; simpl.
  - split; [discriminate | intros (r & Hr & E); by destruct r].
  - split; [intros _; by exists (b :: f) | reflexivity].
  - split; [discriminate | intros (r & _ & E); discriminate].
  - destruct (String.eqb a b) eqn:Hab.
    + apply String.eqb_eq in Hab as ->. rewrite IH.
      split; intros (r & Hr & E); exists r; split; congruence.
    + apply String.eqb_neq in Hab.
      split; [discriminate | intros (r & _ & E); congruence].
Qed.

End Names.

(** ** The digest is 64 lower-case hexadecimal characters *)

Section Digest.

Lemma length_hex32 (x : Z) (tl : string) :
  String.length (Sha256.hex32 x tl) = 8 + String.length tl.
Proof. reflexivity. Qed.

Lemma length_hexdigest (data : list byte) :
  String.length (Sha256.hexdigest data) = 64.
Proof. reflexivity. Qed.

Lemma length_short_hash (data : list byte) :
  String.length (PyStr.take 8 (Sha256.hexdigest data)) = 8.
Proof. rewrite str_length_take, length_hexdigest. reflexivity. Qed.

Lemma hex_digit_not_dot (n : Z) : Ascii.eqb (Sha256.hex_digit n) "." = false.
Proof.
  unfold Sha256.hex_digit. generalize (Z.to_nat n) as k. intros k.
  do 17 (destruct k as [|k]; [reflexivity|]). destruct k; reflexivity.
Qed.

(** The short hash holds no dot. *)
Lemma short_hash_no_dot (data : list byte) :
  PyStr.rfind "." (PyStr.take 8 (Sha256.hexdigest data)) = None.
Proof.
  unfold Sha256.hexdigest, Sha256.hex_of_regs.
  generalize (Sha256.digest (List.map (fun b => Z.of_N (Byte.to_N b)) data)) as r.
  intros r. unfold Sha256.hex32 at 1. cbn [PyStr.take PyStr.rfind].
  by rewrite !hex_digit_not_dot.
Qed.

End Digest.

(** ** [os.makedirs] *)

Section Makedirs.

Implicit Types (m : gmap path node) (p done todo : path).

(** [makedirs] only adds directories, and only at missing prefixes. *)
Lemma makedirs_from_lookup done todo m m' err p :
  makedirs_from done todo m = (m', err) ->
  m' !! p = m !! p ∨
  (m !! p = None ∧ m' !! p = Some Dir
   ∧ ∃ pre suf, pre ≠ [] ∧ todo = pre ++ suf ∧ p = done ++ pre).
Proof.
  revert done m; induction todo as [|c todo IH]; intros done m; simpl.
  - intros [= <- _]. by left.
  - destruct (m !! (done ++ [c])) as [[|r wr d]|] eqn:Hc.
    + intros H. destruct (IH _ _ H) as [E|(Hn & Hd & pre & suf & Hpre & -> & ->)];
        [by left | right].
      split_and!; try done. exists (c :: pre), suf.
      split_and!; [done | done | by rewrite <- app_assoc].
    + intros [= <- _]. by left.
    + intros H. destruct (IH _ _ H) as [E|(Hn & Hd & pre & suf & Hpre & -> & ->)].
      * destruct (decide (p = done ++ [c])) as [->|Hne].
        -- right. rewrite E, lookup_insert_eq. split_and!; try done.
           by exists [c], todo.
        -- left. by rewrite E, lookup_insert_ne.
      * right. rewrite lookup_insert_None in Hn. destruct Hn as [Hn _].
        split_and!; try done. exists (c :: pre), suf.
        split_and!; [done | done | by rewrite <- app_assoc].
Qed.

Lemma makedirs_from_keeps done todo m m' err p n :
  makedirs_from done todo m = (m', err) -> m !! p = Some n -> m' !! p = Some n.
Proof.
  intros H Hp. destruct (makedirs_from_lookup _ _ _ _ _ p H) as [E|(Hn & _)];
    congruence.
Qed.

(** After a successful [makedirs] every prefix is a directory. *)
Lemma makedirs_from_ok done todo m m' pre suf :
  makedirs_from done todo m = (m', None) ->
  pre ≠ [] -> todo = pre ++ suf -> m' !! (done ++ pre) = Some Dir.
Proof.
  revert done m pre; induction todo as [|c todo IH]; intros done m pre; simpl.
  - intros _ Hpre E. by destruct pre.
  - intros H Hpre E. destruct pre as [|c' pre]; [done|].
    injection E as <- ->.
    assert (∃ m1, m1 !! (done ++ [c]) = Some Dir
                  ∧ makedirs_from (done ++ [c]) (pre ++ suf) m1 = (m', None))
      as (m1 & Hm1 & Hrec).
    { destruct (m !! (done ++ [c])) as [[|r wr d]|] eqn:Hc.
      - by exists m.
      - discriminate.
      - exists (<[done ++ [c] := Dir]> m). by rewrite lookup_insert_eq. }
    destruct pre as [|c2 pre].
    + eapply makedirs_from_keeps; eassumption.
    + rewrite (cons_middle c), app_assoc. by eapply IH.
Qed.

(** Where the directories exist already, [makedirs] changes nothing. *)
Lemma makedirs_from_noop done todo m :
  (∀ pre suf, pre ≠ [] -> todo = pre ++ suf -> m !! (done ++ pre) = Some Dir) ->
  makedirs_from done todo m = (m, None).
Proof.
  revert done; induction todo as [|c todo IH]; intros done H; simpl; [done|].
  rewrite (H [c] todo) by done.
  apply IH. intros pre suf Hpre ->.
  rewrite <- app_assoc. by apply (H (c :: pre) suf).
Qed.

Lemma makedirs_idem p m m' : makedirs p m = (m', None) -> makedirs p m' = (m', None).
Proof.
  intros H. apply makedirs_from_noop. intros pre suf Hpre ->.
  by eapply makedirs_from_ok.
Qed.

Lemma makedirs_is_dir p m m' : makedirs p m = (m', None) -> is_dir m' p = true.
Proof.
  intros H. destruct p as [|c p]; [done|].
  unfold is_dir.
  pose proof (makedirs_from_ok [] (c :: p) m m' (c :: p) [] H) as E.
  simpl in E. rewrite E; [done | done | by rewrite app_nil_r].
Qed.

(** A path that is not a prefix of [p] is left as it was. *)
Lemma makedirs_other p m m' err q :
  makedirs p m = (m', err) -> length p < length q -> m' !! q = m !! q.
Proof.
  intros H Hlen.
  destruct (makedirs_from_lookup _ _ _ _ _ q H)
    as [E|(_ & _ & pre & suf & _ & -> & ->)]; [done|].
  rewrite length_app in Hlen. simpl in Hlen. lia.
Qed.

Lemma is_dir_makedirs_mono p m m' err q :
  makedirs p m = (m', err) -> is_dir m q = true -> is_dir m' q = true.
Proof.
  intros H. unfold is_dir. destruct q as [|c q]; [done|].
  destruct (m !! (c :: q)) as [[|]|] eqn:E; try done.
  by rewrite (makedirs_from_keeps _ _ _ _ _ _ _ H E).
Qed.

Lemma is_dir_nonempty (m : gmap path node) (p : path) :
  p ≠ [] -> is_dir m p = true -> m !! p = Some Dir.
Proof.
  destruct p as [|c p]; [done|]. intros _. unfold is_dir.
  by destruct (m !! (c :: p)) as [[|]|].
Qed.

Lemma makedirs_ready (p : path) (m m1 : gmap path node) (pre suf : path) :
  makedirs p m = (m1, None) -> pre ≠ [] -> p = pre ++ suf -> is_dir m1 pre = true.
Proof.
  intros Hmk Hpre E. unfold is_dir. destruct pre as [|c pre]; [done|].
  pose proof (makedirs_from_ok [] p m m1 (c :: pre) suf Hmk Hpre E) as H.
  simpl in H. by rewrite H.
Qed.

Lemma ready_makedirs_noop (p : path) (m : gmap path node) :
  (∀ pre suf, pre ≠ [] -> p = pre ++ suf -> is_dir m pre = true) ->
  makedirs p m = (m, None).
Proof.
  intros H. apply makedirs_from_noop. intros pre suf Hpre E. simpl.
  apply is_dir_nonempty; [done|]. by eapply H.
Qed.

End Makedirs.

(** ** Running coroutines *)

Section Run.

Lemma CHUNK_SIZE_pos : 0 < CHUNK_SIZE.
Proof. unfold CHUNK_SIZE. apply Nat.neq_0_lt_0, Nat.pow_nonzero. lia. Qed.

#[local] Opaque CHUNK_SIZE.

Lemma run_bind {A B} (c : coro A) (f : A -> coro B) (w : world) :
  run (c ≫= f) w =
  match run c w with
  | (w', inr a) => run (f a) w'
  | (w', inl e) => (w', inl e)
  end.
Proof.
  unfold mbind, coro_mbind. revert w.
  induction c as [a|e|R op k IH]; intros w; simpl; try done.
  destruct (op w) as [w' r]. apply IH.
Qed.

Lemma run_try_except {A} (c : coro A) (h : exn -> coro A) (w : world) :
  run (try_except c h) w =
  match run c w with
  | (w', inr a) => (w', inr a)
  | (w', inl e) => run (h e) w'
  end.
Proof.
  revert w. induction c as [a|e|R op k IH]; intros w; simpl; try done.
  destruct (op w) as [w' r]. apply IH.
Qed.

Lemma run_Do {A R} (op : world -> world * R) (k : R -> coro A) (w : world) :
  run (Do op k) w = run (k (snd (op w))) (fst (op w)).
Proof. simpl. by destruct (op w). Qed.

Lemma run_perform {A} (op : world -> world * (exn + A)) (w : world) :
  run (perform op) w = op w.
Proof. unfold perform. simpl. by destruct (op w) as [w' [e|a]]. Qed.

Lemma take_chunk_nil (stream : list byte) : take CHUNK_SIZE stream = [] -> stream = [].
Proof.
  pose proof CHUNK_SIZE_pos. destruct stream; [done|].
  destruct CHUNK_SIZE; [lia | discriminate].
Qed.

Lemma length_drop_chunk (stream : list byte) :
  stream ≠ [] -> length (drop CHUNK_SIZE stream) < length stream.
Proof.
  pose proof CHUNK_SIZE_pos. rewrite length_drop.
  destruct stream; [done | simpl; lia].
Qed.

(** The read loop of [compute_hash] feeds the whole stream to the hash
    object, whatever the chunk size; the bound on reads is never met. *)
Lemma run_hash_loop (n : nat) (stream h : list byte) (w : world) :
  length stream < n -> run (hash_loop n stream h) w = (w, inr (h ++ stream)).
Proof.
  revert stream h; induction n as [|n IH]; intros stream h Hn; [lia|].
  simpl. destruct (take CHUNK_SIZE stream) as [|b chunk] eqn:Hc.
  - apply take_chunk_nil in Hc as ->. by rewrite app_nil_r.
  - assert (stream ≠ []) as Hne by (intros ->; by rewrite take_nil in Hc).
    pose proof (length_drop_chunk _ Hne).
    rewrite IH by lia. rewrite <- Hc, <- app_assoc, take_drop. done.
Qed.

Lemma run_logging (r : log_record) (w : world) :
  run (logging r) w = (logged r w, inr tt).
Proof. reflexivity. Qed.

(** [compute_hash] returns the digest of the file's bytes, or raises. *)
Lemma run_compute_hash (p : path) (w : world) :
  run (compute_hash p) w =
  (noted p w,
   match fs w !! p with
   | Some (File true _ data) => inr (Sha256.hexdigest data)
   | Some (File false _ _) => inl PermissionError
   | Some Dir => inl IsADirectoryError
   | None => inl FileNotFoundError
   end).
Proof.
  unfold compute_hash.
  change (run (Do (op_note_hash p) ?k) w) with (run (k tt) (noted p w)).
  cbv beta. rewrite run_bind, run_perform. unfold op_open_rb.
  change (fs (noted p w)) with (fs w).
  destruct (fs w !! p) as [[|[] wr data]|]; try done.
  rewrite run_bind, run_hash_loop by (simpl; lia). done.
Qed.

Lemma set_fs_id (w : world) : set_fs (fs w) w = w.
Proof. by destruct w. Qed.

(** The copy loop appends the whole stream to the destination file. *)
Lemma run_copy_loop (n : nat) (stream : list byte) (d : path) (w : world)
      (r wr : bool) (data0 : list byte) :
  length stream < n ->
  fs w !! d = Some (File r wr data0) ->
  run (copy_loop n stream d) w
  = (set_fs (<[d := File r wr (data0 ++ stream)]> (fs w)) w, inr tt).
Proof.
  revert stream w data0; induction n as [|n IH]; intros stream w data0 Hn Hd; [lia|].
  simpl. destruct (take CHUNK_SIZE stream) as [|b chunk] eqn:Hc.
  - apply take_chunk_nil in Hc as ->.
    by rewrite app_nil_r, insert_id, set_fs_id.
  - assert (stream ≠ []) as Hne by (intros ->; by rewrite take_nil in Hc).
    pose proof (length_drop_chunk _ Hne).
    rewrite run_Do. unfold op_write. rewrite Hd. cbn [fst snd].
    erewrite IH; [|lia|simpl; apply lookup_insert_eq].
    simpl. rewrite insert_insert_eq.
    by rewrite <- Hc, <- app_assoc, take_drop.
Qed.

End Run.

(** ** One file, processed alone *)

Section Worker.

Variables (src_path dst_root : path).

#[local] Abbreviation dest_dir := (dest_dir_of src_path dst_root).
#[local] Abbreviation natural := (natural_dest src_path dst_root).
#[local] Abbreviation renamed_to := (renamed_dest src_path dst_root).

Lemma length_dest_dir : length dest_dir = S (length dst_root).
Proof. unfold dest_dir_of, PyPath.join. rewrite length_app. simpl. lia. Qed.

Lemma length_natural : length natural = S (S (length dst_root)).
Proof.
  unfold natural_dest, PyPath.join. rewrite length_app, length_dest_dir. simpl. lia.
Qed.

Lemma length_renamed_dest h : length (renamed_dest src_path dst_root h) = S (S (length dst_root)).
Proof.
  unfold renamed_dest, PyPath.join. rewrite length_app, length_dest_dir. simpl. lia.
Qed.

(** The suffixed path is never the natural path. *)
Lemma renamed_dest_neq_natural h : renamed_dest src_path dst_root h ≠ natural.
Proof. intros E%join_inj. by apply renamed_neq_name in E. Qed.

(** The suffixed path is never the source itself. *)
Lemma renamed_dest_neq_src h : renamed_dest src_path dst_root h ≠ src_path.
Proof.
  intros E. apply (f_equal PyPath.name) in E.
  unfold renamed_dest in E. rewrite name_join in E.
  by apply renamed_neq_name in E.
Qed.

Lemma run_copy_stream (d : path) (w : world) (wr : bool) (data : list byte) :
  fs w !! src_path = Some (File true wr data) ->
  is_dir (fs w) (PyPath.parent d) = true ->
  writable_or_absent (fs w) d ->
  run (copy_stream src_path d) w = (set_fs (written (fs w) d data) w, inr tt).
Proof.
  intros Hsrc Hpar Hd. unfold copy_stream.
  rewrite run_bind, run_perform. unfold op_open_rb. rewrite Hsrc.
  rewrite run_bind, run_perform. unfold op_open_wb. rewrite Hpar.
  unfold written.
  destruct Hd as [Hd|(r & d0 & Hd)]; rewrite Hd.
  - erewrite run_copy_loop; [|lia|simpl; apply lookup_insert_eq].
    simpl. by rewrite insert_insert_eq.
  - erewrite run_copy_loop; [|lia|simpl; apply lookup_insert_eq].
    simpl. by rewrite insert_insert_eq.
Qed.

Section Cases.

Variables (w : world) (wr : bool) (data : list byte) (m1 : gmap path node).
Hypothesis Hsrc : fs w !! src_path = Some (File true wr data).
Hypothesis Hmk : makedirs dest_dir (fs w) = (m1, None).

Lemma m1_src : m1 !! src_path = Some (File true wr data).
Proof. eapply makedirs_from_keeps; eassumption. Qed.

Lemma m1_natural : m1 !! natural = fs w !! natural.
Proof.
  eapply makedirs_other; [eassumption|].
  rewrite length_natural, length_dest_dir. lia.
Qed.

Lemma m1_renamed h :
  m1 !! renamed_dest src_path dst_root h = fs w !! renamed_dest src_path dst_root h.
Proof.
  eapply makedirs_other; [eassumption|].
  rewrite length_renamed_dest, length_dest_dir. lia.
Qed.

Lemma m1_dest_dir : is_dir m1 dest_dir = true.
Proof. eapply makedirs_is_dir; eassumption. Qed.

Ltac start :=
  unfold copy_file_try, resolve_dest;
  rewrite !run_bind, run_perform;
  unfold op_makedirs; fold dest_dir; rewrite Hmk;
  rewrite run_bind, run_Do; unfold op_exists; cbn [fst snd fs set_fs];
  fold natural; rewrite m1_natural.

(** No file at the natural path: the source is copied there. *)
Lemma try_fresh :
  fs w !! natural = None ->
  run (copy_file_try src_path dst_root) w
  = (World (<[natural := File true true data]> m1)
           (log w ++ [LogCopying src_path natural]) (hash_calls w), inr tt).
Proof.
  intros Hnat. start. rewrite Hnat.
  rewrite bool_decide_eq_false_2 by (by intros [? ?]).
  change (run (Return ?a) ?w') with (w', @inr exn _ a). cbv iota beta.
  rewrite run_bind, run_logging. cbv iota beta.
  change (run (mret ?a) ?w') with (w', @inr exn _ a). cbv iota beta.
  erewrite run_copy_stream.
  - unfold written. simpl. rewrite m1_natural, Hnat. done.
  - simpl. apply m1_src.
  - unfold natural_dest. rewrite parent_join. apply m1_dest_dir.
  - left. simpl. by rewrite m1_natural.
Qed.

Ltac finish_return :=
  change (run (Return ?a) ?w') with (w', @inr exn _ a); cbv iota beta.
Ltac finish_mret :=
  change (run (mret ?a) ?w') with (w', @inr exn _ a); cbv iota beta.

(** The common start of the three cases with something at the natural
    path: both sizes are read. *)
Ltac sizes n2 Hnat :=
  start; rewrite Hnat;
  rewrite bool_decide_eq_true_2 by (by eexists);
  finish_return;
  rewrite !run_bind, run_perform; unfold op_stat_size; cbn [fs set_fs];
  rewrite m1_src; cbv iota beta;
  rewrite !run_bind, run_perform; unfold op_stat_size; cbn [fs set_fs];
  rewrite m1_natural, Hnat; cbv iota beta; cbn [st_size].

(** Same size and same digest: nothing is copied. *)
Lemma try_skip (wr' : bool) (data' : list byte) :
  fs w !! natural = Some (File true wr' data') ->
  length data' = length data ->
  Sha256.hexdigest data' = Sha256.hexdigest data ->
  run (copy_file_try src_path dst_root) w
  = (World m1 (log w ++ [LogSkipped src_path])
           (hash_calls w ++ [src_path; natural]), inr tt).
Proof.
  intros Hnat Hlen Hhash. sizes (File true wr' data') Hnat.
  rewrite Hlen, Nat.eqb_refl.
  rewrite !run_bind, run_compute_hash. cbn [fs set_fs noted].
  rewrite m1_src. cbv iota beta.
  rewrite !run_bind, run_compute_hash. cbn [fs set_fs noted].
  rewrite m1_natural, Hnat. cbv iota beta.
  rewrite Hhash, String.eqb_refl.
  rewrite !run_bind, run_logging. cbv iota beta. finish_mret.
  finish_return. unfold logged. simpl. by rewrite <- app_assoc.
Qed.

(** Same size, another digest: copied under the suffixed name. *)
Lemma try_rename_same_size (wr' : bool) (data' : list byte) :
  fs w !! natural = Some (File true wr' data') ->
  length data' = length data ->
  Sha256.hexdigest data' ≠ Sha256.hexdigest data ->
  writable_or_absent (fs w) (renamed_to (Sha256.hexdigest data)) ->
  run (copy_file_try src_path dst_root) w
  = (World (written m1 (renamed_to (Sha256.hexdigest data)) data)
           (log w ++ [LogRenamedSameSize src_path
                        (renamed src_path (Sha256.hexdigest data))])
           (hash_calls w ++ [src_path; natural]), inr tt).
Proof.
  intros Hnat Hlen Hhash Htgt. sizes (File true wr' data') Hnat.
  rewrite Hlen, Nat.eqb_refl.
  rewrite !run_bind, run_compute_hash. cbn [fs set_fs noted].
  rewrite m1_src. cbv iota beta.
  rewrite !run_bind, run_compute_hash. cbn [fs set_fs noted].
  rewrite m1_natural, Hnat. cbv iota beta.
  assert (String.eqb (Sha256.hexdigest data) (Sha256.hexdigest data') = false) as ->
    by (apply String.eqb_neq; congruence).
  rewrite !run_bind, run_logging. cbv iota beta. finish_mret.
  fold (renamed_to (Sha256.hexdigest data)).
  erewrite run_copy_stream.
  - unfold logged, set_fs. simpl. by rewrite <- app_assoc.
  - simpl. apply m1_src.
  - unfold renamed_dest. rewrite parent_join. apply m1_dest_dir.
  - unfold writable_or_absent. simpl. by rewrite m1_renamed.
Qed.

(** Another size: copied under the suffixed name, and only the source
    is hashed. *)
Lemma try_rename_diff_size (n2 : node) :
  fs w !! natural = Some n2 ->
  st_size n2 ≠ length data ->
  writable_or_absent (fs w) (renamed_to (Sha256.hexdigest data)) ->
  run (copy_file_try src_path dst_root) w
  = (World (written m1 (renamed_to (Sha256.hexdigest data)) data)
           (log w ++ [LogRenamedDiffSize src_path
                        (renamed src_path (Sha256.hexdigest data))])
           (hash_calls w ++ [src_path]), inr tt).
Proof.
  intros Hnat Hlen Htgt. sizes n2 Hnat.
  assert (Nat.eqb (length data) (st_size n2) = false) as ->
    by (apply Nat.eqb_neq; congruence).
  rewrite !run_bind, run_compute_hash. cbn [fs set_fs noted].
  rewrite m1_src. cbv iota beta.
  rewrite !run_bind, run_logging. cbv iota beta. finish_mret.
  fold (renamed_to (Sha256.hexdigest data)).
  erewrite run_copy_stream.
  - unfold logged, set_fs. simpl. done.
  - simpl. apply m1_src.
  - unfold renamed_dest. rewrite parent_join. apply m1_dest_dir.
  - unfold writable_or_absent. simpl. by rewrite m1_renamed.
Qed.

(** The worker returns what its [try] block returns. *)
Lemma body_of_try (w' : world) :
  run (copy_file_try src_path dst_root) w = (w', inr tt) ->
  run (copy_file_body src_path dst_root) w = (w', inr tt).
Proof. intros H. unfold copy_file_body. by rewrite run_try_except, H. Qed.

Lemma body_fresh :
  fs w !! natural = None ->
  run (copy_file_body src_path dst_root) w
  = (World (<[natural := File true true data]> m1)
           (log w ++ [LogCopying src_path natural]) (hash_calls w), inr tt).
Proof. intros. by apply body_of_try, try_fresh. Qed.

Lemma body_skip (wr' : bool) (data' : list byte) :
  fs w !! natural = Some (File true wr' data') ->
  length data' = length data ->
  Sha256.hexdigest data' = Sha256.hexdigest data ->
  run (copy_file_body src_path dst_root) w
  = (World m1 (log w ++ [LogSkipped src_path])
           (hash_calls w ++ [src_path; natural]), inr tt).
Proof. intros. by eapply body_of_try, try_skip. Qed.

Lemma body_rename_same_size (wr' : bool) (data' : list byte) :
  fs w !! natural = Some (File true wr' data') ->
  length data' = length data ->
  Sha256.hexdigest data' ≠ Sha256.hexdigest data ->
  writable_or_absent (fs w) (renamed_to (Sha256.hexdigest data)) ->
  run (copy_file_body src_path dst_root) w
  = (World (written m1 (renamed_to (Sha256.hexdigest data)) data)
           (log w ++ [LogRenamedSameSize src_path
                        (renamed src_path (Sha256.hexdigest data))])
           (hash_calls w ++ [src_path; natural]), inr tt).
Proof. intros. by eapply body_of_try, try_rename_same_size. Qed.

Lemma body_rename_diff_size (n2 : node) :
  fs w !! natural = Some n2 ->
  st_size n2 ≠ length data ->
  writable_or_absent (fs w) (renamed_to (Sha256.hexdigest data)) ->
  run (copy_file_body src_path dst_root) w
  = (World (written m1 (renamed_to (Sha256.hexdigest data)) data)
           (log w ++ [LogRenamedDiffSize src_path
                        (renamed src_path (Sha256.hexdigest data))])
           (hash_calls w ++ [src_path]), inr tt).
Proof. intros. by eapply body_of_try, try_rename_diff_size. Qed.

End Cases.

(** The operations after the decision never call [compute_hash]. *)
Lemma hash_calls_copy_loop (n : nat) (stream : list byte) (d : path) (w : world) :
  hash_calls (fst (run (copy_loop n stream d) w)) = hash_calls w.
Proof.
  revert stream w; induction n as [|n IH]; intros stream w; [done|].
  simpl. destruct (take CHUNK_SIZE stream) as [|b chunk]; [done|].
  rewrite run_Do, IH. unfold op_write. simpl.
  by destruct (fs w !! d) as [[|]|].
Qed.

Lemma hash_calls_copy_stream (d : path) (w : world) :
  hash_calls (fst (run (copy_stream src_path d) w)) = hash_calls w.
Proof.
  unfold copy_stream. rewrite run_bind, run_perform. unfold op_open_rb.
  destruct (fs w !! src_path) as [[|[] wr data]|]; try done.
  rewrite run_bind, run_perform. unfold op_open_wb.
  destruct (is_dir (fs w) (PyPath.parent d)); [|done].
  destruct (fs w !! d) as [[|r [] d0]|]; try done;
    by rewrite hash_calls_copy_loop.
Qed.

Lemma hash_calls_body (w : world) :
  hash_calls (fst (run (copy_file_body src_path dst_root) w))
  = hash_calls (fst (run (copy_file_try src_path dst_root) w)).
Proof.
  unfold copy_file_body. rewrite run_try_except.
  by destruct (run (copy_file_try src_path dst_root) w) as [w' [e|[]]].
Qed.

(** With something of another size at the natural path, [compute_hash]
    is called once, on the source, whatever happens afterwards. *)
Lemma body_diff_size_hash_calls (w : world) (n1 n2 : node) (m1 : gmap path node) :
  fs w !! src_path = Some n1 ->
  makedirs dest_dir (fs w) = (m1, None) ->
  fs w !! natural = Some n2 ->
  st_size n1 ≠ st_size n2 ->
  hash_calls (fst (run (copy_file_body src_path dst_root) w))
  = hash_calls w ++ [src_path].
Proof.
  intros Hsrc Hmk Hnat Hsize. rewrite hash_calls_body.
  pose proof (makedirs_from_keeps _ _ _ _ _ _ _ Hmk Hsrc) as Hsrc1.
  pose proof (makedirs_from_keeps _ _ _ _ _ _ _ Hmk Hnat) as Hnat1.
  unfold copy_file_try, resolve_dest.
  rewrite !run_bind, run_perform.
  unfold op_makedirs; fold dest_dir; rewrite Hmk.
  rewrite run_bind, run_Do; unfold op_exists; cbn [fst snd fs set_fs].
  fold natural. rewrite Hnat1.
  rewrite bool_decide_eq_true_2 by (by eexists).
  change (run (Return ?a) ?w') with (w', @inr exn _ a); cbv iota beta.
  rewrite !run_bind, run_perform; unfold op_stat_size; cbn [fs set_fs].
  rewrite Hsrc1; cbv iota beta.
  rewrite !run_bind, run_perform; unfold op_stat_size; cbn [fs set_fs].
  rewrite Hnat1; cbv iota beta.
  assert (Nat.eqb (st_size n1) (st_size n2) = false) as ->
    by (by apply Nat.eqb_neq).
  rewrite !run_bind, run_compute_hash. cbn [fs set_fs noted].
  rewrite Hsrc1.
  destruct n1 as [|[] wr1 data1]; cbv iota beta; try done.
  rewrite !run_bind, run_logging. cbv iota beta.
  change (run (mret ?a) ?w') with (w', @inr exn _ a); cbv iota beta.
  by rewrite hash_calls_copy_stream.
Qed.

(** *** What an error-free processing tells *)

Lemma copy_stream_inv (d : path) (w w1 : world) :
  run (copy_stream src_path d) w = (w1, inr tt) ->
  ∃ wr data, fs w !! src_path = Some (File true wr data)
             ∧ writable_or_absent (fs w) d
             ∧ w1 = set_fs (written (fs w) d data) w.
Proof.
  unfold copy_stream. rewrite run_bind, run_perform. unfold op_open_rb.
  destruct (fs w !! src_path) as [[|[] wr data]|] eqn:Hsrc; try discriminate.
  rewrite run_bind, run_perform. unfold op_open_wb.
  destruct (is_dir (fs w) (PyPath.parent d)) eqn:Hpar; [|discriminate].
  destruct (fs w !! d) as [[|r [] d0]|] eqn:Hd; try discriminate.
  - erewrite run_copy_loop; [|lia|simpl; apply lookup_insert_eq].
    intros [= <-]. exists wr, data. split_and!; [done|right; eauto|].
    unfold written. simpl. by rewrite Hd, insert_insert_eq.
  - erewrite run_copy_loop; [|lia|simpl; apply lookup_insert_eq].
    intros [= <-]. exists wr, data. split_and!; [done|by left|].
    unfold written. simpl. by rewrite Hd, insert_insert_eq.
Qed.

Lemma makedirs_file_back (p q : path) (m m1 : gmap path node)
      (r wr : bool) (d : list byte) (err : option exn) :
  makedirs p m = (m1, err) -> m1 !! q = Some (File r wr d) -> m !! q = Some (File r wr d).
Proof.
  intros Hmk Hq.
  destruct (makedirs_from_lookup _ _ _ _ _ q Hmk) as [E|(_ & E & _)]; congruence.
Qed.

(** The [try] block returns normally in exactly three ways. *)
Lemma try_succeeds_inv (w w1 : world) :
  run (copy_file_try src_path dst_root) w = (w1, inr tt) ->
  ∃ wr data m1,
    fs w !! src_path = Some (File true wr data)
    ∧ makedirs dest_dir (fs w) = (m1, None)
    ∧ ((fs w !! natural = None
        ∧ w1 = World (<[natural := File true true data]> m1)
                     (log w ++ [LogCopying src_path natural]) (hash_calls w))
       ∨ (∃ wr' data',
            fs w !! natural = Some (File true wr' data')
            ∧ length data' = length data
            ∧ Sha256.hexdigest data' = Sha256.hexdigest data
            ∧ w1 = World m1 (log w ++ [LogSkipped src_path])
                         (hash_calls w ++ [src_path; natural]))
       ∨ (∃ wr' data',
            fs w !! natural = Some (File true wr' data')
            ∧ length data' = length data
            ∧ Sha256.hexdigest data' ≠ Sha256.hexdigest data
            ∧ writable_or_absent (fs w) (renamed_to (Sha256.hexdigest data))
            ∧ w1 = World (written m1 (renamed_to (Sha256.hexdigest data)) data)
                         (log w ++ [LogRenamedSameSize src_path
                                      (renamed src_path (Sha256.hexdigest data))])
                         (hash_calls w ++ [src_path; natural]))
       ∨ (∃ n2,
            fs w !! natural = Some n2
            ∧ st_size n2 ≠ length data
            ∧ writable_or_absent (fs w) (renamed_to (Sha256.hexdigest data))
            ∧ w1 = World (written m1 (renamed_to (Sha256.hexdigest data)) data)
                         (log w ++ [LogRenamedDiffSize src_path
                                      (renamed src_path (Sha256.hexdigest data))])
                         (hash_calls w ++ [src_path]))).
Proof.
  unfold copy_file_try, resolve_dest.
  rewrite !run_bind, run_perform. unfold op_makedirs.
  destruct (makedirs _ (fs w)) as [m1 [e|]] eqn:Hmk; [discriminate|].
  rewrite run_bind, run_Do. unfold op_exists. cbn [fst snd fs set_fs].
  fold dest_dir in *. fold natural in *.
  assert (m1 !! natural = fs w !! natural) as Hnat_eq.
  { eapply makedirs_other; [eassumption|].
    rewrite length_natural, length_dest_dir. lia. }
  assert (∀ h, m1 !! renamed_to h = fs w !! renamed_to h) as Htgt_eq.
  { intros h. eapply makedirs_other; [eassumption|].
    rewrite length_renamed_dest, length_dest_dir. lia. }
  destruct (m1 !! natural) as [n2|] eqn:Hnat.
  - rewrite bool_decide_eq_true_2 by (by eexists).
    change (run (Return ?a) ?w') with (w', @inr exn _ a); cbv iota beta.
    rewrite !run_bind, run_perform. unfold op_stat_size. cbn [fs set_fs].
    destruct (m1 !! src_path) as [n1|] eqn:Hsrc; [|discriminate].
    rewrite !run_bind, run_perform. unfold op_stat_size. cbn [fs set_fs].
    rewrite Hnat.
    destruct (Nat.eqb (st_size n1) (st_size n2)) eqn:Hsz.
    + rewrite !run_bind, run_compute_hash. cbn [fs set_fs noted]. rewrite Hsrc.
      destruct n1 as [|[] wr data]; try discriminate.
      rewrite !run_bind, run_compute_hash. cbn [fs set_fs noted]. rewrite Hnat.
      destruct n2 as [|[] wr' data']; try discriminate.
      apply Nat.eqb_eq in Hsz. simpl in Hsz.
      pose proof (makedirs_file_back _ _ _ _ _ _ _ _ Hmk Hsrc) as Hsrc0.
      destruct (String.eqb _ _) eqn:Hh.
      * rewrite !run_bind, run_logging.
        change (run (mret ?a) ?w') with (w', @inr exn _ a); cbv iota beta.
        change (run (Return ?a) ?w') with (w', @inr exn _ a).
        intros [= <-]. apply String.eqb_eq in Hh.
        exists wr, data, m1. split_and!; [done..|].
        right. left. exists wr', data'. split_and!; try done.
        unfold logged, noted, set_fs. simpl. by rewrite <- app_assoc.
      * rewrite !run_bind, run_logging.
        change (run (mret ?a) ?w') with (w', @inr exn _ a); cbv iota beta.
        intros (wr2 & data2 & Hs2 & Hw & ->)%copy_stream_inv.
        apply String.eqb_neq in Hh. simpl in Hs2, Hw. simplify_eq.
        eexists _, _, m1. split_and!; [done..|].
        right. right. left. eexists _, _. split_and!; [done|done|done| |].
        -- unfold writable_or_absent in *. by rewrite <- Htgt_eq.
        -- unfold logged, noted, set_fs. simpl. by rewrite <- app_assoc.
    + rewrite !run_bind, run_compute_hash. cbn [fs set_fs noted]. rewrite Hsrc.
      destruct n1 as [|[] wr data]; try discriminate.
      apply Nat.eqb_neq in Hsz. simpl in Hsz.
      pose proof (makedirs_file_back _ _ _ _ _ _ _ _ Hmk Hsrc) as Hsrc0.
      rewrite !run_bind, run_logging.
      change (run (mret ?a) ?w') with (w', @inr exn _ a); cbv iota beta.
      intros (wr2 & data2 & Hs2 & Hw & ->)%copy_stream_inv.
      simpl in Hs2, Hw. simplify_eq.
      eexists _, _, m1. split_and!; [done..|].
      right. right. right. eexists. split_and!; [done| | |].
      -- congruence.
      -- unfold writable_or_absent in *. by rewrite <- Htgt_eq.
      -- unfold logged, noted, set_fs. simpl. done.
  - rewrite bool_decide_eq_false_2 by (by intros [? ?]).
    change (run (Return ?a) ?w') with (w', @inr exn _ a); cbv iota beta.
    rewrite run_bind, run_logging. cbv iota beta.
    change (run (mret ?a) ?w') with (w', @inr exn _ a); cbv iota beta.
    intros (wr2 & data2 & Hs2 & Hw & ->)%copy_stream_inv.
    simpl in Hs2, Hw.
    pose proof (makedirs_file_back _ _ _ _ _ _ _ _ Hmk Hs2) as Hsrc0.
    exists wr2, data2, m1. split_and!; [done..|].
    left. split; [done|]. unfold written, logged, set_fs. simpl. by rewrite Hnat.
Qed.

End Worker.

(** ** Well-formed trees *)

Section WellFormed.

Lemma wf_prefix_dir (m : gmap path node) (pre suf : path) (n : node) :
  well_formed m -> m !! (pre ++ suf) = Some n -> suf ≠ [] -> pre ≠ [] ->
  m !! pre = Some Dir.
Proof.
  intros Hwf. revert n.
  induction suf as [|c suf IH] using rev_ind; intros n Hn Hsuf Hpre; [done|].
  apply Hwf in Hn. unfold PyPath.parent in Hn.
  rewrite app_assoc, removelast_last in Hn.
  apply is_dir_nonempty in Hn; [|by destruct pre].
  destruct suf as [|c' suf].
  - by rewrite app_nil_r in Hn.
  - by eapply IH.
Qed.

(** In a well-formed tree the directory of an existing node needs no
    creation. *)
Lemma wf_makedirs_noop (m : gmap path node) (d : path) (c : string) (n : node) :
  well_formed m -> m !! PyPath.join d c = Some n -> makedirs d m = (m, None).
Proof.
  intros Hwf Hn. apply makedirs_from_noop. intros pre suf Hpre ->.
  simpl. unfold PyPath.join in Hn. rewrite <- app_assoc in Hn.
  eapply wf_prefix_dir; try eassumption. by destruct suf.
Qed.

End WellFormed.

(** ** Coroutine trees *)

Section Trees.

Lemma no_raise_try_except {A} (c : coro A) (h : exn -> coro A) :
  (∀ e, no_raise (h e)) -> no_raise (try_except c h).
Proof. intros Hh. induction c as [a|e|R op k IH]; simpl; auto. Qed.

Lemma no_raise_body (src_path dst_root : path) :
  no_raise (copy_file_body src_path dst_root).
Proof. apply no_raise_try_except. intros e r. exact I. Qed.

Lemma no_raise_run {A} (c : coro A) (w : world) :
  no_raise c -> ∃ a, snd (run c w) = inr a.
Proof.
  revert w. induction c as [a|e|R op k IH]; intros w Hc; simpl in *.
  - by exists a.
  - done.
  - destruct (op w) as [w' r]. by apply IH.
Qed.

Lemma all_ops_bind {A B} P (c : coro A) (f : A -> coro B) :
  all_ops P c -> (∀ a, returns c a -> all_ops P (f a)) -> all_ops P (c ≫= f).
Proof.
  unfold mbind, coro_mbind.
  induction c as [a|e|R op k IH]; simpl; intros Hc Hf.
  - by apply Hf.
  - done.
  - destruct Hc as [Hop Hk]. split; [done|].
    intros r. apply IH; [done|]. intros a Ha. apply Hf. by exists r.
Qed.

Lemma all_ops_try_except {A} P (c : coro A) (h : exn -> coro A) :
  all_ops P c -> (∀ e, all_ops P (h e)) -> all_ops P (try_except c h).
Proof.
  induction c as [a|e|R op k IH]; simpl; intros Hc Hh; auto.
  destruct Hc as [Hop Hk]. split; [done|]. intros r. by apply IH.
Qed.

Lemma all_ops_perform {A} P (op : world -> world * (exn + A)) :
  P (fun w => fst (op w)) -> all_ops P (perform op).
Proof. intros H. split; [done|]. by intros [e|a]. Qed.

Lemma returns_bind {A B} (c : coro A) (f : A -> coro B) (b : B) :
  returns (c ≫= f) b -> ∃ a, returns c a ∧ returns (f a) b.
Proof.
  unfold mbind, coro_mbind.
  induction c as [a|e|R op k IH]; simpl.
  - intros H. by exists a.
  - done.
  - intros [r Hr]. destruct (IH r Hr) as (a & Ha & Hb).
    exists a. split; [by exists r | done].
Qed.

End Trees.

(** ** Operations are confined to the file's extension folder *)

Section Confined.

#[local] Opaque CHUNK_SIZE.

Variable D : path.

(** An operation that leaves the tree alone. *)
Lemma confined_fs_id (f : world -> world) :
  (∀ w, fs (f w) = fs w) -> confined D f.
Proof. intros H w. rewrite H. split; [done|]. by intros p Hp. Qed.

Lemma confined_makedirs (p : path) : confined D (fun w => fst (op_makedirs p w)).
Proof.
  intros w. unfold op_makedirs.
  destruct (makedirs p (fs w)) as [m err] eqn:Hmk. simpl. split.
  - intros q. by eapply is_dir_makedirs_mono.
  - intros q Hq. left.
    destruct (makedirs_from_lookup _ _ _ _ _ q Hmk) as [E|(Hn & Hd & _)]; done.
Qed.

Lemma is_dir_insert_file (m : gmap path node) (p q : path) (r wr : bool) (d : list byte) :
  m !! p ≠ Some Dir -> is_dir m q = true -> is_dir (<[p := File r wr d]> m) q = true.
Proof.
  intros Hp. unfold is_dir. destruct q as [|c q]; [done|].
  destruct (decide (p = c :: q)) as [->|Hne].
  - by destruct (m !! (c :: q)) as [[|]|].
  - by rewrite lookup_insert_ne.
Qed.

Lemma confined_open_wb (p : path) :
  PyPath.parent p = D -> confined D (fun w => fst (op_open_wb p w)).
Proof.
  intros Hp w. unfold op_open_wb.
  destruct (is_dir (fs w) (PyPath.parent p)); [|by split].
  destruct (fs w !! p) as [[|r [] d]|] eqn:E; simpl; try by split.
  - split.
    + intros q. apply is_dir_insert_file. by rewrite E.
    + intros q Hq. right. destruct (decide (p = q)) as [<-|Hne].
      * split; [done|]. unfold is_file. by rewrite lookup_insert_eq.
      * by rewrite lookup_insert_ne in Hq.
  - split.
    + intros q. apply is_dir_insert_file. by rewrite E.
    + intros q Hq. right. destruct (decide (p = q)) as [<-|Hne].
      * split; [done|]. unfold is_file. by rewrite lookup_insert_eq.
      * by rewrite lookup_insert_ne in Hq.
Qed.

Lemma confined_write (p : path) (chunk : list byte) :
  PyPath.parent p = D -> confined D (fun w => fst (op_write p chunk w)).
Proof.
  intros Hp w. unfold op_write.
  destruct (fs w !! p) as [[|r wr d]|] eqn:E; simpl; try by split.
  split.
  - intros q. apply is_dir_insert_file. by rewrite E.
  - intros q Hq. right. destruct (decide (p = q)) as [<-|Hne].
    * split; [done|]. unfold is_file. by rewrite lookup_insert_eq.
    * by rewrite lookup_insert_ne in Hq.
Qed.

Lemma all_ops_logging (r : log_record) : all_ops (confined D) (logging r).
Proof. split; [by apply confined_fs_id | done]. Qed.

Lemma all_ops_hash_loop (n : nat) (stream h : list byte) :
  all_ops (confined D) (hash_loop n stream h).
Proof.
  revert stream h; induction n as [|n IH]; intros stream h; [done|].
  split; [by apply confined_fs_id|].
  intros [chunk rest]. simpl. destruct chunk; [done | apply IH].
Qed.

Lemma all_ops_compute_hash (p : path) : all_ops (confined D) (compute_hash p).
Proof.
  split; [by apply confined_fs_id|]. intros _.
  apply all_ops_bind; [apply all_ops_perform; by apply confined_fs_id|].
  intros data _. apply all_ops_bind; [apply all_ops_hash_loop | done].
Qed.

Lemma all_ops_copy_loop (n : nat) (stream : list byte) (p : path) :
  PyPath.parent p = D -> all_ops (confined D) (copy_loop n stream p).
Proof.
  intros Hp. revert stream; induction n as [|n IH]; intros stream; [done|].
  split; [by apply confined_fs_id|].
  intros [chunk rest]. simpl. destruct chunk; [done|].
  split; [by apply confined_write | intros _; apply IH].
Qed.

Lemma all_ops_copy_stream (src_path p : path) :
  PyPath.parent p = D -> all_ops (confined D) (copy_stream src_path p).
Proof.
  intros Hp. unfold copy_stream.
  apply all_ops_bind; [apply all_ops_perform; by apply confined_fs_id|].
  intros data _.
  apply all_ops_bind; [apply all_ops_perform; by apply confined_open_wb|].
  intros _ _. by apply all_ops_copy_loop.
Qed.

End Confined.

Section BodyTree.

Variables (src_path dst_root : path).

#[local] Abbreviation D := (dest_dir_of src_path dst_root).

(** [resolve_dest] answers with no path, or with a path directly inside
    the extension folder. *)
Lemma returns_resolve_dest (d : option path) :
  returns (resolve_dest src_path dst_root) d ->
  d = None ∨ ∃ x, d = Some (PyPath.join D x).
Proof.
  unfold resolve_dest. intros H.
  apply returns_bind in H as (? & _ & H).
  apply returns_bind in H as (ex & _ & H).
  destruct ex.
  - apply returns_bind in H as (ssz & _ & H).
    apply returns_bind in H as (dsz & _ & H).
    destruct (Nat.eqb ssz dsz).
    + apply returns_bind in H as (sh & _ & H).
      apply returns_bind in H as (dh & _ & H).
      destruct (String.eqb sh dh);
        apply returns_bind in H as (? & _ & H); simpl in H; subst d; eauto.
    + apply returns_bind in H as (sh & _ & H).
      apply returns_bind in H as (? & _ & H); simpl in H; subst d; eauto.
  - apply returns_bind in H as (? & _ & H); simpl in H; subst d; eauto.
Qed.

Lemma all_ops_resolve_dest : all_ops (confined D) (resolve_dest src_path dst_root).
Proof.
  unfold resolve_dest.
  apply all_ops_bind; [apply all_ops_perform, confined_makedirs|]. intros _ _.
  apply all_ops_bind; [split; [by apply confined_fs_id | done]|]. intros ex _.
  destruct ex.
  - apply all_ops_bind; [apply all_ops_perform; by apply confined_fs_id|].
    intros ssz _.
    apply all_ops_bind; [apply all_ops_perform; by apply confined_fs_id|].
    intros dsz _.
    destruct (Nat.eqb ssz dsz).
    + apply all_ops_bind; [apply all_ops_compute_hash|]. intros sh _.
      apply all_ops_bind; [apply all_ops_compute_hash|]. intros dh _.
      destruct (String.eqb sh dh);
        (apply all_ops_bind; [apply all_ops_logging | done]).
    + apply all_ops_bind; [apply all_ops_compute_hash|]. intros sh _.
      apply all_ops_bind; [apply all_ops_logging | done].
  - apply all_ops_bind; [apply all_ops_logging | done].
Qed.

(** Every operation of the worker keeps the directories and writes files
    only directly inside the extension folder of its source. *)
Lemma all_ops_body : all_ops (confined D) (copy_file_body src_path dst_root).
Proof.
  apply all_ops_try_except; [|intros e; apply all_ops_logging].
  unfold copy_file_try.
  apply all_ops_bind; [apply all_ops_resolve_dest|].
  intros d [->|(x & ->)]%returns_resolve_dest; [done|].
  apply all_ops_copy_stream, parent_join.
Qed.

End BodyTree.

(** ** The event loop *)

Section Scheduler.

Variable dst_path : path.

Lemma step_at_inv (i : nat) (c c' : config) :
  step_at i c = Some c' ->
  ∃ t w' sem' st',
    c_tasks c !! i = Some t
    ∧ step_task (c_world c) (c_sem c) (t_state t) = Some (w', sem', st')
    ∧ c' = Config w' sem' (<[i := Task (t_file t) st']> (c_tasks c)).
Proof.
  unfold step_at. destruct (c_tasks c !! i) as [t|] eqn:Ht; [|done].
  destruct (step_task _ _ _) as [[[w' sem'] st']|] eqn:Hst; [|done].
  intros [= <-]. by exists t, w', sem', st'.
Qed.

(** A step changes the state of one task, not the files of the tasks. *)
Lemma step_files (c c' : config) :
  step c c' -> List.map t_file (c_tasks c') = List.map t_file (c_tasks c).
Proof.
  intros [i (t & w' & sem' & st' & Ht & _ & ->)%step_at_inv]. simpl.
  apply list_eq. intros j. rewrite !list_lookup_fmap.
  destruct (decide (i = j)) as [<-|Hne].
  - rewrite list_lookup_insert_eq by (by eapply lookup_lt_Some). by rewrite Ht.
  - by rewrite list_lookup_insert_ne.
Qed.

Lemma step_task_ok (f : path) (w w' : world) (sem sem' : nat) (st st' : task_state) :
  task_ok dst_path (Task f st) ->
  step_task w sem st = Some (w', sem', st') ->
  task_ok dst_path (Task f st').
Proof.
  unfold task_ok. simpl. destruct st as [body|c| |e]; simpl; try done.
  - destruct sem; [done|]. intros -> [= _ _ <-].
    split; [apply no_raise_body | apply all_ops_body].
  - destruct c as [a|e|R op k]; simpl.
    + by intros _ [= _ _ <-].
    + by intros [[] _].
    + intros [Hn [_ Ha]]. destruct (op w) as [w1 r]. intros [= _ _ <-]. done.
Qed.

Lemma step_tasks_ok (c c' : config) :
  Forall (task_ok dst_path) (c_tasks c) -> step c c' ->
  Forall (task_ok dst_path) (c_tasks c').
Proof.
  intros Hok [i (t & w' & sem' & st' & Ht & Hst & ->)%step_at_inv]. simpl.
  apply Forall_insert; [done|].
  eapply step_task_ok; [|eassumption].
  rewrite Forall_lookup in Hok. specialize (Hok i t Ht). by destruct t.
Qed.

Lemma dispatch_tasks_ok (w : world) (files : list path) :
  Forall (task_ok dst_path) (c_tasks (dispatch w files dst_path)).
Proof. simpl. apply Forall_forall. intros t [f [-> _]]%list_elem_of_fmap. done. Qed.

(** Invariants of the run are proved along the steps taken so far. *)
Lemma reachable_ind (P : config -> Prop) (c0 : config) :
  P c0 ->
  (∀ c c', rtc step c0 c -> P c -> step c c' -> P c') ->
  ∀ c, rtc step c0 c -> P c.
Proof.
  intros H0 Hs c Hc. revert c Hc. apply rtc_ind_r; [done|].
  intros c c' Hrtc Hstep IH. by eapply Hs.
Qed.

Lemma reachable_tasks_ok (w : world) (files : list path) (c : config) :
  rtc step (dispatch w files dst_path) c -> Forall (task_ok dst_path) (c_tasks c).
Proof.
  revert c. apply reachable_ind; [apply dispatch_tasks_ok|].
  intros c c' _ IH Hstep. by eapply step_tasks_ok.
Qed.

Lemma reachable_files (w : world) (files : list path) (c : config) :
  rtc step (dispatch w files dst_path) c -> List.map t_file (c_tasks c) = files.
Proof.
  revert c. apply reachable_ind.
  - simpl. rewrite List.map_map. simpl. apply List.map_id.
  - intros c c' _ IH Hstep. by rewrite (step_files _ _ Hstep).
Qed.

(** *** The semaphore *)

Lemma count_insert {A} (f : A -> bool) (l : list A) (i : nat) (x y : A) :
  l !! i = Some x ->
  length (List.filter f (<[i := y]> l)) + (if f x then 1 else 0)
  = length (List.filter f l) + (if f y then 1 else 0).
Proof.
  revert i; induction l as [|a l IH]; intros [|i]; simpl; try done.
  - intros [= ->]. destruct (f x), (f y); simpl; lia.
  - intros H. specialize (IH i H). destruct (f a); simpl; lia.
Qed.

(** Free slots and holders always add up to the capacity. *)
Lemma step_sem (c c' : config) :
  step c c' -> c_sem c' + holders c' = c_sem c + holders c.
Proof.
  intros [i (t & w' & sem' & st' & Ht & Hst & ->)%step_at_inv].
  unfold holders. simpl.
  pose proof (count_insert is_running _ i t (Task (t_file t) st') Ht) as Hc.
  destruct t as [f st]. unfold is_running in Hc at 2 4. simpl in *.
  destruct st as [body|k| |e]; simpl in Hst.
  - destruct (c_sem c) as [|n]; [done|]. injection Hst as <- <- <-. lia.
  - destruct k as [a|e|R op k].
    + injection Hst as <- <- <-. lia.
    + injection Hst as <- <- <-. lia.
    + destruct (op (c_world c)) as [w1 r]. injection Hst as <- <- <-. lia.
  - done.
  - done.
Qed.

Lemma holders_dispatch (w : world) (files : list path) :
  holders (dispatch w files dst_path) = 0.
Proof. unfold holders. simpl. by induction files. Qed.

Lemma reachable_sem (w : world) (files : list path) (c : config) :
  rtc step (dispatch w files dst_path) c -> c_sem c + holders c = MAX_CONCURRENT.
Proof.
  revert c. apply reachable_ind.
  - rewrite holders_dispatch. apply Nat.add_0_r.
  - intros c c' _ IH Hstep. by rewrite (step_sem _ _ Hstep).
Qed.

End Scheduler.

(** ** Every run ends *)

Section Termination.

Lemma task_step_sn (st : task_state) : Acc (flip task_step) st.
Proof.
  assert (Acc (flip task_step) Done) as HD.
  { constructor. intros st' (w & sem & w' & sem' & H). discriminate H. }
  assert (∀ e, Acc (flip task_step) (Failed e)) as HF.
  { intros e. constructor. intros st' (w & sem & w' & sem' & H). discriminate H. }
  assert (∀ c, Acc (flip task_step) (Running c)) as HR.
  { induction c as [a|e|R op k IH]; constructor;
      intros st' (w & sem & w' & sem' & H); simpl in H.
    - injection H as _ _ <-. exact HD.
    - injection H as _ _ <-. apply HF.
    - destruct (op w) as [w1 r]. injection H as _ _ <-. apply IH. }
  destruct st as [body|c| |e]; [|apply HR|exact HD|apply HF].
  constructor. intros st' (w & sem & w' & sem' & H). simpl in H.
  destruct sem; [discriminate H|]. injection H as _ _ <-. apply HR.
Qed.

Lemma tasks_step_nil (ts' : list task) : ¬ tasks_step [] ts'.
Proof. intros (w & sem & w' & sem' & i & H). done. Qed.

Lemma tasks_step_cons (t : task) (ts l' : list task) :
  tasks_step (t :: ts) l' ->
  (∃ st', l' = Task (t_file t) st' :: ts ∧ task_step (t_state t) st')
  ∨ (∃ ts', l' = t :: ts' ∧ tasks_step ts ts').
Proof.
  intros (w & sem & w' & sem' & i & H).
  apply step_at_inv in H as (t0 & w1 & sem1 & st1 & Ht & Hst & E).
  simpl in *. injection E as -> -> ->.
  destruct i as [|i]; simpl in *.
  - injection Ht as <-. left. exists st1. split; [done|]. by exists w, sem, w1, sem1.
  - right. exists (<[i := Task (t_file t0) st1]> ts). split; [done|].
    exists w, sem, w1, sem1, i. unfold step_at. simpl. by rewrite Ht, Hst.
Qed.

Lemma tasks_step_sn (ts : list task) : Acc (flip tasks_step) ts.
Proof.
  induction ts as [|[f st] ts IH].
  - constructor. intros ts' H. destruct (tasks_step_nil _ H).
  - pose proof (task_step_sn st) as Hst. revert ts IH.
    induction Hst as [st _ IHst]. intros ts Hts.
    induction Hts as [ts IHts' IHts].
    constructor. intros l' [(st' & -> & Hs)|(ts' & -> & Hs)]%tasks_step_cons.
    + apply IHst; [exact Hs|]. constructor. exact IHts'.
    + apply IHts. exact Hs.
Qed.

(** No schedule goes on for ever. *)
Lemma step_sn (c : config) : Acc (flip step) c.
Proof.
  destruct c as [w sem ts]. revert w sem.
  induction (tasks_step_sn ts) as [ts _ IH]. intros w sem.
  constructor. intros [w' sem' ts'] Hstep. apply IH. exists w, sem, w', sem'. exact Hstep.
Qed.

End Termination.

(** ** Progress, and the schedule that takes the tasks in turn *)

Section Progress.

Variable dst_path : path.

Lemma find_running (l : list task) :
  0 < length (List.filter is_running l) ->
  ∃ i f c, l !! i = Some (Task f (Running c)).
Proof.
  induction l as [|[f st] l IH]; simpl; [lia|].
  unfold is_running at 1. simpl. destruct st as [b|c| |e]; simpl.
  2: { intros _. by exists 0, f, c. }
  all: intros (i & f' & c' & H)%IH; by exists (S i), f', c'.
Qed.

Lemma find_unfinished (l : list task) :
  Forall (task_ok dst_path) l ->
  Forall (fun t => t_state t = Done) l
  ∨ (∃ i f b, l !! i = Some (Task f (Waiting b)))
  ∨ (∃ i f c, l !! i = Some (Task f (Running c))).
Proof.
  induction 1 as [|[f st] l Hok _ IH].
  - left. constructor.
  - destruct st as [b|c| |e].
    + right. left. by exists 0, f, b.
    + right. right. by exists 0, f, c.
    + destruct IH as [IH|[(i & f' & b' & Hi)|(i & f' & c' & Hi)]].
      * left. by constructor.
      * right. left. by exists (S i), f', b'.
      * right. right. by exists (S i), f', c'.
    + destruct Hok.
Qed.

Lemma running_steps (c : config) (i : nat) (f : path) (k : coro unit) :
  c_tasks c !! i = Some (Task f (Running k)) -> ∃ c', step c c'.
Proof.
  intros Hi.
  destruct (step_at i c) as [c'|] eqn:E; [by exists c', i|].
  unfold step_at in E. rewrite Hi in E. simpl in E.
  destruct k as [a|e|R op k]; simpl in E; try discriminate E.
  destruct (op (c_world c)) as [w' r]. discriminate E.
Qed.

(** While a task is unfinished, some task can take a step: the semaphore
    never blocks every task. *)
Lemma progress (c : config) :
  Forall (task_ok dst_path) (c_tasks c) ->
  c_sem c + holders c = MAX_CONCURRENT ->
  all_done c ∨ ∃ c', step c c'.
Proof.
  intros Hok Hsem.
  destruct (find_unfinished _ Hok) as [Hd|[(i & f & b & Hi)|(i & f & k & Hi)]].
  - by left.
  - right. destruct (c_sem c) as [|n] eqn:Hn.
    + destruct (find_running (c_tasks c)) as (j & f' & k & Hj).
      { unfold holders, MAX_CONCURRENT in Hsem. simpl in Hsem. rewrite Hsem. lia. }
      by eapply running_steps.
    + eexists. exists i. unfold step_at. rewrite Hi. simpl. by rewrite Hn.
  - right. by eapply running_steps.
Qed.

Lemma insert_middle {A} (l1 l2 : list A) (x y : A) :
  <[length l1 := y]> (l1 ++ x :: l2) = l1 ++ y :: l2.
Proof. induction l1 as [|a l1 IH]; simpl; [done | by rewrite IH]. Qed.

(** One task, left to run its body to the end. *)
Lemma run_task_alone (k : coro unit) (pre post : list task) (w : world) (sem : nat) (f : path) :
  no_raise k ->
  rtc step (Config w sem (pre ++ Task f (Running k) :: post))
           (Config (fst (run k w)) (S sem) (pre ++ Task f Done :: post)).
Proof.
  revert w. induction k as [[]|e|R op k IH]; intros w Hk; simpl in *.
  - apply rtc_once. exists (length pre). unfold step_at. simpl.
    rewrite list_lookup_middle by done. simpl.
    by rewrite insert_middle.
  - done.
  - destruct (op w) as [w1 r] eqn:Hop.
    eapply rtc_l; [|by apply IH].
    exists (length pre). unfold step_at. simpl.
    rewrite list_lookup_middle by done. simpl. rewrite Hop.
    by rewrite insert_middle.
Qed.

Lemma run_waiting_alone (k : coro unit) (pre post : list task) (w : world) (sem : nat) (f : path) :
  no_raise k ->
  rtc step (Config w (S sem) (pre ++ Task f (Waiting k) :: post))
           (Config (fst (run k w)) (S sem) (pre ++ Task f Done :: post)).
Proof.
  intros Hk. eapply rtc_l; [|by apply run_task_alone].
  exists (length pre). unfold step_at. simpl.
  rewrite list_lookup_middle by done. simpl.
  by rewrite insert_middle.
Qed.

Lemma run_in_turn (files : list path) (pre : list task) (w : world) (sem : nat) :
  rtc step (Config w (S sem) (pre ++ List.map (fun f => copy_file_task f dst_path) files))
           (Config (run_tasks_in_turn files dst_path w) (S sem)
                   (pre ++ List.map (fun f => Task f Done) files)).
Proof.
  revert pre w. induction files as [|f files IH]; intros pre w; [apply rtc_refl|].
  cbn [List.map]. unfold run_tasks_in_turn. cbn [List.fold_left].
  fold (run_tasks_in_turn files dst_path (fst (run (copy_file_body f dst_path) w))).
  etrans; [apply (run_waiting_alone (copy_file_body f dst_path)), no_raise_body|].
  specialize (IH (pre ++ [Task f Done]) (fst (run (copy_file_body f dst_path) w))).
  by rewrite <- !app_assoc in IH.
Qed.

(** Taking the tasks in turn is one of the runs of [main_async]. *)
Lemma in_turn_is_a_run (src_path : path) (w : world) :
  main_async src_path dst_path w
             (fst (main_async_in_turn src_path dst_path w))
             (snd (main_async_in_turn src_path dst_path w)).
Proof.
  unfold main_async_in_turn.
  destruct (run (main_prepare src_path dst_path) w) as [w1 [e|files]] eqn:Hp;
    cbn [fst snd].
  - by apply main_fatal.
  - apply (main_completed src_path dst_path w w1 files
             (Config (run_tasks_in_turn files dst_path w1) MAX_CONCURRENT
                     (List.map (fun f => Task f Done) files))); [done| |].
    + apply (run_in_turn files [] w1 99).
    + unfold all_done. cbn [c_tasks]. apply Forall_forall.
      by intros t [f [-> _]]%list_elem_of_fmap.
Qed.

End Progress.

(** ** [main_async] before the tasks are created *)

Section Prepare.

Variables (src_path dst_path : path).

Lemma main_prepare_not_dir (w : world) :
  is_dir (fs w) src_path = false ->
  run (main_prepare src_path dst_path) w = (w, inl NotADirectoryError).
Proof.
  intros H. unfold main_prepare. rewrite run_bind, run_Do.
  unfold op_is_dir. cbn [fst snd]. by rewrite H.
Qed.

(** The loop that creates the extension folders. *)
Lemma run_for_each_makedirs (exts : list string) (w : world) :
  let r := run (for_each exts (fun ext => perform (op_makedirs (PyPath.join dst_path ext)))) w in
  log (fst r) = log w ∧ hash_calls (fst r) = hash_calls w
  ∧ (∀ q, is_dir (fs w) q = true -> is_dir (fs (fst r)) q = true)
  ∧ (∀ p, fs (fst r) !! p = fs w !! p ∨ (fs w !! p = None ∧ fs (fst r) !! p = Some Dir))
  ∧ (snd r = inr tt -> ∀ ext, ext ∈ exts -> is_dir (fs (fst r)) (PyPath.join dst_path ext) = true).
Proof.
  revert w. induction exts as [|x exts IH]; intros w.
  - simpl. split_and!; try done; [by left | by intros _ ext ?%elem_of_nil].
  - cbn [for_each]. cbv zeta. rewrite run_bind, run_perform. unfold op_makedirs.
    destruct (makedirs (PyPath.join dst_path x) (fs w)) as [m [e|]] eqn:Hmk.
    + cbn [fst snd log hash_calls fs set_fs]. split_and!; try done.
      * intros q. by eapply is_dir_makedirs_mono.
      * intros p.
        destruct (makedirs_from_lookup _ _ _ _ _ p Hmk) as [E|(Hn & Hd & _)]; eauto.
    + cbv beta iota.
      destruct (IH (set_fs m w)) as (Hl & Hh & Hd & Hp & Hok). cbv zeta in *.
      destruct (run (for_each exts _) (set_fs m w)) as [w2 r2].
      cbn [fst snd log hash_calls fs set_fs] in *. split_and!; try done.
      * intros q Hq. apply Hd. by eapply is_dir_makedirs_mono.
      * intros p. destruct (Hp p) as [E|[E1 E2]];
          destruct (makedirs_from_lookup _ _ _ _ _ p Hmk) as [E'|(Hn & Hd' & _)].
        -- left. congruence.
        -- right. split; [done | congruence].
        -- right. split; [congruence | done].
        -- congruence.
      * intros Hr ext [->|Hin]%elem_of_cons; [|by apply Hok].
        apply Hd. by eapply makedirs_is_dir.
Qed.

Lemma elem_of_rglob_files (m : gmap path node) (f : path) :
  f ∈ rglob_files m src_path
  ↔ PyPath.is_proper_ancestor src_path f = true ∧ is_file m f = true.
Proof.
  unfold rglob_files. rewrite list_elem_of_In, List.filter_In, <- list_elem_of_In.
  rewrite andb_true_iff. split; [by intros [_ ?]|]. intros [H1 H2]. split; [|done].
  unfold is_file in H2. destruct (m !! f) as [n|] eqn:E; [|done].
  apply list_elem_of_fmap. exists (f, n). split; [done|].
  by apply elem_of_map_to_list.
Qed.

Lemma is_file_same (m m' : gmap path node) (p : path) :
  m' !! p = m !! p ∨ (m !! p = None ∧ m' !! p = Some Dir) -> is_file m' p = is_file m p.
Proof. unfold is_file. by intros [->|[-> ->]]. Qed.

(** What is known when [main_async] reaches the creation of the tasks. *)
Lemma main_prepare_ok (w w1 : world) (files : list path) :
  run (main_prepare src_path dst_path) w = (w1, inr files) ->
  is_dir (fs w) src_path = true
  ∧ (∃ m, makedirs dst_path (fs w) = (m, None)
          ∧ files = List.filter (fun f => negb (PyPath.is_proper_ancestor dst_path f))
                                (rglob_files m src_path))
  ∧ log w1 = log w ∧ hash_calls w1 = hash_calls w
  ∧ (∀ f, f ∈ files -> is_dir (fs w1) (dest_dir_of f dst_path) = true)
  ∧ (∀ p, fs w1 !! p = fs w !! p ∨ (fs w !! p = None ∧ fs w1 !! p = Some Dir))
  ∧ (∀ f, f ∈ files ↔ PyPath.is_proper_ancestor src_path f = true
                       ∧ PyPath.is_proper_ancestor dst_path f = false
                       ∧ is_file (fs w1) f = true)
  ∧ (∀ pre suf, pre ≠ [] -> dst_path = pre ++ suf -> is_dir (fs w1) pre = true).
Proof.
  unfold main_prepare. rewrite run_bind, run_Do. unfold op_is_dir. cbn [fst snd].
  destruct (is_dir (fs w) src_path) eqn:Hsrc; [|done].
  cbn [negb run]. cbv iota beta.
  rewrite run_bind, run_perform. unfold op_makedirs.
  destruct (makedirs dst_path (fs w)) as [m [e|]] eqn:Hmk; [done|].
  rewrite run_bind, run_Do. unfold op_rglob_files. cbn [fst snd fs set_fs run].
  cbv iota beta zeta.
  set (fl := List.filter _ (rglob_files m src_path)).
  rewrite run_bind.
  pose proof (run_for_each_makedirs (remove_dups (List.map ext_folder_of fl)) (set_fs m w))
    as (Hl & Hh & Hd & Hp & Hok). cbv zeta in *.
  destruct (run (for_each _ _) (set_fs m w)) as [w2 [e|[]]]; [done|].
  cbn [fst snd] in *. intros [= <- <-].
  split_and!; try done.
  - by exists m.
  - intros f Hf. apply Hok; [done|].
    apply elem_of_remove_dups, list_elem_of_fmap. by exists f.
  - intros p. destruct (Hp p) as [E|[E1 E2]]; simpl in *;
      destruct (makedirs_from_lookup _ _ _ _ _ p Hmk) as [E'|(Hn & Hd' & _)].
    + left. congruence.
    + right. split; [done | congruence].
    + right. split; [congruence | done].
    + congruence.
  - intros f. unfold fl.
    rewrite list_elem_of_In, List.filter_In, <- list_elem_of_In, elem_of_rglob_files.
    rewrite negb_true_iff, (is_file_same m (fs w2) f (Hp f)). tauto.
  - intros pre suf Hpre E. apply Hd. simpl. by eapply makedirs_ready.
Qed.

(** With every directory in place the preparation changes nothing. *)
Lemma run_for_each_ready (exts : list string) (w : world) :
  (∀ ext, ext ∈ exts -> makedirs (PyPath.join dst_path ext) (fs w) = (fs w, None)) ->
  run (for_each exts (fun ext => perform (op_makedirs (PyPath.join dst_path ext)))) w
  = (w, inr tt).
Proof.
  induction exts as [|x exts IH]; intros H; [done|].
  cbn [for_each]. rewrite run_bind, run_perform. unfold op_makedirs.
  rewrite (H x) by apply list_elem_of_here. rewrite set_fs_id.
  apply IH. intros ext Hext. by apply H, list_elem_of_further.
Qed.

Lemma main_prepare_ready (w : world) :
  is_dir (fs w) src_path = true ->
  makedirs dst_path (fs w) = (fs w, None) ->
  (∀ f, PyPath.is_proper_ancestor src_path f = true ->
        PyPath.is_proper_ancestor dst_path f = false ->
        is_file (fs w) f = true ->
        makedirs (dest_dir_of f dst_path) (fs w) = (fs w, None)) ->
  run (main_prepare src_path dst_path) w
  = (w, inr (List.filter (fun f => negb (PyPath.is_proper_ancestor dst_path f))
                         (rglob_files (fs w) src_path))).
Proof.
  intros Hsrc Hdst Hexts.
  unfold main_prepare. rewrite run_bind, run_Do. unfold op_is_dir. cbn [fst snd].
  rewrite Hsrc. cbn [negb run]. cbv iota beta.
  rewrite run_bind, run_perform. unfold op_makedirs. rewrite Hdst, set_fs_id.
  rewrite run_bind, run_Do. unfold op_rglob_files. cbn [fst snd fs set_fs run].
  cbv iota beta zeta. rewrite run_bind, run_for_each_ready; [done|].
  intros ext [f [-> Hf]]%elem_of_remove_dups%list_elem_of_fmap.
  apply list_elem_of_In, List.filter_In in Hf as [Hf Hout].
  apply list_elem_of_In, elem_of_rglob_files in Hf as [Hin Hfile].
  apply Hexts; [done| |done]. by apply negb_true_iff.
Qed.

End Prepare.

(** ** What a step may change *)

Section Steps.

Variable dst_path : path.

Lemma step_at_confined (c c' : config) (i : nat) :
  Forall (task_ok dst_path) (c_tasks c) ->
  step_at i c = Some c' ->
  ∃ f, List.map t_file (c_tasks c) !! i = Some f
       ∧ (∀ q, is_dir (fs (c_world c)) q = true -> is_dir (fs (c_world c')) q = true)
       ∧ (∀ p, fs (c_world c') !! p ≠ fs (c_world c) !! p ->
               (fs (c_world c) !! p = None ∧ fs (c_world c') !! p = Some Dir)
               ∨ (PyPath.parent p = dest_dir_of f dst_path
                  ∧ is_file (fs (c_world c')) p = true)).
Proof.
  intros Hok (t & w' & sem' & st' & Ht & Hst & ->)%step_at_inv.
  rewrite Forall_lookup in Hok. specialize (Hok i t Ht).
  exists (t_file t). split; [by rewrite list_lookup_fmap, Ht|].
  destruct t as [f st]. unfold task_ok in Hok. simpl in *.
  destruct st as [b|k| |e]; simpl in Hst.
  - destruct (c_sem c); [done|]. injection Hst as <- _ _. by split.
  - destruct k as [a|e|R op k]; simpl in Hst.
    + injection Hst as <- _ _. by split.
    + injection Hst as <- _ _. by split.
    + destruct Hok as [_ [Hop _]]. specialize (Hop (c_world c)). simpl in Hop.
      destruct (op (c_world c)) as [w1 r]. injection Hst as <- _ _. exact Hop.
  - done.
  - done.
Qed.

(** With one task the schedule is forced: the run is the run of its body. *)
Lemma single_finished_stuck (w : world) (sem : nat) (f : path) (c : config) (st : task_state) :
  finished (Task f st) = true ->
  rtc step (Config w sem [Task f st]) c -> c = Config w sem [Task f st].
Proof.
  intros Hf [->|(c2 & [i Hi] & _)]%rtc_inv; [done|].
  apply step_at_inv in Hi as (t & w' & sem' & st' & Ht & Hst & _). simpl in *.
  destruct i; [|done]. injection Ht as <-. simpl in Hst.
  by destruct st.
Qed.

Lemma single_running_final (k : coro unit) (f : path) (w : world) (sem : nat) (c : config) :
  rtc step (Config w sem [Task f (Running k)]) c -> all_done c ->
  c_world c = fst (run k w).
Proof.
  revert w sem. induction k as [a|e|R op k IH]; intros w sem Hrtc Hdone.
  all: apply rtc_inv in Hrtc as [<-|(c2 & [i Hi] & Hrtc)];
    [by apply Forall_cons_1 in Hdone as [? _]|].
  all: apply step_at_inv in Hi as (t & w' & sem' & st' & Ht & Hst & ->); simpl in *.
  all: destruct i; [|done]; injection Ht as <-; simpl in *.
  - injection Hst as <- <- <-.
    by apply single_finished_stuck in Hrtc as ->.
  - injection Hst as <- <- <-.
    apply single_finished_stuck in Hrtc as ->; [|done].
    by apply Forall_cons_1 in Hdone as [? _].
  - destruct (op w) as [w1 r]. injection Hst as <- <- <-. by eapply IH.
Qed.

Lemma single_waiting_final (k : coro unit) (f : path) (w : world) (sem : nat) (c : config) :
  rtc step (Config w sem [Task f (Waiting k)]) c -> all_done c ->
  c_world c = fst (run k w).
Proof.
  intros [<-|(c2 & [i Hi] & Hrtc)]%rtc_inv Hdone;
    [by apply Forall_cons_1 in Hdone as [? _]|].
  apply step_at_inv in Hi as (t & w' & sem' & st' & Ht & Hst & ->); simpl in *.
  destruct i; [|done]; injection Ht as <-; simpl in *.
  destruct sem; [done|]. injection Hst as <- <- <-.
  by eapply single_running_final.
Qed.

(** No task of a run ends with an exception. *)
Lemma no_task_fails (w : world) (files : list path) (c : config) (i : nat) (f : path) (e : exn) :
  rtc step (dispatch w files dst_path) c -> c_tasks c !! i ≠ Some (Task f (Failed e)).
Proof.
  intros Hok%reachable_tasks_ok Hi.
  rewrite Forall_lookup in Hok. by apply (Hok i _ Hi).
Qed.

End Steps.

(** * The claims *)

(** ** The decision for one file *)

(** C1 — For a readable source file whose extension folder can be
    created, the outcome is decided by what is at the natural
    destination [dst_root/ext_folder/name].  The extension folder is
    "no_extension" for a name without suffix and the lower-cased suffix
    without its dot otherwise, [str.lower()] being the lower case of
    Unicode; for a suffix of ASCII characters that is: every letter of
    [A-Z] replaced by the letter of [a-z] 32 places further, the other
    characters kept.  Nothing at the natural path: the source
    is copied there (Fresh).  A readable file of the same size and the
    same SHA-256 digest: nothing is copied (SkipDuplicate).  A file of
    another size, or of the same size with another digest: the source is
    copied to [dst_root/ext_folder/stem_<8 hex>suffix] (RenameCopy). *)
Theorem copy_decision (src_path dst_root : path) (w : world)
    (wr : bool) (data : list byte) (m1 : gmap path node) :
  fs w !! src_path = Some (File true wr data) ->
  makedirs (dest_dir_of src_path dst_root) (fs w) = (m1, None) ->
  let h := Sha256.hexdigest data in
  let natural := natural_dest src_path dst_root in
  let target := renamed_dest src_path dst_root h in
  ((PyPath.suffix src_path = "" ∧ ext_folder_of src_path = "no_extension")
   ∨ ∃ r, PyPath.suffix src_path = String "." r
          ∧ ext_folder_of src_path = PyStr.lower r
          ∧ (is_ascii r ->
             list_ascii_of_string (ext_folder_of src_path)
             = List.map (fun a => if (65 <=? nat_of_ascii a)%nat && (nat_of_ascii a <=? 90)%nat
                                  then ascii_of_nat (nat_of_ascii a + 32) else a)
                        (list_ascii_of_string r)))
  ∧ natural = dst_root ++ [ext_folder_of src_path; PyPath.name src_path]
  ∧ target = dst_root ++ [ext_folder_of src_path;
                          PyPath.stem src_path +:+ "_" +:+ PyStr.take 8 h
                            +:+ PyPath.suffix src_path]
  ∧ String.length (PyStr.take 8 h) = 8
  ∧ (fs w !! natural = None ->
     run (copy_file_body src_path dst_root) w
     = (World (<[natural := File true true data]> m1)
              (log w ++ [LogCopying src_path natural]) (hash_calls w), inr tt))
  ∧ (∀ wr' data',
       fs w !! natural = Some (File true wr' data') ->
       length data' = length data ->
       Sha256.hexdigest data' = h ->
       run (copy_file_body src_path dst_root) w
       = (World m1 (log w ++ [LogSkipped src_path])
                (hash_calls w ++ [src_path; natural]), inr tt))
  ∧ (∀ r' wr' data',
       fs w !! natural = Some (File r' wr' data') ->
       length data' ≠ length data ∨ (r' = true ∧ Sha256.hexdigest data' ≠ h) ->
       writable_or_absent (fs w) target ->
       ∃ rec calls,
         run (copy_file_body src_path dst_root) w
         = (World (written m1 target data) (log w ++ [rec]) (hash_calls w ++ calls),
            inr tt)
         ∧ (rec = LogRenamedSameSize src_path (renamed src_path h)
            ∨ rec = LogRenamedDiffSize src_path (renamed src_path h))).
Proof.
  intros Hsrc Hmk h natural target. split_and!.
  - destruct (suffix_shape (PyPath.name src_path)) as [He|(r & Hr & _)].
    + left. split; [done | by apply ext_folder_no_suffix].
    + right. exists r. split_and!; [done | by apply ext_folder_suffix |].
      intros Hascii. rewrite (ext_folder_suffix _ _ Hr). by apply lower_ascii.
  - unfold natural, natural_dest, dest_dir_of, PyPath.join. by rewrite <- app_assoc.
  - unfold target, renamed_dest, dest_dir_of, PyPath.join, renamed.
    by rewrite <- app_assoc.
  - apply length_short_hash.
  - intros Hnat. by eapply body_fresh.
  - intros wr' data' Hnat Hlen Hh. by eapply body_skip.
  - intros r' wr' data' Hnat Hdiff Htgt.
    destruct (decide (length data' = length data)) as [Hlen|Hlen].
    + destruct Hdiff as [?|[-> Hh]]; [done|].
      eexists _, _. split; [by eapply body_rename_same_size | by left].
    + eexists _, _. split; [|by right].
      by apply (body_rename_diff_size _ _ _ wr _ _ Hsrc Hmk (File r' wr' data')).
Qed.

Lemma copy_decision_witness :
  list_ascii_of_string (ext_folder_of Scenes.src_photo) = ["j"; "p"; "g"]%char
  ∧ run (copy_file_body Scenes.src_photo Sample.dst) (Sample.world_of Scenes.fs_photo)
    = (World (<[ ["dst"; "jpg"; "Photo.JPG"] := File true true (bytes_of "pixels") ]>
               (<[ ["dst"; "jpg"] := Dir ]> (<[ ["dst"] := Dir ]> Scenes.fs_photo)))
             [LogCopying Scenes.src_photo ["dst"; "jpg"; "Photo.JPG"]] [], inr tt).
Proof.
  assert (fs (Sample.world_of Scenes.fs_photo) !! Scenes.src_photo
          = Some (File true true (bytes_of "pixels"))) as Hs
    by (vm_compute; reflexivity).
  assert (makedirs (dest_dir_of Scenes.src_photo Sample.dst)
                   (fs (Sample.world_of Scenes.fs_photo))
          = (<[ ["dst"; "jpg"] := Dir ]> (<[ ["dst"] := Dir ]> Scenes.fs_photo), None)) as Hm
    by (vm_compute; reflexivity).
  destruct (copy_decision _ _ _ _ _ _ Hs Hm) as (Hext & _ & _ & _ & Hfresh & _).
  split.
  - destruct Hext as [[He _]|(r & Hr & _ & Hascii)]; [discriminate He|].
    injection Hr as <-. apply Hascii. repeat constructor.
  - apply Hfresh. vm_compute; reflexivity.
Defined.

(** The three outcomes on the sample trees. *)
Example decision_fresh :
  log (fst (run (copy_file_body Sample.src_a Sample.dst) (Sample.world_of Sample.fs_fresh)))
  = [LogCopying Sample.src_a ["dst"; "txt"; "a.txt"]].
Proof. vm_compute. reflexivity. Qed.

Example decision_skip :
  log (fst (run (copy_file_body Sample.src_a Sample.dst) (Sample.world_of Sample.fs_same)))
  = [LogSkipped Sample.src_a].
Proof. vm_compute. reflexivity. Qed.

Example decision_rename :
  log (fst (run (copy_file_body Sample.src_a Sample.dst) (Sample.world_of Sample.fs_conflict)))
  = [LogRenamedSameSize Sample.src_a "a_2cf24dba.txt"].
Proof. vm_compute. reflexivity. Qed.

(** C4 — When what is at the natural destination has another size than
    the source, [compute_hash] is called exactly once during the
    processing of the file, on the source, and never on the existing
    destination file; with a readable source and a writable target the
    outcome is the rename-and-copy. *)
Theorem size_mismatch_hashes_source_only (src_path dst_root : path) (w : world)
    (n1 n2 : node) (m1 : gmap path node) :
  fs w !! src_path = Some n1 ->
  makedirs (dest_dir_of src_path dst_root) (fs w) = (m1, None) ->
  fs w !! natural_dest src_path dst_root = Some n2 ->
  st_size n1 ≠ st_size n2 ->
  hash_calls (fst (run (copy_file_body src_path dst_root) w)) = hash_calls w ++ [src_path]
  ∧ src_path ≠ natural_dest src_path dst_root
  ∧ (∀ wr data,
       n1 = File true wr data ->
       let target := renamed_dest src_path dst_root (Sha256.hexdigest data) in
       writable_or_absent (fs w) target ->
       run (copy_file_body src_path dst_root) w
       = (World (written m1 target data)
                (log w ++ [LogRenamedDiffSize src_path
                             (renamed src_path (Sha256.hexdigest data))])
                (hash_calls w ++ [src_path]), inr tt)).
Proof.
  intros Hsrc Hmk Hnat Hsize. split_and!.
  - by eapply body_diff_size_hash_calls.
  - intros E. rewrite <- E in Hnat. congruence.
  - intros wr data -> target Htgt.
    apply (body_rename_diff_size _ _ _ wr _ _ Hsrc Hmk n2); [done | | done].
    simpl in Hsize. congruence.
Qed.

Lemma size_mismatch_hashes_source_only_witness :
  hash_calls (fst (run (copy_file_body Sample.src_a Sample.dst)
                       (Sample.world_of Sample.fs_shorter)))
  = [Sample.src_a].
Proof.
  assert (fs (Sample.world_of Sample.fs_shorter) !! Sample.src_a
          = Some (File true true (bytes_of "hello"))) as Hs
    by (vm_compute; reflexivity).
  assert (makedirs (dest_dir_of Sample.src_a Sample.dst) (fs (Sample.world_of Sample.fs_shorter))
          = (Sample.fs_shorter, None)) as Hm
    by (vm_compute; reflexivity).
  assert (fs (Sample.world_of Sample.fs_shorter) !! natural_dest Sample.src_a Sample.dst
          = Some (File true true (bytes_of "hi"))) as Hn
    by (vm_compute; reflexivity).
  assert (st_size (File true true (bytes_of "hello")) ≠ st_size (File true true (bytes_of "hi")))
    as Hz by (vm_compute; lia).
  exact (proj1 (size_mismatch_hashes_source_only _ _ _ _ _ _ Hs Hm Hn Hz)).
Defined.

(** C8 — In a well-formed tree, with a readable file of the same size as
    the source at the natural destination: if the digests are equal the
    tree is left exactly as it was (no file created, none changed); if
    they differ the source is written under the suffixed name only, and
    the file at the natural path, like every other path, is untouched. *)
Theorem duplicate_leaves_destination_untouched (src_path dst_root : path) (w : world)
    (wr wr' : bool) (data data' : list byte) :
  well_formed (fs w) ->
  fs w !! src_path = Some (File true wr data) ->
  fs w !! natural_dest src_path dst_root = Some (File true wr' data') ->
  length data' = length data ->
  let h := Sha256.hexdigest data in
  let target := renamed_dest src_path dst_root h in
  let after := fs (fst (run (copy_file_body src_path dst_root) w)) in
  (Sha256.hexdigest data' = h -> after = fs w)
  ∧ (Sha256.hexdigest data' ≠ h ->
     writable_or_absent (fs w) target ->
     target ≠ natural_dest src_path dst_root
     ∧ after !! natural_dest src_path dst_root = Some (File true wr' data')
     ∧ (∃ r, after !! target = Some (File r true data))
     ∧ (∀ p, p ≠ target -> after !! p = fs w !! p)).
Proof.
  intros Hwf Hsrc Hnat Hlen h target after.
  assert (makedirs (dest_dir_of src_path dst_root) (fs w) = (fs w, None)) as Hmk
    by (by eapply wf_makedirs_noop).
  split.
  - intros Hh. unfold after. by erewrite body_skip.
  - intros Hh Htgt.
    assert (after = written (fs w) target data) as ->.
    { unfold after. by erewrite body_rename_same_size. }
    pose proof (renamed_dest_neq_natural src_path dst_root h) as Hne.
    unfold written. split_and!.
    + done.
    + by rewrite lookup_insert_ne.
    + eexists. by rewrite lookup_insert_eq.
    + intros p Hp. by rewrite lookup_insert_ne.
Qed.

Lemma duplicate_leaves_destination_untouched_witness :
  fs (fst (run (copy_file_body Sample.src_a Sample.dst) (Sample.world_of Sample.fs_same)))
  = Sample.fs_same.
Proof.
  assert (well_formed (fs (Sample.world_of Sample.fs_same))) as Hwf
    by (apply (bool_decide_unpack _); vm_compute; reflexivity).
  assert (fs (Sample.world_of Sample.fs_same) !! Sample.src_a
          = Some (File true true (bytes_of "hello"))) as Hs
    by (vm_compute; reflexivity).
  assert (fs (Sample.world_of Sample.fs_same) !! natural_dest Sample.src_a Sample.dst
          = Some (File true true (bytes_of "hello"))) as Hn
    by (vm_compute; reflexivity).
  assert (length (bytes_of "hello") = length (bytes_of "hello")) as Hl by reflexivity.
  exact (proj1 (duplicate_leaves_destination_untouched _ _ _ _ _ _ _ Hwf Hs Hn Hl) eq_refl).
Defined.

(** The second scenario of the specification: [a.txt] = "hello" against
    an existing [a.txt] = "world". *)
Example rename_leaves_original :
  let after := fs (fst (run (copy_file_body Sample.src_a Sample.dst)
                            (Sample.world_of Sample.fs_conflict))) in
  after !! ["dst"; "txt"; "a.txt"] = Some (File true true (bytes_of "world"))
  ∧ after !! ["dst"; "txt"; "a_2cf24dba.txt"] = Some (File true true (bytes_of "hello")).
Proof. vm_compute. split; reflexivity. Qed.

(** C10 — A source file without suffix whose natural destination
    [dst_root/no_extension/name] holds a file of another size, or of the
    same size and another digest, is copied to
    [dst_root/no_extension/name_<8 hex>]: the new name is the old one,
    an underscore and the first eight characters of the digest, which
    hold no dot; nothing is appended after them and the processing does
    not fail. *)
Theorem no_extension_rename (src_path dst_root : path) (w : world)
    (wr r' wr' : bool) (data data' : list byte) (m1 : gmap path node) :
  PyPath.suffix src_path = "" ->
  fs w !! src_path = Some (File true wr data) ->
  makedirs (dst_root ++ ["no_extension"]) (fs w) = (m1, None) ->
  fs w !! (dst_root ++ ["no_extension"; PyPath.name src_path]) = Some (File r' wr' data') ->
  length data' ≠ length data ∨ (r' = true ∧ Sha256.hexdigest data' ≠ Sha256.hexdigest data) ->
  let short_hash := PyStr.take 8 (Sha256.hexdigest data) in
  let new_name := PyPath.name src_path +:+ "_" +:+ short_hash in
  let target := dst_root ++ ["no_extension"; new_name] in
  writable_or_absent (fs w) target ->
  renamed src_path (Sha256.hexdigest data) = new_name
  ∧ String.length short_hash = 8
  ∧ PyStr.rfind "." short_hash = None
  ∧ ∃ rec calls,
      run (copy_file_body src_path dst_root) w
      = (World (written m1 target data) (log w ++ [rec]) (hash_calls w ++ calls), inr tt)
      ∧ (rec = LogRenamedSameSize src_path new_name
         ∨ rec = LogRenamedDiffSize src_path new_name).
Proof.
  intros Hsuf Hsrc Hmk Hnat Hdiff short_hash new_name target Htgt.
  assert (renamed src_path (Sha256.hexdigest data) = new_name) as Hnew.
  { unfold renamed, new_name, short_hash, PyPath.stem.
    rewrite Hsuf, append_nil_r. unfold PyPath.suffix in Hsuf.
    by rewrite (stem_no_suffix _ Hsuf). }
  pose proof (ext_folder_no_suffix _ Hsuf) as Hext.
  assert (dest_dir_of src_path dst_root = dst_root ++ ["no_extension"]) as Hdir
    by (unfold dest_dir_of, PyPath.join; by rewrite Hext).
  assert (natural_dest src_path dst_root
          = dst_root ++ ["no_extension"; PyPath.name src_path]) as En.
  { unfold natural_dest, PyPath.join. by rewrite Hdir, <- app_assoc. }
  assert (renamed_dest src_path dst_root (Sha256.hexdigest data) = target) as Et.
  { unfold renamed_dest, target, PyPath.join. by rewrite Hdir, Hnew, <- app_assoc. }
  rewrite <- Hdir in Hmk. rewrite <- En in Hnat. rewrite <- Et in Htgt |- *.
  rewrite <- Hnew.
  split_and!; [done | apply length_short_hash | apply short_hash_no_dot |].
  destruct (decide (length data' = length data)) as [Hlen|Hlen].
  - destruct Hdiff as [?|[-> Hh]]; [done|].
    eexists _, _. split; [by eapply body_rename_same_size | by left].
  - eexists _, _. split; [|by right].
    by apply (body_rename_diff_size _ _ _ wr _ _ Hsrc Hmk (File r' wr' data')).
Qed.

Lemma no_extension_rename_witness :
  ∃ rec calls,
    run (copy_file_body Sample.src_notes Sample.dst) (Sample.world_of Sample.fs_notes)
    = (World (written Sample.fs_notes ["dst"; "no_extension"; "notes_2d711642"] (bytes_of "x"))
             ([] ++ [rec]) ([] ++ calls), inr tt)
    ∧ (rec = LogRenamedSameSize Sample.src_notes "notes_2d711642"
       ∨ rec = LogRenamedDiffSize Sample.src_notes "notes_2d711642").
Proof.
  assert (PyPath.suffix Sample.src_notes = "") as H0 by reflexivity.
  assert (fs (Sample.world_of Sample.fs_notes) !! Sample.src_notes
          = Some (File true true (bytes_of "x"))) as Hs
    by (vm_compute; reflexivity).
  assert (makedirs (Sample.dst ++ ["no_extension"]) (fs (Sample.world_of Sample.fs_notes))
          = (Sample.fs_notes, None)) as Hm
    by (vm_compute; reflexivity).
  assert (fs (Sample.world_of Sample.fs_notes)
            !! (Sample.dst ++ ["no_extension"; PyPath.name Sample.src_notes])
          = Some (File true true (bytes_of "y"))) as Hn
    by (vm_compute; reflexivity).
  assert (length (bytes_of "y") ≠ length (bytes_of "x")
          ∨ (true = true ∧ Sha256.hexdigest (bytes_of "y") ≠ Sha256.hexdigest (bytes_of "x")))
    as Hd by (right; split; [reflexivity | vm_compute; discriminate]).
  assert (writable_or_absent (fs (Sample.world_of Sample.fs_notes))
            (Sample.dst ++ ["no_extension";
               PyPath.name Sample.src_notes +:+ "_"
                 +:+ PyStr.take 8 (Sha256.hexdigest (bytes_of "x"))])) as Hw
    by (left; vm_compute; reflexivity).
  exact (proj2 (proj2 (proj2 (no_extension_rename _ _ _ _ _ _ _ _ _ H0 Hs Hm Hn Hd Hw)))).
Defined.

(** ** The run *)

(** C5 — If the source path is not an existing directory, [main_async]
    raises [NotADirectoryError] before anything else happens: every run
    ends with that exception in the world it started from (no directory
    created, nothing enumerated or copied, nothing logged). *)
Theorem invalid_source_aborts (src_path dst_path : path) (w : world) :
  is_dir (fs w) src_path = false ->
  run (main_prepare src_path dst_path) w = (w, inl NotADirectoryError)
  ∧ main_async src_path dst_path w w (Some NotADirectoryError)
  ∧ (∀ w' r, main_async src_path dst_path w w' r ->
             w' = w ∧ r = Some NotADirectoryError).
Proof.
  intros Hsrc. pose proof (main_prepare_not_dir src_path dst_path w Hsrc) as Hp.
  split_and!; [done | by apply main_fatal |].
  intros w' r Hrun. destruct Hrun as [w1 e H|w1 files c H _ _|w1 files c i f e H _ _];
    rewrite Hp in H; by simplify_eq.
Qed.

Lemma invalid_source_aborts_witness :
  run (main_prepare ["src"; "a.txt"] Sample.dst) (Sample.world_of Sample.fs_fresh)
  = (Sample.world_of Sample.fs_fresh, inl NotADirectoryError)
  ∧ main_async ["src"; "a.txt"] Sample.dst (Sample.world_of Sample.fs_fresh)
               (Sample.world_of Sample.fs_fresh) (Some NotADirectoryError).
Proof.
  assert (is_dir (fs (Sample.world_of Sample.fs_fresh)) ["src"; "a.txt"] = false) as H
    by (vm_compute; reflexivity).
  destruct (invalid_source_aborts ["src"; "a.txt"] Sample.dst _ H) as (H1 & H2 & _).
  exact (conj H1 H2).
Defined.

(** C6 — No file that lies under the destination root is dispatched:
    the files handed to [asyncio.gather] hold no path with the
    destination as a proper ancestor, and at every moment of the run the
    tasks are tasks for exactly those files, wherever the destination
    lies, inside the source tree or not. *)
Theorem files_under_destination_not_dispatched (src_path dst_path : path)
    (w w1 : world) (files : list path) :
  run (main_prepare src_path dst_path) w = (w1, inr files) ->
  (∀ f, f ∈ files -> ¬ ∃ rest, rest ≠ [] ∧ f = dst_path ++ rest)
  ∧ (∀ c, rtc step (dispatch w1 files dst_path) c ->
          List.map t_file (c_tasks c) = files
          ∧ ∀ t, t ∈ c_tasks c -> ¬ ∃ rest, rest ≠ [] ∧ t_file t = dst_path ++ rest).
Proof.
  intros Hp.
  destruct (main_prepare_ok _ _ _ _ _ Hp) as (_ & (m & _ & Hfiles) & _).
  assert (∀ f, f ∈ files -> ¬ ∃ rest, rest ≠ [] ∧ f = dst_path ++ rest) as Hout.
  { intros f Hf. rewrite Hfiles in Hf.
    apply list_elem_of_In, List.filter_In in Hf as [_ Hf].
    rewrite <- is_proper_ancestor_spec. by destruct (PyPath.is_proper_ancestor dst_path f). }
  split; [done|]. intros c Hc.
  pose proof (reachable_files _ _ _ _ Hc) as Hmap. split; [done|].
  intros t Ht. apply Hout. rewrite <- Hmap. apply list_elem_of_fmap. by exists t.
Qed.

Lemma files_under_destination_not_dispatched_witness :
  Forall (fun f => ¬ ∃ rest, rest ≠ [] ∧ f = Sample.nested_dst ++ rest)
         [ ["src"; "a.txt"]; ["src"; "sub"; "a.txt"]; ["src"; "notes"]; ["src"; "sub"; "c.bin"] ].
Proof.
  assert (run (main_prepare ["src"] Sample.nested_dst) (Sample.world_of Sample.fs_tree)
          = (fst (run (main_prepare ["src"] Sample.nested_dst) (Sample.world_of Sample.fs_tree)),
             inr [ ["src"; "a.txt"]; ["src"; "sub"; "a.txt"]; ["src"; "notes"]; ["src"; "sub"; "c.bin"] ]))
    as H by (vm_compute; reflexivity).
  apply Forall_forall.
  exact (proj1 (files_under_destination_not_dispatched _ _ _ _ _ H)).
Defined.

(** The destination lies inside the source: its file is enumerated, and
    left out of the dispatch. *)
Example nested_destination_enumerated :
  ["src"; "dist"; "txt"; "old.txt"] ∈ rglob_files Sample.fs_tree ["src"].
Proof. vm_compute. apply list_elem_of_here. Qed.

(** C7 — When [main_async] creates the tasks, the extension folder of
    every dispatched file exists under the destination root; it still
    exists at every later moment of the run, under every schedule; and a
    step of the task of file [f] that creates or changes a file does so
    directly inside the extension folder of [f], which exists when the
    step is taken. *)
Theorem extension_folders_exist_before_writes (src_path dst_path : path)
    (w w1 : world) (files : list path) :
  run (main_prepare src_path dst_path) w = (w1, inr files) ->
  (∀ f, f ∈ files -> is_dir (fs w1) (PyPath.join dst_path (ext_folder_of f)) = true)
  ∧ (∀ c, rtc step (dispatch w1 files dst_path) c ->
      (∀ f, f ∈ files ->
            is_dir (fs (c_world c)) (PyPath.join dst_path (ext_folder_of f)) = true)
      ∧ (∀ i c' p,
           step_at i c = Some c' ->
           fs (c_world c') !! p ≠ fs (c_world c) !! p ->
           is_file (fs (c_world c')) p = true ->
           ∃ f, files !! i = Some f
                ∧ PyPath.parent p = PyPath.join dst_path (ext_folder_of f)
                ∧ is_dir (fs (c_world c)) (PyPath.parent p) = true)).
Proof.
  intros Hp.
  destruct (main_prepare_ok _ _ _ _ _ Hp) as (_ & _ & _ & _ & Hdirs & _).
  split; [done|].
  assert (∀ c, rtc step (dispatch w1 files dst_path) c ->
               ∀ f, f ∈ files -> is_dir (fs (c_world c)) (dest_dir_of f dst_path) = true)
    as Hinv.
  { apply (reachable_ind (fun c => ∀ f, f ∈ files ->
               is_dir (fs (c_world c)) (dest_dir_of f dst_path) = true)); [done|].
    intros c c' Hc IH [i Hi] f Hf.
    destruct (step_at_confined dst_path c c' i (reachable_tasks_ok _ _ _ _ Hc) Hi)
      as (_ & _ & Hkeep & _).
    by apply Hkeep, IH. }
  intros c Hc. split; [by apply Hinv|].
  intros i c' p Hi Hchg Hfile.
  destruct (step_at_confined dst_path c c' i (reachable_tasks_ok _ _ _ _ Hc) Hi)
    as (f & Hf & _ & Hfoot).
  rewrite (reachable_files _ _ _ _ Hc) in Hf.
  exists f. split; [done|].
  destruct (Hfoot p Hchg) as [[_ Hd]|[Hpar _]].
  - unfold is_file in Hfile. by rewrite Hd in Hfile.
  - split; [done|]. rewrite Hpar. apply Hinv; [done|].
    by eapply list_elem_of_lookup_2.
Qed.

Lemma extension_folders_exist_before_writes_witness :
  Forall (fun f => is_dir (fs (fst (run (main_prepare ["src"] Sample.nested_dst)
                                        (Sample.world_of Sample.fs_tree))))
                          (PyPath.join Sample.nested_dst (ext_folder_of f)) = true)
         [ ["src"; "a.txt"]; ["src"; "sub"; "a.txt"]; ["src"; "notes"]; ["src"; "sub"; "c.bin"] ].
Proof.
  assert (run (main_prepare ["src"] Sample.nested_dst) (Sample.world_of Sample.fs_tree)
          = (fst (run (main_prepare ["src"] Sample.nested_dst) (Sample.world_of Sample.fs_tree)),
             inr [ ["src"; "a.txt"]; ["src"; "sub"; "a.txt"]; ["src"; "notes"]; ["src"; "sub"; "c.bin"] ]))
    as H by (vm_compute; reflexivity).
  apply Forall_forall.
  exact (proj1 (extension_folders_exist_before_writes _ _ _ _ _ H)).
Defined.

(** The folders that the dispatcher adds on the sample tree. *)
Example folders_created :
  let m := fs (fst (run (main_prepare ["src"] Sample.nested_dst)
                        (Sample.world_of Sample.fs_tree))) in
  m !! ["src"; "dist"; "no_extension"] = Some Dir
  ∧ m !! ["src"; "dist"; "bin"] = Some Dir
  ∧ Sample.fs_tree !! ["src"; "dist"; "bin"] = None.
Proof. vm_compute. split_and!; reflexivity. Qed.

(** C9 — At every moment of a run, under every schedule and for any
    number of dispatched files, at most 100 tasks are inside
    [async with sem]: free slots and holders always add up to 100.  A
    step that ends a task, by return or by exception, gives its slot
    back, and when all tasks have ended all 100 slots are free. *)
Theorem at_most_100_hold_a_slot (dst_path : path) (w : world) (files : list path)
    (c : config) :
  rtc step (dispatch w files dst_path) c ->
  (holders c ≤ 100)%nat
  ∧ c_sem c + holders c = 100
  ∧ (∀ i c' t',
       step_at i c = Some c' -> c_tasks c' !! i = Some t' -> finished t' = true ->
       c_sem c' = S (c_sem c) ∧ S (holders c') = holders c)
  ∧ (Forall (fun t => finished t = true) (c_tasks c) -> c_sem c = 100).
Proof.
  intros Hc. pose proof (reachable_sem _ _ _ _ Hc) as Hsem.
  unfold MAX_CONCURRENT in Hsem. split_and!; [lia | done | |].
  - intros i c' t' Hi Ht' Hfin.
    assert (step c c') as Hstep by (by exists i).
    pose proof (step_sem _ _ Hstep) as Hs.
    apply step_at_inv in Hi as (t & w' & sem' & st' & Ht & Hst & ->). simpl in *.
    rewrite list_lookup_insert_eq in Ht' by (by eapply lookup_lt_Some).
    injection Ht' as <-. unfold finished in Hfin. simpl in Hfin.
    assert (sem' = S (c_sem c)) as ->; [|lia].
    destruct (t_state t) as [b|k| |e]; simpl in Hst.
    + destruct (c_sem c); [done|]. by injection Hst as _ _ <-.
    + destruct k as [a|e|R op k]; simpl in Hst.
      * by injection Hst as _ <- _.
      * by injection Hst as _ <- _.
      * destruct (op (c_world c)) as [w1 r]. by injection Hst as _ _ <-.
    + done.
    + done.
  - intros Hfin. enough (holders c = 0) by lia.
    unfold holders. induction Hfin as [|[f st] l Hf _ IH]; [done|].
    unfold finished in Hf. simpl in *. unfold is_running at 1. simpl.
    by destruct st.
Qed.

Lemma at_most_100_hold_a_slot_witness :
  (holders (Config (Sample.world_of Sample.fs_tree) 99
             [Task ["src"; "a.txt"] (Running (copy_file_body ["src"; "a.txt"] Sample.nested_dst));
              Task ["src"; "notes"] (Waiting (copy_file_body ["src"; "notes"] Sample.nested_dst))])
   ≤ 100)%nat.
Proof.
  assert (rtc step
            (dispatch (Sample.world_of Sample.fs_tree)
                      [ ["src"; "a.txt"]; ["src"; "notes"] ] Sample.nested_dst)
            (Config (Sample.world_of Sample.fs_tree) 99
               [Task ["src"; "a.txt"] (Running (copy_file_body ["src"; "a.txt"] Sample.nested_dst));
                Task ["src"; "notes"] (Waiting (copy_file_body ["src"; "notes"] Sample.nested_dst))]))
    as H by (apply rtc_once; exists 0; reflexivity).
  exact (proj1 (at_most_100_hold_a_slot _ _ _ _ H)).
Defined.

(** C3 — An exception raised while a file is processed is caught by the
    worker and logged as an error, and the worker returns.  So no task
    ever ends with an exception; whatever the schedule, as long as a
    task is unfinished some task can take a step, and no schedule goes
    on for ever: every dispatched file reaches its end.  Every run that
    reaches the dispatch returns normally with "Processing completed."
    as its last log record, and such a run exists. *)
Theorem per_file_failure_does_not_abort (src_path dst_path : path)
    (w w1 : world) (files : list path) :
  run (main_prepare src_path dst_path) w = (w1, inr files) ->
  (∀ f w0 w0' e,
     run (copy_file_try f dst_path) w0 = (w0', inl e) ->
     run (copy_file_body f dst_path) w0 = (logged (LogError f e) w0', inr tt))
  ∧ (∀ c, rtc step (dispatch w1 files dst_path) c ->
          (∀ i f e, c_tasks c !! i ≠ Some (Task f (Failed e)))
          ∧ (all_done c ∨ ∃ c', step c c')
          ∧ Acc (flip step) c)
  ∧ (∀ w' r, main_async src_path dst_path w w' r ->
             r = None ∧ last (log w') = Some LogCompleted)
  ∧ (∃ w', main_async src_path dst_path w w' None).
Proof.
  intros Hp. split_and!.
  - intros f w0 w0' e Htry. unfold copy_file_body.
    by rewrite run_try_except, Htry, run_logging.
  - intros c Hc. split_and!.
    + intros i f e. by eapply no_task_fails.
    + eapply progress; [by eapply reachable_tasks_ok | by eapply reachable_sem].
    + apply step_sn.
  - intros w' r Hrun.
    destruct Hrun as [w2 e H|w2 fl c H Hc Hd|w2 fl c i f e H Hc Hi];
      rewrite Hp in H; simplify_eq.
    + split; [done|]. simpl. apply last_snoc.
    + destruct (no_task_fails _ _ _ _ _ _ _ Hc Hi).
  - pose proof (in_turn_is_a_run dst_path src_path w) as Hrun.
    unfold main_async_in_turn in Hrun. rewrite Hp in Hrun. eauto.
Qed.

Lemma per_file_failure_does_not_abort_witness :
  ∃ w', main_async ["src"] Sample.nested_dst (Sample.world_of Sample.fs_tree) w' None.
Proof.
  assert (run (main_prepare ["src"] Sample.nested_dst) (Sample.world_of Sample.fs_tree)
          = (fst (run (main_prepare ["src"] Sample.nested_dst) (Sample.world_of Sample.fs_tree)),
             inr [ ["src"; "a.txt"]; ["src"; "sub"; "a.txt"]; ["src"; "notes"]; ["src"; "sub"; "c.bin"] ]))
    as H by (vm_compute; reflexivity).
  exact (proj2 (proj2 (proj2 (per_file_failure_does_not_abort _ _ _ _ _ H)))).
Defined.

(** The unreadable file of the sample tree is logged as an error; the
    other files are processed and the run completes. *)
Example failure_is_logged_and_run_completes :
  let r := main_async_in_turn ["src"] Sample.nested_dst (Sample.world_of Sample.fs_tree) in
  log (fst r)
  = [LogCopying ["src"; "a.txt"] ["src"; "dist"; "txt"; "a.txt"];
     LogRenamedSameSize ["src"; "sub"; "a.txt"] "a_486ea462.txt";
     LogCopying ["src"; "notes"] ["src"; "dist"; "no_extension"; "notes"];
     LogCopying ["src"; "sub"; "c.bin"] ["src"; "dist"; "bin"; "c.bin"];
     LogError ["src"; "sub"; "c.bin"] PermissionError;
     LogCompleted]
  ∧ snd r = None.
Proof. vm_compute. split; reflexivity. Qed.

(** ** Writing what is there already *)

Section Written.

Lemma written_id (m : gmap path node) (p : path) (r : bool) (data : list byte) :
  m !! p = Some (File r true data) -> written m p data = m.
Proof. intros H. unfold written. rewrite H. by apply insert_id. Qed.

Lemma is_dir_written (m : gmap path node) (p q : path) (data : list byte) :
  writable_or_absent m p -> is_dir m q = true -> is_dir (written m p data) q = true.
Proof.
  intros Hp. unfold written. apply is_dir_insert_file.
  destruct Hp as [->|(r & d & ->)]; done.
Qed.

End Written.

(** ** A second run, the tasks taken in turn *)

Section SecondRun.

Variable dst_path : path.

(** Destination paths lie under the destination root. *)
Lemma natural_under_dst (f : path) :
  PyPath.is_proper_ancestor dst_path (natural_dest f dst_path) = true.
Proof.
  apply is_proper_ancestor_spec. exists [ext_folder_of f; PyPath.name f].
  split; [done|]. unfold natural_dest, dest_dir_of, PyPath.join. by rewrite <- app_assoc.
Qed.

Lemma renamed_under_dst (f : path) (h : string) :
  PyPath.is_proper_ancestor dst_path (renamed_dest f dst_path h) = true.
Proof.
  apply is_proper_ancestor_spec. exists [ext_folder_of f; renamed f h].
  split; [done|]. unfold renamed_dest, dest_dir_of, PyPath.join. by rewrite <- app_assoc.
Qed.

Lemma slots_under_dst (m : gmap path node) (f p : path) :
  p ∈ slots m dst_path f -> PyPath.is_proper_ancestor dst_path p = true.
Proof.
  unfold slots. intros [->|Hp]%elem_of_cons; [apply natural_under_dst|].
  destruct (m !! f) as [[|r wr data]|]; try by apply elem_of_nil in Hp.
  apply list_elem_of_singleton in Hp as ->. apply renamed_under_dst.
Qed.

Lemma slots_long (m : gmap path node) (f p : path) :
  p ∈ slots m dst_path f -> length p = S (S (length dst_path)).
Proof.
  unfold slots. intros [->|Hp]%elem_of_cons; [apply length_natural|].
  destruct (m !! f) as [[|r wr data]|]; try by apply elem_of_nil in Hp.
  apply list_elem_of_singleton in Hp as ->. apply length_renamed_dest.
Qed.

(** One worker, without error: only its slots change, apart from the
    directories that [makedirs] adds; directories stay. *)
Lemma try_frame (f : path) (w w1 : world) :
  run (copy_file_try f dst_path) w = (w1, inr tt) ->
  (∀ q, is_dir (fs w) q = true -> is_dir (fs w1) q = true)
  ∧ (∀ p, p ∉ slots (fs w) dst_path f ->
          S (length dst_path) < length p ∨ is_Some (fs w !! p) ->
          fs w1 !! p = fs w !! p).
Proof.
  intros Htry.
  destruct (try_succeeds_inv _ _ _ _ Htry) as (wr & data & m1 & Hsrc & Hmk & Hcase).
  pose proof (m1_natural _ _ _ _ Hmk) as Hnat1.
  pose proof (m1_renamed _ _ _ _ Hmk (Sha256.hexdigest data)) as Htgt1.
  assert (∀ p, S (length dst_path) < length p ∨ is_Some (fs w !! p) ->
               m1 !! p = fs w !! p) as Hm1.
  { intros p [Hlen|[n Hn]].
    - eapply makedirs_other; [eassumption|]. by rewrite length_dest_dir.
    - rewrite Hn. by eapply makedirs_from_keeps. }
  assert (∀ q, is_dir (fs w) q = true -> is_dir m1 q = true) as Hd1
    by (intros q; by eapply is_dir_makedirs_mono).
  unfold slots. rewrite Hsrc.
  destruct Hcase as [[Hn ->]|[(wr' & data' & Hn & _ & _ & ->)
      |[(wr' & data' & Hn & _ & _ & Hw & ->)|(n2 & Hn & _ & Hw & ->)]]];
    cbn [fs]; split.
  - intros q Hq. apply is_dir_insert_file; [by rewrite Hnat1, Hn | by apply Hd1].
  - intros p Hp Hl. rewrite lookup_insert_ne by (intros <-; apply Hp; repeat constructor). by apply Hm1.
  - done.
  - intros p _ Hl. by apply Hm1.
  - intros q Hq. apply is_dir_written; [|by apply Hd1].
    unfold writable_or_absent. by rewrite Htgt1.
  - intros p Hp Hl. unfold written. rewrite lookup_insert_ne by (intros <-; apply Hp; repeat constructor). by apply Hm1.
  - intros q Hq. apply is_dir_written; [|by apply Hd1].
    unfold writable_or_absent. by rewrite Htgt1.
  - intros p Hp Hl. unfold written. rewrite lookup_insert_ne by (intros <-; apply Hp; repeat constructor). by apply Hm1.
Qed.

Lemma in_turn_cons (f : path) (files : list path) (w : world) :
  run_tasks_in_turn (f :: files) dst_path w
  = run_tasks_in_turn files dst_path (fst (run (copy_file_body f dst_path) w)).
Proof. reflexivity. Qed.

Lemma error_free_cons (f : path) (files : list path) (w : world) :
  error_free_in_turn (f :: files) dst_path w = true ->
  ∃ w1, run (copy_file_try f dst_path) w = (w1, inr tt)
        ∧ fst (run (copy_file_body f dst_path) w) = w1
        ∧ error_free_in_turn files dst_path w1 = true.
Proof.
  cbn [error_free_in_turn].
  destruct (run (copy_file_try f dst_path) w) as [w1 [e|[]]] eqn:Htry; [done|].
  intros H. exists w1. split_and!; [done| |done].
  by rewrite (body_of_try _ _ _ _ Htry).
Qed.

(** A source outside the destination is the slot of no file. *)
Lemma source_not_slot (m : gmap path node) (f g : path) :
  PyPath.is_proper_ancestor dst_path f = false -> f ∉ slots m dst_path g.
Proof. intros Hf Hin. apply slots_under_dst in Hin. congruence. Qed.

(** The slots of a file depend on its bytes only. *)
Lemma slots_same_source (m m' : gmap path node) (f : path) :
  m' !! f = m !! f -> slots m' dst_path f = slots m dst_path f.
Proof. intros H. unfold slots. by rewrite H. Qed.

(** The tasks in turn, without error: paths that are the slot of none of
    them are kept, and so are the directories. *)
Lemma in_turn_frame (files : list path) (w : world) :
  error_free_in_turn files dst_path w = true ->
  sources_ok (fs w) dst_path files ->
  (∀ q, is_dir (fs w) q = true ->
        is_dir (fs (run_tasks_in_turn files dst_path w)) q = true)
  ∧ (∀ p, (∀ g, g ∈ files -> p ∉ slots (fs w) dst_path g) ->
          S (length dst_path) < length p ∨ is_Some (fs w !! p) ->
          fs (run_tasks_in_turn files dst_path w) !! p = fs w !! p).
Proof.
  revert w. induction files as [|f files IH]; intros w Hok Hsrc; [done|].
  apply error_free_cons in Hok as (w1 & Htry & Hbody & Hok).
  apply Forall_cons_1 in Hsrc as [[Hf Hfp] Hsrc].
  rewrite in_turn_cons, Hbody.
  destruct (try_frame _ _ _ Htry) as [Hd1 Hf1].
  assert (∀ g, g ∈ files -> fs w1 !! g = fs w !! g) as Hsame.
  { intros g Hg. unfold sources_ok in Hsrc. rewrite Forall_forall in Hsrc.
    destruct (Hsrc g Hg) as [Hout Hp].
    apply Hf1; [by apply source_not_slot | by right]. }
  assert (sources_ok (fs w1) dst_path files) as Hsrc1.
  { unfold sources_ok in *. rewrite Forall_forall in *. intros g Hg.
    destruct (Hsrc g Hg) as [Hout Hp]. split; [done|]. by rewrite Hsame. }
  destruct (IH w1 Hok Hsrc1) as [Hd2 Hf2]. split.
  - intros q Hq. by apply Hd2, Hd1.
  - intros p Hp Hl.
    assert (fs w1 !! p = fs w !! p) as E
      by (apply Hf1; [apply Hp, list_elem_of_here | done]).
    rewrite <- E. apply Hf2.
    + intros g Hg. rewrite (slots_same_source _ _ _ (Hsame g Hg)).
      by apply Hp, list_elem_of_further.
    + destruct Hl as [Hl|Hl]; [by left | right; by rewrite E].
Qed.

(** A settled file is processed without any change to the tree. *)
Lemma settled_again (f : path) (v : world) :
  settled (fs v) dst_path f ->
  ∃ rec calls,
    run (copy_file_try f dst_path) v
    = (World (fs v) (log v ++ [rec]) (hash_calls v ++ calls), inr tt)
    ∧ settled_record (fs v) dst_path f rec.
Proof.
  intros (wr & data & n2 & Hf & Hmk & Hnat
          & [(wr' & data' & -> & Hlen & Hh)|[Hdiff (r & Htgt)]]).
  - eexists _, _. split; [by eapply try_skip | by left].
  - assert (settled_record (fs v) dst_path f
              (LogRenamedSameSize f (renamed f (Sha256.hexdigest data)))
            ∧ settled_record (fs v) dst_path f
              (LogRenamedDiffSize f (renamed f (Sha256.hexdigest data)))) as [R1 R2].
    { split; right; exists (renamed f (Sha256.hexdigest data)), wr, r, data; auto. }
    destruct Hdiff as [Hsz|(wr' & data' & -> & Hlen & Hh)].
    + eexists _, _. split; [|exact R2].
      erewrite (try_rename_diff_size _ _ v wr data (fs v) Hf Hmk n2 Hnat);
        [|done|right; eauto].
      by erewrite written_id.
    + eexists _, _. split; [|exact R1].
      erewrite (try_rename_same_size _ _ v wr data (fs v) Hf Hmk wr' data' Hnat);
        [|done|done|right; eauto].
      by erewrite written_id.
Qed.

(** An error-free processing settles its file. *)
Lemma try_settles (f : path) (w w1 : world) :
  run (copy_file_try f dst_path) w = (w1, inr tt) -> settled (fs w1) dst_path f.
Proof.
  intros Htry.
  destruct (try_succeeds_inv _ _ _ _ Htry) as (wr & data & m1 & Hsrc & Hmk & Hcase).
  pose proof (m1_src _ _ _ _ _ _ Hsrc Hmk) as Hsrc1.
  pose proof (m1_natural _ _ _ _ Hmk) as Hnat1.
  pose proof (m1_renamed _ _ _ _ Hmk (Sha256.hexdigest data)) as Htgt1.
  pose proof (renamed_dest_neq_natural f dst_path (Sha256.hexdigest data)) as Hne1.
  pose proof (renamed_dest_neq_src f dst_path (Sha256.hexdigest data)) as Hne2.
  assert (∀ m', (∀ q, is_dir m1 q = true -> is_dir m' q = true) ->
                makedirs (dest_dir_of f dst_path) m' = (m', None)) as Hready.
  { intros m' Hd. apply ready_makedirs_noop. intros pre suf Hpre E.
    apply Hd. by eapply makedirs_ready. }
  destruct Hcase as [[Hn ->]|[(wr' & data' & Hn & Hlen & Hh & ->)
      |[(wr' & data' & Hn & Hlen & Hh & Hw & ->)|(n2 & Hn & Hsz & Hw & ->)]]];
    cbn [fs]; exists wr, data.
  - exists (File true true data). split_and!.
    + rewrite lookup_insert_ne; [done|]. intros E. rewrite <- E in Hsrc. congruence.
    + apply Hready. intros q. apply is_dir_insert_file. by rewrite Hnat1, Hn.
    + apply lookup_insert_eq.
    + left. by exists true, data.
  - exists (File true wr' data'). split_and!; [done | by apply Hready | congruence |].
    left. by exists wr', data'.
  - exists (File true wr' data'). unfold written. split_and!.
    + by rewrite lookup_insert_ne.
    + apply Hready. intros q. apply is_dir_insert_file.
      rewrite Htgt1. by destruct Hw as [->|(r & d & ->)].
    + rewrite lookup_insert_ne by done. congruence.
    + right. split; [right; by exists wr', data'|].
      eexists. apply lookup_insert_eq.
  - exists n2. unfold written. split_and!.
    + by rewrite lookup_insert_ne.
    + apply Hready. intros q. apply is_dir_insert_file.
      rewrite Htgt1. by destruct Hw as [->|(r & d & ->)].
    + rewrite lookup_insert_ne by done. congruence.
    + right. split; [by left|]. eexists. apply lookup_insert_eq.
Qed.

(** The error-free processing of [g] keeps [f] settled, when the
    suffixed path of [g] is not the natural path of [f] and is the
    suffixed path of [f] only if both hold the same bytes. *)
Lemma try_keeps_settled (f g : path) (w w1 : world) :
  run (copy_file_try g dst_path) w = (w1, inr tt) ->
  settled (fs w) dst_path f ->
  PyPath.is_proper_ancestor dst_path f = false ->
  (∀ df dg, source_bytes (fs w) f = Some df -> source_bytes (fs w) g = Some dg ->
     renamed_dest g dst_path (Sha256.hexdigest dg) ≠ natural_dest f dst_path
     ∧ (renamed_dest g dst_path (Sha256.hexdigest dg)
        = renamed_dest f dst_path (Sha256.hexdigest df) -> dg = df)) ->
  settled (fs w1) dst_path f.
Proof.
  intros Htry (wr & df & n2 & Hf & Hmkf & Hnat & Hc) Hout Hclash.
  destruct (try_frame _ _ _ Htry) as [Hdirs _].
  destruct (try_succeeds_inv _ _ _ _ Htry) as (wrg & dg & m1 & Hg & Hmk & Hcase).
  destruct (Hclash df dg) as [Hc1 Hc2];
    [unfold source_bytes; by rewrite Hf | unfold source_bytes; by rewrite Hg |].
  assert (∀ p n, fs w !! p = Some n -> m1 !! p = Some n) as Hkeep
    by (intros p n; by eapply makedirs_from_keeps).
  assert (renamed_dest g dst_path (Sha256.hexdigest dg) ≠ f) as Hc3.
  { intros E. pose proof (renamed_under_dst g (Sha256.hexdigest dg)) as H.
    rewrite E in H. congruence. }
  assert (makedirs (dest_dir_of f dst_path) (fs w1) = (fs w1, None)) as Hmk1.
  { apply ready_makedirs_noop. intros pre suf Hpre E.
    apply Hdirs. by eapply makedirs_ready. }
  (* what the worker of [g] leaves at a path that held a node *)
  assert (∀ p n, fs w !! p = Some n ->
                 p ≠ renamed_dest g dst_path (Sha256.hexdigest dg) ->
                 fs w1 !! p = Some n) as Hother.
  { intros p n Hp Hne.
    destruct Hcase as [[Hn ->]|[(wr' & data' & Hn & _ & _ & ->)
      |[(wr' & data' & Hn & _ & _ & Hw & ->)|(n2' & Hn & _ & Hw & ->)]]];
      cbn [fs]; unfold written.
    - rewrite lookup_insert_ne by congruence. by apply Hkeep.
    - by apply Hkeep.
    - rewrite lookup_insert_ne by done. by apply Hkeep.
    - rewrite lookup_insert_ne by done. by apply Hkeep. }
  exists wr, df, n2. split_and!; [by apply Hother | done | by apply Hother |].
  destruct Hc as [Hskip|[Hdiff (r & Htgt)]]; [by left|].
  right. split; [done|]. exists r.
  destruct (decide (renamed_dest f dst_path (Sha256.hexdigest df)
                    = renamed_dest g dst_path (Sha256.hexdigest dg))) as [E|Hne];
    [|by apply Hother].
  assert (dg = df) as -> by (by apply Hc2).
  rewrite E. rewrite E in Htgt.
  pose proof (Hkeep _ _ Htgt) as Htgt1.
  destruct Hcase as [[Hn ->]|[(wr' & data' & Hn & _ & _ & ->)
      |[(wr' & data' & Hn & _ & _ & Hw & ->)|(n2' & Hn & _ & Hw & ->)]]];
    cbn [fs]; unfold written.
  - rewrite lookup_insert_ne by congruence. done.
  - done.
  - by rewrite Htgt1, lookup_insert_eq.
  - by rewrite Htgt1, lookup_insert_eq.
Qed.

Lemma no_clash_spec (m : gmap path node) (files : list path) (f g : path)
      (df dg : list byte) :
  no_clash m dst_path files = true ->
  f ∈ files -> g ∈ files ->
  source_bytes m f = Some df -> source_bytes m g = Some dg ->
  renamed_dest f dst_path (Sha256.hexdigest df) ≠ natural_dest g dst_path
  ∧ (renamed_dest f dst_path (Sha256.hexdigest df)
     = renamed_dest g dst_path (Sha256.hexdigest dg) -> df = dg).
Proof.
  unfold no_clash. rewrite List.forallb_forall.
  intros H Hf%list_elem_of_In Hg%list_elem_of_In Hdf Hdg.
  specialize (H f Hf). rewrite List.forallb_forall in H. specialize (H g Hg).
  rewrite Hdf, Hdg in H. apply andb_true_iff in H as [H1 H2].
  split; [by apply bool_decide_eq_true in H1 | by apply bool_decide_eq_true in H2].
Qed.

Lemma forallb_ext_on {A} (f g : A -> bool) (l : list A) :
  (∀ x, x ∈ l -> f x = g x) -> forallb f l = forallb g l.
Proof.
  induction l as [|a l IH]; intros H; [done|]. cbn [forallb].
  rewrite (H a) by apply list_elem_of_here.
  rewrite IH; [done|]. intros x Hx. by apply H, list_elem_of_further.
Qed.

Lemma no_clash_same (m m' : gmap path node) (files : list path) :
  (∀ f, f ∈ files -> m' !! f = m !! f) ->
  no_clash m' dst_path files = no_clash m dst_path files.
Proof.
  intros H. unfold no_clash.
  assert (∀ f, f ∈ files -> source_bytes m' f = source_bytes m f) as Hb
    by (intros f Hf; unfold source_bytes; by rewrite H).
  apply forallb_ext_on. intros f Hf.
  apply forallb_ext_on. intros g Hg.
  by rewrite !Hb.
Qed.

(** After the tasks ran in turn without error and without a clash, every
    file of the run is settled in the tree they left. *)
Lemma in_turn_settled_from (files done : list path) (w : world) :
  error_free_in_turn files dst_path w = true ->
  sources_ok (fs w) dst_path (done ++ files) ->
  no_clash (fs w) dst_path (done ++ files) = true ->
  (∀ f, f ∈ done -> settled (fs w) dst_path f) ->
  ∀ f, f ∈ done ++ files -> settled (fs (run_tasks_in_turn files dst_path w)) dst_path f.
Proof.
  revert done w. induction files as [|g files IH]; intros done w Hok Hsrc Hnc Hdone.
  { rewrite app_nil_r. exact Hdone. }
  apply error_free_cons in Hok as (w1 & Htry & Hbody & Hok).
  rewrite in_turn_cons, Hbody.
  destruct (try_frame _ _ _ Htry) as [_ Hf1].
  assert (∀ f, f ∈ done ++ g :: files -> fs w1 !! f = fs w !! f) as Hsame.
  { intros f Hf. unfold sources_ok in Hsrc. rewrite Forall_forall in Hsrc.
    destruct (Hsrc f Hf) as [Hout Hp].
    apply Hf1; [by apply source_not_slot | by right]. }
  rewrite (cons_middle g), app_assoc in *.
  apply IH; [done| | |].
  - unfold sources_ok in *. rewrite Forall_forall in *. intros f Hf.
    destruct (Hsrc f Hf) as [Hout Hp]. split; [done|]. by rewrite Hsame.
  - by rewrite (no_clash_same (fs w)).
  - intros f [Hf| ->%list_elem_of_singleton]%elem_of_app; [|by eapply try_settles].
    assert (f ∈ (done ++ [g]) ++ files) as Hf'
      by (apply elem_of_app; left; apply elem_of_app; by left).
    assert (g ∈ (done ++ [g]) ++ files) as Hg'
      by (apply elem_of_app; left; apply elem_of_app; right; apply list_elem_of_here).
    apply (try_keeps_settled f g w w1 Htry); [by apply Hdone| |].
    + unfold sources_ok in Hsrc. rewrite Forall_forall in Hsrc. by apply Hsrc.
    + intros df dg Hdf Hdg. by apply (no_clash_spec _ _ g f dg df Hnc).
Qed.

Lemma in_turn_settled (files : list path) (w : world) :
  error_free_in_turn files dst_path w = true ->
  sources_ok (fs w) dst_path files ->
  no_clash (fs w) dst_path files = true ->
  ∀ f, f ∈ files -> settled (fs (run_tasks_in_turn files dst_path w)) dst_path f.
Proof.
  intros Hok Hsrc Hnc. apply (in_turn_settled_from files [] w); try done.
  by intros f ?%elem_of_nil.
Qed.

(** Files that are settled are processed again without any change. *)
Lemma in_turn_again (files : list path) (v : world) :
  (∀ f, f ∈ files -> settled (fs v) dst_path f) ->
  ∃ recs calls,
    run_tasks_in_turn files dst_path v
    = World (fs v) (log v ++ recs) (hash_calls v ++ calls)
    ∧ error_free_in_turn files dst_path v = true
    ∧ Forall2 (settled_record (fs v) dst_path) files recs.
Proof.
  revert v. induction files as [|f files IH]; intros v Hset.
  - exists [], []. split_and!; [|done|constructor].
    cbn. rewrite !app_nil_r. by destruct v.
  - destruct (settled_again f v (Hset f (list_elem_of_here _ _)))
      as (again & calls & Hagain & Hrec).
    set (v1 := World (fs v) (log v ++ [again]) (hash_calls v ++ calls)) in *.
    destruct (IH v1) as (recs & calls' & Hrun & Hfree & Hall).
    { intros g Hg. apply Hset. by apply list_elem_of_further. }
    exists (again :: recs), (calls ++ calls'). split_and!.
    + rewrite in_turn_cons, (body_of_try _ _ _ _ Hagain). cbn [fst].
      rewrite Hrun. cbn [fs log hash_calls v1]. by rewrite <- !app_assoc.
    + cbn [error_free_in_turn]. by rewrite Hagain.
    + by constructor.
Qed.

(** Without error, a path that is no slot is a file after the tasks iff
    it was one before. *)
Lemma try_files (f : path) (w w1 : world) (p : path) :
  run (copy_file_try f dst_path) w = (w1, inr tt) ->
  p ∉ slots (fs w) dst_path f ->
  is_file (fs w1) p = is_file (fs w) p.
Proof.
  intros Htry.
  destruct (try_succeeds_inv _ _ _ _ Htry) as (wr & data & m1 & Hsrc & Hmk & Hcase).
  assert (is_file m1 p = is_file (fs w) p) as <-.
  { apply is_file_same.
    destruct (makedirs_from_lookup _ _ _ _ _ p Hmk) as [E|(Hn & Hd & _)]; eauto. }
  unfold slots. rewrite Hsrc. intros Hp.
  destruct Hcase as [[Hn ->]|[(wr' & data' & Hn & _ & _ & ->)
      |[(wr' & data' & Hn & _ & _ & Hw & ->)|(n2 & Hn & _ & Hw & ->)]]];
    cbn [fs]; unfold is_file, written; try done;
    by rewrite lookup_insert_ne by (intros <-; apply Hp; repeat constructor).
Qed.

Lemma in_turn_files (files : list path) (w : world) (p : path) :
  error_free_in_turn files dst_path w = true ->
  sources_ok (fs w) dst_path files ->
  (∀ g, g ∈ files -> p ∉ slots (fs w) dst_path g) ->
  is_file (fs (run_tasks_in_turn files dst_path w)) p = is_file (fs w) p.
Proof.
  revert w. induction files as [|f files IH]; intros w Hok Hsrc Hp; [done|].
  apply error_free_cons in Hok as (w1 & Htry & Hbody & Hok).
  apply Forall_cons_1 in Hsrc as [[Hf Hfp] Hsrc].
  rewrite in_turn_cons, Hbody.
  destruct (try_frame _ _ _ Htry) as [Hd1 Hf1].
  assert (∀ g, g ∈ files -> fs w1 !! g = fs w !! g) as Hsame.
  { intros g Hg. unfold sources_ok in Hsrc. rewrite Forall_forall in Hsrc.
    destruct (Hsrc g Hg) as [Hout Hpg].
    apply Hf1; [by apply source_not_slot | by right]. }
  assert (sources_ok (fs w1) dst_path files) as Hsrc1.
  { unfold sources_ok in *. rewrite Forall_forall in *. intros g Hg.
    destruct (Hsrc g Hg) as [Hout Hpg]. split; [done|]. by rewrite Hsame. }
  rewrite (IH w1 Hok Hsrc1).
  - apply (try_files _ _ _ _ Htry), Hp, list_elem_of_here.
  - intros g Hg. rewrite (slots_same_source _ _ _ (Hsame g Hg)).
    by apply Hp, list_elem_of_further.
Qed.

End SecondRun.


(** ** Running twice, one file *)

(** A run that dispatches one file is the run of its worker, whatever
    the schedule. *)
Lemma single_file_run (src_path dst_path : path) (w wa w' : world) (f : path)
      (r : option exn) :
  run (main_prepare src_path dst_path) w = (wa, inr [f]) ->
  main_async src_path dst_path w w' r ->
  r = None ∧ w' = logged LogCompleted (fst (run (copy_file_body f dst_path) wa)).
Proof.
  intros Hp Hrun.
  destruct Hrun as [w2 e H|w2 fl c H Hc Hd|w2 fl c i g e H Hc Hi];
    rewrite Hp in H; simplify_eq.
  - split; [done|]. unfold dispatch, copy_file_task in Hc. cbn [List.map] in Hc.
    by rewrite (single_waiting_final _ _ _ _ _ Hc Hd).
  - destruct (no_task_fails _ _ _ _ _ _ _ Hc Hi).
Qed.

(** [src/a.txt] holds "hello" and the destination holds [txt/a.txt] with
    "world".  Every first run copies the source to [a_2cf24dba.txt];
    every second run, against the destination the first run left,
    decides the rename again for its one file, not the duplicate. *)
Lemma second_run_renames_again :
  (∃ w1 w2,
     main_async ["src"] Sample.dst (Sample.world_of Sample.fs_conflict) w1 None
     ∧ main_async ["src"] Sample.dst w1 w2 None)
  ∧ (∀ w1 w2 r1 r2,
       main_async ["src"] Sample.dst (Sample.world_of Sample.fs_conflict) w1 r1 ->
       main_async ["src"] Sample.dst w1 w2 r2 ->
       log w1 = [LogRenamedSameSize Sample.src_a "a_2cf24dba.txt"; LogCompleted]
       ∧ log w2 = log w1 ++ [LogRenamedSameSize Sample.src_a "a_2cf24dba.txt"; LogCompleted]
       ∧ LogSkipped Sample.src_a ∉ log w2).
Proof.
  set (w0 := Sample.world_of Sample.fs_conflict).
  set (w1c := fst (main_async_in_turn ["src"] Sample.dst w0)).
  assert (run (main_prepare ["src"] Sample.dst) w0 = (w0, inr [Sample.src_a])) as Hp1
    by (vm_compute; reflexivity).
  assert (run (main_prepare ["src"] Sample.dst) w1c = (w1c, inr [Sample.src_a])) as Hp2
    by (vm_compute; reflexivity).
  split.
  - exists w1c, (fst (main_async_in_turn ["src"] Sample.dst w1c)). split.
    + pose proof (in_turn_is_a_run Sample.dst ["src"] w0) as H.
      by replace (snd (main_async_in_turn ["src"] Sample.dst w0)) with (@None exn) in H
        by (vm_compute; reflexivity).
    + pose proof (in_turn_is_a_run Sample.dst ["src"] w1c) as H.
      by replace (snd (main_async_in_turn ["src"] Sample.dst w1c)) with (@None exn) in H
        by (vm_compute; reflexivity).
  - intros w1 w2 r1 r2 H1 H2.
    destruct (single_file_run _ _ _ _ _ _ _ Hp1 H1) as [_ E1].
    assert (w1 = w1c) as -> by (rewrite E1; vm_compute; reflexivity).
    destruct (single_file_run _ _ _ _ _ _ _ Hp2 H2) as [_ E2].
    rewrite E2. split_and!; [vm_compute; reflexivity | vm_compute; reflexivity |].
    vm_compute. intros H. repeat (apply elem_of_cons in H as [H|H]; [discriminate H|]).
    by apply elem_of_nil in H.
Qed.

(** Two files of the same name, an empty destination, the tasks taken in
    turn: the first run copies one and renames the other; the second
    run skips the one and renames the other again, onto the copy it
    made. *)
Example twins_run_twice :
  let r1 := main_async_in_turn ["src"] Sample.dst (Sample.world_of Sample.fs_twins) in
  let r2 := main_async_in_turn ["src"] Sample.dst (fst r1) in
  log (fst r1)
  = [LogCopying ["src"; "y"; "a.txt"] ["dst"; "txt"; "a.txt"];
     LogRenamedSameSize ["src"; "x"; "a.txt"] "a_2cf24dba.txt";
     LogCompleted]
  ∧ log (fst r2)
    = log (fst r1)
      ++ [LogSkipped ["src"; "y"; "a.txt"];
          LogRenamedSameSize ["src"; "x"; "a.txt"] "a_2cf24dba.txt";
          LogCompleted].
Proof. vm_compute. split; reflexivity. Qed.

(** Where a source file bears the suffixed name of another, the two
    share a destination path, and the second run does add a file, even
    with the tasks taken in turn: the first run copies [A_2cf24dba.txt]
    and then writes the renamed [A.txt] over it. *)
Example crafted_name_second_run_adds_a_file :
  let wa := fst (run (main_prepare ["src"] Sample.dst) (Sample.world_of Sample.fs_crafted)) in
  let files := [ ["src"; "y"; "A_2cf24dba.txt"]; ["src"; "z"; "A.txt"]; ["src"; "x"; "A.txt"] ] in
  let r1 := main_async_in_turn ["src"] Sample.dst (Sample.world_of Sample.fs_crafted) in
  let r2 := main_async_in_turn ["src"] Sample.dst (fst r1) in
  snd (run (main_prepare ["src"] Sample.dst) (Sample.world_of Sample.fs_crafted)) = inr files
  ∧ error_free_in_turn files Sample.dst wa = true
  ∧ no_clash (fs wa) Sample.dst files = false
  ∧ fs (fst r1) !! ["dst"; "txt"; "A_2cf24dba_17f165d5.txt"] = None
  ∧ fs (fst r2) !! ["dst"; "txt"; "A_2cf24dba_17f165d5.txt"]
    = Some (File true true (bytes_of "zzz")).
Proof. vm_compute. split_and!; reflexivity. Qed.

(** * Further properties of the copier *)

(** ** [compute_hash] *)


(** ** Names *)

Section MoreNames.

Lemma str_append_assoc (s t u : string) : (s +:+ t) +:+ u = s +:+ (t +:+ u).
Proof. induction s as [|a s IH]; [done|]. by rewrite !append_cons, IH. Qed.

Lemma rfind_append (c : ascii) (x r : string) :
  PyStr.rfind c r = None ->
  PyStr.rfind c (x +:+ String c r) = Some (String.length x).
Proof.
  intros Hr. induction x as [|a x IH].
  - change ("" +:+ String c r) with (String c r). simpl.
    by rewrite Hr, Ascii.eqb_refl.
  - rewrite append_cons. simpl. by rewrite IH.
Qed.

Lemma str_drop_append (x y : string) : PyStr.drop (String.length x) (x +:+ y) = y.
Proof. induction x as [|a x IH]; [by destruct y|]. by rewrite append_cons. Qed.

Lemma str_take_append (x y : string) : PyStr.take (String.length x) (x +:+ y) = x.
Proof.
  induction x as [|a x IH]; [by destruct y|]. rewrite append_cons. simpl. by rewrite IH.
Qed.

(** The split of a name that ends in a dot and a dot-free tail. *)
Lemma split_point_append (x r : string) :
  x ≠ "" -> r ≠ "" -> PyStr.rfind "." r = None ->
  PyPath.split_point (x +:+ String "." r) = Some (String.length x).
Proof.
  intros Hx Hne Hr. unfold PyPath.split_point. rewrite rfind_append by done.
  rewrite str_length_append. simpl.
  assert (0 < String.length x) as H0 by (destruct x; [done | simpl; lia]).
  assert (0 < String.length r) as H1 by (destruct r; [done | simpl; lia]).
  assert ((0 <? String.length x)%nat = true) as -> by (apply Nat.ltb_lt; lia).
  assert ((String.length x <? String.length x + S (String.length r) - 1)%nat = true) as ->
    by (apply Nat.ltb_lt; lia).
  done.
Qed.

End MoreNames.

Lemma same_letter_lower (a b : ascii) : same_letter a b -> ascii_lower a = ascii_lower b.
Proof.
  unfold ascii_lower.
  intros [->|[[Ha Hb]|[Hb Ha]]]; [done| |].
  - rewrite Hb. destruct (Nat.leb_spec 65 (nat_of_ascii a)); [|lia].
    destruct (Nat.leb_spec (nat_of_ascii a) 90); [|lia].
    destruct (Nat.leb_spec (nat_of_ascii a + 32) 90); [lia|].
    rewrite andb_false_r. simpl. by rewrite <- Hb, ascii_nat_embedding.
  - rewrite Ha. destruct (Nat.leb_spec 65 (nat_of_ascii b)); [|lia].
    destruct (Nat.leb_spec (nat_of_ascii b) 90); [|lia].
    destruct (Nat.leb_spec (nat_of_ascii b + 32) 90); [lia|].
    rewrite andb_false_r. simpl. by rewrite <- Ha, ascii_nat_embedding.
Qed.

Lemma list_ascii_inj (s t : string) :
  list_ascii_of_string s = list_ascii_of_string t -> s = t.
Proof.
  intros E. by rewrite <- (string_of_list_ascii_of_string s),
                       <- (string_of_list_ascii_of_string t), E.
Qed.

(** X2 — The name of an extension folder is never empty and holds no
    dot; it is "no_extension" for a name without suffix.  For a suffix
    of ASCII characters it is the suffix without its dot, with every
    letter of [A-Z] replaced by the letter of [a-z] 32 places further
    and every other character kept; hence two files whose ASCII suffixes
    differ only in the case of their letters go to the same folder. *)
Theorem extension_folder_is_normalised (p : path) :
  ext_folder_of p ≠ ""
  ∧ PyStr.rfind "." (ext_folder_of p) = None
  ∧ (PyPath.suffix p = "" -> ext_folder_of p = "no_extension")
  ∧ (∀ r, PyPath.suffix p = String "." r -> is_ascii r ->
          list_ascii_of_string (ext_folder_of p)
          = List.map (fun a => if (65 <=? nat_of_ascii a)%nat && (nat_of_ascii a <=? 90)%nat
                               then ascii_of_nat (nat_of_ascii a + 32) else a)
                     (list_ascii_of_string r))
  ∧ (∀ q, is_ascii (PyPath.suffix p) -> is_ascii (PyPath.suffix q) ->
          Forall2 same_letter (list_ascii_of_string (PyPath.suffix q))
                              (list_ascii_of_string (PyPath.suffix p)) ->
          ext_folder_of q = ext_folder_of p).
Proof.
  split_and!.
  - apply ext_folder_nonempty.
  - destruct (suffix_shape (PyPath.name p)) as [He|(r & Hr & Hne & Hfree)].
    + by rewrite (ext_folder_no_suffix p He).
    + rewrite (ext_folder_suffix p r Hr). by apply rfind_lower.
  - apply ext_folder_no_suffix.
  - intros r Hr Hascii. rewrite (ext_folder_suffix p r Hr). by apply lower_ascii.
  - intros q Hp Hq Hsame. unfold ext_folder_of. f_equal. f_equal.
    apply list_ascii_inj. rewrite (lower_ascii _ Hp), (lower_ascii _ Hq).
    clear Hp Hq. induction Hsame as [|a b la lb Hab _ IH]; [done|].
    simpl. by rewrite (same_letter_lower a b Hab), IH.
Qed.

(** The folder of an upper-case extension, of an extension with letters
    outside ASCII, and of a Greek extension that ends in a sigma. *)
Example folder_of_upper_case : ext_folder_of ["src"; "Photo.JPG"] = "jpg".
Proof. vm_compute. reflexivity. Qed.

Example folder_of_accented : ext_folder_of ["src"; "a.ÀB"] = "àb".
Proof. vm_compute. reflexivity. Qed.

Example folder_of_final_sigma : ext_folder_of ["src"; "a.ΟΔΟΣ"] = "οδος".
Proof. vm_compute. reflexivity. Qed.

Example folder_of_cyrillic : ext_folder_of ["src"; "Отчёт.ДОК"] = "док".
Proof. vm_compute. reflexivity. Qed.

(** A byte that is no UTF-8 is kept, and so is a letter without case. *)
Example lower_keeps_undecodable :
  PyStr.lower (String (ascii_of_nat 255) "AB") = String (ascii_of_nat 255) "ab"
  ∧ PyStr.lower "straße.日本" = "straße.日本"
  ∧ PyStr.lower "İ" = "i̇".
Proof. vm_compute. split_and!; reflexivity. Qed.

Example ascii_lower_letters :
  List.map ascii_lower ["A"; "Z"; "a"; "z"; "@"; "["; "0"; "."]%char
  = ["a"; "z"; "a"; "z"; "@"; "["; "0"; "."]%char.
Proof. reflexivity. Qed.

(** X3 — For a source name with a suffix, the name of the renamed copy
    [stem_<8 hex>suffix] splits again into the stem [stem_<8 hex>] and
    the suffix of the source: the copy keeps the extension, and the
    folder it is written to is the extension folder of its own name. *)
Theorem renamed_keeps_extension (src_path dst_root : path) (src_hash : string) :
  PyPath.suffix src_path ≠ "" ->
  let new_name := renamed src_path src_hash in
  let dest_file := renamed_dest src_path dst_root src_hash in
  PyPath.suffix_of new_name = PyPath.suffix src_path
  ∧ PyPath.stem_of new_name = PyPath.stem src_path +:+ "_" +:+ PyStr.take 8 src_hash
  ∧ ext_folder_of dest_file = ext_folder_of src_path
  ∧ PyPath.parent dest_file = PyPath.join dst_root (ext_folder_of dest_file).
Proof.
  intros Hsuf new_name dest_file.
  destruct (suffix_shape (PyPath.name src_path)) as [He|(r & Hr & Hne & Hfree)]; [done|].
  set (x := PyPath.stem src_path +:+ "_" +:+ PyStr.take 8 src_hash).
  assert (new_name = x +:+ String "." r) as Hren.
  { unfold new_name, renamed, x, PyPath.suffix. rewrite Hr.
    by rewrite !str_append_assoc. }
  assert (x ≠ "") as Hx.
  { unfold x. intros E. apply (f_equal String.length) in E.
    rewrite !str_length_append in E. simpl in E. lia. }
  pose proof (split_point_append x r Hx Hne Hfree) as Hsp.
  assert (PyPath.suffix_of new_name = PyPath.suffix src_path) as Hs.
  { unfold PyPath.suffix_of at 1. rewrite Hren, Hsp, str_drop_append.
    unfold PyPath.suffix. by rewrite Hr. }
  assert (ext_folder_of dest_file = ext_folder_of src_path) as He.
  { unfold ext_folder_of, PyPath.suffix, dest_file, renamed_dest.
    rewrite name_join. fold new_name. by rewrite Hs. }
  split_and!; [done| |done|].
  - unfold PyPath.stem_of. by rewrite Hren, Hsp, str_take_append.
  - rewrite He. unfold dest_file, renamed_dest. by rewrite parent_join.
Qed.

Lemma renamed_keeps_extension_witness :
  PyPath.suffix_of (renamed Sample.src_a "2cf24dba5fb0a30e") = PyPath.suffix Sample.src_a.
Proof.
  assert (PyPath.suffix Sample.src_a ≠ "") as H by (vm_compute; discriminate).
  exact (proj1 (renamed_keeps_extension Sample.src_a Sample.dst "2cf24dba5fb0a30e" H)).
Defined.

(** ** The worker when it fails, and what it keeps *)

Section Failure.

Variables (src_path dst_root : path).

(** The copy at the end of the [try] block raises only when one of the
    two files is opened, before anything is written. *)
Lemma copy_stream_fails (d : path) (w w1 : world) (e : exn) :
  run (copy_stream src_path d) w = (w1, inl e) -> w1 = w.
Proof.
  unfold copy_stream. rewrite run_bind, run_perform. unfold op_open_rb.
  destruct (fs w !! src_path) as [[|[] wr data]|] eqn:Hsrc;
    [by intros [= <-]| |by intros [= <-]..].
  rewrite run_bind, run_perform. unfold op_open_wb.
  destruct (is_dir (fs w) (PyPath.parent d)) eqn:Hpar; [|by intros [= <-]].
  destruct (fs w !! d) as [[|r [] d0]|] eqn:Hd;
    [by intros [= <-]| |by intros [= <-]|].
  - erewrite run_copy_loop; [|lia|simpl; apply lookup_insert_eq]. discriminate.
  - erewrite run_copy_loop; [|lia|simpl; apply lookup_insert_eq]. discriminate.
Qed.

(** When the [try] block raises, the tree is what [makedirs] left. *)
Lemma try_fails_inv (w w1 : world) (e : exn) :
  run (copy_file_try src_path dst_root) w = (w1, inl e) ->
  fs w1 = fst (makedirs (dest_dir_of src_path dst_root) (fs w)).
Proof.
  unfold copy_file_try, resolve_dest.
  rewrite !run_bind, run_perform. unfold op_makedirs.
  fold (dest_dir_of src_path dst_root).
  destruct (makedirs _ (fs w)) as [m1 [e0|]] eqn:Hmk.
  { by intros [= <- <-]. }
  rewrite run_bind, run_Do. unfold op_exists. cbn [fst snd fs set_fs].
  fold (natural_dest src_path dst_root).
  destruct (m1 !! natural_dest src_path dst_root) as [n2|] eqn:Hnat.
  - rewrite bool_decide_eq_true_2 by (by eexists).
    change (run (Return ?a) ?w') with (w', @inr exn _ a); cbv iota beta.
    rewrite !run_bind, run_perform. unfold op_stat_size. cbn [fs set_fs].
    destruct (m1 !! src_path) as [n1|] eqn:Hsrc; [|by intros [= <- <-]].
    rewrite !run_bind, run_perform. unfold op_stat_size. cbn [fs set_fs].
    rewrite Hnat.
    destruct (Nat.eqb (st_size n1) (st_size n2)) eqn:Hsz.
    + rewrite !run_bind, run_compute_hash. cbn [fs set_fs noted]. rewrite Hsrc.
      destruct n1 as [|[] wr data];
        [by intros [= <- <-]| |by intros [= <- <-]].
      rewrite !run_bind, run_compute_hash. cbn [fs set_fs noted]. rewrite Hnat.
      destruct n2 as [|[] wr' data'];
        [by intros [= <- <-]| |by intros [= <- <-]].
      destruct (String.eqb _ _) eqn:Hh.
      * rewrite !run_bind, run_logging.
        change (run (mret ?a) ?w') with (w', @inr exn _ a); cbv iota beta.
        change (run (Return ?a) ?w') with (w', @inr exn _ a). discriminate.
      * rewrite !run_bind, run_logging.
        change (run (mret ?a) ?w') with (w', @inr exn _ a); cbv iota beta.
        by intros ->%copy_stream_fails.
    + rewrite !run_bind, run_compute_hash. cbn [fs set_fs noted]. rewrite Hsrc.
      destruct n1 as [|[] wr data];
        [by intros [= <- <-]| |by intros [= <- <-]].
      rewrite !run_bind, run_logging.
      change (run (mret ?a) ?w') with (w', @inr exn _ a); cbv iota beta.
      by intros ->%copy_stream_fails.
  - rewrite bool_decide_eq_false_2 by (by intros [? ?]).
    change (run (Return ?a) ?w') with (w', @inr exn _ a); cbv iota beta.
    rewrite run_bind, run_logging. cbv iota beta.
    change (run (mret ?a) ?w') with (w', @inr exn _ a); cbv iota beta.
    by intros ->%copy_stream_fails.
Qed.

(** The worker in terms of its [try] block. *)
Lemma run_body (w : world) :
  run (copy_file_body src_path dst_root) w
  = match run (copy_file_try src_path dst_root) w with
    | (w1, inr _) => (w1, inr tt)
    | (w1, inl e) => (logged (LogError src_path e) w1, inr tt)
    end.
Proof.
  unfold copy_file_body. rewrite run_try_except.
  destruct (run (copy_file_try src_path dst_root) w) as [w1 [e|[]]]; [|done].
  by rewrite run_logging.
Qed.

End Failure.

(** X4 — A source that cannot be read (an unreadable file, a
    directory), with nothing at its natural destination, is first logged
    as "Copying file" and then as an error: the source is opened before
    the destination, so no destination file is created. *)
Theorem unreadable_source_is_announced_then_fails (src_path dst_root : path)
    (w : world) (m1 : gmap path node) (n : node) :
  makedirs (dest_dir_of src_path dst_root) (fs w) = (m1, None) ->
  fs w !! natural_dest src_path dst_root = None ->
  fs w !! src_path = Some n ->
  (∀ wr data, n ≠ File true wr data) ->
  run (copy_file_body src_path dst_root) w
  = (World m1 (log w ++ [LogCopying src_path (natural_dest src_path dst_root);
                         LogError src_path (match n with
                                            | Dir => IsADirectoryError
                                            | File _ _ _ => PermissionError
                                            end)])
           (hash_calls w), inr tt)
  ∧ m1 !! natural_dest src_path dst_root = None.
Proof.
  intros Hmk Hnat Hsrc Hn.
  assert (m1 !! natural_dest src_path dst_root = None) as Hnat1.
  { rewrite <- Hnat. eapply makedirs_other; [done|].
    rewrite length_natural, length_dest_dir. lia. }
  pose proof (makedirs_from_keeps _ _ _ _ _ _ _ Hmk Hsrc) as Hsrc1.
  split; [|done]. rewrite run_body.
  unfold copy_file_try, resolve_dest.
  rewrite !run_bind, run_perform. unfold op_makedirs.
  fold (dest_dir_of src_path dst_root). rewrite Hmk.
  rewrite run_bind, run_Do. unfold op_exists. cbn [fst snd fs set_fs].
  fold (natural_dest src_path dst_root). rewrite Hnat1.
  rewrite bool_decide_eq_false_2 by (by intros [? ?]).
  change (run (Return ?a) ?w') with (w', @inr exn _ a); cbv iota beta.
  rewrite run_bind, run_logging. cbv iota beta.
  change (run (mret ?a) ?w') with (w', @inr exn _ a); cbv iota beta.
  unfold copy_stream. rewrite run_bind, run_perform. unfold op_open_rb.
  cbn [logged fs set_fs]. rewrite Hsrc1.
  destruct n as [|[] wr data]; [|by destruct (Hn wr data)|];
    unfold logged; cbn [fs log hash_calls]; by rewrite <- app_assoc.
Qed.

Lemma unreadable_source_is_announced_then_fails_witness :
  log (fst (run (copy_file_body ["src"; "sub"; "c.bin"] Sample.dst)
                (Sample.world_of Sample.fs_tree)))
  = [] ++ [LogCopying ["src"; "sub"; "c.bin"] (natural_dest ["src"; "sub"; "c.bin"] Sample.dst);
           LogError ["src"; "sub"; "c.bin"] PermissionError].
Proof.
  assert (snd (makedirs (dest_dir_of ["src"; "sub"; "c.bin"] Sample.dst)
                        (fs (Sample.world_of Sample.fs_tree))) = None) as Hs
    by (vm_compute; reflexivity).
  assert (makedirs (dest_dir_of ["src"; "sub"; "c.bin"] Sample.dst)
                   (fs (Sample.world_of Sample.fs_tree))
          = (fst (makedirs (dest_dir_of ["src"; "sub"; "c.bin"] Sample.dst)
                           (fs (Sample.world_of Sample.fs_tree))), None)) as Hm
    by (rewrite <- Hs; apply surjective_pairing).
  assert (fs (Sample.world_of Sample.fs_tree) !! natural_dest ["src"; "sub"; "c.bin"] Sample.dst
          = None) as Hn by (vm_compute; reflexivity).
  assert (fs (Sample.world_of Sample.fs_tree) !! ["src"; "sub"; "c.bin"]
          = Some (File false true (bytes_of "secret"))) as Hf by (vm_compute; reflexivity).
  assert (∀ wr data, File false true (bytes_of "secret") ≠ File true wr data) as Hu
    by (intros wr data; discriminate).
  exact (f_equal (fun r => log (fst r))
           (proj1 (unreadable_source_is_announced_then_fails _ _ _ _ _ Hm Hn Hf Hu))).
Defined.

(** X5 — A failure up to the opening of the two files leaves no trace
    in the files.  What can fail here is [makedirs], [stat] and the
    opening of a file, for hashing, for reading the source, for writing
    the destination; a fault while an open file is read or written is
    not part of the model.  When the [try] block fails at one of these,
    the worker returns normally with the error as its last log record,
    and no regular file has been created, truncated or written: the tree
    is the one [makedirs] left, which differs from the tree before by
    new directories only. *)
Theorem failed_copy_writes_no_file (src_path dst_root : path) (w w1 : world) (e : exn) :
  run (copy_file_try src_path dst_root) w = (w1, inl e) ->
  let r := run (copy_file_body src_path dst_root) w in
  snd r = inr tt
  ∧ last (log (fst r)) = Some (LogError src_path e)
  ∧ fs (fst r) = fst (makedirs (dest_dir_of src_path dst_root) (fs w))
  ∧ (∀ p, fs (fst r) !! p = fs w !! p
          ∨ (fs w !! p = None ∧ fs (fst r) !! p = Some Dir)).
Proof.
  intros Htry r. unfold r. rewrite run_body, Htry. cbn [fst snd].
  pose proof (try_fails_inv _ _ _ _ _ Htry) as Hfs.
  split_and!; [done|apply last_snoc|done|].
  intros p. cbn [logged fs]. rewrite Hfs.
  destruct (makedirs (dest_dir_of src_path dst_root) (fs w)) as [m1 err] eqn:Hmk.
  destruct (makedirs_from_lookup _ _ _ _ _ p Hmk) as [E|(E1 & E2 & _)]; [by left|by right].
Qed.

Lemma failed_copy_writes_no_file_witness :
  last (log (fst (run (copy_file_body Sample.src_a Sample.dst)
                      (Sample.world_of Scenes.fs_blocked))))
  = Some (LogError Sample.src_a FileExistsError).
Proof.
  assert (snd (run (copy_file_try Sample.src_a Sample.dst)
                   (Sample.world_of Scenes.fs_blocked)) = inl FileExistsError) as Hs
    by (vm_compute; reflexivity).
  assert (run (copy_file_try Sample.src_a Sample.dst) (Sample.world_of Scenes.fs_blocked)
          = (fst (run (copy_file_try Sample.src_a Sample.dst)
                      (Sample.world_of Scenes.fs_blocked)), inl FileExistsError)) as Ht
    by (rewrite <- Hs; apply surjective_pairing).
  exact (proj1 (proj2 (failed_copy_writes_no_file _ _ _ _ _ Ht))).
Defined.

(** X6 — The worker removes nothing and overwrites at most one file.
    Whatever the outcome, a node that was in the tree is still there
    unchanged, unless it is a writable regular file at the suffixed path
    [dst_root/ext_folder/stem_<8 hex>suffix] of a readable source, which
    then holds the bytes of the source.  In particular the source file
    itself is never changed. *)
Theorem worker_keeps_existing_nodes (src_path dst_root : path) (w : world)
    (p : path) (n : node) :
  fs w !! p = Some n ->
  let after := fs (fst (run (copy_file_body src_path dst_root) w)) in
  (after !! p = Some n
   ∨ ∃ wr data r d0,
       fs w !! src_path = Some (File true wr data)
       ∧ p = renamed_dest src_path dst_root (Sha256.hexdigest data)
       ∧ n = File r true d0
       ∧ after !! p = Some (File r true data))
  ∧ (p = src_path -> after !! p = Some n).
Proof.
  intros Hp after.
  assert (after !! p = Some n
   ∨ ∃ wr data r d0,
       fs w !! src_path = Some (File true wr data)
       ∧ p = renamed_dest src_path dst_root (Sha256.hexdigest data)
       ∧ n = File r true d0
       ∧ after !! p = Some (File r true data)) as H.
  { unfold after. rewrite run_body.
    destruct (run (copy_file_try src_path dst_root) w) as [w1 [e|[]]] eqn:Htry;
      cbn [fst logged fs].
    - left. rewrite (try_fails_inv _ _ _ _ _ Htry).
      destruct (makedirs (dest_dir_of src_path dst_root) (fs w)) as [m1 err] eqn:Hmk.
      simpl. by eapply makedirs_from_keeps.
    - destruct (try_succeeds_inv _ _ _ _ Htry) as (wr & data & m1 & Hsrc & Hmk & Hcase).
      pose proof (makedirs_from_keeps _ _ _ _ _ _ _ Hmk Hp) as Hp1.
      assert (∀ t, writable_or_absent (fs w) t ->
                m1 !! t = fs w !! t ->
                written m1 t data !! p = Some n
                ∨ ∃ r d0, p = t ∧ n = File r true d0
                          ∧ written m1 t data !! p = Some (File r true data)) as Hw.
      { intros t Ht Et. unfold written. destruct (decide (p = t)) as [->|Hne].
        - right. destruct Ht as [Ht|(r & d0 & Ht)]; [congruence|].
          exists r, d0. rewrite Et, Ht, lookup_insert_eq. split_and!; congruence.
        - left. by rewrite lookup_insert_ne. }
      destruct Hcase as [[Hnat ->]|[(wr' & data' & _ & _ & _ & ->)
                        |[(wr' & data' & _ & _ & _ & Ht & ->)|(n2 & _ & _ & Ht & ->)]]];
        cbn [fs].
      + left. rewrite lookup_insert_ne; [done|congruence].
      + by left.
      + destruct (Hw _ Ht) as [?|(r & d0 & -> & -> & ?)]; [|by left|].
        { eapply makedirs_other; [done|].
          rewrite length_renamed_dest, length_dest_dir. lia. }
        right. by exists wr, data, r, d0.
      + destruct (Hw _ Ht) as [?|(r & d0 & -> & -> & ?)]; [|by left|].
        { eapply makedirs_other; [done|].
          rewrite length_renamed_dest, length_dest_dir. lia. }
        right. by exists wr, data, r, d0. }
  split; [done|]. intros ->.
  destruct H as [?|(wr & data & r & d0 & _ & E & _)]; [done|].
  symmetry in E. by apply renamed_dest_neq_src in E.
Qed.

Lemma worker_keeps_existing_nodes_witness :
  fs (fst (run (copy_file_body Sample.src_a Sample.dst) (Sample.world_of Sample.fs_conflict)))
    !! Sample.src_a
  = Some (File true true (bytes_of "hello")).
Proof.
  assert (fs (Sample.world_of Sample.fs_conflict) !! Sample.src_a
          = Some (File true true (bytes_of "hello"))) as H by (vm_compute; reflexivity).
  exact (proj2 (worker_keeps_existing_nodes Sample.src_a Sample.dst _ _ _ H) eq_refl).
Defined.

(** X7 — After a processing that ended without error the file is in
    place: at its natural path there is a readable file of the same size
    and digest, or the suffixed path holds its bytes.  Processing the
    file once more then changes nothing in the tree: it is skipped as a
    duplicate, or copied again onto the suffixed copy that holds its
    bytes already. *)
Theorem worker_again_changes_nothing (src_path dst_root : path) (w w1 : world) :
  run (copy_file_try src_path dst_root) w = (w1, inr tt) ->
  settled (fs w1) dst_root src_path
  ∧ ∃ rec calls,
      run (copy_file_body src_path dst_root) w1
      = (World (fs w1) (log w1 ++ [rec]) (hash_calls w1 ++ calls), inr tt)
      ∧ settled_record (fs w1) dst_root src_path rec.
Proof.
  intros Htry. apply try_settles in Htry. split; [done|].
  destruct (settled_again _ _ _ Htry) as (rec & calls & Hrun & Hrec).
  exists rec, calls. split; [|done]. by apply body_of_try.
Qed.

Lemma worker_again_changes_nothing_witness :
  settled (fs (fst (run (copy_file_try Sample.src_a Sample.dst)
                        (Sample.world_of Sample.fs_fresh))))
          Sample.dst Sample.src_a.
Proof.
  assert (snd (run (copy_file_try Sample.src_a Sample.dst)
                   (Sample.world_of Sample.fs_fresh)) = inr tt) as Hs
    by (vm_compute; reflexivity).
  assert (run (copy_file_try Sample.src_a Sample.dst) (Sample.world_of Sample.fs_fresh)
          = (fst (run (copy_file_try Sample.src_a Sample.dst)
                      (Sample.world_of Sample.fs_fresh)), inr tt)) as Ht
    by (rewrite <- Hs; apply surjective_pairing).
  exact (proj1 (worker_again_changes_nothing _ _ _ _ Ht)).
Defined.

(** ** The preparation when it fails *)

Section MakedirsErrors.

Implicit Types (m : gmap path node) (p done todo : path).

Lemma makedirs_from_err done todo m m' e :
  makedirs_from done todo m = (m', Some e) ->
  e = FileExistsError ∨ e = NotADirectoryError.
Proof.
  revert done m; induction todo as [|c todo IH]; intros done m; simpl; [done|].
  destruct (m !! (done ++ [c])) as [[|r wr d]|]; [apply IH| |apply IH].
  intros [= _ <-]. destruct todo; auto.
Qed.

(** One more component below directories that exist. *)
Lemma makedirs_from_snoc done todo m (c : string) :
  (∀ pre suf, pre ≠ [] -> todo = pre ++ suf -> m !! (done ++ pre) = Some Dir) ->
  makedirs_from done (todo ++ [c]) m
  = match m !! (done ++ todo ++ [c]) with
    | None => (<[done ++ todo ++ [c] := Dir]> m, None)
    | Some Dir => (m, None)
    | Some (File _ _ _) => (m, Some FileExistsError)
    end.
Proof.
  revert done; induction todo as [|c' todo IH]; intros done H; simpl.
  - by destruct (m !! (done ++ [c])) as [[|r wr d]|].
  - rewrite (H [c'] todo) by done.
    rewrite IH; [by rewrite <- app_assoc|].
    intros pre suf Hpre ->. rewrite <- app_assoc. by apply (H (c' :: pre) suf).
Qed.

Lemma makedirs_join (d : path) (c : string) m :
  (∀ pre suf, pre ≠ [] -> d = pre ++ suf -> is_dir m pre = true) ->
  makedirs (PyPath.join d c) m
  = match m !! PyPath.join d c with
    | None => (<[PyPath.join d c := Dir]> m, None)
    | Some Dir => (m, None)
    | Some (File _ _ _) => (m, Some FileExistsError)
    end.
Proof.
  intros H. unfold makedirs, PyPath.join. rewrite makedirs_from_snoc; [done|].
  intros pre suf Hpre E. simpl. apply is_dir_nonempty; [done|]. by eapply H.
Qed.

End MakedirsErrors.

Section PrepareErrors.

Variables (src_path dst_path : path).

#[local] Abbreviation mk_ext :=
  (fun ext => perform (op_makedirs (PyPath.join dst_path ext))).

Lemma for_each_err (exts : list string) (w w' : world) (e : exn) :
  run (for_each exts mk_ext) w = (w', inl e) ->
  e = FileExistsError ∨ e = NotADirectoryError.
Proof.
  revert w. induction exts as [|x exts IH]; intros w; [done|].
  cbn [for_each]. rewrite run_bind, run_perform. unfold op_makedirs.
  destruct (makedirs (PyPath.join dst_path x) (fs w)) as [m [e0|]] eqn:Hmk.
  - intros [= _ <-]. by eapply makedirs_from_err.
  - apply IH.
Qed.

Lemma for_each_clash (exts : list string) (w : world) (x : string) :
  x ∈ exts ->
  (∀ pre suf, pre ≠ [] -> dst_path = pre ++ suf -> is_dir (fs w) pre = true) ->
  is_file (fs w) (PyPath.join dst_path x) = true ->
  ∃ w', run (for_each exts mk_ext) w = (w', inl FileExistsError).
Proof.
  revert w. induction exts as [|y exts IH]; intros w Hx Hdirs Hfile.
  { by apply elem_of_nil in Hx. }
  cbn [for_each]. rewrite run_bind, run_perform. unfold op_makedirs.
  rewrite (makedirs_join _ _ _ Hdirs).
  destruct (fs w !! PyPath.join dst_path y) as [[|r wr d]|] eqn:Hy.
  - rewrite set_fs_id. apply IH; [|done..].
    apply elem_of_cons in Hx as [->|Hx]; [|done].
    unfold is_file in Hfile. by rewrite Hy in Hfile.
  - by eexists.
  - assert (x ≠ y) as Hne.
    { intros ->. unfold is_file in Hfile. by rewrite Hy in Hfile. }
    apply IH.
    + apply elem_of_cons in Hx as [->|Hx]; done.
    + intros pre suf Hpre E. simpl. specialize (Hdirs pre suf Hpre E).
      unfold is_dir in *. destruct pre as [|c pre]; [done|].
      rewrite lookup_insert_ne; [done|].
      intros E'. apply (f_equal length) in E', E.
      unfold PyPath.join in E'. rewrite !length_app in *. simpl in *. lia.
    + simpl. unfold is_file in *. rewrite lookup_insert_ne; [done|].
      by intros ?%join_inj.
Qed.

(** The preparation as a whole: what it leaves when it raises. *)
Lemma main_prepare_fails (w w1 : world) (e : exn) :
  run (main_prepare src_path dst_path) w = (w1, inl e) ->
  (e = NotADirectoryError ∨ e = FileExistsError)
  ∧ log w1 = log w ∧ hash_calls w1 = hash_calls w
  ∧ (∀ p, fs w1 !! p = fs w !! p ∨ (fs w !! p = None ∧ fs w1 !! p = Some Dir)).
Proof.
  unfold main_prepare. rewrite run_bind, run_Do. unfold op_is_dir. cbn [fst snd].
  destruct (is_dir (fs w) src_path) eqn:Hsrc.
  2:{ intros [= <- <-]. split_and!; auto. }
  cbn [negb run]. cbv iota beta.
  rewrite run_bind, run_perform. unfold op_makedirs.
  destruct (makedirs dst_path (fs w)) as [m [e0|]] eqn:Hmk.
  { intros [= <- <-]. split_and!; try done.
    - destruct (makedirs_from_err _ _ _ _ _ Hmk); auto.
    - intros p. simpl.
      destruct (makedirs_from_lookup _ _ _ _ _ p Hmk) as [E'|(Hn & Hd' & _)]; auto. }
  rewrite run_bind, run_Do. unfold op_rglob_files. cbn [fst snd fs set_fs run].
  cbv iota beta zeta.
  set (fl := List.filter _ (rglob_files m src_path)).
  rewrite run_bind.
  pose proof (run_for_each_makedirs dst_path (remove_dups (List.map ext_folder_of fl)) (set_fs m w))
    as (Hl & Hh & Hd & Hp & Hok). cbv zeta in *.
  destruct (run (for_each _ _) (set_fs m w)) as [w2 [e0|[]]] eqn:Hfe; [|done].
  cbn [fst snd] in *. intros [= <- <-].
  split_and!; try done.
  - destruct (for_each_err _ _ _ _ Hfe); auto.
  - intros p. destruct (Hp p) as [E|[E1 E2]]; simpl in *;
      destruct (makedirs_from_lookup _ _ _ _ _ p Hmk) as [E'|(Hn & Hd' & _)].
    + left. congruence.
    + right. split; [done | congruence].
    + right. split; [congruence | done].
    + congruence.
Qed.

Lemma main_prepare_clash (w : world) (m : gmap path node) (f : path) :
  is_dir (fs w) src_path = true ->
  makedirs dst_path (fs w) = (m, None) ->
  PyPath.is_proper_ancestor src_path f = true ->
  PyPath.is_proper_ancestor dst_path f = false ->
  is_file (fs w) f = true ->
  is_file (fs w) (dest_dir_of f dst_path) = true ->
  ∃ w1, run (main_prepare src_path dst_path) w = (w1, inl FileExistsError).
Proof.
  intros Hsrc Hmk Hin Hout Hf Hclash.
  unfold main_prepare. rewrite run_bind, run_Do. unfold op_is_dir. cbn [fst snd].
  rewrite Hsrc. cbn [negb run]. cbv iota beta.
  rewrite run_bind, run_perform. unfold op_makedirs at 1. rewrite Hmk.
  rewrite run_bind, run_Do. unfold op_rglob_files. cbn [fst snd fs set_fs run].
  cbv iota beta zeta.
  set (fl := List.filter _ (rglob_files m src_path)).
  rewrite run_bind.
  assert (∀ p, is_file m p = is_file (fs w) p) as Hsame.
  { intros p. apply is_file_same.
    destruct (makedirs_from_lookup _ _ _ _ _ p Hmk) as [E'|(Hn & Hd' & _)]; auto. }
  destruct (for_each_clash (remove_dups (List.map ext_folder_of fl)) (set_fs m w)
              (ext_folder_of f)) as [w' Hfe].
  - apply elem_of_remove_dups, list_elem_of_fmap. exists f. split; [done|].
    unfold fl. apply list_elem_of_In, List.filter_In. split.
    + apply list_elem_of_In, elem_of_rglob_files. by rewrite Hsame.
    + by rewrite Hout.
  - intros pre suf Hpre E. simpl. by eapply makedirs_ready.
  - simpl. by rewrite Hsame.
  - rewrite Hfe. by eexists.
Qed.

End PrepareErrors.

Section RunLevel.

Variables (src_path dst_path : path).

Lemma main_async_fatal_inv (w w' w1 : world) (r : option exn) (e : exn) :
  run (main_prepare src_path dst_path) w = (w1, inl e) ->
  main_async src_path dst_path w w' r -> w' = w1 ∧ r = Some e.
Proof.
  intros Hp Hrun.
  destruct Hrun as [w2 e2 H|w2 files c H _ _|w2 files c i f e2 H _ _];
    rewrite Hp in H; by simplify_eq.
Qed.

Lemma main_async_raises_inv (w w' : world) (e : exn) :
  main_async src_path dst_path w w' (Some e) ->
  run (main_prepare src_path dst_path) w = (w', inl e).
Proof.
  intros Hrun. inversion Hrun as [w2 e2 H|w2 files c H Hc Hd|w2 files c i f e2 H Hc Hi]; subst.
  - done.
  - destruct (no_task_fails _ _ _ _ _ _ _ Hc Hi).
Qed.

End RunLevel.

(** ** What a run may change *)

Section Footprint.

Variable dst_path : path.

Lemma reachable_footprint (w : world) (files : list path) (c : config) :
  rtc step (dispatch w files dst_path) c ->
  ∀ p, footprint dst_path (fs w) (fs (c_world c)) files p.
Proof.
  apply (reachable_ind (fun c => ∀ p, footprint dst_path (fs w) (fs (c_world c)) files p)).
  { intros p. by left. }
  intros c1 c2 Hc IH [i Hi] p.
  destruct (step_at_confined dst_path c1 c2 i (reachable_tasks_ok _ _ _ _ Hc) Hi)
    as (f & Hf & _ & Hfoot).
  rewrite (reachable_files _ _ _ _ Hc) in Hf.
  destruct (decide (fs (c_world c2) !! p = fs (c_world c1) !! p)) as [E|Hchg].
  - destruct (IH p) as [H|[[H1 H2]|[H1 H2]]].
    + left. congruence.
    + right. left. split; congruence.
    + right. right. split; [|done]. unfold is_file in *. by rewrite E.
  - destruct (Hfoot p Hchg) as [[Hn Hd]|[Hpar Hfile]].
    + destruct (IH p) as [H|[[H1 H2]|[H1 H2]]].
      * right. left. split; congruence.
      * congruence.
      * unfold is_file in H1. by rewrite Hn in H1.
    + right. right. split; [done|]. exists f. split; [|done].
      by eapply list_elem_of_lookup_2.
Qed.

Lemma parent_inside (p d : path) (c : string) :
  PyPath.parent p = PyPath.join d c -> PyPath.is_proper_ancestor d p = true.
Proof.
  intros E. apply is_proper_ancestor_spec.
  destruct (decide (p = [])) as [->|Hne].
  { unfold PyPath.parent, PyPath.join in E. simpl in E. by destruct d. }
  exists [c; PyPath.name p]. split; [done|].
  pose proof (app_removelast_last "" Hne) as Hp.
  unfold PyPath.parent, PyPath.join, PyPath.name in *.
  rewrite E, <- app_assoc in Hp. exact Hp.
Qed.

End Footprint.

Section RunFacts.

Variables (src_path dst_path : path).

Lemma rtc_step_no_tasks (w : world) (sem : nat) (c : config) :
  rtc step (Config w sem []) c -> c = Config w sem [].
Proof.
  intros H. inversion H as [|? c1 ? [i Hi] _]; [done|].
  unfold step_at in Hi. simpl in Hi. by destruct i.
Qed.

Lemma main_prepare_nothing (w : world) (m : gmap path node) :
  is_dir (fs w) src_path = true ->
  makedirs dst_path (fs w) = (m, None) ->
  (∀ f, PyPath.is_proper_ancestor src_path f = true ->
        PyPath.is_proper_ancestor dst_path f = false ->
        is_file (fs w) f = false) ->
  run (main_prepare src_path dst_path) w = (set_fs m w, inr []).
Proof.
  intros Hsrc Hmk Hnone.
  unfold main_prepare. rewrite run_bind, run_Do. unfold op_is_dir. cbn [fst snd].
  rewrite Hsrc. cbn [negb run]. cbv iota beta.
  rewrite run_bind, run_perform. unfold op_makedirs at 1. rewrite Hmk.
  rewrite run_bind, run_Do. unfold op_rglob_files. cbn [fst snd fs set_fs run].
  cbv iota beta zeta.
  assert (List.filter (fun f => negb (PyPath.is_proper_ancestor dst_path f))
                      (rglob_files m src_path) = []) as ->; [|done].
  assert (∀ p, is_file m p = is_file (fs w) p) as Hsame.
  { intros p. apply is_file_same.
    destruct (makedirs_from_lookup _ _ _ _ _ p Hmk) as [E'|(Hn & Hd' & _)]; auto. }
  destruct (List.filter _ _) as [|f l] eqn:E; [done|].
  assert (In f (f :: l)) as Hf by (by left). rewrite <- E in Hf.
  apply List.filter_In in Hf as [Hf Hout].
  apply list_elem_of_In, elem_of_rglob_files in Hf as [Hin Hfile].
  apply negb_true_iff in Hout. rewrite Hsame, (Hnone f Hin Hout) in Hfile. done.
Qed.

Lemma main_async_nothing (w w1 w' : world) (r : option exn) :
  run (main_prepare src_path dst_path) w = (w1, inr []) ->
  main_async src_path dst_path w w' r ->
  r = None ∧ w' = logged LogCompleted w1.
Proof.
  intros Hp Hrun.
  destruct Hrun as [w2 e H|w2 files c H Hc Hd|w2 files c i f e H Hc Hi];
    rewrite Hp in H; simplify_eq.
  - apply rtc_step_no_tasks in Hc as ->. done.
  - apply rtc_step_no_tasks in Hc as ->. simpl in Hi. by destruct i.
Qed.

End RunFacts.

(** X8 — Whenever [main_async] raises, the exception is the one that
    ended its preparation (the test of the source, [mkdir] of the
    destination, the listing, the creation of the extension folders):
    no task has been created, nothing has been logged, [compute_hash]
    has not been called, and no regular file has been created or
    changed; the tree differs from the one before by new directories at
    most. *)
Theorem fatal_error_copies_nothing (src_path dst_path : path) (w w' : world) (e : exn) :
  main_async src_path dst_path w w' (Some e) ->
  run (main_prepare src_path dst_path) w = (w', inl e)
  ∧ log w' = log w
  ∧ hash_calls w' = hash_calls w
  ∧ (∀ p, fs w' !! p = fs w !! p ∨ (fs w !! p = None ∧ fs w' !! p = Some Dir)).
Proof.
  intros Hrun%main_async_raises_inv. split; [done|].
  by destruct (main_prepare_fails _ _ _ _ _ Hrun) as (_ & ? & ? & ?).
Qed.

Lemma fatal_error_copies_nothing_witness :
  log (fst (main_async_in_turn ["src"] ["dst"] (Sample.world_of Scenes.fs_blocked)))
  = log (Sample.world_of Scenes.fs_blocked)
  ∧ hash_calls (fst (main_async_in_turn ["src"] ["dst"] (Sample.world_of Scenes.fs_blocked)))
    = hash_calls (Sample.world_of Scenes.fs_blocked).
Proof.
  assert (snd (main_async_in_turn ["src"] ["dst"] (Sample.world_of Scenes.fs_blocked))
          = Some FileExistsError) as Hs by (vm_compute; reflexivity).
  pose proof (in_turn_is_a_run ["dst"] ["src"] (Sample.world_of Scenes.fs_blocked)) as Hrun.
  rewrite Hs in Hrun.
  destruct (fatal_error_copies_nothing _ _ _ _ _ Hrun) as (_ & H1 & H2 & _).
  exact (conj H1 H2).
Defined.

(** X9 — A regular file that sits where the extension folder of a
    file to dispatch is needed is fatal for the whole run, not an error
    of that file: every run ends in [main_async] with
    [FileExistsError] before a task is created, nothing is logged, not
    even "Processing completed.", and no regular file is created or
    changed. *)
Theorem extension_folder_clash_is_fatal (src_path dst_path : path) (w : world)
    (m : gmap path node) (f : path) :
  is_dir (fs w) src_path = true ->
  makedirs dst_path (fs w) = (m, None) ->
  PyPath.is_proper_ancestor src_path f = true ->
  PyPath.is_proper_ancestor dst_path f = false ->
  is_file (fs w) f = true ->
  is_file (fs w) (PyPath.join dst_path (ext_folder_of f)) = true ->
  (∃ w1, main_async src_path dst_path w w1 (Some FileExistsError))
  ∧ (∀ w' r, main_async src_path dst_path w w' r ->
       r = Some FileExistsError
       ∧ log w' = log w
       ∧ (∀ p, is_file (fs w') p = is_file (fs w) p)
       ∧ (∀ p r0 wr d, fs w !! p = Some (File r0 wr d) -> fs w' !! p = Some (File r0 wr d))).
Proof.
  intros Hsrc Hmk Hin Hout Hf Hclash.
  destruct (main_prepare_clash src_path dst_path w m f Hsrc Hmk Hin Hout Hf Hclash)
    as [w1 Hp].
  split; [exists w1; by apply main_fatal|].
  intros w' r Hrun.
  destruct (main_async_fatal_inv _ _ _ _ _ _ _ Hp Hrun) as [-> ->].
  destruct (main_prepare_fails _ _ _ _ _ Hp) as (_ & Hl & _ & Hfs).
  split_and!; [done|done| |].
  - intros p. by apply is_file_same.
  - intros p r0 wr d E. destruct (Hfs p) as [->|[? _]]; congruence.
Qed.

Lemma extension_folder_clash_is_fatal_witness :
  ∃ w1, main_async ["src"] ["dst"] (Sample.world_of Scenes.fs_blocked) w1
                   (Some FileExistsError).
Proof.
  assert (is_dir (fs (Sample.world_of Scenes.fs_blocked)) ["src"] = true) as H1
    by (vm_compute; reflexivity).
  assert (snd (makedirs ["dst"] (fs (Sample.world_of Scenes.fs_blocked))) = None) as Hs
    by (vm_compute; reflexivity).
  assert (makedirs ["dst"] (fs (Sample.world_of Scenes.fs_blocked))
          = (fst (makedirs ["dst"] (fs (Sample.world_of Scenes.fs_blocked))), None)) as H2
    by (rewrite <- Hs; apply surjective_pairing).
  assert (PyPath.is_proper_ancestor ["src"] ["src"; "a.txt"] = true) as H3 by reflexivity.
  assert (PyPath.is_proper_ancestor ["dst"] ["src"; "a.txt"] = false) as H4 by reflexivity.
  assert (is_file (fs (Sample.world_of Scenes.fs_blocked)) ["src"; "a.txt"] = true) as H5
    by (vm_compute; reflexivity).
  assert (is_file (fs (Sample.world_of Scenes.fs_blocked))
                  (PyPath.join ["dst"] (ext_folder_of ["src"; "a.txt"])) = true) as H6
    by (vm_compute; reflexivity).
  exact (proj1 (extension_folder_clash_is_fatal _ _ _ _ _ H1 H2 H3 H4 H5 H6)).
Defined.

Section RunShape.

Variables (src_path dst_path : path).

Lemma reachable_dirs (w : world) (files : list path) (c : config) :
  rtc step (dispatch w files dst_path) c ->
  ∀ q, is_dir (fs w) q = true -> is_dir (fs (c_world c)) q = true.
Proof.
  apply (reachable_ind (fun c => ∀ q, is_dir (fs w) q = true ->
                                      is_dir (fs (c_world c)) q = true)); [done|].
  intros c1 c2 Hc IH [i Hi] q Hq.
  destruct (step_at_confined dst_path c1 c2 i (reachable_tasks_ok _ _ _ _ Hc) Hi)
    as (_ & _ & Hkeep & _).
  by apply Hkeep, IH.
Qed.

(** The two shapes of a run: it ends in the preparation, or in a state
    that the tasks reach. *)
Lemma main_async_inv (w w' : world) (r : option exn) :
  main_async src_path dst_path w w' r ->
  (∃ e, r = Some e ∧ run (main_prepare src_path dst_path) w = (w', inl e))
  ∨ (∃ w1 files c,
       run (main_prepare src_path dst_path) w = (w1, inr files)
       ∧ rtc step (dispatch w1 files dst_path) c
       ∧ fs w' = fs (c_world c)).
Proof.
  intros [w1 e H|w1 files c H Hc Hd|w1 files c i f e H Hc Hi].
  - left. by exists e.
  - right. by exists w1, files, c.
  - right. by exists w1, files, c.
Qed.

End RunShape.

(** X10 — What a run may change, under every schedule.  A path whose
    node differs after the run was missing and is now a directory, or is
    now a regular file directly inside the extension folder of a source
    file.  So every node outside the destination root, and every source
    file in particular, is what it was; nothing is ever removed; and a
    directory stays a directory. *)
Theorem run_changes_only_the_destination (src_path dst_path : path) (w w' : world)
    (r : option exn) :
  main_async src_path dst_path w w' r ->
  (∀ p, fs w' !! p ≠ fs w !! p ->
        (fs w !! p = None ∧ fs w' !! p = Some Dir)
        ∨ (is_file (fs w') p = true
           ∧ ∃ f, is_file (fs w) f = true
                  ∧ PyPath.is_proper_ancestor src_path f = true
                  ∧ PyPath.is_proper_ancestor dst_path f = false
                  ∧ PyPath.parent p = PyPath.join dst_path (ext_folder_of f)))
  ∧ (∀ p n, fs w !! p = Some n -> PyPath.is_proper_ancestor dst_path p = false ->
            fs w' !! p = Some n)
  ∧ (∀ p, is_Some (fs w !! p) -> is_Some (fs w' !! p))
  ∧ (∀ p, is_dir (fs w) p = true -> is_dir (fs w') p = true).
Proof.
  intros Hrun.
  assert (∀ p, fs w' !! p ≠ fs w !! p ->
        (fs w !! p = None ∧ fs w' !! p = Some Dir)
        ∨ (is_file (fs w') p = true
           ∧ ∃ f, is_file (fs w) f = true
                  ∧ PyPath.is_proper_ancestor src_path f = true
                  ∧ PyPath.is_proper_ancestor dst_path f = false
                  ∧ PyPath.parent p = PyPath.join dst_path (ext_folder_of f))) as Hfoot.
  { destruct (main_async_inv _ _ _ _ _ Hrun) as [(e & _ & H)|(w1 & files & c & Hp & Hc & ->)].
    - intros p Hchg. left.
      destruct (main_prepare_fails _ _ _ _ _ H) as (_ & _ & _ & Hfs).
      destruct (Hfs p) as [E|E]; [done|done].
    - intros p Hchg.
      destruct (main_prepare_ok _ _ _ _ _ Hp) as (_ & _ & _ & _ & _ & Hfs & Hfiles & _).
      destruct (reachable_footprint dst_path _ _ _ Hc p) as [E|[[E1 E2]|[Hfile (f & Hf & Hpar)]]].
      + left. destruct (Hfs p) as [E'|[E1 E2]]; [congruence|]. split; congruence.
      + left. destruct (Hfs p) as [E'|[E3 E4]]; [|congruence]. split; congruence.
      + right. split; [done|]. exists f.
        apply Hfiles in Hf as (Hin & Hout & Hfile1).
        rewrite (is_file_same _ _ f (Hfs f)) in Hfile1. done. }
  split_and!; [done| | |].
  - intros p n Hn Hout.
    destruct (decide (fs w' !! p = fs w !! p)) as [E|Hchg]; [congruence|].
    destruct (Hfoot p Hchg) as [[? _]|[_ (f & _ & _ & _ & Hpar)]]; [congruence|].
    apply parent_inside in Hpar. congruence.
  - intros p [n Hn]. destruct (decide (fs w' !! p = fs w !! p)) as [E|Hchg].
    { rewrite E, Hn. by eexists. }
    destruct (Hfoot p Hchg) as [[? _]|[Hf _]]; [congruence|].
    unfold is_file in Hf. by destruct (fs w' !! p).
  - intros p Hd.
    destruct (main_async_inv _ _ _ _ _ Hrun) as [(e & _ & H)|(w1 & files & c & Hp & Hc & ->)].
    + destruct (main_prepare_fails _ _ _ _ _ H) as (_ & _ & _ & Hfs).
      unfold is_dir in *. destruct p as [|x p]; [done|].
      destruct (Hfs (x :: p)) as [->|[E ->]]; done.
    + eapply reachable_dirs; [done|].
      destruct (main_prepare_ok _ _ _ _ _ Hp) as (_ & _ & _ & _ & _ & Hfs & _).
      unfold is_dir in *. destruct p as [|x p]; [done|].
      destruct (Hfs (x :: p)) as [->|[E ->]]; done.
Qed.

Lemma run_changes_only_the_destination_witness :
  fs (fst (main_async_in_turn ["src"] Sample.nested_dst (Sample.world_of Sample.fs_tree)))
    !! ["src"; "sub"; "a.txt"]
  = Some (File true true (bytes_of "world")).
Proof.
  pose proof (in_turn_is_a_run Sample.nested_dst ["src"] (Sample.world_of Sample.fs_tree))
    as Hrun.
  assert (fs (Sample.world_of Sample.fs_tree) !! ["src"; "sub"; "a.txt"]
          = Some (File true true (bytes_of "world"))) as Hn by (vm_compute; reflexivity).
  assert (PyPath.is_proper_ancestor Sample.nested_dst ["src"; "sub"; "a.txt"] = false)
    as Hout by reflexivity.
  exact (proj1 (proj2 (run_changes_only_the_destination _ _ _ _ _ Hrun)) _ _ Hn Hout).
Defined.

(** No file is dispatched twice. *)
Lemma main_prepare_NoDup (src_path dst_path : path) (w w1 : world) (files : list path) :
  run (main_prepare src_path dst_path) w = (w1, inr files) -> NoDup files.
Proof.
  intros Hp.
  destruct (main_prepare_ok _ _ _ _ _ Hp) as (_ & (m & _ & ->) & _).
  apply NoDup_ListNoDup, List.NoDup_filter. unfold rglob_files.
  apply List.NoDup_filter, NoDup_ListNoDup, NoDup_fst_map_to_list.
Qed.

(** X12 — A source directory that holds no regular file outside the
    destination: every run creates the destination root, logs
    "Processing completed." and does nothing else; such a run exists. *)
Theorem empty_source_only_logs_completion (src_path dst_path : path) (w : world)
    (m : gmap path node) :
  is_dir (fs w) src_path = true ->
  makedirs dst_path (fs w) = (m, None) ->
  (∀ f, PyPath.is_proper_ancestor src_path f = true ->
        PyPath.is_proper_ancestor dst_path f = false ->
        is_file (fs w) f = false) ->
  main_async src_path dst_path w (World m (log w ++ [LogCompleted]) (hash_calls w)) None
  ∧ (∀ w' r, main_async src_path dst_path w w' r ->
             r = None ∧ w' = World m (log w ++ [LogCompleted]) (hash_calls w)).
Proof.
  intros Hsrc Hmk Hnone.
  pose proof (main_prepare_nothing _ _ _ _ Hsrc Hmk Hnone) as Hp.
  assert (∀ w' r, main_async src_path dst_path w w' r ->
             r = None ∧ w' = World m (log w ++ [LogCompleted]) (hash_calls w)) as Hall.
  { intros w' r Hrun. by destruct (main_async_nothing _ _ _ _ _ _ Hp Hrun) as [-> ->]. }
  split; [|done].
  pose proof (in_turn_is_a_run dst_path src_path w) as Hrun.
  by destruct (Hall _ _ Hrun) as [<- <-].
Qed.

Lemma empty_source_only_logs_completion_witness :
  main_async ["src"] ["dst"] (Sample.world_of Scenes.fs_empty)
             (World (fst (makedirs ["dst"] Scenes.fs_empty)) ([] ++ [LogCompleted]) []) None.
Proof.
  assert (is_dir (fs (Sample.world_of Scenes.fs_empty)) ["src"] = true) as H1
    by (vm_compute; reflexivity).
  assert (snd (makedirs ["dst"] (fs (Sample.world_of Scenes.fs_empty))) = None) as Hs
    by (vm_compute; reflexivity).
  assert (makedirs ["dst"] (fs (Sample.world_of Scenes.fs_empty))
          = (fst (makedirs ["dst"] Scenes.fs_empty), None)) as H2
    by (rewrite <- Hs; apply surjective_pairing).
  assert (∀ f, PyPath.is_proper_ancestor ["src"] f = true ->
               PyPath.is_proper_ancestor ["dst"] f = false ->
               is_file (fs (Sample.world_of Scenes.fs_empty)) f = false) as H3.
  { intros f _ _. unfold is_file.
    destruct (fs (Sample.world_of Scenes.fs_empty) !! f) as [n|] eqn:E; [|done].
    apply elem_of_map_to_list in E. vm_compute in E.
    apply elem_of_cons in E as [[= _ ->]|E]; [done|].
    apply elem_of_cons in E as [[= _ ->]|E]; [done|].
    by apply elem_of_nil in E. }
  exact (proj1 (empty_source_only_logs_completion _ _ _ _ H1 H2 H3)).
Defined.

(** X13 — When the destination root is the source directory itself or
    one of its ancestors, every file of the source lies below the
    destination and none is dispatched: every run ends normally, having
    logged "Processing completed." only. *)
Theorem destination_above_source_copies_nothing (src_path dst_path : path) (w : world)
    (m : gmap path node) (below : path) :
  src_path = dst_path ++ below ->
  is_dir (fs w) src_path = true ->
  makedirs dst_path (fs w) = (m, None) ->
  ∀ w' r, main_async src_path dst_path w w' r ->
          r = None ∧ w' = World m (log w ++ [LogCompleted]) (hash_calls w).
Proof.
  intros E Hsrc Hmk w' r Hrun.
  assert (run (main_prepare src_path dst_path) w = (set_fs m w, inr [])) as Hp.
  { apply main_prepare_nothing; [done..|].
    intros f Hin Hout. apply is_proper_ancestor_spec in Hin as (rest & Hrest & ->).
    assert (PyPath.is_proper_ancestor dst_path (src_path ++ rest) = true) as Hd; [|congruence].
    apply is_proper_ancestor_spec. exists (below ++ rest). split.
    - by destruct below, rest.
    - by rewrite E, <- app_assoc. }
  by destruct (main_async_nothing _ _ _ _ _ _ Hp Hrun) as [-> ->].
Qed.

Lemma destination_above_source_copies_nothing_witness :
  snd (main_async_in_turn ["src"; "sub"] ["src"] (Sample.world_of Sample.fs_tree)) = None
  ∧ fst (main_async_in_turn ["src"; "sub"] ["src"] (Sample.world_of Sample.fs_tree))
    = World (fst (makedirs ["src"] Sample.fs_tree)) ([] ++ [LogCompleted]) [].
Proof.
  assert (["src"; "sub"] = ["src"] ++ ["sub"]) as H0 by reflexivity.
  assert (is_dir (fs (Sample.world_of Sample.fs_tree)) ["src"; "sub"] = true) as H1
    by (vm_compute; reflexivity).
  assert (snd (makedirs ["src"] (fs (Sample.world_of Sample.fs_tree))) = None) as Hs
    by (vm_compute; reflexivity).
  assert (makedirs ["src"] (fs (Sample.world_of Sample.fs_tree))
          = (fst (makedirs ["src"] Sample.fs_tree), None)) as H2
    by (rewrite <- Hs; apply surjective_pairing).
  exact (destination_above_source_copies_nothing _ _ _ _ _ H0 H1 H2 _ _
           (in_turn_is_a_run ["src"] ["src"; "sub"] (Sample.world_of Sample.fs_tree))).
Defined.

(** ** The log accounts for every file *)

Section Accounting.

#[local] Opaque CHUNK_SIZE.

Variable f : path.

Lemma appends_quiet (g : world -> world) : (∀ w, log (g w) = log w) -> appends f g.
Proof. intros H w. exists []. by rewrite H, app_nil_r. Qed.

Lemma appends_one_log (rec : log_record) :
  record_file rec = Some f -> appends_one f (fun w => fst (op_log rec w)).
Proof. intros H w. by exists rec. Qed.

Lemma appends_log (rec : log_record) :
  record_file rec = Some f -> appends f (fun w => fst (op_log rec w)).
Proof. intros H w. exists [rec]. split; [done|]. by constructor. Qed.

Lemma appends_logging (rec : log_record) :
  record_file rec = Some f -> all_ops (appends f) (logging rec).
Proof. intros H. split; [by apply appends_log | done]. Qed.

Lemma appends_hash_loop (n : nat) (stream h : list byte) :
  all_ops (appends f) (hash_loop n stream h).
Proof.
  revert stream h; induction n as [|n IH]; intros stream h; [done|].
  split; [by apply appends_quiet|].
  intros [chunk rest]. simpl. destruct chunk; [done | apply IH].
Qed.

Lemma appends_compute_hash (p : path) : all_ops (appends f) (compute_hash p).
Proof.
  split; [by apply appends_quiet|]. intros _.
  apply all_ops_bind; [apply all_ops_perform; by apply appends_quiet|].
  intros data _. apply all_ops_bind; [apply appends_hash_loop | done].
Qed.

Lemma appends_copy_loop (n : nat) (stream : list byte) (p : path) :
  all_ops (appends f) (copy_loop n stream p).
Proof.
  revert stream; induction n as [|n IH]; intros stream; [done|].
  split; [by apply appends_quiet|].
  intros [chunk rest]. simpl. destruct chunk; [done|].
  split; [|intros _; apply IH].
  apply appends_quiet. intros w. unfold op_write. simpl.
  by destruct (fs w !! p) as [[|]|].
Qed.

Lemma appends_copy_stream (p : path) : all_ops (appends f) (copy_stream f p).
Proof.
  unfold copy_stream.
  apply all_ops_bind; [apply all_ops_perform; by apply appends_quiet|].
  intros data _.
  apply all_ops_bind; [|intros _ _; apply appends_copy_loop].
  apply all_ops_perform, appends_quiet. intros w. unfold op_open_wb.
  destruct (is_dir (fs w) (PyPath.parent p)); [|done].
  by destruct (fs w !! p) as [[|r [] d]|].
Qed.

Variable dst_root : path.

Lemma appends_resolve_dest : all_ops (appends f) (resolve_dest f dst_root).
Proof.
  unfold resolve_dest.
  apply all_ops_bind.
  { apply all_ops_perform, appends_quiet. intros w. unfold op_makedirs.
    by destruct (makedirs _ (fs w)). }
  intros _ _.
  apply all_ops_bind; [split; [by apply appends_quiet | done]|]. intros ex _.
  destruct ex.
  - apply all_ops_bind; [apply all_ops_perform; by apply appends_quiet|].
    intros ssz _.
    apply all_ops_bind; [apply all_ops_perform; by apply appends_quiet|].
    intros dsz _.
    destruct (Nat.eqb ssz dsz).
    + apply all_ops_bind; [apply appends_compute_hash|]. intros sh _.
      apply all_ops_bind; [apply appends_compute_hash|]. intros dh _.
      destruct (String.eqb sh dh);
        (apply all_ops_bind; [by apply appends_logging | done]).
    + apply all_ops_bind; [apply appends_compute_hash|]. intros sh _.
      apply all_ops_bind; [by apply appends_logging | done].
  - apply all_ops_bind; [by apply appends_logging | done].
Qed.

Lemma appends_body : all_ops (appends f) (copy_file_body f dst_root).
Proof.
  apply all_ops_try_except; [|intros e; by apply appends_logging].
  unfold copy_file_try.
  apply all_ops_bind; [apply appends_resolve_dest|].
  intros [d|] _; [apply appends_copy_stream | done].
Qed.

(** *** A record is written on every path *)

Lemma logs_before_bind {A B} (c : coro A) (k : A -> coro B) :
  (∀ a, logs_before True f (k a)) -> logs_before True f (c ≫= k).
Proof.
  unfold mbind, coro_mbind. intros Hk.
  induction c as [a|e|R op k' IH]; simpl; auto.
Qed.

Lemma logs_before_first {A B} (c : coro A) (k : A -> coro B) :
  logs_before True f c -> logs_before True f (c ≫= k).
Proof.
  unfold mbind, coro_mbind.
  induction c as [a|e|R op k' IH]; simpl; [done|done|].
  intros [H|H]; [by left | right; auto].
Qed.

Lemma logs_before_logging (rec : log_record) :
  record_file rec = Some f -> logs_before True f (logging rec).
Proof. intros H. left. by apply appends_one_log. Qed.

Lemma logs_before_resolve_dest : logs_before True f (resolve_dest f dst_root).
Proof.
  unfold resolve_dest.
  apply logs_before_bind. intros _.
  apply logs_before_bind. intros ex.
  destruct ex.
  - apply logs_before_bind. intros ssz.
    apply logs_before_bind. intros dsz.
    destruct (Nat.eqb ssz dsz).
    + apply logs_before_bind. intros sh.
      apply logs_before_bind. intros dh.
      destruct (String.eqb sh dh); by apply logs_before_first, logs_before_logging.
    + apply logs_before_bind. intros sh.
      by apply logs_before_first, logs_before_logging.
  - by apply logs_before_first, logs_before_logging.
Qed.

Lemma logs_before_try_except (c : coro unit) (h : exn -> coro unit) :
  logs_before True f c -> (∀ e, logs_before False f (h e)) ->
  logs_before False f (try_except c h).
Proof.
  intros Hc Hh. induction c as [a|e|R op k IH]; simpl in *; [done|done|].
  destruct Hc as [H|H]; [by left | right; auto].
Qed.

Lemma logs_before_body : logs_before False f (copy_file_body f dst_root).
Proof.
  apply logs_before_try_except.
  - unfold copy_file_try. apply logs_before_first, logs_before_resolve_dest.
  - intros e. left. by apply appends_one_log.
Qed.

End Accounting.

Section AccountingRun.

Variable dst_path : path.

Lemma mentions_app (f : path) (l l' : list log_record) :
  mentions f l -> mentions f (l ++ l').
Proof. intros (rec & Hin & H). exists rec. split; [|done]. apply elem_of_app. by left. Qed.

Lemma task_accounted_app (recs l : list log_record) (t : task) :
  task_accounted dst_path recs t -> task_accounted dst_path (recs ++ l) t.
Proof.
  unfold task_accounted. destruct (t_state t) as [b|k| |e]; [done| | |done].
  - intros [H1 [H2|H2]]; (split; [done|]); [left; by apply mentions_app | by right].
  - apply mentions_app.
Qed.

Lemma reachable_accounted (w : world) (files : list path) (c : config) :
  rtc step (dispatch w files dst_path) c ->
  ∃ recs,
    log (c_world c) = log w ++ recs
    ∧ Forall (fun rec => ∃ f, f ∈ files ∧ record_file rec = Some f) recs
    ∧ Forall (task_accounted dst_path recs) (c_tasks c).
Proof.
  apply (reachable_ind (fun c => ∃ recs,
    log (c_world c) = log w ++ recs
    ∧ Forall (fun rec => ∃ f, f ∈ files ∧ record_file rec = Some f) recs
    ∧ Forall (task_accounted dst_path recs) (c_tasks c))).
  { exists []. simpl. rewrite app_nil_r. split_and!; [done|done|].
    apply Forall_forall. by intros t [f [-> _]]%list_elem_of_fmap. }
  intros c1 c2 Hc (recs & Hlog & Hrecs & Htasks) [i Hi].
  pose proof (reachable_files _ _ _ _ Hc) as Hfiles.
  apply step_at_inv in Hi as (t & w' & sem' & st' & Ht & Hst & ->). simpl.
  assert (t_file t ∈ files) as Hin.
  { rewrite <- Hfiles. apply list_elem_of_fmap. exists t. split; [done|].
    by eapply list_elem_of_lookup_2. }
  pose proof (Forall_lookup_1 _ _ _ _ Htasks Ht) as Hacc.
  unfold task_accounted in Hacc.
  destruct (t_state t) as [b|k| |e] eqn:Est; simpl in Hst.
  - destruct (c_sem c1) as [|n]; [done|]. injection Hst as <- <- <-.
    exists recs. split_and!; [done|done|].
    apply Forall_insert; [done|]. unfold task_accounted. simpl. subst b.
    split; [apply appends_body|right; apply logs_before_body].
  - destruct k as [a|e|R op k].
    + injection Hst as <- <- <-. exists recs. split_and!; [done|done|].
      apply Forall_insert; [done|]. unfold task_accounted. simpl.
      by destruct Hacc as [_ [?|?]].
    + injection Hst as <- <- <-. exists recs. split_and!; [done|done|].
      by apply Forall_insert.
    + destruct (op (c_world c1)) as [w1 r] eqn:Hop. injection Hst as <- <- <-.
      destruct Hacc as [[Happ Hk] Hlogs]. simpl in Hlogs.
      destruct (Happ (c_world c1)) as (l & Hl & Habout). rewrite Hop in Hl. simpl in Hl.
      exists (recs ++ l). split_and!.
      * by rewrite Hl, Hlog, <- app_assoc.
      * apply Forall_app. split; [done|].
        eapply Forall_impl; [done|]. intros rec Hrec. by exists (t_file t).
      * apply Forall_insert; [eapply Forall_impl; [done|]; apply task_accounted_app|].
        unfold task_accounted. simpl. split; [done|].
        destruct Hlogs as [Hm|[Hone|Hnext]].
        -- left. by apply mentions_app.
        -- left. destruct (Hone (c_world c1)) as (rec & Hrec & Hf).
           rewrite Hop in Hrec. simpl in Hrec. rewrite Hl in Hrec.
           apply app_inv_head in Hrec as ->.
           exists rec. split; [|done]. apply elem_of_app. right. apply list_elem_of_here.
        -- by right.
  - done.
  - done.
Qed.

End AccountingRun.

(** X14 — Every dispatched file is accounted for in the log.  Under
    every schedule, the log of a run that reached the dispatch is the
    log before it, then the records of the tasks, then "Processing
    completed."; every record of the tasks is about a dispatched file,
    and every dispatched file has at least one record, be it a copy, a
    skipped duplicate, a renamed copy or an error. *)
Theorem every_dispatched_file_is_logged (src_path dst_path : path)
    (w w1 : world) (files : list path) :
  run (main_prepare src_path dst_path) w = (w1, inr files) ->
  ∀ w' r, main_async src_path dst_path w w' r ->
    ∃ recs,
      log w' = log w ++ recs ++ [LogCompleted]
      ∧ (∀ f, f ∈ files -> ∃ rec, rec ∈ recs ∧ record_file rec = Some f)
      ∧ (∀ rec, rec ∈ recs -> ∃ f, f ∈ files ∧ record_file rec = Some f).
Proof.
  intros Hp w' r Hrun.
  destruct (main_prepare_ok _ _ _ _ _ Hp) as (_ & _ & Hlog & _).
  destruct Hrun as [w2 e H|w2 fl c H Hc Hd|w2 fl c i f e H Hc Hi];
    rewrite Hp in H; simplify_eq.
  - destruct (reachable_accounted _ _ _ _ Hc) as (recs & Hl & Hrecs & Htasks).
    exists recs. split_and!.
    + simpl. by rewrite Hl, Hlog, <- app_assoc.
    + intros f Hf. rewrite <- (reachable_files _ _ _ _ Hc) in Hf.
      apply list_elem_of_fmap in Hf as (t & -> & Ht).
      pose proof (proj1 (Forall_forall _ _) Htasks t Ht) as Hacc.
      pose proof (proj1 (Forall_forall _ _) Hd t Ht) as Hdone.
      unfold task_accounted in Hacc. by rewrite Hdone in Hacc.
    + by apply Forall_forall.
  - destruct (no_task_fails _ _ _ _ _ _ _ Hc Hi).
Qed.

Lemma every_dispatched_file_is_logged_witness :
  ∃ recs,
    log (fst (main_async_in_turn ["src"] Sample.nested_dst (Sample.world_of Sample.fs_tree)))
    = log (Sample.world_of Sample.fs_tree) ++ recs ++ [LogCompleted]
    ∧ (∀ f, f ∈ [ ["src"; "a.txt"]; ["src"; "sub"; "a.txt"]; ["src"; "notes"];
                  ["src"; "sub"; "c.bin"] ] ->
            ∃ rec, rec ∈ recs ∧ record_file rec = Some f)
    ∧ (∀ rec, rec ∈ recs ->
              ∃ f, f ∈ [ ["src"; "a.txt"]; ["src"; "sub"; "a.txt"]; ["src"; "notes"];
                         ["src"; "sub"; "c.bin"] ]
                   ∧ record_file rec = Some f).
Proof.
  assert (run (main_prepare ["src"] Sample.nested_dst) (Sample.world_of Sample.fs_tree)
          = (fst (run (main_prepare ["src"] Sample.nested_dst) (Sample.world_of Sample.fs_tree)),
             inr [ ["src"; "a.txt"]; ["src"; "sub"; "a.txt"]; ["src"; "notes"]; ["src"; "sub"; "c.bin"] ]))
    as H by (vm_compute; reflexivity).
  exact (every_dispatched_file_is_logged _ _ _ _ _ H _ _
           (in_turn_is_a_run Sample.nested_dst ["src"] (Sample.world_of Sample.fs_tree))).
Defined.

(** ** Two files of one name *)

Section Interleaving.

Variable dst_path : path.

(** A task left to run the first part of its [try] block. *)
Lemma run_prefix_alone {A} (c0 : coro A) (k0 : A -> coro unit) (h : exn -> coro unit)
      (pre post : list task) (w w' : world) (sem : nat) (f : path) (a : A) :
  run c0 w = (w', inr a) ->
  rtc step (Config w sem (pre ++ Task f (Running (try_except (c0 ≫= k0) h)) :: post))
           (Config w' sem (pre ++ Task f (Running (try_except (k0 a) h)) :: post)).
Proof.
  unfold mbind, coro_mbind.
  revert w. induction c0 as [a'|e|R op k IH]; intros w; simpl.
  - intros [= <- <-]. apply rtc_refl.
  - done.
  - destruct (op w) as [w1 r] eqn:Hop. intros Hrun.
    eapply rtc_l; [|by apply IH].
    exists (length pre). unfold step_at. simpl.
    rewrite list_lookup_middle by done. simpl. rewrite Hop.
    by rewrite insert_middle.
Qed.

Lemma take_slot (k : coro unit) (pre post : list task) (w : world) (sem : nat) (f : path) :
  step (Config w (S sem) (pre ++ Task f (Waiting k) :: post))
       (Config w sem (pre ++ Task f (Running k) :: post)).
Proof.
  exists (length pre). unfold step_at. simpl.
  rewrite list_lookup_middle by done. simpl.
  by rewrite insert_middle.
Qed.

(** The decision for a file whose natural path is free. *)
Lemma resolve_fresh (f : path) (w : world) (m1 : gmap path node) :
  makedirs (dest_dir_of f dst_path) (fs w) = (m1, None) ->
  fs w !! natural_dest f dst_path = None ->
  run (resolve_dest f dst_path) w
  = (World m1 (log w ++ [LogCopying f (natural_dest f dst_path)]) (hash_calls w),
     inr (Some (natural_dest f dst_path))).
Proof.
  intros Hmk Hnat. unfold resolve_dest.
  rewrite !run_bind, run_perform. unfold op_makedirs.
  fold (dest_dir_of f dst_path). rewrite Hmk.
  rewrite run_bind, run_Do. unfold op_exists. cbn [fst snd fs set_fs].
  fold (natural_dest f dst_path).
  assert (m1 !! natural_dest f dst_path = None) as ->.
  { rewrite <- Hnat. eapply makedirs_other; [done|].
    rewrite length_natural, length_dest_dir. lia. }
  rewrite bool_decide_eq_false_2 by (by intros [? ?]).
  change (run (Return ?a) ?w') with (w', @inr exn _ a); cbv iota beta.
  rewrite run_bind, run_logging. cbv iota beta. done.
Qed.

End Interleaving.

(** X15 — Two source files of the same name, whose natural destination
    is free, can both be copied to it.  There is a schedule in which the
    first task finds the path free, logs, and is suspended where it
    awaits the opening of its source; the second task then runs from
    its start to its end; and the first task copies after it.  Both
    files are logged as "Copying file", the natural path holds the
    bytes of the first, and nothing else has changed, so the bytes of
    the second are nowhere in the destination.  Taken in turn, the same
    two tasks keep both files, the second one under its suffixed name:
    the outcome depends on the schedule. *)
Theorem same_name_race (f g dst_path : path) (w : world)
    (wf wg : bool) (df dg : list byte) :
  PyPath.name f = PyPath.name g ->
  fs w !! f = Some (File true wf df) ->
  fs w !! g = Some (File true wg dg) ->
  makedirs (dest_dir_of f dst_path) (fs w) = (fs w, None) ->
  fs w !! natural_dest f dst_path = None ->
  let natural := natural_dest f dst_path in
  let target := renamed_dest g dst_path (Sha256.hexdigest dg) in
  natural_dest g dst_path = natural
  ∧ (∃ c, rtc step (dispatch w [f; g] dst_path) c
          ∧ all_done c
          ∧ fs (c_world c) = <[natural := File true true df]> (fs w)
          ∧ log (c_world c) = log w ++ [LogCopying f natural; LogCopying g natural])
  ∧ (length dg ≠ length df ∨ Sha256.hexdigest dg ≠ Sha256.hexdigest df ->
     fs w !! target = None ->
     fs (run_tasks_in_turn [f; g] dst_path w)
     = <[target := File true true dg]> (<[natural := File true true df]> (fs w))).
Proof.
  intros Hname Hf Hg Hmk Hnat natural target.
  assert (ext_folder_of g = ext_folder_of f) as Hext.
  { unfold ext_folder_of, PyPath.suffix. by rewrite Hname. }
  assert (dest_dir_of g dst_path = dest_dir_of f dst_path) as Hdir.
  { unfold dest_dir_of. by rewrite Hext. }
  assert (natural_dest g dst_path = natural) as Hnatg.
  { unfold natural, natural_dest. by rewrite Hdir, Hname. }
  assert (fs w !! natural ≠ Some Dir) as Hnd by (unfold natural; congruence).
  assert (natural ≠ f) as Hnf by (intros E; unfold natural in E; congruence).
  assert (natural ≠ g) as Hng by (intros E; unfold natural in E; congruence).
  assert (PyPath.parent natural = dest_dir_of f dst_path) as Hpar by apply parent_join.
  set (w1 := World (fs w) (log w ++ [LogCopying f natural]) (hash_calls w)).
  set (w2 := World (<[natural := File true true dg]> (fs w))
                   (log w1 ++ [LogCopying g natural]) (hash_calls w)).
  set (w3 := World (<[natural := File true true df]> (fs w))
                   (log w1 ++ [LogCopying g natural]) (hash_calls w)).
  set (h := fun exc => logging (LogError f exc)).
  split_and!; [done| |].
  - exists (Config w3 100 [Task f Done; Task g Done]).
    split_and!.
    + unfold dispatch. cbn [List.map]. unfold MAX_CONCURRENT.
      (* the first task takes a slot and decides *)
      eapply rtc_l; [apply (take_slot _ [] [copy_file_task g dst_path] w 99 f)|].
      etrans.
      { apply (run_prefix_alone (resolve_dest f dst_path) _ h [] [copy_file_task g dst_path]
                 w w1 99 f (Some natural)).
        by apply resolve_fresh. }
      (* the second task runs from its start to its end *)
      etrans.
      { apply (run_waiting_alone (copy_file_body g dst_path)
                 [Task f (Running (try_except (copy_stream f natural) h))] [] w1 98 g).
        apply no_raise_body. }
      assert (fst (run (copy_file_body g dst_path) w1) = w2) as ->.
      { erewrite (body_fresh g dst_path w1 wg dg (fs w)); [by rewrite Hnatg|done|..].
        - simpl. by rewrite Hdir.
        - simpl. by rewrite Hnatg. }
      (* the first task copies *)
      assert (fst (run (try_except (copy_stream f natural) h) w2) = w3) as <-.
      { rewrite run_try_except.
        erewrite (run_copy_stream f natural w2 wf df).
        - unfold written, set_fs, w2, w3. simpl. rewrite lookup_insert_eq.
          by rewrite insert_insert_eq.
        - simpl. by rewrite lookup_insert_ne.
        - rewrite Hpar. simpl. apply is_dir_insert_file; [done|].
          by eapply makedirs_is_dir.
        - right. simpl. rewrite lookup_insert_eq. eauto. }
      apply (run_task_alone (try_except (copy_stream f natural) h) [] [Task g Done] w2 99 f).
      apply no_raise_try_except. intros e r. exact I.
    + by repeat constructor.
    + done.
    + unfold w3, w1. simpl. by rewrite <- app_assoc.
  - intros Hdiff Htgt.
    unfold run_tasks_in_turn. cbn [List.fold_left].
    rewrite (body_fresh f dst_path w wf df (fs w) Hf Hmk Hnat). cbn [fst].
    fold natural.
    set (wa := World (<[natural := File true true df]> (fs w))
                     (log w ++ [LogCopying f natural]) (hash_calls w)).
    assert (fs wa !! g = Some (File true wg dg)) as Hga
      by (simpl; by rewrite lookup_insert_ne).
    assert (makedirs (dest_dir_of g dst_path) (fs wa) = (fs wa, None)) as Hmka.
    { rewrite Hdir. apply ready_makedirs_noop. intros pre suf Hpre E. simpl.
      apply is_dir_insert_file; [done|]. by eapply makedirs_ready. }
    assert (fs wa !! natural_dest g dst_path = Some (File true true df)) as Hnata
      by (rewrite Hnatg; simpl; apply lookup_insert_eq).
    assert (target ≠ natural) as Htn.
    { rewrite <- Hnatg. apply renamed_dest_neq_natural. }
    assert (fs wa !! target = None) as Htgta
      by (simpl; by rewrite lookup_insert_ne).
    assert (writable_or_absent (fs wa) target) as Hwa by (by left).
    destruct (decide (length df = length dg)) as [Hlen|Hlen].
    + destruct Hdiff as [?|Hh]; [congruence|].
      rewrite (body_rename_same_size g dst_path wa wg dg (fs wa) Hga Hmka true df
                 Hnata Hlen (not_eq_sym Hh) Hwa).
      cbn [fst fs]. unfold written. fold target. by rewrite Htgta.
    + rewrite (body_rename_diff_size g dst_path wa wg dg (fs wa) Hga Hmka
                 (File true true df) Hnata Hlen Hwa).
      cbn [fst fs]. unfold written. fold target. by rewrite Htgta.
Qed.

Lemma same_name_race_witness :
  ∃ c, rtc step (dispatch (Sample.world_of Scenes.fs_twins_ready)
                          [ ["src"; "y"; "a.txt"]; ["src"; "x"; "a.txt"] ] Sample.dst) c
       ∧ all_done c
       ∧ fs (c_world c)
         = <[natural_dest ["src"; "y"; "a.txt"] Sample.dst := File true true (bytes_of "world")]>
             (fs (Sample.world_of Scenes.fs_twins_ready))
       ∧ log (c_world c)
         = log (Sample.world_of Scenes.fs_twins_ready)
           ++ [LogCopying ["src"; "y"; "a.txt"] (natural_dest ["src"; "y"; "a.txt"] Sample.dst);
               LogCopying ["src"; "x"; "a.txt"] (natural_dest ["src"; "y"; "a.txt"] Sample.dst)].
Proof.
  assert (PyPath.name ["src"; "y"; "a.txt"] = PyPath.name ["src"; "x"; "a.txt"]) as H0
    by reflexivity.
  assert (fs (Sample.world_of Scenes.fs_twins_ready) !! ["src"; "y"; "a.txt"]
          = Some (File true true (bytes_of "world"))) as H1 by (vm_compute; reflexivity).
  assert (fs (Sample.world_of Scenes.fs_twins_ready) !! ["src"; "x"; "a.txt"]
          = Some (File true true (bytes_of "hello"))) as H2 by (vm_compute; reflexivity).
  assert (snd (makedirs ["dst"; "txt"] Sample.fs_twins) = None) as Hs
    by (vm_compute; reflexivity).
  assert (makedirs (dest_dir_of ["src"; "y"; "a.txt"] Sample.dst)
                   (fs (Sample.world_of Scenes.fs_twins_ready))
          = (fs (Sample.world_of Scenes.fs_twins_ready), None)) as H3.
  { apply (makedirs_idem ["dst"; "txt"] Sample.fs_twins).
    rewrite <- Hs. apply surjective_pairing. }
  assert (fs (Sample.world_of Scenes.fs_twins_ready)
            !! natural_dest ["src"; "y"; "a.txt"] Sample.dst = None) as H4
    by (vm_compute; reflexivity).
  exact (proj1 (proj2 (same_name_race _ _ _ _ _ _ _ _ H0 H1 H2 H3 H4))).
Defined.

(** ** The tasks taken in turn *)

(** X16 — Taken one after the other, the tasks lose no file.  When no
    task ends in an error and no suffixed destination path clashes with
    another destination path, then after the run every dispatched file
    is in place: at its natural path there is a readable file of its
    size and digest, or its suffixed path holds its bytes; and the
    source file itself is what it was before the run. *)
Theorem sequential_run_places_every_file (src_path dst_path : path)
    (w wa : world) (files : list path) :
  run (main_prepare src_path dst_path) w = (wa, inr files) ->
  error_free_in_turn files dst_path wa = true ->
  no_clash (fs wa) dst_path files = true ->
  let w1 := fst (main_async_in_turn src_path dst_path w) in
  main_async src_path dst_path w w1 None
  ∧ ∀ f, f ∈ files -> settled (fs w1) dst_path f ∧ fs w1 !! f = fs w !! f.
Proof.
  intros Hp Hfree Hns w1.
  destruct (main_prepare_ok _ _ _ _ _ Hp) as (_ & _ & _ & _ & _ & Hkeep & Hfiles & _).
  assert (sources_ok (fs wa) dst_path files) as Hsrcs.
  { apply Forall_forall. intros f (_ & Hout & Hfile)%Hfiles. split; [done|].
    unfold is_file in Hfile. by destruct (fs wa !! f). }
  assert (w1 = logged LogCompleted (run_tasks_in_turn files dst_path wa)) as Hw1.
  { unfold w1, main_async_in_turn. by rewrite Hp. }
  split.
  - pose proof (in_turn_is_a_run dst_path src_path w) as H.
    fold w1 in H. unfold main_async_in_turn in H. by rewrite Hp in H.
  - intros f Hf. rewrite Hw1. cbn [logged fs]. split.
    + by apply in_turn_settled.
    + destruct (in_turn_frame _ _ _ Hfree Hsrcs) as [_ Hframe].
      pose proof (proj1 (Forall_forall _ _) Hsrcs f Hf) as [Hout Hsome].
      rewrite Hframe; [| |by right].
      * destruct (Hkeep f) as [E|[_ E]]; [done|].
        apply Hfiles in Hf as (_ & _ & Hfile). unfold is_file in Hfile.
        by rewrite E in Hfile.
      * intros g _. by apply source_not_slot.
Qed.

Lemma sequential_run_places_every_file_witness :
  settled (fs (fst (main_async_in_turn ["src"] Sample.dst (Sample.world_of Sample.fs_twins))))
          Sample.dst ["src"; "x"; "a.txt"]
  ∧ fs (fst (main_async_in_turn ["src"] Sample.dst (Sample.world_of Sample.fs_twins)))
      !! ["src"; "x"; "a.txt"]
    = fs (Sample.world_of Sample.fs_twins) !! ["src"; "x"; "a.txt"].
Proof.
  assert (run (main_prepare ["src"] Sample.dst) (Sample.world_of Sample.fs_twins)
          = (fst (run (main_prepare ["src"] Sample.dst) (Sample.world_of Sample.fs_twins)),
             inr [ ["src"; "y"; "a.txt"]; ["src"; "x"; "a.txt"] ])) as Hp
    by (vm_compute; reflexivity).
  assert (error_free_in_turn [ ["src"; "y"; "a.txt"]; ["src"; "x"; "a.txt"] ] Sample.dst
            (fst (run (main_prepare ["src"] Sample.dst) (Sample.world_of Sample.fs_twins)))
          = true) as He
    by (vm_compute; reflexivity).
  assert (no_clash
            (fs (fst (run (main_prepare ["src"] Sample.dst) (Sample.world_of Sample.fs_twins))))
            Sample.dst [ ["src"; "y"; "a.txt"]; ["src"; "x"; "a.txt"] ] = true) as Hn
    by (vm_compute; reflexivity).
  assert (["src"; "x"; "a.txt"] ∈ [ ["src"; "y"; "a.txt"]; ["src"; "x"; "a.txt"] ]) as Hin
    by (apply list_elem_of_further, list_elem_of_here).
  exact (proj2 (sequential_run_places_every_file _ _ _ _ _ Hp He Hn) _ Hin).
Defined.

(** * The second run, under every schedule *)

(** ** The worker is local to the paths of its file *)

Section Locality.

#[local] Opaque CHUNK_SIZE.

Variables (dst_path f : path).

#[local] Abbreviation D := (dest_dir_of f dst_path).
#[local] Abbreviation local := (local_to dst_path f).

Lemma targets_parent (p : path) : targets dst_path f p -> PyPath.parent p = D.
Proof. intros [->|(data & ->)]; apply parent_join. Qed.

Lemma targets_under_dst (p : path) :
  targets dst_path f p -> PyPath.is_proper_ancestor dst_path p = true.
Proof. intros [->|(data & ->)]; [apply natural_under_dst | apply renamed_under_dst]. Qed.

Lemma folder_ready_is_dir (m : gmap path node) :
  folder_ready dst_path f m -> is_dir m D = true.
Proof. apply makedirs_is_dir. Qed.

Lemma folder_ready_mono (m m' : gmap path node) :
  folder_ready dst_path f m ->
  (∀ q, is_dir m q = true -> is_dir m' q = true) ->
  folder_ready dst_path f m'.
Proof.
  intros Hm Hd. apply ready_makedirs_noop. intros pre suf Hpre E.
  apply Hd. by eapply makedirs_ready.
Qed.

(** *** The operations *)

(** An operation that changes no file and whose result and records do
    not depend on the world. *)
Lemma local_pure {R} (op : world -> world * R) (r : R) (l : list log_record) :
  (∀ w, snd (op w) = r ∧ fs (fst (op w)) = fs w ∧ log (fst (op w)) = log w ++ l) ->
  local R op.
Proof.
  intros H w v _ _ Hag.
  destruct (H w) as (Hr & Hf & Hl), (H v) as (Hr' & Hf' & Hl').
  rewrite Hr, Hr', Hf, Hf'. split_and!; try done; [by left|by exists l].
Qed.

(** An operation that looks at one path of the file. *)
Lemma local_reader {R} (p : path) (g : option node -> R) :
  concerns dst_path f p -> local R (fun w => (w, g (fs w !! p))).
Proof.
  intros Hp w v _ _ Hag. cbn [fst snd]. rewrite (Hag p Hp).
  split_and!; try done; [by left|]. exists []. by rewrite !app_nil_r.
Qed.

Lemma local_makedirs : local _ (op_makedirs D).
Proof.
  intros w v Hw Hv Hag. unfold op_makedirs, folder_ready in *. rewrite Hw, Hv. cbn [fst snd].
  rewrite !set_fs_id. split_and!; try done; [by left|]. exists []. by rewrite !app_nil_r.
Qed.

Lemma local_exists (p : path) : concerns dst_path f p -> local _ (op_exists p).
Proof.
  intros Hp w v _ _ Hag. unfold op_exists. cbn [fst snd]. rewrite (Hag p Hp).
  split_and!; try done; [by left|]. exists []. by rewrite !app_nil_r.
Qed.

Lemma local_stat_size (p : path) : concerns dst_path f p -> local _ (op_stat_size p).
Proof.
  intros Hp.
  by apply (local_reader p (fun n => match n with
                                     | Some n => inr (st_size n)
                                     | None => inl FileNotFoundError
                                     end)).
Qed.

Lemma local_open_rb (p : path) : concerns dst_path f p -> local _ (op_open_rb p).
Proof.
  intros Hp.
  by apply (local_reader p (fun n => match n with
                                     | Some (File true _ data) => inr data
                                     | Some (File false _ _) => inl PermissionError
                                     | Some Dir => inl IsADirectoryError
                                     | None => inl FileNotFoundError
                                     end)).
Qed.

Lemma local_read (stream : list byte) : local _ (op_read stream).
Proof.
  apply (local_pure _ (take CHUNK_SIZE stream, drop CHUNK_SIZE stream) []).
  intros w. by rewrite app_nil_r.
Qed.

Lemma local_log (r : log_record) : local _ (op_log r).
Proof. by apply (local_pure _ tt [r]). Qed.

Lemma local_note_hash (p : path) : local _ (op_note_hash p).
Proof. apply (local_pure _ tt []). intros w. simpl. by rewrite app_nil_r. Qed.

(** Two trees in agreement, after the same node was put at a target. *)
Lemma agree_on_insert (m m' : gmap path node) (p : path) (n : node) :
  agree_on (concerns dst_path f) m m' ->
  agree_on (concerns dst_path f) (<[p := n]> m) (<[p := n]> m').
Proof.
  intros Hag q Hq. destruct (decide (p = q)) as [<-|Hne].
  - by rewrite !lookup_insert_eq.
  - rewrite !lookup_insert_ne by done. by apply Hag.
Qed.

Lemma local_open_wb (p : path) : targets dst_path f p -> local _ (op_open_wb p).
Proof.
  intros Hp w v Hw Hv Hag. unfold op_open_wb.
  rewrite (targets_parent p Hp), (folder_ready_is_dir _ Hw), (folder_ready_is_dir _ Hv).
  rewrite <- (Hag p (or_intror Hp)).
  destruct (fs w !! p) as [[|r [] d]|] eqn:E; cbn [fst snd set_fs fs log];
    try (split_and!; [done|done|by left|done|exists []; by rewrite !app_nil_r]).
  - split_and!; [done|by apply agree_on_insert| | |exists []; by rewrite !app_nil_r].
    + intros q. destruct (decide (p = q)) as [<-|Hne]; [by right|left].
      by apply lookup_insert_ne.
    + intros q. apply is_dir_insert_file. by rewrite E.
  - split_and!; [done|by apply agree_on_insert| | |exists []; by rewrite !app_nil_r].
    + intros q. destruct (decide (p = q)) as [<-|Hne]; [by right|left].
      by apply lookup_insert_ne.
    + intros q. apply is_dir_insert_file. by rewrite E.
Qed.

Lemma local_write (p : path) (chunk : list byte) :
  targets dst_path f p -> local _ (op_write p chunk).
Proof.
  intros Hp w v Hw Hv Hag. unfold op_write.
  rewrite <- (Hag p (or_intror Hp)).
  destruct (fs w !! p) as [[|r wr d]|] eqn:E; cbn [fst snd set_fs fs log];
    try (split_and!; [done|done|by left|done|exists []; by rewrite !app_nil_r]).
  split_and!; [done|by apply agree_on_insert| | |exists []; by rewrite !app_nil_r].
  - intros q. destruct (decide (p = q)) as [<-|Hne]; [by right|left].
    by apply lookup_insert_ne.
  - intros q. apply is_dir_insert_file. by rewrite E.
Qed.

(** *** The coroutines *)

Lemma every_op_bind {A B} (P : ∀ R, (world -> world * R) -> Prop)
      (c : coro A) (g : A -> coro B) :
  every_op P c -> (∀ a, returns c a -> every_op P (g a)) -> every_op P (c ≫= g).
Proof.
  unfold mbind, coro_mbind.
  induction c as [a|e|R op k IH]; simpl; intros Hc Hg.
  - by apply Hg.
  - done.
  - destruct Hc as [Hop Hk]. split; [done|].
    intros r. apply IH; [done|]. intros a Ha. apply Hg. by exists r.
Qed.

Lemma every_op_try_except {A} (P : ∀ R, (world -> world * R) -> Prop)
      (c : coro A) (h : exn -> coro A) :
  every_op P c -> (∀ e, every_op P (h e)) -> every_op P (try_except c h).
Proof.
  induction c as [a|e|R op k IH]; simpl; intros Hc Hh; auto.
  destruct Hc as [Hop Hk]. split; [done|]. intros r. by apply IH.
Qed.

Lemma every_op_perform {A} (P : ∀ R, (world -> world * R) -> Prop)
      (op : world -> world * (exn + A)) :
  P _ op -> every_op P (perform op).
Proof. intros H. split; [done|]. by intros [e|a]. Qed.

Lemma every_op_logging (r : log_record) : every_op local (logging r).
Proof. split; [apply local_log | done]. Qed.

Lemma every_op_hash_loop (n : nat) (stream h : list byte) :
  every_op local (hash_loop n stream h).
Proof.
  revert stream h; induction n as [|n IH]; intros stream h; [done|].
  split; [apply local_read|].
  intros [chunk rest]. simpl. destruct chunk; [done | apply IH].
Qed.

Lemma every_op_compute_hash (p : path) :
  concerns dst_path f p -> every_op local (compute_hash p).
Proof.
  intros Hp. split; [apply local_note_hash|]. intros _.
  apply every_op_bind; [apply every_op_perform; by apply local_open_rb|].
  intros data _. apply every_op_bind; [apply every_op_hash_loop | done].
Qed.

(** [compute_hash] answers with a digest. *)
Lemma returns_compute_hash (p : path) (h : string) :
  returns (compute_hash p) h -> ∃ data, h = Sha256.hexdigest data.
Proof.
  intros [_ H]. apply returns_bind in H as (data & _ & H).
  apply returns_bind in H as (fed & _ & H). simpl in H. by exists fed.
Qed.

Lemma every_op_copy_loop (n : nat) (stream : list byte) (p : path) :
  targets dst_path f p -> every_op local (copy_loop n stream p).
Proof.
  intros Hp. revert stream; induction n as [|n IH]; intros stream; [done|].
  split; [apply local_read|].
  intros [chunk rest]. simpl. destruct chunk; [done|].
  split; [by apply local_write | intros _; apply IH].
Qed.

Lemma every_op_copy_stream (p : path) :
  targets dst_path f p -> every_op local (copy_stream f p).
Proof.
  intros Hp. unfold copy_stream.
  apply every_op_bind; [apply every_op_perform, local_open_rb; by left|].
  intros data _.
  apply every_op_bind; [apply every_op_perform; by apply local_open_wb|].
  intros _ _. by apply every_op_copy_loop.
Qed.

(** [resolve_dest] answers with no path, or with a target of the file. *)
Lemma returns_resolve_dest_target (d : path) :
  returns (resolve_dest f dst_path) (Some d) -> targets dst_path f d.
Proof.
  unfold resolve_dest. intros H.
  apply returns_bind in H as (? & _ & H).
  apply returns_bind in H as (ex & _ & H).
  destruct ex.
  - apply returns_bind in H as (ssz & _ & H).
    apply returns_bind in H as (dsz & _ & H).
    destruct (Nat.eqb ssz dsz).
    + apply returns_bind in H as (sh & (data & ->)%returns_compute_hash & H).
      apply returns_bind in H as (dh & _ & H).
      destruct (String.eqb _ dh);
        apply returns_bind in H as (? & _ & H); simpl in H; [done|].
      injection H as ->. right. by exists data.
    + apply returns_bind in H as (sh & (data & ->)%returns_compute_hash & H).
      apply returns_bind in H as (? & _ & H); simpl in H.
      injection H as ->. right. by exists data.
  - apply returns_bind in H as (? & _ & H); simpl in H. injection H as ->. by left.
Qed.

Lemma every_op_resolve_dest : every_op local (resolve_dest f dst_path).
Proof.
  assert (concerns dst_path f f) as Hf by (by left).
  assert (concerns dst_path f (natural_dest f dst_path)) as Hn by (right; by left).
  unfold resolve_dest.
  apply every_op_bind; [apply every_op_perform, local_makedirs|]. intros _ _.
  apply every_op_bind; [split; [by apply local_exists | done]|]. intros ex _.
  destruct ex.
  - apply every_op_bind; [apply every_op_perform; by apply local_stat_size|].
    intros ssz _.
    apply every_op_bind; [apply every_op_perform; by apply local_stat_size|].
    intros dsz _.
    destruct (Nat.eqb ssz dsz).
    + apply every_op_bind; [by apply every_op_compute_hash|]. intros sh _.
      apply every_op_bind; [by apply every_op_compute_hash|]. intros dh _.
      destruct (String.eqb sh dh);
        (apply every_op_bind; [apply every_op_logging | done]).
    + apply every_op_bind; [by apply every_op_compute_hash|]. intros sh _.
      apply every_op_bind; [apply every_op_logging | done].
  - apply every_op_bind; [apply every_op_logging | done].
Qed.

(** Every operation of the worker is local to the paths of its file. *)
Lemma every_op_try : every_op local (copy_file_try f dst_path).
Proof.
  unfold copy_file_try.
  apply every_op_bind; [apply every_op_resolve_dest|].
  intros [d|] Hd; [|done].
  by apply every_op_copy_stream, returns_resolve_dest_target.
Qed.

Lemma every_op_body : every_op local (copy_file_body f dst_path).
Proof.
  apply every_op_try_except; [apply every_op_try|intros e; apply every_op_logging].
Qed.

(** *** Running alone in two worlds that agree *)

Lemma run_local {A} (k : coro A) (w v : world) :
  every_op local k ->
  folder_ready dst_path f (fs w) -> folder_ready dst_path f (fs v) ->
  agree_on (concerns dst_path f) (fs w) (fs v) ->
  snd (run k w) = snd (run k v)
  ∧ agree_on (concerns dst_path f) (fs (fst (run k w))) (fs (fst (run k v)))
  ∧ (∀ p, fs (fst (run k w)) !! p = fs w !! p ∨ targets dst_path f p)
  ∧ (∀ q, is_dir (fs w) q = true -> is_dir (fs (fst (run k w))) q = true)
  ∧ ∃ l, log (fst (run k w)) = log w ++ l ∧ log (fst (run k v)) = log v ++ l.
Proof.
  revert w v. induction k as [a|e|R op k IH]; intros w v Hk Hw Hv Hag.
  - simpl. split_and!; try done; [by left|]. exists []. by rewrite !app_nil_r.
  - simpl. split_and!; try done; [by left|]. exists []. by rewrite !app_nil_r.
  - destruct Hk as [Hop Hk]. rewrite !run_Do.
    destruct (Hop w v Hw Hv Hag) as (Hr & Hag1 & Hfr & Hd & l & Hl & Hl').
    assert (agree_on (concerns dst_path f) (fs v) (fs w)) as Hag' by (intros p Hp; by rewrite Hag).
    destruct (Hop v w Hv Hw Hag') as (_ & _ & _ & Hd' & _).
    rewrite <- Hr.
    destruct (IH (snd (op w)) (fst (op w)) (fst (op v)) (Hk _)
                 (folder_ready_mono _ _ Hw Hd) (folder_ready_mono _ _ Hv Hd') Hag1)
      as (Hr2 & Hag2 & Hfr2 & Hd2 & l2 & Hl2 & Hl2').
    split_and!; [done|done| | |].
    + intros p. destruct (Hfr2 p) as [E2|?]; [|by right].
      destruct (Hfr p) as [E1|?]; [|by right]. left. congruence.
    + intros q Hq. by apply Hd2, Hd.
    + exists (l ++ l2). by rewrite Hl2, Hl2', Hl, Hl', <- !app_assoc.
Qed.

End Locality.

(** ** Tasks that share no destination path do not interfere *)

Section Tracking.

Variables (dst_path : path) (files : list path) (w0 : world).

Hypothesis Hnodup : NoDup files.
Hypothesis Hindep : independent dst_path files.
Hypothesis Hout : ∀ f, f ∈ files -> PyPath.is_proper_ancestor dst_path f = false.
Hypothesis Hready : ∀ f, f ∈ files -> folder_ready dst_path f (fs w0).

Lemma since_app (w : world) (recs : list log_record) :
  log w = log w0 ++ recs -> since w0 w = recs.
Proof. intros E. unfold since. rewrite E. apply drop_app_length. Qed.

(** What concerns one file is no target of another. *)
Lemma concerns_not_target (f g p : path) :
  f ∈ files -> g ∈ files -> f ≠ g -> concerns dst_path g p -> ¬ targets dst_path f p.
Proof.
  intros Hf Hg Hne [->|Hp] Ht.
  - apply targets_under_dst in Ht. rewrite (Hout g Hg) in Ht. done.
  - apply Hne. by apply (Hindep f g p).
Qed.

(** A task keeps tracking its worker when the paths of its file stay
    as they are and the log grows. *)
Lemma task_tracks_frame (w w' : world) (t : task) :
  task_tracks dst_path w0 w t ->
  (∀ p, concerns dst_path (t_file t) p -> fs w' !! p = fs w !! p) ->
  (∀ rec, rec ∈ since w0 w -> rec ∈ since w0 w') ->
  task_tracks dst_path w0 w' t.
Proof.
  unfold task_tracks. intros Ht Hfs Hlog.
  destruct (t_state t) as [body|k| |e]; [| | |done].
  - destruct Ht as [-> Hag]. split; [done|]. intros p Hp. rewrite (Hfs p Hp). by apply Hag.
  - destruct Ht as (Hk & v & mine & Hv & Hag & Hrun & Hl & Hm).
    split; [done|]. exists v, mine. split_and!; try done.
    + intros p Hp. rewrite (Hfs p Hp). by apply Hag.
    + intros rec Hrec. by apply Hlog, Hm.
  - destruct Ht as [Hag Hm]. split.
    + intros p Hp. rewrite (Hfs p Hp). by apply Hag.
    + intros rec Hrec. by apply Hlog, Hm.
Qed.

Lemma dispatch_tracked : tracked dst_path files w0 (dispatch w0 files dst_path).
Proof.
  split_and!.
  - exists []. split; [simpl; by rewrite app_nil_r|]. by intros rec ?%elem_of_nil.
  - by left.
  - simpl. apply Forall_forall. intros t [f [-> _]]%list_elem_of_fmap. by split.
Qed.

(** The files of two tasks of a run differ. *)
Lemma task_files (c : config) (i j : nat) (t u : task) :
  List.map t_file (c_tasks c) = files ->
  c_tasks c !! i = Some t -> c_tasks c !! j = Some u ->
  t_file t ∈ files ∧ (i ≠ j -> t_file t ≠ t_file u).
Proof.
  intros Hfiles Hi Hj.
  assert (files !! i = Some (t_file t)) as Hi'
    by (rewrite <- Hfiles; change (List.map t_file (c_tasks c)) with (t_file <$> c_tasks c);
        by rewrite list_lookup_fmap, Hi).
  assert (files !! j = Some (t_file u)) as Hj'
    by (rewrite <- Hfiles; change (List.map t_file (c_tasks c)) with (t_file <$> c_tasks c);
        by rewrite list_lookup_fmap, Hj).
  split; [by eapply list_elem_of_lookup_2|].
  intros Hne E. rewrite <- E in Hj'. apply Hne. by eapply NoDup_lookup.
Qed.

Lemma step_tracked (c c' : config) :
  rtc step (dispatch w0 files dst_path) c ->
  tracked dst_path files w0 c -> step c c' -> tracked dst_path files w0 c'.
Proof.
  intros Hreach ((recs & Hlog & Hrecs) & Hframe & Htasks)
         [i (t & w' & sem' & st' & Ht & Hst & ->)%step_at_inv].
  pose proof (reachable_files dst_path _ _ _ Hreach) as Hfiles.
  pose proof (reachable_dirs dst_path _ _ _ Hreach) as Hdirs.
  destruct (task_files c i i t t Hfiles Ht Ht) as [Hf _].
  assert (folder_ready dst_path (t_file t) (fs (c_world c))) as Hrdy
    by (eapply folder_ready_mono; [by apply Hready|done]).
  pose proof (proj1 (Forall_lookup _ _) Htasks i t Ht) as Hti.
  destruct t as [f st]. cbn [t_file] in *. unfold task_tracks in Hti. cbn [t_file t_state] in Hti.
  (* the other tasks, when the step changes targets of [f] only and the log grows *)
  assert (∀ w1 new,
            (∀ p, fs w1 !! p = fs (c_world c) !! p ∨ targets dst_path f p) ->
            (∀ rec, rec ∈ since w0 (c_world c) -> rec ∈ since w0 w1) ->
            task_tracks dst_path w0 w1 new ->
            Forall (task_tracks dst_path w0 w1) (<[i := new]> (c_tasks c))) as Hothers.
  { intros w1 new Hfr Hgrow Hnew. apply Forall_lookup. intros j u Hu.
    destruct (decide (i = j)) as [<-|Hne].
    - rewrite list_lookup_insert_eq in Hu by (by eapply lookup_lt_Some). by injection Hu as <-.
    - rewrite list_lookup_insert_ne in Hu by done.
      destruct (task_files c i j _ u Hfiles Ht Hu) as [_ Hdiff].
      destruct (task_files c j j u u Hfiles Hu Hu) as [Hg _].
      apply (task_tracks_frame (c_world c)); [by apply (proj1 (Forall_lookup _ _) Htasks j)| |done].
      intros p Hp. destruct (Hfr p) as [E|Htgt]; [done|].
      destruct (concerns_not_target f (t_file u) p Hf Hg (Hdiff Hne) Hp Htgt). }
  destruct st as [body|k| |e]; simpl in Hst.
  - (* the task takes a slot *)
    destruct (c_sem c) as [|n]; [done|]. injection Hst as <- <- <-.
    destruct Hti as [-> Hag]. cbn [c_world c_tasks].
    split_and!; [by exists recs|done|].
    apply Hothers; [by left|done|].
    split; [apply every_op_body|].
    exists w0, []. split_and!; [by apply Hready|done|done|by rewrite app_nil_r|].
    by intros rec ?%elem_of_nil.
  - destruct Hti as (Hk & v & mine & Hv & Hag & Hrun & Hl & Hm).
    destruct k as [a|e|R op k]; simpl in Hst.
    + (* the task returns *)
      injection Hst as <- <- <-. cbn [c_world c_tasks].
      split_and!; [by exists recs|done|].
      apply Hothers; [by left|done|].
      change (run (Return a) v) with (v, @inr exn unit a) in Hrun.
      unfold task_tracks, alone. cbn [t_file t_state].
      rewrite <- Hrun. cbn [fst]. split; [done|].
      intros rec Hrec. apply Hm. by rewrite (since_app _ _ Hl) in Hrec.
    + (* the body of a task never raises *)
      exfalso. change (run (Raise e) v) with (v, @inl exn unit e) in Hrun.
      destruct (no_raise_run (copy_file_body f dst_path) w0 (no_raise_body _ _)) as [a Ha].
      rewrite <- Hrun in Ha. discriminate Ha.
    + (* the task performs an operation *)
      destruct Hk as [Hop Hk].
      destruct (Hop (c_world c) v Hrdy Hv Hag) as (Hr & Hag1 & Hfr & Hd & l & Hl1 & Hl1').
      assert (agree_on (concerns dst_path f) (fs v) (fs (c_world c))) as Hag'
        by (intros p Hp; by rewrite Hag).
      destruct (Hop v (c_world c) Hv Hrdy Hag') as (_ & _ & _ & Hd' & _).
      destruct (op (c_world c)) as [w1 r] eqn:Hopw. injection Hst as <- <- <-.
      cbn [fst snd c_world c_tasks] in *.
      rewrite run_Do, <- Hr in Hrun.
      assert (folder_ready dst_path f (fs (fst (op v)))) as Hv1
        by exact (folder_ready_mono _ _ _ _ Hv Hd').
      assert (folder_ready dst_path f (fs w1)) as Hw1
        by exact (folder_ready_mono _ _ _ _ Hrdy Hd).
      (* the records to come are those of the worker alone *)
      destruct (run_local dst_path f (k r) (fst (op v)) (fst (op v)) (Hk r) Hv1 Hv1)
        as (_ & _ & _ & _ & more & Hmore & _); [done|].
      assert (since w0 (alone dst_path w0 f) = mine ++ l ++ more) as Halone.
      { apply since_app. unfold alone. rewrite <- Hrun, Hmore, Hl1', Hl.
        by rewrite <- !app_assoc. }
      assert (log w1 = log w0 ++ recs ++ l) as Hlog1
        by (by rewrite Hl1, Hlog, <- app_assoc).
      assert (∀ rec, rec ∈ since w0 (c_world c) -> rec ∈ since w0 w1) as Hgrow.
      { intros rec. rewrite (since_app _ _ Hlog), (since_app _ _ Hlog1).
        intros Hrec. apply elem_of_app. by left. }
      split_and!.
      * exists (recs ++ l). split; [done|].
        intros rec [Hrec|Hrec]%elem_of_app; [by apply Hrecs|].
        exists f. split; [done|]. rewrite Halone.
        apply elem_of_app. right. apply elem_of_app. by left.
      * intros p. cbn [c_world]. destruct (Hfr p) as [E|Htgt]; [|right; by exists f].
        rewrite E. apply Hframe.
      * apply Hothers; [done|done|].
        split; [apply Hk|].
        exists (fst (op v)), (mine ++ l). split_and!; [done|done|done| |].
        -- by rewrite Hl1', Hl, <- app_assoc.
        -- intros rec [Hrec|Hrec]%elem_of_app.
           ++ by apply Hgrow, Hm.
           ++ cbn [c_world]. rewrite (since_app _ _ Hlog1). apply elem_of_app. by right.
  - done.
  - done.
Qed.

Lemma reachable_tracked (c : config) :
  rtc step (dispatch w0 files dst_path) c -> tracked dst_path files w0 c.
Proof.
  revert c. apply reachable_ind; [apply dispatch_tracked|].
  intros c c' Hreach IH Hstep. by eapply step_tracked.
Qed.

(** When all tasks are done: the tree is the one of [w0] with, at the
    paths of every file, what its worker leaves when it runs alone from
    [w0], and the records are those of the workers run alone. *)
Lemma all_done_tracked (c : config) :
  rtc step (dispatch w0 files dst_path) c -> all_done c ->
  (∀ f, f ∈ files ->
        agree_on (concerns dst_path f) (fs (c_world c)) (fs (alone dst_path w0 f)))
  ∧ (∀ p, fs (c_world c) !! p = fs w0 !! p ∨ ∃ f, f ∈ files ∧ targets dst_path f p)
  ∧ ∃ recs, log (c_world c) = log w0 ++ recs
            ∧ (∀ rec, rec ∈ recs -> ∃ f, f ∈ files ∧ rec ∈ since w0 (alone dst_path w0 f))
            ∧ (∀ f rec, f ∈ files -> rec ∈ since w0 (alone dst_path w0 f) -> rec ∈ recs).
Proof.
  intros Hreach Hdone.
  destruct (reachable_tracked c Hreach) as ((recs & Hlog & Hrecs) & Hframe & Htasks).
  pose proof (reachable_files dst_path _ _ _ Hreach) as Hfiles.
  assert (∀ f, f ∈ files ->
            agree_on (concerns dst_path f) (fs (c_world c)) (fs (alone dst_path w0 f))
            ∧ (∀ rec, rec ∈ since w0 (alone dst_path w0 f) -> rec ∈ recs)) as Hall.
  { intros f Hf. rewrite <- Hfiles in Hf.
    apply list_elem_of_In, List.in_map_iff in Hf as (t & <- & Ht%list_elem_of_In).
    pose proof (proj1 (Forall_forall _ _) Htasks t Ht) as Htr.
    pose proof (proj1 (Forall_forall _ _) Hdone t Ht) as Hd.
    unfold task_tracks in Htr. rewrite Hd in Htr. destruct Htr as [Hag Hm].
    split; [done|]. intros rec Hrec. rewrite <- (since_app _ _ Hlog). by apply Hm. }
  split_and!; [intros f Hf; by apply Hall|done|].
  exists recs. split_and!; [done|done|]. intros f rec Hf. by apply Hall.
Qed.

End Tracking.

(** ** Two runs *)

Section TwoRuns.

Variables (src_path dst_path : path).

Lemma settled_record_agree (m m' : gmap path node) (f : path) (rec : log_record) :
  agree_on (concerns dst_path f) m m' ->
  settled_record m dst_path f rec -> settled_record m' dst_path f rec.
Proof.
  intros Hag [->|(n & wr & r & data & Hrec & Hf & -> & Hn)]; [by left|].
  right. exists (renamed f (Sha256.hexdigest data)), wr, r, data.
  split_and!; [done| |done|].
  - rewrite <- Hf. symmetry. apply Hag. by left.
  - rewrite <- Hn. symmetry. apply Hag. right. right. by exists data.
Qed.

Lemma settled_record_file (m : gmap path node) (f : path) (rec : log_record) :
  settled_record m dst_path f rec -> record_file rec = Some f.
Proof. by intros [->|(n & wr & r & data & [-> | ->] & _)]. Qed.

(** The records of a worker that runs alone. *)
Lemma try_log_grows (f : path) (w : world) :
  folder_ready dst_path f (fs w) ->
  ∃ l, log (fst (run (copy_file_try f dst_path) w)) = log w ++ l.
Proof.
  intros Hw.
  destruct (run_local dst_path f _ w w (every_op_try dst_path f) Hw Hw)
    as (_ & _ & _ & _ & l & Hl & _); [done|]. by exists l.
Qed.

(** A file whose worker ran alone from [wa] without error, in a world
    [w1] that holds at the paths of the file what this worker left: the
    worker alone from [w1] changes none of them, and writes one record,
    the duplicate or the rename onto the copy that holds the bytes. *)
Lemma alone_again (f : path) (wa w1 : world) :
  folder_ready dst_path f (fs wa) ->
  folder_ready dst_path f (fs w1) ->
  agree_on (concerns dst_path f) (fs w1) (fs (alone dst_path wa f)) ->
  (∀ e, LogError f e ∉ since wa (alone dst_path wa f)) ->
  agree_on (concerns dst_path f) (fs (alone dst_path w1 f)) (fs w1)
  ∧ ∃ rec, since w1 (alone dst_path w1 f) = [rec] ∧ settled_record (fs w1) dst_path f rec.
Proof.
  intros Hwa Hw1 Hag Hfree. unfold alone in *.
  destruct (try_log_grows f wa Hwa) as (l0 & Hl0).
  rewrite run_body in Hag, Hfree.
  destruct (run (copy_file_try f dst_path) wa) as [w' [e|[]]] eqn:Htry; cbn [fst] in *.
  { exfalso. apply (Hfree e).
    rewrite (since_app wa _ (l0 ++ [LogError f e])).
    - apply elem_of_app. right. apply list_elem_of_here.
    - cbn [logged log]. by rewrite Hl0, <- app_assoc. }
  pose proof (try_settles dst_path f wa w' Htry) as Hset.
  destruct (settled_again dst_path f w' Hset) as (rec & calls & Hagain & Hrec).
  assert (folder_ready dst_path f (fs w')) as Hw'
    by (by destruct Hset as (wr & data & n2 & _ & Hmk & _)).
  destruct (run_local dst_path f _ w1 w' (every_op_body dst_path f) Hw1 Hw' Hag)
    as (_ & Hag2 & _ & _ & l & Hl & Hl').
  rewrite (body_of_try _ _ _ _ Hagain) in Hag2, Hl'. cbn [fst fs log] in Hag2, Hl'.
  apply app_inv_head in Hl' as <-.
  split.
  - intros p Hp. by rewrite (Hag2 p Hp), (Hag p Hp).
  - exists rec. split; [by apply since_app|].
    apply (settled_record_agree (fs w')); [|done].
    intros p Hp. by rewrite (Hag p Hp).
Qed.

(** A subset of independent files is independent. *)
Lemma independent_subset (files files' : list path) :
  (∀ f, f ∈ files' -> f ∈ files) -> independent dst_path files -> independent dst_path files'.
Proof. intros Hsub Hind f g p Hf Hg. apply Hind; by apply Hsub. Qed.

(** The extension folders of the dispatched files are in place. *)
Lemma prepared_folders_ready (w wa : world) (files : list path) :
  run (main_prepare src_path dst_path) w = (wa, inr files) ->
  ∀ m f, (∀ q, is_dir (fs wa) q = true -> is_dir m q = true) ->
         f ∈ files -> folder_ready dst_path f m.
Proof.
  intros Hp m f Hd Hf.
  destruct (main_prepare_ok _ _ _ _ _ Hp) as (_ & _ & _ & _ & Hext & _ & _ & Hdst).
  apply ready_makedirs_noop. intros pre suf Hpre E. apply Hd.
  unfold dest_dir_of, PyPath.join in E.
  destruct suf as [|c suf _] using rev_ind.
  - rewrite app_nil_r in E. subst pre. by apply Hext.
  - rewrite app_assoc in E. apply app_inj_tail in E as [E _]. by eapply Hdst.
Qed.

(** A run that reaches the dispatch ends with all tasks done. *)
Lemma main_async_completed_inv (w wa w' : world) (files : list path) (r : option exn) :
  run (main_prepare src_path dst_path) w = (wa, inr files) ->
  main_async src_path dst_path w w' r ->
  r = None
  ∧ ∃ c, rtc step (dispatch wa files dst_path) c ∧ all_done c
         ∧ w' = logged LogCompleted (c_world c).
Proof.
  intros Hp Hrun.
  destruct Hrun as [w2 e H|w2 fl c H Hc Hd|w2 fl c i g e H Hc Hi];
    rewrite Hp in H; simplify_eq.
  - split; [done|]. by exists c.
  - destruct (no_task_fails _ _ _ _ _ _ _ Hc Hi).
Qed.

(** After a run, the preparation of the next one finds everything in
    place and lists the same files. *)
Lemma prepare_again (w wa : world) (files : list path) (c : config) :
  run (main_prepare src_path dst_path) w = (wa, inr files) ->
  independent dst_path files ->
  rtc step (dispatch wa files dst_path) c ->
  ∃ files2,
    run (main_prepare src_path dst_path) (logged LogCompleted (c_world c))
    = (logged LogCompleted (c_world c), inr files2)
    ∧ ∀ f, f ∈ files2 ↔ f ∈ files.
Proof.
  intros Hp Hind Hc.
  destruct (main_prepare_ok _ _ _ _ _ Hp)
    as (Hsrcdir & _ & _ & _ & Hext & Hkeep & Hfiles & Hdst).
  pose proof (reachable_dirs dst_path _ _ _ Hc) as Hdirs.
  pose proof (reachable_footprint dst_path _ _ _ Hc) as Hfoot.
  set (w1 := logged LogCompleted (c_world c)).
  assert (is_dir (fs wa) src_path = true) as Hsrcdir'.
  { unfold is_dir in *. destruct src_path as [|x sp]; [done|].
    destruct (Hkeep (x :: sp)) as [->|[E _]]; [done|]. by rewrite E in Hsrcdir. }
  (* a file outside the destination is what it was *)
  assert (∀ f, PyPath.is_proper_ancestor dst_path f = false ->
               is_file (fs w1) f = is_file (fs wa) f) as Hsame.
  { intros f Hout. cbn [w1 logged fs].
    destruct (Hfoot f) as [E|[[E1 E2]|[_ (g & _ & Hpar)]]].
    - unfold is_file. by rewrite E.
    - unfold is_file. by rewrite E1, E2.
    - apply parent_inside in Hpar. congruence. }
  exists (List.filter (fun f => negb (PyPath.is_proper_ancestor dst_path f))
                      (rglob_files (fs w1) src_path)).
  split.
  - apply main_prepare_ready.
    + by apply Hdirs.
    + apply ready_makedirs_noop. intros pre suf Hpre E. apply Hdirs. by eapply Hdst.
    + intros f Hin Hout Hfile.
      apply (prepared_folders_ready _ _ _ Hp); [done|].
      apply Hfiles. split_and!; [done|done|]. by rewrite <- Hsame.
  - intros f. split.
    + intros Hf. apply list_elem_of_In, List.filter_In in Hf as [Hf Hout].
      apply list_elem_of_In, elem_of_rglob_files in Hf as [Hin Hfile].
      apply negb_true_iff in Hout.
      apply Hfiles. split_and!; [done|done|]. by rewrite <- Hsame.
    + intros (Hin & Hout & Hfile)%Hfiles.
      apply list_elem_of_In, List.filter_In. split; [|by apply negb_true_iff].
      apply list_elem_of_In, elem_of_rglob_files. split; [done|]. by rewrite Hsame.
Qed.

End TwoRuns.

(** Files that go to different extension folders share no destination
    path. *)
Lemma independent_by_folder (dst_path : path) (files : list path) :
  NoDup (List.map ext_folder_of files) -> independent dst_path files.
Proof.
  intros Hnd f g p Hf Hg Hpf Hpg.
  apply targets_parent in Hpf, Hpg.
  assert (ext_folder_of f = ext_folder_of g) as E.
  { apply (join_inj dst_path). fold (dest_dir_of f dst_path) (dest_dir_of g dst_path).
    congruence. }
  apply list_elem_of_lookup in Hf as [i Hi]. apply list_elem_of_lookup in Hg as [j Hj].
  assert (List.map ext_folder_of files !! i = Some (ext_folder_of f)) as Hi'
    by (change (List.map ext_folder_of files) with (ext_folder_of <$> files);
        by rewrite list_lookup_fmap, Hi).
  assert (List.map ext_folder_of files !! j = Some (ext_folder_of g)) as Hj'
    by (change (List.map ext_folder_of files) with (ext_folder_of <$> files);
        by rewrite list_lookup_fmap, Hj).
  rewrite E in Hi'. pose proof (NoDup_lookup _ _ _ _ Hnd Hi' Hj') as ->. congruence.
Qed.

(** Two strings that end in parts of the same length. *)
Lemma str_app_inj (a b a' b' : string) :
  String.length b = String.length b' -> a +:+ b = a' +:+ b' -> a = a' ∧ b = b'.
Proof.
  revert a'. induction a as [|x a IH]; intros [|x' a'] Hlen E.
  - done.
  - change ("" +:+ b) with b in E. subst b. rewrite str_length_append in Hlen.
    simpl in Hlen. lia.
  - change ("" +:+ b') with b' in E. subst b'. rewrite str_length_append in Hlen.
    simpl in Hlen. lia.
  - rewrite !append_cons in E. injection E as -> E.
    by destruct (IH a' Hlen E) as [-> ->].
Qed.

(** The suffixed names of two files whose suffixes have the same length
    differ when the names do. *)
Lemma renamed_inj (f g : path) (d d' : list byte) :
  String.length (PyPath.suffix f) = String.length (PyPath.suffix g) ->
  renamed f (Sha256.hexdigest d) = renamed g (Sha256.hexdigest d') ->
  PyPath.name f = PyPath.name g.
Proof.
  intros Hlen E. unfold renamed in E.
  rewrite <- !str_append_assoc in E.
  apply str_app_inj in E as [E Esuf]; [|done].
  rewrite !str_append_assoc in E.
  apply str_app_inj in E as [E _].
  - rewrite <- (stem_suffix (PyPath.name f)), <- (stem_suffix (PyPath.name g)).
    unfold PyPath.stem, PyPath.suffix in *. by rewrite E, Esuf.
  - rewrite !str_length_append, !length_short_hash. done.
Qed.

(** Files share no destination path when any two of them that go to the
    same extension folder have different names, suffixes of the same
    length, and neither name is nine characters longer than the other,
    as a suffixed name is. *)
Lemma independent_by_names (dst_path : path) (files : list path) :
  (∀ f g, f ∈ files -> g ∈ files -> f ≠ g ->
          ext_folder_of f ≠ ext_folder_of g
          ∨ (PyPath.name f ≠ PyPath.name g
             ∧ String.length (PyPath.suffix f) = String.length (PyPath.suffix g)
             ∧ String.length (PyPath.name g) ≠ String.length (PyPath.name f) + 9)) ->
  independent dst_path files.
Proof.
  intros H f g p Hf Hg Hpf Hpg.
  destruct (decide (f = g)) as [|Hne]; [done|]. exfalso.
  assert (ext_folder_of f = ext_folder_of g) as Hext.
  { apply (join_inj dst_path). fold (dest_dir_of f dst_path) (dest_dir_of g dst_path).
    rewrite <- (targets_parent _ _ _ Hpf). by apply targets_parent. }
  destruct (H f g Hf Hg Hne) as [?|(Hn & Hs & Hl)]; [done|].
  destruct (H g f Hg Hf (not_eq_sym Hne)) as [?|(_ & _ & Hl')]; [done|].
  assert (dest_dir_of g dst_path = dest_dir_of f dst_path) as Hdir
    by (unfold dest_dir_of; by rewrite Hext).
  unfold targets, natural_dest, renamed_dest in Hpf, Hpg. rewrite Hdir in Hpg.
  destruct Hpf as [->|(d & ->)], Hpg as [E|(d' & E)]; apply join_inj in E.
  - done.
  - apply (f_equal String.length) in E.
    rewrite length_renamed, length_hexdigest in E. simpl in E. lia.
  - apply (f_equal String.length) in E.
    rewrite length_renamed, length_hexdigest in E. simpl in E. lia.
  - by apply Hn, (renamed_inj f g d d').
Qed.

(** Three files that go to one folder, and one that goes to another. *)
Example independent_names :
  independent ["dst"]
    [ ["src"; "a.txt"]; ["src"; "b.txt"]; ["src"; "sub"; "notes.TXT"]; ["src"; "a.log"] ].
Proof.
  apply independent_by_names. intros f g Hf Hg Hne.
  repeat (apply elem_of_cons in Hf as [->|Hf]);
    repeat (apply elem_of_cons in Hg as [->|Hg]);
    try (by apply elem_of_nil in Hf); try (by apply elem_of_nil in Hg);
    try done;
    first [ left; vm_compute; discriminate
          | right; vm_compute; split_and!; [discriminate | reflexivity | lia] ].
Qed.

(** Two files of one name, the natural path free: the schedule in which
    the first task decides, the second runs from its start to its end,
    and the first then copies. *)
Lemma racing_tasks (f g dst_path : path) (w : world) (wf wg : bool) (df dg : list byte) :
  PyPath.name f = PyPath.name g ->
  fs w !! f = Some (File true wf df) ->
  fs w !! g = Some (File true wg dg) ->
  makedirs (dest_dir_of f dst_path) (fs w) = (fs w, None) ->
  fs w !! natural_dest f dst_path = None ->
  ∃ c, rtc step (dispatch w [f; g] dst_path) c
       ∧ all_done c
       ∧ c_world c
         = World (<[natural_dest f dst_path := File true true df]> (fs w))
                 (log w ++ [LogCopying f (natural_dest f dst_path);
                            LogCopying g (natural_dest f dst_path)])
                 (hash_calls w).
Proof.
  intros Hname Hf Hg Hmk Hnat.
  set (natural := natural_dest f dst_path) in *.
  assert (ext_folder_of g = ext_folder_of f) as Hext.
  { unfold ext_folder_of, PyPath.suffix. by rewrite Hname. }
  assert (dest_dir_of g dst_path = dest_dir_of f dst_path) as Hdir.
  { unfold dest_dir_of. by rewrite Hext. }
  assert (natural_dest g dst_path = natural) as Hnatg.
  { unfold natural, natural_dest. by rewrite Hdir, Hname. }
  assert (fs w !! natural ≠ Some Dir) as Hnd by congruence.
  assert (natural ≠ f) as Hnf by (intros E; congruence).
  assert (natural ≠ g) as Hng by (intros E; congruence).
  assert (PyPath.parent natural = dest_dir_of f dst_path) as Hpar by apply parent_join.
  set (w1 := World (fs w) (log w ++ [LogCopying f natural]) (hash_calls w)).
  set (w2 := World (<[natural := File true true dg]> (fs w))
                   (log w1 ++ [LogCopying g natural]) (hash_calls w)).
  set (w3 := World (<[natural := File true true df]> (fs w))
                   (log w1 ++ [LogCopying g natural]) (hash_calls w)).
  set (h := fun exc => logging (LogError f exc)).
  exists (Config w3 100 [Task f Done; Task g Done]).
  split_and!.
  - unfold dispatch. cbn [List.map]. unfold MAX_CONCURRENT.
    eapply rtc_l; [apply (take_slot _ [] [copy_file_task g dst_path] w 99 f)|].
    etrans.
    { apply (run_prefix_alone (resolve_dest f dst_path) _ h [] [copy_file_task g dst_path]
               w w1 99 f (Some natural)).
      by apply resolve_fresh. }
    etrans.
    { apply (run_waiting_alone (copy_file_body g dst_path)
               [Task f (Running (try_except (copy_stream f natural) h))] [] w1 98 g).
      apply no_raise_body. }
    assert (fst (run (copy_file_body g dst_path) w1) = w2) as ->.
    { erewrite (body_fresh g dst_path w1 wg dg (fs w)); [by rewrite Hnatg|done|..].
      - simpl. by rewrite Hdir.
      - simpl. by rewrite Hnatg. }
    assert (fst (run (try_except (copy_stream f natural) h) w2) = w3) as <-.
    { rewrite run_try_except.
      erewrite (run_copy_stream f natural w2 wf df).
      - unfold written, set_fs, w2, w3. simpl. rewrite lookup_insert_eq.
        by rewrite insert_insert_eq.
      - simpl. by rewrite lookup_insert_ne.
      - rewrite Hpar. simpl. apply is_dir_insert_file; [done|].
        by eapply makedirs_is_dir.
      - right. simpl. rewrite lookup_insert_eq. eauto. }
    apply (run_task_alone (try_except (copy_stream f natural) h) [] [Task g Done] w2 99 f).
    apply no_raise_try_except. intros e r. exact I.
  - by repeat constructor.
  - unfold w3, w1. simpl. by rewrite <- app_assoc.
Qed.

(** C2 (counterexample) — Four trees on which a second run does not
    decide the duplicate for every file, or adds a file.

    The destination holds another [a.txt]: every first run copies the
    source to [a_2cf24dba.txt], and every second run decides the rename
    again for its one file.

    Two source files named [a.txt], an empty destination: in the first
    run both tasks can find the natural path free, so that only one
    file is copied; the second run then adds [a_2cf24dba.txt].

    A source file named [A_2cf24dba.txt] beside an [A.txt] that is
    renamed to this name: the first run writes the one over the other,
    and the second run adds [A_2cf24dba_17f165d5.txt].

    A source that cannot be read: every run logs the same error. *)
Lemma second_run_is_not_all_duplicates :
  ((∃ w1 w2,
      main_async ["src"] Sample.dst (Sample.world_of Sample.fs_conflict) w1 None
      ∧ main_async ["src"] Sample.dst w1 w2 None)
   ∧ (∀ w1 w2 r1 r2,
        main_async ["src"] Sample.dst (Sample.world_of Sample.fs_conflict) w1 r1 ->
        main_async ["src"] Sample.dst w1 w2 r2 ->
        log w1 = [LogRenamedSameSize Sample.src_a "a_2cf24dba.txt"; LogCompleted]
        ∧ log w2 = log w1 ++ [LogRenamedSameSize Sample.src_a "a_2cf24dba.txt"; LogCompleted]
        ∧ LogSkipped Sample.src_a ∉ log w2))
  ∧ (∃ w1 w2,
       main_async ["src"] Sample.dst (Sample.world_of Sample.fs_twins) w1 None
       ∧ log w1 = [LogCopying ["src"; "y"; "a.txt"] ["dst"; "txt"; "a.txt"];
                   LogCopying ["src"; "x"; "a.txt"] ["dst"; "txt"; "a.txt"];
                   LogCompleted]
       ∧ main_async ["src"] Sample.dst w1 w2 None
       ∧ fs w1 !! ["dst"; "txt"; "a_2cf24dba.txt"] = None
       ∧ fs w2 !! ["dst"; "txt"; "a_2cf24dba.txt"] = Some (File true true (bytes_of "hello")))
  ∧ (∃ w1 w2,
       main_async ["src"] Sample.dst (Sample.world_of Scenes.fs_suffixed) w1 None
       ∧ log w1 = [LogCopying ["src"; "y"; "A_2cf24dba.txt"] ["dst"; "txt"; "A_2cf24dba.txt"];
                   LogRenamedSameSize ["src"; "x"; "A.txt"] "A_2cf24dba.txt";
                   LogCompleted]
       ∧ main_async ["src"] Sample.dst w1 w2 None
       ∧ fs w1 !! ["dst"; "txt"; "A_2cf24dba_17f165d5.txt"] = None
       ∧ fs w2 !! ["dst"; "txt"; "A_2cf24dba_17f165d5.txt"]
         = Some (File true true (bytes_of "zzz")))
  ∧ ((∃ w1 w2,
        main_async ["src"] Sample.dst (Sample.world_of Scenes.fs_locked) w1 None
        ∧ main_async ["src"] Sample.dst w1 w2 None)
     ∧ (∀ w1 w2 r1 r2,
          main_async ["src"] Sample.dst (Sample.world_of Scenes.fs_locked) w1 r1 ->
          main_async ["src"] Sample.dst w1 w2 r2 ->
          log w2 = log w1 ++ [LogCopying ["src"; "c.bin"] ["dst"; "bin"; "c.bin"];
                              LogError ["src"; "c.bin"] PermissionError;
                              LogCompleted])).
Proof.
  split; [exact second_run_renames_again|]. split; [|split].
  - (* the race *)
    set (w0 := Sample.world_of Sample.fs_twins).
    set (wa := fst (run (main_prepare ["src"] Sample.dst) w0)).
    set (fy := ["src"; "y"; "a.txt"]). set (fx := ["src"; "x"; "a.txt"]).
    assert (run (main_prepare ["src"] Sample.dst) w0 = (wa, inr [fy; fx])) as Hp
      by (vm_compute; reflexivity).
    assert (makedirs (dest_dir_of fy Sample.dst) (fs wa) = (fs wa, None)) as Hmk.
    { apply (prepared_folders_ready _ _ _ _ _ Hp); [done|apply list_elem_of_here]. }
    destruct (racing_tasks fy fx Sample.dst wa true true (bytes_of "world") (bytes_of "hello"))
      as (c & Hc & Hd & Hw); [reflexivity|vm_compute; reflexivity..|exact Hmk|vm_compute; reflexivity|].
    pose proof (main_completed _ _ _ _ _ _ Hp Hc Hd) as Hrun1.
    rewrite Hw in Hrun1. clear Hw Hc Hd c.
    set (w1 := fst (op_log LogCompleted _)) in Hrun1.
    exists w1, (fst (main_async_in_turn ["src"] Sample.dst w1)).
    split_and!; [exact Hrun1|vm_compute; reflexivity| |vm_compute; reflexivity..].
    pose proof (in_turn_is_a_run Sample.dst ["src"] w1) as H.
    by replace (snd (main_async_in_turn ["src"] Sample.dst w1)) with (@None exn) in H
      by (vm_compute; reflexivity).
  - (* the suffixed name, the tasks taken in turn *)
    set (w0 := Sample.world_of Scenes.fs_suffixed).
    set (w1 := fst (main_async_in_turn ["src"] Sample.dst w0)).
    exists w1, (fst (main_async_in_turn ["src"] Sample.dst w1)).
    split_and!; [|vm_compute; reflexivity| |vm_compute; reflexivity..].
    + pose proof (in_turn_is_a_run Sample.dst ["src"] w0) as H.
      by replace (snd (main_async_in_turn ["src"] Sample.dst w0)) with (@None exn) in H
        by (vm_compute; reflexivity).
    + pose proof (in_turn_is_a_run Sample.dst ["src"] w1) as H.
      by replace (snd (main_async_in_turn ["src"] Sample.dst w1)) with (@None exn) in H
        by (vm_compute; reflexivity).
  - (* the unreadable source *)
    set (w0 := Sample.world_of Scenes.fs_locked).
    set (w1c := fst (main_async_in_turn ["src"] Sample.dst w0)).
    assert (run (main_prepare ["src"] Sample.dst) w0
            = (fst (run (main_prepare ["src"] Sample.dst) w0), inr [ ["src"; "c.bin"] ])) as Hp1
      by (vm_compute; reflexivity).
    assert (run (main_prepare ["src"] Sample.dst) w1c = (w1c, inr [ ["src"; "c.bin"] ])) as Hp2
      by (vm_compute; reflexivity).
    split.
    + exists w1c, (fst (main_async_in_turn ["src"] Sample.dst w1c)). split.
      * pose proof (in_turn_is_a_run Sample.dst ["src"] w0) as H.
        by replace (snd (main_async_in_turn ["src"] Sample.dst w0)) with (@None exn) in H
          by (vm_compute; reflexivity).
      * pose proof (in_turn_is_a_run Sample.dst ["src"] w1c) as H.
        by replace (snd (main_async_in_turn ["src"] Sample.dst w1c)) with (@None exn) in H
          by (vm_compute; reflexivity).
    + intros w1 w2 r1 r2 H1 H2.
      destruct (single_file_run _ _ _ _ _ _ _ Hp1 H1) as [_ E1].
      assert (w1 = w1c) as -> by (rewrite E1; vm_compute; reflexivity).
      destruct (single_file_run _ _ _ _ _ _ _ Hp2 H2) as [_ E2].
      rewrite E2. vm_compute. reflexivity.
Qed.

(** C2 (as amended) — Let the first run reach the dispatch, let no
    destination path (the natural path, or the path suffixed with the
    first eight digits of a digest) belong to two of the dispatched
    files, and let the first run, under whatever schedule, log no error
    for a file.  Then every second run, under whatever schedule, against
    the unchanged source and the destination the first run left, also
    completes and leaves the tree exactly as it found it: no new file,
    no byte changed.  Every record it writes is the decision for a
    dispatched file, every dispatched file has one, and the decision is
    the duplicate, or the rename onto the suffixed copy that holds the
    bytes of the file already. *)
Theorem second_run_changes_nothing (src_path dst_path : path)
    (w wa w1 w2 : world) (files : list path) (r1 r2 : option exn) :
  run (main_prepare src_path dst_path) w = (wa, inr files) ->
  independent dst_path files ->
  main_async src_path dst_path w w1 r1 ->
  (∀ f e, LogError f e ∉ since w w1) ->
  main_async src_path dst_path w1 w2 r2 ->
  r1 = None ∧ r2 = None
  ∧ fs w2 = fs w1
  ∧ ∃ recs,
      log w2 = log w1 ++ recs ++ [LogCompleted]
      ∧ (∀ f, f ∈ files -> mentions f recs)
      ∧ Forall (fun rec => ∃ f, f ∈ files ∧ settled_record (fs w1) dst_path f rec) recs.
Proof.
  intros Hp Hind Hrun1 Hfree Hrun2.
  destruct (main_async_completed_inv _ _ _ _ _ _ _ Hp Hrun1)
    as (-> & c1 & Hc1 & Hd1 & ->).
  destruct (main_prepare_ok _ _ _ _ _ Hp)
    as (_ & _ & Hlogwa & _ & _ & _ & Hfiles & _).
  assert (∀ f, f ∈ files -> PyPath.is_proper_ancestor dst_path f = false) as Hout
    by (intros f Hf; by apply Hfiles in Hf as (_ & ? & _)).
  pose proof (main_prepare_NoDup _ _ _ _ _ Hp) as Hnd.
  assert (∀ f, f ∈ files -> folder_ready dst_path f (fs wa)) as Hrdy
    by (intros f Hf; by apply (prepared_folders_ready _ _ _ _ _ Hp)).
  destruct (all_done_tracked dst_path files wa Hnd Hind Hout Hrdy c1 Hc1 Hd1)
    as (Hag1 & _ & recs1 & Hlog1 & _ & Hall1).
  set (w1 := logged LogCompleted (c_world c1)) in *.
  (* the first run logged no error: no worker alone does *)
  assert (∀ f e, f ∈ files -> LogError f e ∉ since wa (alone dst_path wa f)) as Hfree1.
  { intros f e Hf Hin. apply (Hfree f e).
    rewrite (since_app w w1 (recs1 ++ [LogCompleted])).
    - apply elem_of_app. left. by eapply Hall1.
    - cbn [w1 logged log]. by rewrite Hlog1, Hlogwa, <- app_assoc. }
  (* the second run *)
  destruct (prepare_again _ _ _ _ _ _ Hp Hind Hc1) as (files2 & Hp2 & Hsame).
  fold w1 in Hp2.
  destruct (main_async_completed_inv _ _ _ _ _ _ _ Hp2 Hrun2)
    as (-> & c2 & Hc2 & Hd2 & ->).
  pose proof (reachable_dirs dst_path _ _ _ Hc1) as Hdirs1.
  assert (∀ f, f ∈ files2 -> folder_ready dst_path f (fs w1)) as Hrdy2.
  { intros f Hf%Hsame. by apply (prepared_folders_ready _ _ _ _ _ Hp). }
  assert (∀ f, f ∈ files2 -> PyPath.is_proper_ancestor dst_path f = false) as Hout2
    by (intros f Hf%Hsame; by apply Hout).
  pose proof (main_prepare_NoDup _ _ _ _ _ Hp2) as Hnd2.
  assert (independent dst_path files2) as Hind2
    by (apply (independent_subset _ files); [intros f; apply Hsame|done]).
  destruct (all_done_tracked dst_path files2 w1 Hnd2 Hind2 Hout2 Hrdy2 c2 Hc2 Hd2)
    as (Hag2 & Hframe2 & recs2 & Hlog2 & Hsound2 & Hall2).
  (* every worker alone changes nothing *)
  assert (∀ f, f ∈ files2 ->
            agree_on (concerns dst_path f) (fs (alone dst_path w1 f)) (fs w1)
            ∧ ∃ rec, since w1 (alone dst_path w1 f) = [rec]
                     ∧ settled_record (fs w1) dst_path f rec) as Hagain.
  { intros f Hf. pose proof (proj1 (Hsame f) Hf) as Hf1.
    apply (alone_again dst_path f wa w1); [by apply Hrdy|by apply Hrdy2| |].
    - intros p Hp'. cbn [w1 logged fs]. by apply Hag1.
    - intros e. by apply Hfree1. }
  split_and!; [done|done| |].
  - cbn [logged fs]. apply map_eq. intros p.
    destruct (Hframe2 p) as [E|(f & Hf & Htgt)]; [done|].
    rewrite (Hag2 f Hf p (or_intror Htgt)).
    apply (proj1 (Hagain f Hf)). by right.
  - exists recs2. split_and!.
    + cbn [logged log]. by rewrite Hlog2, <- app_assoc.
    + intros f Hf%Hsame. destruct (Hagain f Hf) as (_ & rec & Hsince & Hrec).
      exists rec. split; [|by eapply settled_record_file].
      apply (Hall2 f rec Hf). rewrite Hsince. apply list_elem_of_here.
    + apply Forall_forall. intros rec Hrec.
      destruct (Hsound2 rec Hrec) as (f & Hf & Hin).
      destruct (Hagain f Hf) as (_ & rec' & Hsince & Hrec').
      rewrite Hsince in Hin. apply list_elem_of_singleton in Hin as ->.
      exists f. split; [by apply Hsame|done].
Qed.

Lemma second_run_changes_nothing_witness :
  fs (fst (main_async_in_turn ["src"] Sample.dst
             (fst (main_async_in_turn ["src"] Sample.dst (Sample.world_of Scenes.fs_album)))))
  = fs (fst (main_async_in_turn ["src"] Sample.dst (Sample.world_of Scenes.fs_album))).
Proof.
  assert (run (main_prepare ["src"] Sample.dst) (Sample.world_of Scenes.fs_album)
          = (fst (run (main_prepare ["src"] Sample.dst) (Sample.world_of Scenes.fs_album)),
             inr [ ["src"; "sub"; "report.txt"]; ["src"; "notes"]; ["src"; "Photo.JPG"] ]))
    as Hp by (vm_compute; reflexivity).
  assert (independent Sample.dst
            [ ["src"; "sub"; "report.txt"]; ["src"; "notes"]; ["src"; "Photo.JPG"] ]) as Hind.
  { apply independent_by_folder. apply (bool_decide_unpack _). vm_compute. exact I. }
  pose proof (in_turn_is_a_run Sample.dst ["src"] (Sample.world_of Scenes.fs_album)) as Hrun1.
  assert (∀ f e, LogError f e
                 ∉ since (Sample.world_of Scenes.fs_album)
                         (fst (main_async_in_turn ["src"] Sample.dst
                                 (Sample.world_of Scenes.fs_album)))) as Hfree.
  { intros f e.
    replace (since _ _)
      with [LogRenamedSameSize ["src"; "sub"; "report.txt"] "report_2cf24dba.txt";
            LogCopying ["src"; "notes"] ["dst"; "no_extension"; "notes"];
            LogCopying ["src"; "Photo.JPG"] ["dst"; "jpg"; "Photo.JPG"]; LogCompleted]
      by (vm_compute; reflexivity).
    intros H. repeat (apply elem_of_cons in H as [H|H]; [discriminate H|]).
    by apply elem_of_nil in H. }
  pose proof (in_turn_is_a_run Sample.dst ["src"]
                (fst (main_async_in_turn ["src"] Sample.dst (Sample.world_of Scenes.fs_album))))
    as Hrun2.
  exact (proj1 (proj2 (proj2 (second_run_changes_nothing _ _ _ _ _ _ _ _ _
                                 Hp Hind Hrun1 Hfree Hrun2)))).
Defined.

(** * Properties of the word-frequency analyser *)

Section Chunks.

Import WordFreq.

Lemma concat_chunk_loop (it : list string) (size : Z) (chunk : list string) :
  concat (chunk_loop it size chunk) = chunk ++ it.
Proof.
  revert chunk; induction it as [|word it IH]; intros chunk; simpl.
  - destruct chunk; simpl; by rewrite ?app_nil_r.
  - destruct (_ <=? _)%Z; simpl; rewrite IH; by rewrite <- ?app_assoc.
Qed.

Lemma chunk_loop_shape (it : list string) (size : Z) (chunk : list string) :
  length chunk < full size ->
  ∀ chunks last_chunk,
    chunk_loop it size chunk = chunks ++ [last_chunk] ->
    Forall (fun c => length c = full size) chunks
    ∧ 0 < length last_chunk ≤ full size.
Proof.
  unfold full.
  revert chunk; induction it as [|word it IH]; intros chunk Hlen chunks last_chunk; simpl.
  - destruct chunk as [|x chunk]; [by destruct chunks|].
    intros E. destruct chunks as [|c [|c' chunks]]; simplify_eq/=.
    split; [constructor | lia].
  - destruct (_ <=? _)%Z eqn:Hsz.
    + apply Z.leb_le in Hsz. rewrite length_app in Hsz. simpl in Hsz.
      assert (length (chunk ++ [word]) = Z.to_nat (Z.max 1 size)) as Hfull.
      { rewrite length_app. simpl. lia. }
      destruct chunks as [|c chunks]; simpl.
      * intros [= <- E]. split; [constructor | lia].
      * intros [= <- E]. apply IH in E as [H1 H2]; [|simpl; lia].
        split; [by constructor | done].
    + apply Z.leb_gt in Hsz. rewrite length_app in Hsz. simpl in Hsz.
      apply IH. rewrite length_app. simpl. lia.
Qed.

End Chunks.

Section Counters.

Import WordFreq.

Implicit Types (c t : counter) (k elem : string) (ws : list string).

Lemma eqb_decide (k k' : string) : String.eqb k k' = bool_decide (k = k').
Proof.
  destruct (String.eqb_spec k k') as [->|H].
  - by rewrite bool_decide_eq_true_2.
  - by rewrite bool_decide_eq_false_2.
Qed.

Lemma get_notin c k : k ∉ keys c -> get c k = 0.
Proof.
  induction c as [|[k' n] c IH]; simpl; [done|].
  intros H. apply not_elem_of_cons in H as [Hne Hc].
  destruct (String.eqb_spec k' k) as [->|_]; [done | by apply IH].
Qed.

Lemma get_set c k n k' : get (set c k n) k' = if decide (k = k') then n else get c k'.
Proof.
  induction c as [|[k0 m] c IH]; simpl.
  - rewrite eqb_decide. destruct (decide (k = k')).
    + by rewrite bool_decide_eq_true_2.
    + by rewrite bool_decide_eq_false_2.
  - destruct (String.eqb_spec k0 k) as [->|Hne]; simpl.
    + destruct (String.eqb_spec k k') as [->|Hne'].
      * by rewrite decide_True.
      * by rewrite decide_False.
    + destruct (String.eqb_spec k0 k') as [->|Hne'].
      * by rewrite decide_False by congruence.
      * apply IH.
Qed.

Lemma keys_set c k n :
  keys (set c k n) = if decide (k ∈ keys c) then keys c else keys c ++ [k].
Proof.
  induction c as [|[k0 m] c IH]; simpl.
  - done.
  - destruct (String.eqb_spec k0 k) as [->|Hne]; simpl.
    + rewrite decide_True; [done|]. apply list_elem_of_here.
    + unfold keys in *. rewrite IH.
      destruct (decide (k ∈ c.*1)) as [Hin|Hnin].
      * rewrite decide_True; [done|]. by apply list_elem_of_further.
      * rewrite decide_False; [done|]. apply not_elem_of_cons. split; [congruence|done].
Qed.

Lemma NoDup_keys_set c k n : NoDup (keys c) -> NoDup (keys (set c k n)).
Proof.
  intros H. rewrite keys_set. destruct (decide (k ∈ keys c)); [done|].
  apply NoDup_app. split_and!; [done| |apply NoDup_singleton].
  intros x Hx ->%list_elem_of_singleton. done.
Qed.

(** A counter is its keys and its counts. *)
Lemma counter_ext c1 c2 :
  NoDup (keys c1) -> keys c1 = keys c2 -> (∀ k, get c1 k = get c2 k) -> c1 = c2.
Proof.
  revert c2; induction c1 as [|[k n] c1 IH]; intros [|[k' n'] c2]; simpl; try done.
  intros Hnd [= <- Hk] Hget. apply NoDup_cons in Hnd as [Hk1 Hnd].
  assert (n = n') as <-.
  { specialize (Hget k). by rewrite String.eqb_refl in Hget. }
  f_equal. apply IH; [done|done|].
  intros k0. specialize (Hget k0).
  destruct (decide (k = k0)) as [<-|Hne].
  - rewrite !get_notin; [done| |done]. unfold keys in *. by rewrite <- Hk.
  - apply String.eqb_neq in Hne. by rewrite Hne in Hget.
Qed.

Lemma first_seen_ext (s1 s2 : list string) ws :
  (∀ x, x ∈ s1 ↔ x ∈ s2) -> first_seen s1 ws = first_seen s2 ws.
Proof.
  revert s1 s2; induction ws as [|w ws IH]; intros s1 s2 H; simpl; [done|].
  destruct (decide (w ∈ s1)) as [H1|H1].
  - rewrite decide_True by (by apply H). by apply IH.
  - rewrite decide_False by (by rewrite <- H). f_equal. apply IH.
    intros x. rewrite !elem_of_cons. by rewrite H.
Qed.

Lemma first_seen_idem (s s0 : list string) ws :
  (∀ x, x ∈ s0 -> x ∈ s) -> first_seen s (first_seen s0 ws) = first_seen s ws.
Proof.
  revert s s0; induction ws as [|w ws IH]; intros s s0 H; simpl; [done|].
  destruct (decide (w ∈ s0)) as [H0|H0].
  - rewrite (decide_True (P := w ∈ s)) by (by apply H). by apply IH.
  - simpl. destruct (decide (w ∈ s)) as [H1|H1].
    + apply IH. intros x [->|Hx]%elem_of_cons; auto.
    + f_equal. apply IH. intros x [->|Hx]%elem_of_cons.
      * apply list_elem_of_here.
      * by apply list_elem_of_further, H.
Qed.

Lemma first_seen_notin (s : list string) ws x : x ∈ first_seen s ws -> x ∉ s.
Proof.
  revert s; induction ws as [|w ws IH]; intros s; simpl; [by intros ?%elem_of_nil|].
  destruct (decide (w ∈ s)) as [H0|H0]; [apply IH|].
  intros [->|Hx]%elem_of_cons; [done|].
  apply IH in Hx. by apply not_elem_of_cons in Hx as [_ ?].
Qed.

Lemma NoDup_first_seen (s : list string) ws : NoDup (first_seen s ws).
Proof.
  revert s; induction ws as [|w ws IH]; intros s; simpl; [constructor|].
  destruct (decide (w ∈ s)) as [H0|H0]; [apply IH|].
  apply NoDup_cons. split; [|apply IH].
  intros Hx%first_seen_notin. apply Hx, list_elem_of_here.
Qed.

(** *** Counting *)

Lemma count_elements_app t ws ws' :
  count_elements t (ws ++ ws') = count_elements (count_elements t ws) ws'.
Proof. apply List.fold_left_app. Qed.

Lemma get_count_elements t ws k :
  get (count_elements t ws) k = get t k + occurrences k ws.
Proof.
  unfold occurrences.
  revert t; induction ws as [|w ws IH]; intros t; simpl; [lia|].
  change (get (count_elements (set t w (get t w + 1)) ws) k
          = get t k + length (if String.eqb k w then w :: List.filter (String.eqb k) ws
                              else List.filter (String.eqb k) ws)).
  rewrite IH, get_set.
  destruct (String.eqb_spec k w) as [->|Hne].
  - rewrite decide_True by done. simpl. lia.
  - by rewrite decide_False by congruence.
Qed.

Lemma keys_count_elements t ws :
  keys (count_elements t ws) = keys t ++ first_seen (keys t) ws.
Proof.
  revert t; induction ws as [|w ws IH]; intros t; simpl; [by rewrite app_nil_r|].
  change (keys (count_elements (set t w (get t w + 1)) ws)
          = keys t ++ (if decide (w ∈ keys t) then first_seen (keys t) ws
                       else w :: first_seen (w :: keys t) ws)).
  rewrite IH, keys_set.
  destruct (decide (w ∈ keys t)) as [Hin|Hnin]; [done|].
  rewrite <- app_assoc. simpl. do 2 f_equal. apply first_seen_ext.
  intros x. rewrite elem_of_app, !elem_of_cons, elem_of_nil. tauto.
Qed.

Lemma NoDup_keys_count_elements t ws :
  NoDup (keys t) -> NoDup (keys (count_elements t ws)).
Proof.
  intros H. rewrite keys_count_elements. apply NoDup_app. split_and!; [done| |].
  - intros x Hx Hx'. by apply first_seen_notin in Hx'.
  - apply NoDup_first_seen.
Qed.

(** *** Merging *)

Lemma get_merge t c k : NoDup (keys c) -> get (merge_counts t c) k = get c k + get t k.
Proof.
  unfold merge_counts. revert t; induction c as [|[k0 n] c IH]; intros t Hnd; simpl; [done|].
  apply NoDup_cons in Hnd as [Hk0 Hnd].
  rewrite IH by done. rewrite get_set.
  destruct (String.eqb_spec k0 k) as [->|Hne].
  - rewrite decide_True by done. rewrite get_notin by done. lia.
  - by rewrite decide_False by done.
Qed.

Lemma keys_merge t c : keys (merge_counts t c) = keys t ++ first_seen (keys t) (keys c).
Proof.
  unfold merge_counts. revert t; induction c as [|[k0 n] c IH]; intros t; simpl;
    [by rewrite app_nil_r|].
  rewrite IH, keys_set.
  destruct (decide (k0 ∈ keys t)) as [Hin|Hnin]; [done|].
  rewrite <- app_assoc. simpl. do 2 f_equal. apply first_seen_ext.
  intros x. rewrite elem_of_app, !elem_of_cons, elem_of_nil. tauto.
Qed.

Lemma set_notin c k n : k ∉ keys c -> set c k n = c ++ [(k, n)].
Proof.
  induction c as [|[k0 m] c IH]; simpl; [done|].
  intros [Hne Hc]%not_elem_of_cons.
  destruct (String.eqb_spec k0 k) as [->|_]; [done|]. by rewrite IH.
Qed.

Lemma dict_update_fresh t c :
  NoDup (keys (t ++ c)) ->
  List.fold_left (fun m '(elem, count) => set m elem count) c t = t ++ c.
Proof.
  revert t; induction c as [|[k n] c IH]; intros t Hnd; simpl; [by rewrite app_nil_r|].
  assert (k ∉ keys t) as Hk.
  { unfold keys in *. rewrite fmap_app in Hnd. apply NoDup_app in Hnd as (_ & Hd & _).
    intros Hin. apply (Hd k Hin). apply list_elem_of_here. }
  rewrite set_notin by done.
  rewrite IH; [by rewrite <- app_assoc|]. by rewrite <- app_assoc.
Qed.

Lemma first_seen_NoDup (s l : list string) :
  NoDup l -> (∀ x, x ∈ l -> x ∉ s) -> first_seen s l = l.
Proof.
  revert s; induction l as [|w l IH]; intros s Hnd Hs; simpl; [done|].
  apply NoDup_cons in Hnd as [Hw Hnd].
  rewrite decide_False by (apply Hs, list_elem_of_here). f_equal.
  apply IH; [done|]. intros x Hx [->|Hx']%elem_of_cons; [done|].
  by apply (Hs x); [apply list_elem_of_further|].
Qed.

Lemma merge_counts_nil c : NoDup (keys c) -> merge_counts [] c = c.
Proof.
  intros Hnd. apply counter_ext.
  - rewrite keys_merge. simpl. rewrite first_seen_NoDup; [done|done|].
    intros x _. apply not_elem_of_nil.
  - rewrite keys_merge. simpl. apply first_seen_NoDup; [done|].
    intros x _. apply not_elem_of_nil.
  - intros k. rewrite get_merge by done. simpl. lia.
Qed.

Lemma update_merge_counts t c : NoDup (keys c) -> update t c = merge_counts t c.
Proof.
  intros Hnd. destruct t as [|p t]; [|done].
  unfold update. rewrite (dict_update_fresh [] c) by done. simpl.
  by rewrite merge_counts_nil.
Qed.

Lemma NoDup_keys_Counter ws : NoDup (keys (Counter ws)).
Proof. apply NoDup_keys_count_elements. constructor. Qed.

(** Merging the count of a chunk is counting the chunk on. *)
Lemma update_Counter t ws :
  NoDup (keys t) -> update t (Counter ws) = count_elements t ws.
Proof.
  intros Hnd. rewrite update_merge_counts by apply NoDup_keys_Counter.
  assert (keys (merge_counts t (Counter ws)) = keys (count_elements t ws)) as Hkeys.
  { rewrite keys_merge, keys_count_elements. f_equal.
    unfold Counter. rewrite keys_count_elements. simpl.
    apply first_seen_idem. by intros x ?%elem_of_nil. }
  apply counter_ext.
  - rewrite Hkeys. by apply NoDup_keys_count_elements.
  - done.
  - intros k. rewrite get_merge by apply NoDup_keys_Counter.
    unfold Counter. rewrite !get_count_elements. simpl. lia.
Qed.

Lemma fold_update_Counter (chunks : list (list string)) t :
  NoDup (keys t) ->
  List.fold_left update (List.map Counter chunks) t = count_elements t (concat chunks).
Proof.
  revert t; induction chunks as [|ch chunks IH]; intros t Hnd; simpl; [done|].
  rewrite update_Counter by done.
  rewrite IH by (by apply NoDup_keys_count_elements).
  by rewrite count_elements_app.
Qed.

Lemma concat_map_filter {A} (f : A -> bool) (l : list (list A)) :
  concat (List.map (List.filter f) l) = List.filter f (concat l).
Proof.
  induction l as [|x l IH]; simpl; [done|]. by rewrite List.filter_app, IH.
Qed.

(** *** Totals *)

Lemma sum_set c k :
  sum_values (set c k (get c k + 1)) = sum_values c + 1.
Proof.
  induction c as [|[k0 n] c IH]; simpl; [done|].
  destruct (String.eqb_spec k0 k) as [->|Hne]; simpl; [lia|].
  rewrite IH. lia.
Qed.

Lemma sum_count_elements t ws :
  sum_values (count_elements t ws) = sum_values t + length ws.
Proof.
  revert t; induction ws as [|w ws IH]; intros t; simpl; [lia|].
  change (sum_values (count_elements (set t w (get t w + 1)) ws)
          = sum_values t + S (length ws)).
  rewrite IH, sum_set. lia.
Qed.

Lemma positive_set c k n :
  0 < n -> Forall (fun p => 0 < p.2) c -> Forall (fun p => 0 < p.2) (set c k n).
Proof.
  intros Hn. induction 1 as [|[k0 m] c Hm Hc IH]; simpl.
  - by repeat constructor.
  - destruct (String.eqb_spec k0 k) as [->|Hne]; by constructor.
Qed.

Lemma positive_count_elements t ws :
  Forall (fun p => 0 < p.2) t -> Forall (fun p => 0 < p.2) (count_elements t ws).
Proof.
  revert t; induction ws as [|w ws IH]; intros t Ht; simpl; [done|].
  apply IH, positive_set; [lia | done].
Qed.

Lemma elem_of_first_seen (s ws : list string) x :
  x ∈ first_seen s ws ↔ x ∈ ws ∧ x ∉ s.
Proof.
  revert s; induction ws as [|w ws IH]; intros s; simpl.
  - rewrite elem_of_nil. tauto.
  - destruct (decide (w ∈ s)) as [H0|H0].
    + rewrite IH, elem_of_cons. split; [tauto|]. intros [[->|?] ?]; tauto.
    + rewrite !elem_of_cons, IH, not_elem_of_cons.
      destruct (decide (x = w)) as [->|Hne]; tauto.
Qed.

End Counters.


(** Counting chunk by chunk and merging is counting the chunks on end. *)
Lemma map_reduce_Counter (words_iter : list string) (backend : string)
    (words_filter : option (gset string)) :
  WordFreq.map_reduce_stream words_iter backend words_filter
  = WordFreq.Counter (WordFreq.selected words_iter words_filter).
Proof.
  unfold WordFreq.map_reduce_stream, WordFreq._count_chunk, WordFreq.selected.
  set (chunks := WordFreq._chunk_iterable words_iter WordFreq._CHUNK_SIZE).
  assert (concat chunks = words_iter) as Hcat by apply concat_chunk_loop.
  destruct words_filter as [s|].
  - rewrite <- (List.map_map (List.filter (fun w => bool_decide (w ∈ s))) WordFreq.Counter).
    rewrite fold_update_Counter by constructor.
    by rewrite concat_map_filter, Hcat.
  - rewrite fold_update_Counter by constructor. by rewrite Hcat.
Qed.

(** X17 — [_chunk_iterable] cuts the stream into consecutive chunks:
    the chunks joined end to end are the stream, no chunk is empty,
    every chunk but the last holds exactly [size] words (one word when
    [size] is below 1), the last one at most that many, and an empty
    stream gives no chunk at all. *)
Theorem chunks_partition_the_stream (it : list string) (size : Z) :
  let chunks := WordFreq._chunk_iterable it size in
  concat chunks = it
  ∧ Forall (fun c => 0 < length c ≤ WordFreq.full size) chunks
  ∧ (∀ i c, chunks !! i = Some c -> S i < length chunks ->
            length c = WordFreq.full size)
  ∧ (it = [] -> chunks = []).
Proof.
  intros chunks.
  assert (∀ init last_chunk, chunks = init ++ [last_chunk] ->
            Forall (fun c => length c = WordFreq.full size) init
            ∧ 0 < length last_chunk ≤ WordFreq.full size) as Hshape.
  { intros init last_chunk E. eapply chunk_loop_shape; [|exact E].
    unfold WordFreq.full. simpl. lia. }
  split_and!.
  - apply concat_chunk_loop.
  - destruct (decide (chunks = [])) as [->|Hne]; [constructor|].
    destruct (Hshape _ _ (app_removelast_last [] Hne)) as [H1 H2].
    rewrite (app_removelast_last [] Hne). apply Forall_app. split.
    + eapply Forall_impl; [exact H1|]. intros c Hc. simpl in Hc.
      rewrite Hc. unfold WordFreq.full. lia.
    + by constructor.
  - intros i c Hi Hlt.
    assert (chunks ≠ []) as Hne by (intros E; rewrite E in Hi; done).
    destruct (Hshape _ _ (app_removelast_last [] Hne)) as [H1 _].
    rewrite (app_removelast_last [] Hne) in Hi, Hlt.
    rewrite length_app in Hlt. simpl in Hlt.
    rewrite lookup_app_l in Hi by lia.
    by apply (Forall_lookup_1 _ _ _ _ H1 Hi).
  - by intros ->.
Qed.

(** X18 — The MapReduce returns what counting the whole stream at once
    returns: [map_reduce_stream(words, backend, words_filter)] equals
    [_count_chunk(list(words), words_filter)], with the same counts and
    the same order of the keys, whatever the backend and however the
    stream falls into chunks; no word is lost or counted twice at a
    chunk boundary. *)
Theorem map_reduce_is_direct_count (words_iter : list string) (backend : string)
    (words_filter : option (gset string)) :
  WordFreq.map_reduce_stream words_iter backend words_filter
  = WordFreq._count_chunk words_iter words_filter.
Proof.
  unfold WordFreq.map_reduce_stream, WordFreq._count_chunk.
  set (chunks := WordFreq._chunk_iterable words_iter WordFreq._CHUNK_SIZE).
  assert (concat chunks = words_iter) as Hcat by apply concat_chunk_loop.
  destruct words_filter as [s|].
  - (* every chunk is filtered, then counted *)
    rewrite <- (List.map_map (List.filter (fun w => bool_decide (w ∈ s))) WordFreq.Counter).
    rewrite fold_update_Counter by constructor.
    by rewrite concat_map_filter, Hcat.
  - rewrite fold_update_Counter by constructor. by rewrite Hcat.
Qed.

(** X19 — In the result of [map_reduce_stream] every word is a key
    once, the keys are the counted words in the order of their first
    occurrence, the count of a word is the number of its occurrences
    among the counted words and is never zero for a key, the counts add
    up to the number of counted words, and with a filter a word outside
    the filter has no count. *)
Theorem frequencies_are_occurrences (words_iter : list string) (backend : string)
    (words_filter : option (gset string)) :
  let freq := WordFreq.map_reduce_stream words_iter backend words_filter in
  let counted := WordFreq.selected words_iter words_filter in
  (∀ k, WordFreq.get freq k = WordFreq.occurrences k counted)
  ∧ WordFreq.keys freq = WordFreq.first_seen [] counted
  ∧ NoDup (WordFreq.keys freq)
  ∧ (∀ k, k ∈ WordFreq.keys freq ↔ k ∈ counted)
  ∧ Forall (fun p => 0 < p.2) freq
  ∧ WordFreq.sum_values freq = length counted
  ∧ (∀ s k, words_filter = Some s -> k ∉ s -> WordFreq.get freq k = 0).
Proof.
  intros freq counted.
  assert (freq = WordFreq.Counter counted) as -> by apply map_reduce_Counter.
  unfold WordFreq.Counter. split_and!.
  - intros k. by rewrite get_count_elements.
  - by rewrite keys_count_elements.
  - apply NoDup_keys_Counter.
  - intros k. rewrite keys_count_elements. simpl. rewrite elem_of_first_seen.
    split; [tauto|]. intros H. split; [done|]. apply not_elem_of_nil.
  - apply positive_count_elements. constructor.
  - by rewrite sum_count_elements.
  - intros s k -> Hk. rewrite get_count_elements. simpl.
    unfold WordFreq.occurrences, counted, WordFreq.selected.
    destruct (List.filter (String.eqb k) _) as [|x l] eqn:E; [done|].
    assert (In x (x :: l)) as Hx by (by left). rewrite <- E in Hx.
    apply List.filter_In in Hx as [Hx ->%String.eqb_eq].
    apply List.filter_In in Hx as [_ Hx]. by apply bool_decide_eq_true in Hx.
Qed.
